(* ===== verification/_CoqProject ===== *)
-Q . S2P
Prelude.v
Cpu.v
Messages.v
Counter.v
Napi.v
Softirq.v
Gro.v
GroUdp.v
GroProofs.v
GroRun.v
PrevQueue.v
RxWake.v
RxLive.v
RxRaces.v
Ratelimiter.v
PeerLookup.v
AllowedIPs.v
AllowedIPsKeys.v
AllowedIPsTree.v
AllowedIPsHeap.v
AllowedIPsProofs.v
AllowedIPsSpec.v
AllowedIPsSelftest.v
World.v
Skb.v
Noise.v
Timers.v
NoiseProofs.v
Demo.v
Cookie.v
Socket.v
Send.v
Receive.v
Expiry.v
Peer.v
Device.v
Netlink.v
Guarantee.v
Invariants.v
Delivery.v
Flood.v
Dump.v
Config.v
