(* ===== verification/Prelude.v ===== *)
(** * WireGuard and its receive path: a verification library

    The repository studies how the WireGuard kernel module wakes its receive
    poll.  It holds the module (src/linux-source/drivers/net/wireguard), a stock
    5.15 build of the files on the receive path (src/build/wg515-pristine), the
    same files with the studied changes behind module parameters
    (src/build/wg515-trigger), and the kernel code they meet (net/core/dev.c).
    This library models the module and the wake-up protocol, and proves what
    they promise.

    ** The program

    A datagram for the device arrives in [wg_receive] (socket.c), is parsed and
    checked, and is either a handshake message, which a worker handles, or a data
    packet.  A data packet is put on two queues: the ring of the device, from
    which decrypt workers on all processors take packets, and the queue of its
    peer, which keeps the order.  A worker decrypts a packet, sets its state and
    wakes the NAPI poll of the peer; the poll delivers packets from the front of
    the queue as long as they are decrypted.  In the other direction [wg_xmit]
    routes a packet to a peer by its destination, stages it, and, when there is a
    session, numbers, encrypts and sends it.  Sessions come from the Noise
    handshake, protected by cookies and a rate limiter, and are kept alive and
    renewed by timers.  The devices, their peers and the prefixes that are routed
    to a peer are configured over netlink.

    ** The files

    - Prelude.v (this file): machine integers with their wrap-around, byte
      strings, record updates, the tactics and hints of the library.
    - Cpu.v: the choice of processors of queueing.h.
    - Messages.v: messages.h, the packed message structures and their memory
      image.  Counter.v: the replay window [counter_validate] of receive.c.
    - Napi.v: the NAPI state word of net/core/dev.c.  PrevQueue.v: the lock-free
      queue of queueing.c, as functions and with one shared access per step.
    - RxWake.v: the receive path of one peer in the trigger build as a concurrent
      system: producers, workers ([wg_queue_enqueue_per_peer_rx] of queueing.h),
      the coalescing timer and the poll ([wg_packet_rx_poll] of receive.c), for
      every setting of the knobs.  RxLive.v: its termination.  RxRaces.v:
      concrete schedules, among them two that lose a packet.
    - Ratelimiter.v, PeerLookup.v: ratelimiter.c and peerlookup.c with the
      self-test of the first.
    - AllowedIPs.v: the trie of allowedips.c on a heap of nodes; AllowedIPsKeys.v
      (keys as numbers), AllowedIPsTree.v (the tree and its map),
      AllowedIPsHeap.v (heap and tree), AllowedIPsProofs.v (the operations) and
      AllowedIPsSpec.v (the theorems).
    - World.v: the state of one device (struct wg_device, its peers, keypairs and
      buffers) and the monad [M] of the handlers, a state with failure: [None] is
      an access to something freed or out of bounds, or a loop out of fuel.
      Skb.v: socket buffers.
    - Noise.v: noise.c; NoiseProofs.v: its theorems; Demo.v: two concrete devices
      with a toy cryptography, on which theorems are instantiated.
    - Timers.v and Expiry.v: timers.c.  Cookie.v: cookie.c.  Socket.v: socket.c.
      Send.v: send.c.  Receive.v: receive.c of the stock build.  Peer.v: peer.c
      and the work queues.  Device.v: device.c and main.c.  Netlink.v: netlink.c.
    - Guarantee.v: for any relation that allows the atomic changes the handlers
      make, every handler stays within it.  Invariants.v: instances of that.
      Delivery.v: routing in both directions and removal.  Flood.v: handshake
      floods.  Dump.v: reading the configuration.  Config.v: setting a peer's
      prefixes.

    Definitions keep the names of the C functions; [X_guar] is the lemma that the
    handler [X] stays within a guarantee, [X_run] computes a run of [X], [X_inv]
    takes one apart.

    ** Code outside the repository

    Cryptography ([Crypto], with the laws [CryptoOk]: decryption inverts
    encryption, ciphertexts are longer by the tag, digests have the length asked
    for, the secrets two key pairs share agree and are not zero), siphash
    ([SipHash], [HSipHash]), the tick rate ([Ticks]), routing and sockets
    ([Routing]), the protocol helpers of the networking core ([NetCore]), the room
    of netlink attributes ([NlSizes]), the other net devices ([NetDevs])
    and the bit positions of the NAPI state ([NapiBits]) and of the netlink flags
    ([Uapi]) are classes; a theorem says which laws it uses and its
    witness gives an instance.  Memory allocation fails when the environment says
    so ([w_alloc_fails]), clocks and random numbers are part of the world.

    ** What is proved

    - Waking the poll: in the stock, suppressing, head-waking, stealing and
      combined configurations no packet is left behind, and the receive path
      terminates with everything delivered in order ([no_lost_wakeup],
      [rx_terminates], [rx_delivers_all]); the coalescing trigger and switching
      the head-wake parameter at run time can leave a packet behind
      ([trigger_strands_packet], [headwake_toggle_strands_packet]).  Beneath
      them, the queue is a FIFO under any interleaving ([prev_queue_fifo],
      [dequeue_null_excused], [prev_queue_sequential_refines]) and NAPI does not
      lose a wake-up ([napi_wake_during_poll_not_lost]).
    - Sessions: the handshake agrees and yields mirrored keys, cannot be replayed
      or flooded ([noise_handshake_agreement], [noise_session_keys],
      [noise_initiation_once], [noise_initiation_rate], [cookie_exchange],
      [flood_shed]), keypairs rotate ([keypair_rotation]), nonces are used once
      ([assign_nonces_spec]) and accepted once ([counter_validate_no_replay],
      [counter_validate_refines_window]), and what is encrypted is decrypted at
      the other end ([data_roundtrip]).
    - Routing: the trie is a map with longest-prefix lookup (the [allowedips_]
      theorems), incoming packets are delivered only from the peer that owns
      their source address and outgoing ones go to the peer that owns their
      destination ([inbound_source_allowed], [outbound_route]).
    - Resources and errors: parsing stays inside the packet
      ([prepare_skb_header_spec]), queues stay bounded ([queues_bounded]), links,
      the module and sockets are set up completely or not at all
      ([link_lifecycle], [module_lifecycle], [socket_init_spec]), a removed peer
      is out of every table and stays silent ([dead_peer_unreachable],
      [removed_peer_silent]), the look-up tables and the rate limiter meet their
      specifications.
    - Configuration: a netlink message leaves exactly the prefixes it names
      ([peer_prefixes_configured]), a dump cut into any messages is complete and
      gives back its references ([dump_complete]), but not on an error
      ([dump_error_drops_twice]); work goes to all processors in turn
      ([cpu_round_robin]).

    ** Bounds and fuel

    Loops that are not structural carry fuel that the theorems show to be enough,
    or that bounds them in the code: the walks of the trie take at most 129 or,
    with the explicit stack, [MAX_ALLOWEDIPS_DEPTH] levels; [socket_init_loop]
    makes the 101 attempts of its counter; the workers of Send.v and Receive.v
    run for the length of their queue, which only they consume while they run;
    [napi_disable] polls at most once for each queued packet and once more;
    [drain_workqueue] flushes three times, enough for the chains in which work
    queues further work.  RxWake.v has no fuel: runs are sequences of steps.

    ** Not modelled

    Weak memory: every shared access is atomic and sequentially consistent, and
    RCU readers see the tables at one moment.  The handlers of World.v run one at
    a time; interleaving is modelled in PrevQueue.v, RxWake.v and PeerLookup.v,
    where the code relies on it.  Diagnostic counters, stall statistics and the
    injected delay of the trigger build do not influence delivery and are left
    out.  The randomised self-test of the
    trie, the rest of net/core/dev.c, kernel/workqueue.c, the GRO and UDP offload
    code, io_uring, the v6.1 reference copy and the measurement scripts are
    outside the module or never called by it. *)

From stdpp Require Export base tactics list gmap.
From Stdlib Require Export ZArith Lia.

#[global] Open Scope Z_scope.

(** ** Machine-width integers

    A [w]-bit unsigned C integer is a [Z] in [0, 2^w); every C operation that
    can leave that range is followed by [wrap w].  [sgn w] is the conversion of
    an unsigned value to the signed type of the same width (the [(s64)] casts of
    timers.h and noise.c). *)

Definition wrap (w x : Z) : Z := x mod 2 ^ w.
Definition sgn (w x : Z) : Z :=
  let y := wrap w x in if y <? 2 ^ (w - 1) then y else y - 2 ^ w.
Definition fits (w x : Z) : Prop := 0 <= x < 2 ^ w.

Abbreviation u8 := (wrap 8).
Abbreviation u16 := (wrap 16).
Abbreviation u32 := (wrap 32).
Abbreviation u64 := (wrap 64).
Abbreviation s32 := (sgn 32).
Abbreviation s64 := (sgn 64).

Definition U16_MAX : Z := 2 ^ 16 - 1.
Definition U64_MAX : Z := 2 ^ 64 - 1.
Definition NSEC_PER_SEC : Z := 1000000000.

(** Error numbers as the negative results the C functions return. *)
Definition EPERM : Z := 1.
Definition ENOMEM : Z := 12.
Definition EBUSY : Z := 16.
Definition ENODEV : Z := 19.
Definition EINVAL : Z := 22.
Definition ENOSPC : Z := 28.
Definition EPIPE : Z := 32.
Definition EBADR : Z := 53.
Definition ENONET : Z := 64.
Definition EMSGSIZE : Z := 90.
Definition EPROTONOSUPPORT : Z := 93.
Definition EOPNOTSUPP : Z := 95.
Definition EPFNOSUPPORT : Z := 96.
Definition EAFNOSUPPORT : Z := 97.
Definition EADDRINUSE : Z := 98.
Definition EDESTADDRREQ : Z := 89.
Definition ENOKEY : Z := 126.

(** ** Bytes *)

Abbreviation byte := Z (only parsing).
Abbreviation bytes := (list Z).

Definition is_nil {A} (l : list A) : bool := match l with [] => true | _ => false end.

Definition zeros (n : nat) : bytes := replicate n 0.

(** [le_combine] reads a little-endian integer, [le_split n] writes its [n] low
    bytes; the big-endian versions are the reversals. *)
Fixpoint le_combine (l : bytes) : Z :=
  match l with
  | [] => 0
  | b :: l => b + 256 * le_combine l
  end.

Fixpoint le_split (n : nat) (v : Z) : bytes :=
  match n with
  | O => []
  | S n => v mod 256 :: le_split n (v / 256)
  end.

Definition be_combine (l : bytes) : Z := le_combine (reverse l).
Definition be_split (n : nat) (v : Z) : bytes := reverse (le_split n v).

Definition is_byte (b : Z) : Prop := 0 <= b < 256.

(** The slice [l[off .. off+n)] of a buffer. *)
Definition slice (off n : nat) (l : bytes) : bytes := take n (drop off l).

(** ** Functional record update

    [r <| f := v |>] is the C assignment [r.f = v] on a record value and
    [r <| f ::= g |>] applies [g] to the field.  A record type is made settable
    by giving its eta expansion; the setter of a field is then found by replacing
    the projection inside it. *)

Class Settable (R : Type) := eta_record : R -> R.
Class Setter {R T : Type} (p : R -> T) := upd : (T -> T) -> R -> R.

Ltac solve_setter :=
  match goal with
  | |- @Setter ?R ?T ?p =>
      let inst := constr:(ltac:(typeclasses eauto) : Settable R) in
      let e := eval hnf in (inst : R -> R) in
      lazymatch eval pattern p in e with
      | (fun _ => ?C) _ => fail "not a field of the record"
      | ?F _ =>
          let b := eval cbv beta in (fun (f : T -> T) (r : R) => F (fun x => f (p x)) r) in
          exact b
      end
  end.

#[export] Hint Extern 0 (Setter _) => solve_setter : typeclass_instances.

Notation "r <| p ::= f |>" := (upd (p := p) f r)
  (at level 1, left associativity, format "r  <| p  ::=  f |>").
Notation "r <| p := v |>" := (upd (p := p) (fun _ => v) r)
  (at level 1, left associativity, format "r  <| p  :=  v |>").

(** ** Automation *)

Create HintDb wg.
Create Rewrite HintDb wg.

(** Case analysis on the boolean comparisons of the code. *)
Ltac bdestruct1 :=
  match goal with
  | H : context [ ?a <? ?b ] |- _ => destruct (Z.ltb_spec a b)
  | H : context [ ?a <=? ?b ] |- _ => destruct (Z.leb_spec a b)
  | H : context [ ?a =? ?b ] |- _ => destruct (Z.eqb_spec a b)
  | |- context [ ?a <? ?b ] => destruct (Z.ltb_spec a b)
  | |- context [ ?a <=? ?b ] => destruct (Z.leb_spec a b)
  | |- context [ ?a =? ?b ] => destruct (Z.eqb_spec a b)
  end.
Ltac bdestruct := repeat bdestruct1.

Lemma some_bind {A B} (x : A) (f : A -> option B) : Some x ≫= f = f x.
Proof. done. Qed.

Lemma wrap_id w x : fits w x → wrap w x = x.
Proof. intros H. unfold wrap. by apply Z.mod_small. Qed.

Lemma wrap_fits w x : 0 <= w → fits w (wrap w x).
Proof. intros Hw. unfold fits, wrap. apply Z.mod_pos_bound. lia. Qed.

Lemma wrap_range w x : 0 <= w → 0 <= wrap w x < 2 ^ w.
Proof. intros. by apply wrap_fits. Qed.

Lemma sgn_id w x : 0 < w → 0 <= x < 2 ^ (w - 1) → sgn w x = x.
Proof.
  intros Hw Hx. unfold sgn.
  assert (2 ^ (w - 1) < 2 ^ w) by (apply Z.pow_lt_mono_r; lia).
  rewrite wrap_id by (split; lia). bdestruct; lia.
Qed.

Lemma sgn_wrap w x : 0 < w → - 2 ^ (w - 1) <= x < 2 ^ (w - 1) → sgn w (wrap w x) = x.
Proof.
  intros Hw Hx. assert (2 ^ w = 2 * 2 ^ (w - 1)) as E.
  { rewrite <- Z.pow_succ_r by lia. f_equal. lia. }
  unfold sgn, wrap. rewrite Z.mod_mod by lia. destruct (decide (0 <= x)).
  - rewrite Z.mod_small by lia. destruct (Z.ltb_spec x (2 ^ (w - 1))); lia.
  - assert (x mod 2 ^ w = x + 2 ^ w) as ->.
    { symmetry. apply (Z.mod_unique _ _ (-1)); lia. }
    destruct (Z.ltb_spec (x + 2 ^ w) (2 ^ (w - 1))); lia.
Qed.

#[export] Hint Resolve wrap_id wrap_fits : wg.
#[export] Hint Rewrite wrap_id using (unfold fits; lia) : wg.

(** ** Little- and big-endian round trips *)

Lemma length_le_split n v : length (le_split n v) = n.
Proof. revert v. induction n; simpl; auto. Qed.

Lemma le_combine_split n v : le_combine (le_split n v) = v mod 2 ^ (8 * Z.of_nat n).
Proof.
  revert v. induction n as [|n IH]; intros v.
  { change (8 * Z.of_nat 0) with 0. rewrite Z.pow_0_r, Z.mod_1_r. done. }
  cbn [le_split le_combine]. rewrite IH.
  replace (8 * Z.of_nat (S n)) with (8 + 8 * Z.of_nat n) by lia.
  rewrite Z.pow_add_r by lia. change (2 ^ 8) with 256.
  rewrite Z.rem_mul_r; lia.
Qed.

Lemma le_split_combine l : Forall is_byte l → le_split (length l) (le_combine l) = l.
Proof.
  induction 1 as [|b l Hb Hl IH]; [done|]. unfold is_byte in Hb.
  cbn [length le_split le_combine].
  replace ((b + 256 * le_combine l) mod 256) with b by (symmetry; Z.to_euclidean_division_equations; lia).
  replace ((b + 256 * le_combine l) / 256) with (le_combine l)
    by (Z.to_euclidean_division_equations; lia).
  by rewrite IH.
Qed.

Lemma le_combine_app l1 l2 :
  le_combine (l1 ++ l2) = le_combine l1 + 2 ^ (8 * Z.of_nat (length l1)) * le_combine l2.
Proof.
  induction l1 as [|b l1 IH]; cbn [app le_combine length].
  - change (8 * Z.of_nat 0) with 0. lia.
  - rewrite IH. replace (8 * Z.of_nat (S (length l1))) with (8 + 8 * Z.of_nat (length l1)) by lia.
    rewrite Z.pow_add_r by lia. change (2 ^ 8) with 256. lia.
Qed.

Lemma le_combine_bound l :
  Forall is_byte l → 0 <= le_combine l < 2 ^ (8 * Z.of_nat (length l)).
Proof.
  induction 1 as [|b l Hb Hl IH]; [simpl; lia|]. unfold is_byte in Hb.
  cbn [length le_combine].
  replace (8 * Z.of_nat (S (length l))) with (8 + 8 * Z.of_nat (length l)) by lia.
  rewrite Z.pow_add_r by lia. change (2 ^ 8) with 256. lia.
Qed.

Lemma le_split_bytes n v : Forall is_byte (le_split n v).
Proof.
  revert v. induction n as [|n IH]; intros v; simpl; constructor; [|done].
  unfold is_byte. apply Z.mod_pos_bound. lia.
Qed.

Lemma length_zeros n : length (zeros n) = n.
Proof. apply length_replicate. Qed.

#[export] Hint Resolve le_split_bytes : wg.
#[export] Hint Rewrite length_le_split length_zeros : wg.

(** Masking with a non-negative number stays below it. *)
Lemma land_mask a b : 0 <= b → 0 <= Z.land a b <= b.
Proof.
  intros Hb. split; [apply Z.land_nonneg; by right|].
  assert (b - Z.land a b = Z.ldiff b (Z.land a b)) as E.
  { apply Z.sub_nocarry_ldiff, Z.bits_inj'. intros n Hn.
    rewrite Z.ldiff_spec, Z.land_spec, Z.bits_0. by destruct (Z.testbit a n), (Z.testbit b n). }
  assert (0 <= Z.ldiff b (Z.land a b)) by (apply Z.ldiff_nonneg; auto). lia.
Qed.
