(* ===== verification/Cpu.v ===== *)
(** * The choice of processors (queueing.h)

    Work on a shared queue goes to the online processors in turn, the work that
    sends a peer's packets in order stays on one processor of that peer.
    [cpu_round_robin]: with the same processors online, as many consecutive choices
    as there are online processors take each of them once, wherever the turn
    stands; a peer's processor is online, is kept as long as it is, and processors
    are taken by the peers' numbers. *)
From Stdlib Require Import Sorted.
From S2P Require Import Prelude.

(** The mask of online processors, and its set bits in order. *)
Abbreviation cpumask := (list bool).
Definition online (mask : cpumask) : list Z := seqZ 0 (Z.of_nat (length mask)) ≫= fun i =>
  match mask !! Z.to_nat i with Some true => [i] | _ => [] end.
Definition nr_cpu_ids (mask : cpumask) : Z := Z.of_nat (length mask).
Definition cpumask_test_cpu (cpu : Z) (mask : cpumask) : bool := bool_decide (cpu ∈ online mask).
Definition cpumask_weight (mask : cpumask) : Z := Z.of_nat (length (online mask)).
Definition cpumask_next (n : Z) (mask : cpumask) : Z := default (nr_cpu_ids mask) (find (fun i => n <? i) (online mask)).
Definition cpumask_first (mask : cpumask) : Z := cpumask_next (-1) mask.

(** [for (i = 0; i < cpu_index; ++i) cpu = cpumask_next(cpu, cpu_online_mask);] *)
Fixpoint nth_online (i : nat) (cpu : Z) (mask : cpumask) : Z :=
  match i with O => cpu | S i => nth_online i (cpumask_next cpu mask) mask end.

(** Both return the stored value together with the processor. *)
Definition wg_cpumask_choose_online (mask : cpumask) (stored_cpu id : Z) : Z * Z :=
  let cpu := stored_cpu in
  if (cpu =? nr_cpu_ids mask) || negb (cpumask_test_cpu cpu mask) then
    let cpu_index := id mod cpumask_weight mask in
    let cpu := nth_online (Z.to_nat cpu_index) (cpumask_first mask) mask in
    (cpu, cpu)
  else (stored_cpu, cpu).

Definition wg_cpumask_next_online (mask : cpumask) (last_cpu : Z) : Z * Z :=
  let cpu := cpumask_next last_cpu mask in
  let cpu := if nr_cpu_ids mask <=? cpu then cpumask_first mask else cpu in
  (cpu, cpu).

(** A number of consecutive choices. *)
Fixpoint turns (n : nat) (mask : cpumask) (last_cpu : Z) : list Z :=
  match n with
  | O => []
  | S n => let '(last_cpu, cpu) := wg_cpumask_next_online mask last_cpu in cpu :: turns n mask last_cpu
  end.

(** ** The online processors are sorted *)

Definition above (n : Z) (l : list Z) : list Z := filter (fun i => n < i) l.
Definition upto (n : Z) (l : list Z) : list Z := filter (fun i => i <= n) l.

Lemma online_elem mask i : i ∈ online mask → 0 <= i < nr_cpu_ids mask.
Proof.
  unfold online, nr_cpu_ids. rewrite list_elem_of_bind. intros (j & Hi & Hj). apply elem_of_seqZ in Hj.
  destruct (mask !! Z.to_nat j) as [[]|]; [|by apply not_elem_of_nil in Hi..]. apply list_elem_of_singleton in Hi as ->. lia.
Qed.

Lemma online_sorted mask : StronglySorted Z.lt (online mask).
Proof.
  unfold online. generalize (Z.of_nat (length mask)). intros n. generalize 0 at 1. intros s.
  destruct (Z.lt_ge_cases n 0) as [Hn|Hn]; [rewrite seqZ_nil by lia; constructor|].
  revert s. pattern n. apply natlike_ind; [intros s; rewrite seqZ_nil by lia; constructor| |done].
  clear n Hn. intros n Hn IH s. rewrite seqZ_cons by lia. cbn [mbind list_bind]. rewrite Z.pred_succ.
  assert (Forall (Z.lt s) (seqZ (Z.succ s) n ≫= fun i => match mask !! Z.to_nat i with Some true => [i] | _ => [] end)) as Hall.
  { apply Forall_forall. intros i. rewrite list_elem_of_bind. intros (j & Hi & Hj). apply elem_of_seqZ in Hj.
    destruct (mask !! Z.to_nat j) as [[]|]; [|by apply not_elem_of_nil in Hi..]. apply list_elem_of_singleton in Hi as ->. lia. }
  destruct (mask !! Z.to_nat s) as [[]|]; cbn [app]; [constructor; [apply IH|exact Hall]|apply IH..].
Qed.

Lemma filter_every (P : Z -> Prop) `{∀ x, Decision (P x)} l : Forall P l → filter P l = l.
Proof. induction 1; [done|]. rewrite filter_cons_True by done. by f_equal. Qed.
Lemma filter_none (P : Z -> Prop) `{∀ x, Decision (P x)} l : Forall (fun x => ¬ P x) l → filter P l = [].
Proof. induction 1; [done|]. by rewrite filter_cons_False. Qed.

Lemma above_cons n x l : above n (x :: l) = if decide (n < x) then x :: above n l else above n l.
Proof. unfold above. by rewrite filter_cons. Qed.

(** The processors up to a number come before those above it. *)
Lemma upto_above n l : StronglySorted Z.lt l → l = upto n l ++ above n l.
Proof.
  induction 1 as [|x l Hs IH Hx]; [done|]. rewrite above_cons. unfold upto. rewrite filter_cons. fold (upto n l).
  destruct (decide (x <= n)) as [Hle|Hgt], (decide (n < x)) as [Hlt|Hge]; try lia; [cbn; by f_equal|].
  assert (upto n l = []) as ->.
  { unfold upto. apply filter_none. eapply Forall_impl; [exact Hx|]. intros y Hy. cbn in *. lia. }
  cbn. f_equal. symmetry. unfold above. apply filter_every. eapply Forall_impl; [exact Hx|]. intros y Hy. cbn in *. lia.
Qed.

(** Above the first of those above a number are the others. *)
Lemma above_next n l x rest : StronglySorted Z.lt l → above n l = x :: rest → above x l = rest.
Proof.
  induction 1 as [|y l Hs IH Hy]; [done|]. rewrite !above_cons. destruct (decide (n < y)) as [Hlt|Hge].
  - intros [= -> Hr]. destruct (decide (x < x)); [lia|]. rewrite <- Hr. unfold above.
    rewrite !filter_every; [done|..]; (eapply Forall_impl; [exact Hy|]; intros z Hz; cbn in *; lia).
  - intros E. assert (x ∈ above n l) as Hx by (rewrite E; by left). apply list_elem_of_filter in Hx as [Hx _].
    destruct (decide (x < y)); [lia|]. by apply IH.
Qed.

Lemma find_above n l : find (fun i => n <? i) l = list.head (above n l).
Proof.
  induction l as [|x l IH]; [done|]. cbn [find]. rewrite above_cons. destruct (Z.ltb_spec n x), (decide (n < x)); try lia; done.
Qed.

(** ** Turns *)

Section Turns.
Context (mask : cpumask).
Let C := online mask.

Lemma next_above last_cpu x rest : above last_cpu C = x :: rest → wg_cpumask_next_online mask last_cpu = (x, x).
Proof using.
  intros E. unfold wg_cpumask_next_online, cpumask_next. fold C. rewrite find_above, E. cbn [list.head from_option id].
  assert (x ∈ above last_cpu C) as Hx by (rewrite E; by left). apply list_elem_of_filter in Hx as [_ Hx].
  apply online_elem in Hx. destruct (Z.leb_spec (nr_cpu_ids mask) x); [lia|done].
Qed.

Lemma next_wraps last_cpu x rest : above last_cpu C = [] → C = x :: rest → wg_cpumask_next_online mask last_cpu = (x, x).
Proof using.
  intros E EC. unfold wg_cpumask_next_online, cpumask_first, cpumask_next. fold C. rewrite !find_above, E.
  assert (above (-1) C = C) as ->.
  { unfold above. apply filter_every. apply Forall_forall. intros y Hy. apply online_elem in Hy. lia. }
  rewrite EC. cbn [list.head from_option id]. destruct (Z.leb_spec (nr_cpu_ids mask) (nr_cpu_ids mask)); [done|lia].
Qed.

Lemma turns_prefix B1 B2 last_cpu k :
  above last_cpu C = B1 ++ B2 →
  ∃ last', turns (length B1 + k) mask last_cpu = B1 ++ turns k mask last' ∧ above last' C = B2.
Proof using.
  revert last_cpu. induction B1 as [|x B1 IH]; intros last_cpu E; [by exists last_cpu|]. cbn [length Nat.add turns app] in *.
  rewrite (next_above _ _ _ E). apply above_next in E; [|apply online_sorted]. destruct (IH x E) as (last' & -> & ?). by exists last'.
Qed.

Lemma turns_round last_cpu : turns (length C) mask last_cpu = above last_cpu C ++ upto last_cpu C.
Proof using.
  pose proof (upto_above last_cpu C (online_sorted mask)) as EC.
  assert (length C = (length (above last_cpu C) + length (upto last_cpu C))%nat) as -> by (rewrite EC at 1; rewrite length_app; lia).
  destruct (turns_prefix (above last_cpu C) [] last_cpu (length (upto last_cpu C))) as (last' & -> & E'); [by rewrite app_nil_r|]. f_equal.
  destruct (upto last_cpu C) as [|x A] eqn:EA; [done|]. cbn [length turns app] in *. rewrite (next_wraps last' x _ E' EC).
  assert (above x C = A ++ above last_cpu C) as Ex.
  { apply (above_next (-1)); [apply online_sorted|]. rewrite <- EC. unfold above. apply filter_every. apply Forall_forall.
    intros y Hy. apply online_elem in Hy. lia. }
  destruct (turns_prefix A (above last_cpu C) x 0 Ex) as (last2 & E2 & _). rewrite Nat.add_0_r in E2. rewrite E2. cbn. by rewrite app_nil_r.
Qed.

(** The processor of a given rank. *)
Lemma nth_online_rank i x rest n :
  above n C = x :: rest → (i <= length rest)%nat → nth_online i x mask = (x :: rest) !!! i.
Proof using.
  revert n x rest. induction i as [|i IH]; intros n x rest E Hi; [done|]. cbn [nth_online].
  apply above_next in E; [|apply online_sorted]. destruct rest as [|y rest]; cbn [length] in Hi; [lia|].
  assert (cpumask_next x mask = y) as -> by (unfold cpumask_next; fold C; by rewrite find_above, E).
  rewrite (IH x y rest E) by lia. done.
Qed.

(** As long as some processor is online and the online ones stay the same: as many consecutive choices as there are
    online processors take every one of them exactly once, wherever the last choice stood; the processor of a peer is
    online; one that is online is kept, and otherwise the choice is the online processor whose rank is the peer's
    number modulo how many there are. *)
Theorem cpu_round_robin last_cpu stored_cpu id :
  C ≠ [] → 0 <= id →
  turns (length C) mask last_cpu ≡ₚ C ∧
  let '(stored, cpu) := wg_cpumask_choose_online mask stored_cpu id in
  stored = cpu ∧ cpu ∈ C ∧ cpu = if decide (stored_cpu ∈ C) then stored_cpu else C !!! Z.to_nat (id mod Z.of_nat (length C)).
Proof using.
  intros HC Hid. split.
  - rewrite turns_round. rewrite (upto_above last_cpu C (online_sorted mask)) at 3. apply Permutation_app_comm.
  - unfold wg_cpumask_choose_online, cpumask_test_cpu, cpumask_weight. fold C. destruct (decide (stored_cpu ∈ C)) as [Hs|Hs].
    + rewrite (bool_decide_true _ Hs). apply online_elem in Hs as Hr. destruct (Z.eqb_spec stored_cpu (nr_cpu_ids mask)); [lia|]. done.
    + rewrite (bool_decide_false _ Hs), orb_true_r. destruct C as [|x rest] eqn:EC; [done|].
      assert (above (-1) C = x :: rest) as E1.
      { unfold above. rewrite filter_every; [exact EC|]. apply Forall_forall. intros y Hy. apply online_elem in Hy. lia. }
      assert (cpumask_first mask = x) as -> by (unfold cpumask_first, cpumask_next; fold C; by rewrite find_above, E1).
      pose proof (Z.mod_pos_bound id (Z.of_nat (length (x :: rest))) ltac:(cbn; lia)) as Hb. cbn [length] in *.
      rewrite (nth_online_rank _ _ _ _ E1) by lia. split; [done|]. split; [|done]. apply list_elem_of_lookup_total_2. cbn. lia.
Qed.
End Turns.

(** Processors 1, 3 and 4 of five. *)
Lemma cpu_round_robin_witness :
  turns 3 [false; true; false; true; true] 3 ≡ₚ [1; 3; 4] ∧ turns 3 [false; true; false; true; true] 3 = [4; 1; 3] ∧
  wg_cpumask_choose_online [false; true; false; true; true] 5 7 = (3, 3).
Proof.
  destruct (cpu_round_robin [false; true; false; true; true] 3 5 7) as [Hp _]; [done|lia|]. split; [exact Hp|]. split; reflexivity.
Defined.
