(* ===== verification/Messages.v ===== *)
(** * Wire messages, protocol limits and the clock

    The constants, enumerations and packed structures of messages.h, the C
    overlay of those structures on packet bytes as [encode]/[decode] pairs, the
    header classifier [validate_header_len] of receive.c and the
    [wg_birthdate_has_expired] test of timers.h.  Theorems: the overlays round
    trip, the classifier accepts exactly the four message shapes, and the expiry
    test is the expected comparison as long as the 64-bit sum does not wrap. *)

From S2P Require Import Prelude.

(** ** Sizes the sources take from the crypto and kernel headers *)

Definition CURVE25519_KEY_SIZE : nat := 32.
Definition CHACHA20POLY1305_KEY_SIZE : nat := 32.
Definition CHACHA20POLY1305_AUTHTAG_SIZE : nat := 16.
Definition XCHACHA20POLY1305_NONCE_SIZE : nat := 24.
Definition BLAKE2S_HASH_SIZE : nat := 32.
Definition BLAKE2S_BLOCK_SIZE : nat := 64.
Definition BITS_PER_LONG : Z := 64.
Definition sizeof_iphdr : Z := 20.
Definition sizeof_ipv6hdr : Z := 40.
Definition sizeof_udphdr : Z := 8.

(** ** messages.h: lengths and limits *)

Definition NOISE_PUBLIC_KEY_LEN : nat := CURVE25519_KEY_SIZE.
Definition NOISE_SYMMETRIC_KEY_LEN : nat := CHACHA20POLY1305_KEY_SIZE.
Definition NOISE_TIMESTAMP_LEN : nat := 8 + 4.
Definition NOISE_AUTHTAG_LEN : nat := CHACHA20POLY1305_AUTHTAG_SIZE.
Definition NOISE_HASH_LEN : nat := BLAKE2S_HASH_SIZE.

Definition noise_encrypted_len (plain_len : nat) : nat := (plain_len + NOISE_AUTHTAG_LEN)%nat.

Definition COOKIE_SECRET_MAX_AGE : Z := 2 * 60.
Definition COOKIE_SECRET_LATENCY : Z := 5.
Definition COOKIE_NONCE_LEN : nat := XCHACHA20POLY1305_NONCE_SIZE.
Definition COOKIE_LEN : nat := 16.

Definition COUNTER_BITS_TOTAL : Z := 8192.
Definition COUNTER_REDUNDANT_BITS : Z := BITS_PER_LONG.
Definition COUNTER_WINDOW_SIZE : Z := COUNTER_BITS_TOTAL - COUNTER_REDUNDANT_BITS.

Definition REKEY_AFTER_MESSAGES : Z := 2 ^ 60.
Definition REJECT_AFTER_MESSAGES : Z := U64_MAX - COUNTER_WINDOW_SIZE - 1.
Definition REKEY_TIMEOUT : Z := 5.
Definition REKEY_AFTER_TIME : Z := 120.
Definition REJECT_AFTER_TIME : Z := 180.
Definition INITIATIONS_PER_SECOND : Z := 50.
Definition MAX_PEERS_PER_DEVICE : Z := 2 ^ 20.
Definition KEEPALIVE_TIMEOUT : Z := 10.
Definition MAX_TIMER_HANDSHAKES : Z := 90 / REKEY_TIMEOUT.
Definition MAX_QUEUED_INCOMING_HANDSHAKES : Z := 4096.
Definition MAX_STAGED_PACKETS : Z := 128.
Definition MAX_QUEUED_PACKETS : Z := 1024.

Definition MESSAGE_INVALID : Z := 0.
Definition MESSAGE_HANDSHAKE_INITIATION : Z := 1.
Definition MESSAGE_HANDSHAKE_RESPONSE : Z := 2.
Definition MESSAGE_HANDSHAKE_COOKIE : Z := 3.
Definition MESSAGE_DATA : Z := 4.

(** ** queueing.h: [enum packet_state] *)

Inductive packet_state := PACKET_STATE_UNCRYPTED | PACKET_STATE_CRYPTED | PACKET_STATE_DEAD.
#[global] Instance packet_state_eq : EqDecision packet_state.
Proof. solve_decision. Defined.

(** ** messages.h: packed structures *)

Record message_macs := mk_message_macs {
  mac1 : bytes;
  mac2 : bytes;
}.

Record message_handshake_initiation := mk_message_handshake_initiation {
  init_type : Z;
  init_sender_index : Z;
  init_unencrypted_ephemeral : bytes;
  init_encrypted_static : bytes;
  init_encrypted_timestamp : bytes;
  init_macs : message_macs;
}.

Record message_handshake_response := mk_message_handshake_response {
  resp_type : Z;
  resp_sender_index : Z;
  resp_receiver_index : Z;
  resp_unencrypted_ephemeral : bytes;
  resp_encrypted_nothing : bytes;
  resp_macs : message_macs;
}.

Record message_handshake_cookie := mk_message_handshake_cookie {
  ck_type : Z;
  ck_receiver_index : Z;
  ck_nonce : bytes;
  ck_encrypted_cookie : bytes;
}.

Record message_data := mk_message_data {
  data_type : Z;
  data_key_idx : Z;
  data_counter : Z;
  data_encrypted_data : bytes;
}.

Definition sizeof_message_header : nat := 4.
Definition sizeof_message_macs : nat := (COOKIE_LEN + COOKIE_LEN)%nat.
Definition sizeof_message_handshake_initiation : nat :=
  (4 + 4 + NOISE_PUBLIC_KEY_LEN + noise_encrypted_len NOISE_PUBLIC_KEY_LEN +
   noise_encrypted_len NOISE_TIMESTAMP_LEN + sizeof_message_macs)%nat.
Definition sizeof_message_handshake_response : nat :=
  (4 + 4 + 4 + NOISE_PUBLIC_KEY_LEN + noise_encrypted_len 0 + sizeof_message_macs)%nat.
Definition sizeof_message_handshake_cookie : nat :=
  (4 + 4 + COOKIE_NONCE_LEN + noise_encrypted_len COOKIE_LEN)%nat.
Definition sizeof_message_data : nat := 4 + 4 + 8.

Definition message_data_len (plain_len : nat) : nat :=
  (noise_encrypted_len plain_len + sizeof_message_data)%nat.
Definition MESSAGE_PADDING_MULTIPLE : Z := 16.
Definition MESSAGE_MINIMUM_LENGTH : nat := message_data_len 0.

Definition HANDSHAKE_DSCP : Z := 136.

(** ** The C overlay of a structure on packet bytes

    [decode_*] is the cast [(struct message_... * )skb->data] followed by reading
    every field; [encode_*] is the memory image of the structure. *)

Definition encode_macs (m : message_macs) : bytes := mac1 m ++ mac2 m.
Definition decode_macs (b : bytes) : message_macs :=
  mk_message_macs (slice 0 COOKIE_LEN b) (slice COOKIE_LEN COOKIE_LEN b).

Definition encode_initiation (m : message_handshake_initiation) : bytes :=
  le_split 4 (init_type m) ++ le_split 4 (init_sender_index m) ++
  init_unencrypted_ephemeral m ++ init_encrypted_static m ++
  init_encrypted_timestamp m ++ encode_macs (init_macs m).
Definition decode_initiation (b : bytes) : message_handshake_initiation :=
  mk_message_handshake_initiation
    (le_combine (slice 0 4 b)) (le_combine (slice 4 4 b))
    (slice 8 32 b) (slice 40 48 b) (slice 88 28 b) (decode_macs (drop 116 b)).

Definition encode_response (m : message_handshake_response) : bytes :=
  le_split 4 (resp_type m) ++ le_split 4 (resp_sender_index m) ++
  le_split 4 (resp_receiver_index m) ++ resp_unencrypted_ephemeral m ++
  resp_encrypted_nothing m ++ encode_macs (resp_macs m).
Definition decode_response (b : bytes) : message_handshake_response :=
  mk_message_handshake_response
    (le_combine (slice 0 4 b)) (le_combine (slice 4 4 b)) (le_combine (slice 8 4 b))
    (slice 12 32 b) (slice 44 16 b) (decode_macs (drop 60 b)).

Definition encode_cookie (m : message_handshake_cookie) : bytes :=
  le_split 4 (ck_type m) ++ le_split 4 (ck_receiver_index m) ++
  ck_nonce m ++ ck_encrypted_cookie m.
Definition decode_cookie (b : bytes) : message_handshake_cookie :=
  mk_message_handshake_cookie
    (le_combine (slice 0 4 b)) (le_combine (slice 4 4 b)) (slice 8 24 b) (slice 32 32 b).

Definition encode_data (m : message_data) : bytes :=
  le_split 4 (data_type m) ++ le_split 4 (data_key_idx m) ++
  le_split 8 (data_counter m) ++ data_encrypted_data m.
Definition decode_data (b : bytes) : message_data :=
  mk_message_data (le_combine (slice 0 4 b)) (le_combine (slice 4 4 b))
    (le_combine (slice 8 8 b)) (drop 16 b).

(** ** receive.c: [SKB_TYPE_LE32] and [validate_header_len]

    [data] is the part of the packet from [skb->data] on, so [skb->len] is its
    length.  The result is the length of the message header, 0 for a bogus
    packet. *)

Definition SKB_TYPE_LE32 (data : bytes) : Z := le_combine (slice 0 4 data).

Definition validate_header_len (data : bytes) : nat :=
  let len := length data in
  if bool_decide (len < sizeof_message_header)%nat then 0%nat
  else if (SKB_TYPE_LE32 data =? MESSAGE_DATA) &&
          bool_decide (MESSAGE_MINIMUM_LENGTH <= len)%nat
  then sizeof_message_data
  else if (SKB_TYPE_LE32 data =? MESSAGE_HANDSHAKE_INITIATION) &&
          bool_decide (len = sizeof_message_handshake_initiation)
  then sizeof_message_handshake_initiation
  else if (SKB_TYPE_LE32 data =? MESSAGE_HANDSHAKE_RESPONSE) &&
          bool_decide (len = sizeof_message_handshake_response)
  then sizeof_message_handshake_response
  else if (SKB_TYPE_LE32 data =? MESSAGE_HANDSHAKE_COOKIE) &&
          bool_decide (len = sizeof_message_handshake_cookie)
  then sizeof_message_handshake_cookie
  else 0%nat.

(** ** timers.h: [wg_birthdate_has_expired]

    [now] is [ktime_get_coarse_boottime_ns()].  Both sides are 64-bit and are
    compared as signed numbers. *)
Definition wg_birthdate_has_expired (now birthday_nanoseconds expiration_seconds : Z) : bool :=
  s64 (birthday_nanoseconds + u64 (expiration_seconds * NSEC_PER_SEC)) <=? s64 now.

(** ** Well-formed messages *)

Definition wf_macs (m : message_macs) : Prop :=
  length (mac1 m) = COOKIE_LEN /\ length (mac2 m) = COOKIE_LEN.
Definition wf_initiation (m : message_handshake_initiation) : Prop :=
  fits 32 (init_type m) /\ fits 32 (init_sender_index m) /\
  length (init_unencrypted_ephemeral m) = NOISE_PUBLIC_KEY_LEN /\
  length (init_encrypted_static m) = noise_encrypted_len NOISE_PUBLIC_KEY_LEN /\
  length (init_encrypted_timestamp m) = noise_encrypted_len NOISE_TIMESTAMP_LEN /\
  wf_macs (init_macs m).
Definition wf_response (m : message_handshake_response) : Prop :=
  fits 32 (resp_type m) /\ fits 32 (resp_sender_index m) /\ fits 32 (resp_receiver_index m) /\
  length (resp_unencrypted_ephemeral m) = NOISE_PUBLIC_KEY_LEN /\
  length (resp_encrypted_nothing m) = noise_encrypted_len 0 /\
  wf_macs (resp_macs m).
Definition wf_cookie (m : message_handshake_cookie) : Prop :=
  fits 32 (ck_type m) /\ fits 32 (ck_receiver_index m) /\
  length (ck_nonce m) = COOKIE_NONCE_LEN /\
  length (ck_encrypted_cookie m) = noise_encrypted_len COOKIE_LEN.
Definition wf_data (m : message_data) : Prop :=
  fits 32 (data_type m) /\ fits 32 (data_key_idx m) /\ fits 64 (data_counter m).

(** The four message shapes of the protocol, by type word and length. *)
Definition is_message (data : bytes) (ty : Z) (hdr : nat) : Prop :=
  SKB_TYPE_LE32 data = ty /\
  ((ty = MESSAGE_DATA /\ (MESSAGE_MINIMUM_LENGTH <= length data)%nat /\
      hdr = sizeof_message_data) \/
   (ty = MESSAGE_HANDSHAKE_INITIATION /\ length data = hdr /\
      hdr = sizeof_message_handshake_initiation) \/
   (ty = MESSAGE_HANDSHAKE_RESPONSE /\ length data = hdr /\
      hdr = sizeof_message_handshake_response) \/
   (ty = MESSAGE_HANDSHAKE_COOKIE /\ length data = hdr /\
      hdr = sizeof_message_handshake_cookie)).

(** ** Reading a field out of a concatenation *)

Lemma slice_app_here (n : nat) (a b : bytes) : length a = n → slice 0 n (a ++ b) = a.
Proof. intros <-. unfold slice. rewrite drop_0. apply take_app_length. Qed.

Lemma slice_app_skip (off n : nat) (a b : bytes) :
  (length a <= off)%nat → slice off n (a ++ b) = slice (off - length a) n b.
Proof.
  intros H. unfold slice. rewrite drop_app.
  by rewrite (drop_ge a) by lia.
Qed.

Lemma drop_app_skip (off : nat) (a b : bytes) :
  (length a <= off)%nat → drop off (a ++ b) = drop (off - length a) b.
Proof. intros H. rewrite drop_app. by rewrite (drop_ge a) by lia. Qed.

Lemma slice_all (n : nat) (a : bytes) : length a = n → slice 0 n a = a.
Proof. intros <-. unfold slice. rewrite drop_0. by apply take_ge. Qed.

Lemma le_combine_split_32 v : fits 32 v → le_combine (le_split 4 v) = v.
Proof. intros [??]. rewrite le_combine_split. apply Z.mod_small. simpl. lia. Qed.

Lemma le_combine_split_64 v : fits 64 v → le_combine (le_split 8 v) = v.
Proof. intros [??]. rewrite le_combine_split. apply Z.mod_small. simpl. lia. Qed.

#[local] Arguments decode_macs : simpl never.
#[local] Arguments encode_macs : simpl never.
#[local] Arguments slice : simpl never.
#[local] Arguments le_split : simpl never.
#[local] Arguments le_combine : simpl never.

(** [lens] evaluates the lengths of the fields the context knows. *)
Ltac lens :=
  repeat match goal with
  | H : length ?l = _ |- context [length ?l] => rewrite H
  end; rewrite ?length_le_split; cbn [Nat.sub].

Ltac field_at :=
  repeat first
    [ rewrite slice_app_here by (lens; done)
    | rewrite slice_app_skip by (lens; lia); lens
    | rewrite drop_app_skip by (lens; lia); lens
    | rewrite slice_all by (lens; done) ];
  rewrite ?drop_0.

Ltac overlay :=
  cbv [wf_initiation wf_response wf_cookie wf_data noise_encrypted_len NOISE_PUBLIC_KEY_LEN
       NOISE_TIMESTAMP_LEN NOISE_AUTHTAG_LEN COOKIE_NONCE_LEN COOKIE_LEN CURVE25519_KEY_SIZE
       CHACHA20POLY1305_AUTHTAG_SIZE XCHACHA20POLY1305_NONCE_SIZE];
  intros; destruct_and?; cbn in *; field_at;
  rewrite ?le_combine_split_32, ?le_combine_split_64 by done.

Lemma decode_encode_macs m : wf_macs m → decode_macs (encode_macs m) = m.
Proof.
  destruct m as [m1 m2]. intros [H1 H2]. cbn in *.
  unfold decode_macs, encode_macs, COOKIE_LEN in *. cbn in *. by field_at.
Qed.

Lemma decode_encode_initiation m :
  wf_initiation m → decode_initiation (encode_initiation m) = m.
Proof.
  destruct m as [t i e st ts ms]. unfold decode_initiation, encode_initiation.
  overlay. by rewrite decode_encode_macs.
Qed.

Lemma decode_encode_response m : wf_response m → decode_response (encode_response m) = m.
Proof.
  destruct m as [t i r e en ms]. unfold decode_response, encode_response.
  overlay. by rewrite decode_encode_macs.
Qed.

Lemma decode_encode_cookie m : wf_cookie m → decode_cookie (encode_cookie m) = m.
Proof. destruct m as [t r n c]. unfold decode_cookie, encode_cookie. by overlay. Qed.

Lemma decode_encode_data m : wf_data m → decode_data (encode_data m) = m.
Proof. destruct m as [t k c d]. unfold decode_data, encode_data. by overlay. Qed.

Lemma length_encode_initiation m :
  wf_initiation m → length (encode_initiation m) = sizeof_message_handshake_initiation.
Proof.
  destruct m as [t i e st ts [m1 m2]]. unfold encode_initiation, encode_macs.
  intros (_&_&He&Hs&Ht&Hm1&Hm2). cbn in *.
  rewrite !length_app, !length_le_split, He, Hs, Ht, Hm1, Hm2. done.
Qed.

Lemma length_encode_response m :
  wf_response m → length (encode_response m) = sizeof_message_handshake_response.
Proof.
  destruct m as [t i r e en [m1 m2]]. unfold encode_response, encode_macs.
  intros (_&_&_&He&Hn&Hm1&Hm2). cbn in *.
  rewrite !length_app, !length_le_split, He, Hn, Hm1, Hm2. done.
Qed.

Lemma length_encode_cookie m :
  wf_cookie m → length (encode_cookie m) = sizeof_message_handshake_cookie.
Proof.
  destruct m as [t r n c]. unfold encode_cookie. intros (_&_&Hn&Hc). cbn in *.
  rewrite !length_app, !length_le_split, Hn, Hc. done.
Qed.

(** ** The header classifier *)

Ltac sizes :=
  cbv [sizeof_message_header sizeof_message_data sizeof_message_handshake_initiation
       sizeof_message_handshake_response sizeof_message_handshake_cookie MESSAGE_MINIMUM_LENGTH
       message_data_len noise_encrypted_len sizeof_message_macs NOISE_PUBLIC_KEY_LEN
       NOISE_TIMESTAMP_LEN NOISE_AUTHTAG_LEN COOKIE_NONCE_LEN COOKIE_LEN CURVE25519_KEY_SIZE
       CHACHA20POLY1305_AUTHTAG_SIZE XCHACHA20POLY1305_NONCE_SIZE
       MESSAGE_DATA MESSAGE_HANDSHAKE_INITIATION MESSAGE_HANDSHAKE_RESPONSE
       MESSAGE_HANDSHAKE_COOKIE] in *; cbn [Nat.add] in *.

Lemma validate_header_len_complete data ty n :
  is_message data ty n → validate_header_len data = n.
Proof.
  unfold is_message, validate_header_len. intros [Ht Hs]. rewrite Ht. sizes.
  destruct Hs as [(->&Hl&->)|[(->&Hl&->)|[(->&Hl&->)|(->&Hl&->)]]];
    rewrite ?Hl; repeat case_bool_decide; cbn; done || lia.
Qed.

Lemma validate_header_len_sound data :
  validate_header_len data ≠ 0%nat → ∃ ty, is_message data ty (validate_header_len data).
Proof.
  unfold is_message, validate_header_len. intros H. exists (SKB_TYPE_LE32 data).
  split; [done|]. revert H. case_bool_decide; [done|]. intros Hnz.
  repeat match goal with
  | |- context [if ?b then _ else _] =>
      destruct b eqn:E;
      [apply andb_true_iff in E as [Ht%Z.eqb_eq Hl%bool_decide_eq_true]; rewrite Ht; by tauto
      |clear E]
  end; exfalso; revert Hnz; done.
Qed.

Lemma is_message_header_pos data ty n : is_message data ty n → (0 < n)%nat.
Proof.
  unfold is_message. sizes. intros [_ [(_&_&->)|[(_&_&->)|[(_&_&->)|(_&_&->)]]]]; lia.
Qed.

(** ** Theorems *)

(** The memory image of every WireGuard message, read back through the
    structure overlay, gives the message, and has the structure's size. *)
Theorem message_overlays_roundtrip :
  (∀ m, wf_initiation m →
     decode_initiation (encode_initiation m) = m ∧
     length (encode_initiation m) = sizeof_message_handshake_initiation) ∧
  (∀ m, wf_response m →
     decode_response (encode_response m) = m ∧
     length (encode_response m) = sizeof_message_handshake_response) ∧
  (∀ m, wf_cookie m →
     decode_cookie (encode_cookie m) = m ∧
     length (encode_cookie m) = sizeof_message_handshake_cookie) ∧
  (∀ m, wf_data m → decode_data (encode_data m) = m).
Proof.
  repeat split; intros;
    auto using decode_encode_initiation, decode_encode_response, decode_encode_cookie,
      decode_encode_data, length_encode_initiation, length_encode_response, length_encode_cookie.
Qed.

Lemma message_overlays_roundtrip_witness :
  let m := mk_message_data MESSAGE_DATA 77 5 [1; 2; 3] in decode_data (encode_data m) = m.
Proof. apply message_overlays_roundtrip. split_and!; vm_compute; split; congruence. Defined.

(** [validate_header_len] accepts exactly the four message shapes, with
    the header length of the shape, and answers 0 on everything else. *)
Theorem validate_header_len_spec data n :
  validate_header_len data = n ↔
  (∃ ty, is_message data ty n) ∨ (n = 0%nat ∧ ∀ ty m, ¬ is_message data ty m).
Proof.
  split.
  - intros <-. destruct (decide (validate_header_len data = 0%nat)) as [H0|Hn].
    + right. split; [done|]. intros ty m Hm.
      pose proof (validate_header_len_complete _ _ _ Hm).
      pose proof (is_message_header_pos _ _ _ Hm). lia.
    + left. by apply validate_header_len_sound.
  - intros [[ty Hm]|[-> Hno]]; [by eapply validate_header_len_complete|].
    destruct (decide (validate_header_len data = 0%nat)) as [H0|Hn]; [done|].
    destruct (validate_header_len_sound _ Hn) as [ty Hm]. by apply Hno in Hm.
Qed.

(** Away from the 64-bit wrap the expiry test is the plain comparison. *)
Lemma birthdate_expired_iff now birth secs :
  0 <= birth → 0 <= secs → birth + secs * NSEC_PER_SEC < 2 ^ 63 → 0 <= now < 2 ^ 63 →
  wg_birthdate_has_expired now birth secs = true ↔ birth + secs * NSEC_PER_SEC <= now.
Proof.
  intros Hb Hs Hsum Hn. unfold wg_birthdate_has_expired, NSEC_PER_SEC in *.
  rewrite (wrap_id 64) by (split; lia). rewrite !sgn_id by lia.
  rewrite Z.leb_le. lia.
Qed.
