(* ===== verification/Counter.v ===== *)
(** * The replay window (receive.c: [counter_validate], noise.h)

    The RFC 6479 bitmap of received nonces, word for word: a 64-bit high-water
    mark and a ring of 128 machine words, with unsigned 64-bit arithmetic written
    out.  Its specification is the set of nonces accepted so far; the refinement
    theorem says the bitmap accepts a nonce exactly when it is below
    [REJECT_AFTER_MESSAGES], inside the window and not in that set.  The module's
    own self-test (selftest/counter.c) is evaluated on the model. *)

From S2P Require Import Prelude Messages.

(** ** The data structure and the operation *)

Record noise_replay_counter := mk_noise_replay_counter {
  counter : Z;
  backtrack : list Z;
}.

(** [COUNTER_BITS_TOTAL / BITS_PER_LONG] words. *)
Definition nwords : Z := COUNTER_BITS_TOTAL / BITS_PER_LONG.

Definition counter_init : noise_replay_counter :=
  mk_noise_replay_counter 0 (replicate (Z.to_nat nwords) 0).

(** [for (i = 1; i <= top; ++i) backtrack[(i + index_current) & (nwords - 1)] = 0;] *)
Definition clear_words (top : nat) (index_current : Z) (bt : list Z) : list Z :=
  fold_left (fun bt i => <[Z.to_nat (Z.land (u64 (Z.of_nat i + index_current)) (nwords - 1)) := 0]> bt)
    (seq 1 top) bt.

(** [test_and_set_bit(nr, &bt[index])]: the old bit and the new array. *)
Definition test_and_set_bit (nr : Z) (index : nat) (bt : list Z) : bool * list Z :=
  let w := nth index bt 0 in
  (Z.testbit w nr, <[index := Z.lor w (Z.shiftl 1 nr)]> bt).

Definition counter_validate (c : noise_replay_counter) (their_counter : Z) :
    noise_replay_counter * bool :=
  if (REJECT_AFTER_MESSAGES + 1 <=? counter c) || (REJECT_AFTER_MESSAGES <=? their_counter)
  then (c, false)
  else
    let their_counter := u64 (their_counter + 1) in
    if u64 (COUNTER_WINDOW_SIZE + their_counter) <? counter c then (c, false)
    else
      let index := Z.shiftr their_counter (Z.log2 BITS_PER_LONG) in
      let c :=
        if counter c <? their_counter then
          let index_current := Z.shiftr (counter c) (Z.log2 BITS_PER_LONG) in
          let top := Z.min (u64 (index - index_current)) nwords in
          mk_noise_replay_counter their_counter
            (clear_words (Z.to_nat top) index_current (backtrack c))
        else c in
      let index := Z.land index (nwords - 1) in
      let '(old, bt) := test_and_set_bit (Z.land their_counter (BITS_PER_LONG - 1))
                          (Z.to_nat index) (backtrack c) in
      (mk_noise_replay_counter (counter c) bt, negb old).

(** ** selftest/counter.c

    [T n v] is the macro [T(n, v)]: the counter after the call and whether the
    answer was the expected one. *)

Definition T_LIM : Z := COUNTER_WINDOW_SIZE + 1.

Definition selftest_T (st : noise_replay_counter * bool) (t : Z * bool) :
    noise_replay_counter * bool :=
  let '(c, success) := st in
  let '(n, v) := t in
  let '(c, r) := counter_validate c n in
  (c, success && Bool.eqb r v).

Definition selftest_run (tests : list (Z * bool)) : bool :=
  snd (fold_left selftest_T tests (counter_init, true)).

Definition upto (a b : Z) : list Z := seqZ a (b - a + 1).
Definition all_true (l : list Z) : list (Z * bool) := map (fun n => (n, true)) l.

Definition wg_packet_counter_selftest : bool :=
  selftest_run
    [(0, true); (1, true); (1, false); (9, true); (8, true); (7, true); (7, false);
     (T_LIM, true); (T_LIM - 1, true); (T_LIM - 1, false); (T_LIM - 2, true);
     (2, true); (2, false); (T_LIM + 16, true); (3, false); (T_LIM + 16, false);
     (T_LIM * 4, true); (T_LIM * 4 - (T_LIM - 1), true); (10, false);
     (T_LIM * 4 - T_LIM, false); (T_LIM * 4 - (T_LIM + 1), false);
     (T_LIM * 4 - (T_LIM - 2), true); (T_LIM * 4 + 1 - T_LIM, false); (0, false);
     (REJECT_AFTER_MESSAGES, false); (REJECT_AFTER_MESSAGES - 1, true);
     (REJECT_AFTER_MESSAGES, false); (REJECT_AFTER_MESSAGES - 1, false);
     (REJECT_AFTER_MESSAGES - 2, true); (REJECT_AFTER_MESSAGES + 1, false);
     (REJECT_AFTER_MESSAGES + 2, false); (REJECT_AFTER_MESSAGES - 2, false);
     (REJECT_AFTER_MESSAGES - 3, true); (0, false)]
  && selftest_run (all_true (upto 1 COUNTER_WINDOW_SIZE) ++ [(0, true); (0, false)])
  && selftest_run (all_true (upto 2 (COUNTER_WINDOW_SIZE + 1)) ++ [(1, true); (0, false)])
  && selftest_run (all_true (reverse (upto 0 COUNTER_WINDOW_SIZE)))
  && selftest_run (all_true (reverse (upto 1 (COUNTER_WINDOW_SIZE + 1))) ++ [(0, false)])
  && selftest_run (all_true (reverse (upto 1 COUNTER_WINDOW_SIZE)) ++
                   [(COUNTER_WINDOW_SIZE + 1, true); (0, false)])
  && selftest_run (all_true (reverse (upto 1 COUNTER_WINDOW_SIZE)) ++
                   [(0, true); (COUNTER_WINDOW_SIZE + 1, true)]).

(** ** Abstract specification

    The receiver's promise: a nonce is accepted iff it is below the limit, new,
    and not more than the window behind the high-water mark. *)

Definition window_accepts (high : Z) (seen : gset Z) (n : Z) : bool :=
  (n <? REJECT_AFTER_MESSAGES) && (high <=? COUNTER_WINDOW_SIZE + (n + 1)) &&
  bool_decide (n ∉ seen).

Definition window_step (st : Z * gset Z) (n : Z) : (Z * gset Z) * bool :=
  let '(high, seen) := st in
  if window_accepts high seen n
  then ((Z.max high (n + 1), {[n]} ∪ seen), true)
  else (st, false).

(** The bit the ring holds for the (1-based) counter value [t]. *)
Definition bt_bit (bt : list Z) (t : Z) : bool :=
  Z.testbit (nth (Z.to_nat ((t / 64) mod 128)) bt 0) (t mod 64).

(** The coupling of the ring with the set of accepted nonces: the 128 blocks up
    to the one holding the high-water mark are exactly the membership bits. *)
Record window_rel (c : noise_replay_counter) (st : Z * gset Z) : Prop := {
  wr_high : counter c = st.1;
  wr_range : 0 <= st.1 <= REJECT_AFTER_MESSAGES;
  wr_len : length (backtrack c) = 128%nat;
  wr_seen : ∀ n, n ∈ st.2 → 0 <= n < st.1;
  wr_bits : ∀ t, 0 <= t → st.1 / 64 - 127 <= t / 64 <= st.1 / 64 →
    bt_bit (backtrack c) t = bool_decide (t - 1 ∈ st.2);
}.

(** Running a sequence of received nonces. *)
Fixpoint validate_all (c : noise_replay_counter) (ns : list Z) :
    noise_replay_counter * list bool :=
  match ns with
  | [] => (c, [])
  | n :: ns =>
      let '(c, r) := counter_validate c n in
      let '(c, rs) := validate_all c ns in (c, r :: rs)
  end.

Fixpoint window_all (st : Z * gset Z) (ns : list Z) : (Z * gset Z) * list bool :=
  match ns with
  | [] => (st, [])
  | n :: ns =>
      let '(st, r) := window_step st n in
      let '(st, rs) := window_all st ns in (st, r :: rs)
  end.

(** The nonces of [ns] that were accepted. *)
Fixpoint accepted (ns : list Z) (rs : list bool) : list Z :=
  match ns, rs with
  | n :: ns, true :: rs => n :: accepted ns rs
  | _ :: ns, false :: rs => accepted ns rs
  | _, _ => []
  end.

(** ** Arithmetic of the ring *)

Lemma land_127 x : Z.land x (nwords - 1) = x mod 128.
Proof. change (nwords - 1) with (Z.ones 7). rewrite Z.land_ones; done. Qed.

Lemma land_63 x : Z.land x (BITS_PER_LONG - 1) = x mod 64.
Proof. change (BITS_PER_LONG - 1) with (Z.ones 6). rewrite Z.land_ones; done. Qed.

Lemma shiftr_6 x : Z.shiftr x (Z.log2 BITS_PER_LONG) = x / 64.
Proof. change (Z.log2 BITS_PER_LONG) with 6. by rewrite Z.shiftr_div_pow2. Qed.

Lemma length_clear_words top ic bt : length (clear_words top ic bt) = length bt.
Proof.
  unfold clear_words. generalize (seq 1 top). intros l. revert bt.
  induction l as [|i l IH]; intros bt; [done|]. simpl. by rewrite IH, length_insert.
Qed.

Lemma nth_insert_list (l : list Z) i j x d :
  (i < length l)%nat →
  nth j (<[i := x]> l) d = if decide (i = j) then x else nth j l d.
Proof.
  intros Hi. rewrite !nth_lookup. case_decide as E; subst.
  - by rewrite list_lookup_insert_eq.
  - by rewrite list_lookup_insert_ne.
Qed.

Lemma clear_words_S top ic bt :
  clear_words (S top) ic bt =
  <[Z.to_nat (Z.land (u64 (Z.of_nat (S top) + ic)) (nwords - 1)) := 0]> (clear_words top ic bt).
Proof. unfold clear_words. rewrite seq_S, fold_left_app. done. Qed.

(** [clear_words] zeroes the blocks [ic + 1 .. ic + top] and keeps the others. *)
Lemma clear_words_hit top ic bt j i :
  0 <= ic → Z.of_nat top + ic < 2 ^ 64 → length bt = 128%nat →
  1 <= i <= Z.of_nat top → (i + ic) mod 128 = j →
  nth (Z.to_nat j) (clear_words top ic bt) 0 = 0.
Proof.
  intros Hic Hov Hl Hi Hj. induction top as [|top IH]; [lia|].
  rewrite clear_words_S, nth_insert_list.
  - rewrite land_127, wrap_id by (split; lia).
    case_decide as E; [done|]. apply IH; [lia|].
    destruct (decide (i = Z.of_nat (S top))) as [->|]; [|lia]. by subst j.
  - rewrite length_clear_words, Hl, land_127.
    pose proof (Z.mod_pos_bound (u64 (Z.of_nat (S top) + ic)) 128). lia.
Qed.

Lemma clear_words_miss top ic bt j :
  0 <= ic → Z.of_nat top + ic < 2 ^ 64 → length bt = 128%nat → 0 <= j →
  (∀ i, 1 <= i <= Z.of_nat top → (i + ic) mod 128 ≠ j) →
  nth (Z.to_nat j) (clear_words top ic bt) 0 = nth (Z.to_nat j) bt 0.
Proof.
  intros Hic Hov Hl Hj Hmiss. induction top as [|top IH]; [done|].
  rewrite clear_words_S, nth_insert_list.
  - rewrite land_127, wrap_id by (split; lia).
    pose proof (Z.mod_pos_bound (Z.of_nat (S top) + ic) 128).
    case_decide as E.
    + destruct (Hmiss (Z.of_nat (S top))); lia.
    + apply IH; [lia|]. intros i Hi. apply Hmiss. lia.
  - rewrite length_clear_words, Hl, land_127.
    pose proof (Z.mod_pos_bound (u64 (Z.of_nat (S top) + ic)) 128). lia.
Qed.

(** Setting the bit of [t0] changes the bit of [t0] only, among counter values
    whose blocks are less than 128 apart. *)
Lemma bt_bit_set bt t0 t :
  length bt = 128%nat → 0 <= t0 → 0 <= t → -128 < t / 64 - t0 / 64 < 128 →
  bt_bit (<[Z.to_nat ((t0 / 64) mod 128) :=
             Z.lor (nth (Z.to_nat ((t0 / 64) mod 128)) bt 0) (Z.shiftl 1 (t0 mod 64))]> bt) t =
  bool_decide (t = t0) || bt_bit bt t.
Proof.
  intros Hl H0 Ht Hd. unfold bt_bit.
  pose proof (Z.mod_pos_bound (t0 / 64) 128). pose proof (Z.mod_pos_bound (t / 64) 128).
  pose proof (Z.mod_pos_bound t0 64). pose proof (Z.mod_pos_bound t 64).
  rewrite nth_insert_list by lia. case_decide as E.
  - assert (t / 64 = t0 / 64) as Hb by (Z.to_euclidean_division_equations; lia).
    rewrite Hb, Z.lor_spec, orb_comm, Z.shiftl_1_l, Z.pow2_bits_eqb by lia. f_equal.
    case_bool_decide as Eq; [subst; apply Z.eqb_refl|].
    apply Z.eqb_neq. intros Hm. apply Eq.
    rewrite (Z.div_mod t 64), (Z.div_mod t0 64) by lia. lia.
  - case_bool_decide as Eq; [|done]. subst. done.
Qed.

(** ** The refinement *)

Lemma window_rel_init : window_rel counter_init (0, ∅).
Proof.
  split; cbn [fst snd]; [done| |done|set_solver|].
  - unfold REJECT_AFTER_MESSAGES, U64_MAX, COUNTER_WINDOW_SIZE, COUNTER_BITS_TOTAL,
      COUNTER_REDUNDANT_BITS, BITS_PER_LONG. lia.
  - intros t Ht _. unfold bt_bit, counter_init. cbn [backtrack]. rewrite nth_lookup.
    replace (default 0 _) with 0; [by rewrite Z.bits_0, bool_decide_false by set_solver|].
    destruct (_ !! _) as [x|] eqn:E; [|done]. by apply lookup_replicate in E as [-> _].
Qed.

Ltac limits :=
  unfold REJECT_AFTER_MESSAGES, U64_MAX, COUNTER_WINDOW_SIZE, COUNTER_BITS_TOTAL,
    COUNTER_REDUNDANT_BITS, BITS_PER_LONG in *.

(** Moving the high-water mark forward keeps the membership bits of the blocks
    that stay in the ring and clears the ones that enter it. *)
Lemma advance_bits c st t1 t :
  window_rel c st → st.1 < t1 <= REJECT_AFTER_MESSAGES →
  0 <= t → t1 / 64 - 127 <= t / 64 <= t1 / 64 →
  bt_bit (clear_words (Z.to_nat (Z.min (u64 (t1 / 64 - st.1 / 64)) nwords)) (st.1 / 64)
            (backtrack c)) t = bool_decide (t - 1 ∈ st.2).
Proof.
  intros R Ht1 Ht Hb. pose proof (wr_range _ _ R) as Hr. pose proof (wr_len _ _ R) as Hl.
  assert (0 <= st.1 / 64 <= t1 / 64) by (split; [apply Z.div_pos|apply Z.div_le_mono]; lia).
  assert (t1 / 64 < 2 ^ 60) by (limits; apply Z.div_lt_upper_bound; lia).
  change nwords with 128. rewrite (wrap_id 64) by (split; lia).
  set (top := Z.min (t1 / 64 - st.1 / 64) 128).
  assert (0 <= top <= 128) as Htop by lia.
  pose proof (Z.mod_pos_bound (t / 64) 128).
  destruct (decide (t / 64 <= st.1 / 64)) as [Hold|Hnew].
  - rewrite <- (wr_bits _ _ R) by lia. unfold bt_bit. f_equal.
    apply clear_words_miss; [lia|lia|done|lia|].
    intros i Hi E. rewrite Z2Nat.id in Hi by lia.
    Z.to_euclidean_division_equations; lia.
  - rewrite bool_decide_false.
    + unfold bt_bit. rewrite (clear_words_hit _ _ _ _ ((t / 64 - st.1 / 64 - 1) mod 128 + 1));
        [apply Z.bits_0|lia|lia|done| |].
      * rewrite Z2Nat.id by lia. Z.to_euclidean_division_equations; lia.
      * Z.to_euclidean_division_equations; lia.
    + intros Hin. apply (wr_seen _ _ R) in Hin.
      apply Hnew, Z.div_le_mono; lia.
Qed.

(** The common tail of [counter_validate]: test and set the bit of [t1] in a
    ring that already satisfies the relation for the mark [h1]. *)
Lemma set_bit_rel bt seen h1 t1 :
  length bt = 128%nat → 0 < t1 <= h1 → h1 <= REJECT_AFTER_MESSAGES →
  h1 <= COUNTER_WINDOW_SIZE + t1 →
  (∀ n, n ∈ seen → 0 <= n < h1) →
  (∀ t, 0 <= t → h1 / 64 - 127 <= t / 64 <= h1 / 64 → bt_bit bt t = bool_decide (t - 1 ∈ seen)) →
  let r := test_and_set_bit (t1 mod 64) (Z.to_nat ((t1 / 64) mod 128)) bt in
  r.1 = bool_decide (t1 - 1 ∈ seen) ∧
  window_rel (mk_noise_replay_counter h1 r.2) (h1, {[t1 - 1]} ∪ seen).
Proof.
  intros Hl Ht Hh Hw Hseen Hbits. cbn [test_and_set_bit fst snd].
  assert (h1 / 64 - 127 <= t1 / 64 <= h1 / 64) as Hblk.
  { limits. split; [|apply Z.div_le_mono; lia].
    assert (h1 / 64 <= (t1 + 127 * 64) / 64) by (apply Z.div_le_mono; lia).
    rewrite Z.div_add in * by lia. lia. }
  split; [by apply Hbits; lia|].
  split; cbn [counter backtrack fst snd].
  - done.
  - lia.
  - by rewrite length_insert.
  - intros n [->%elem_of_singleton|Hn]%elem_of_union; [lia|by apply Hseen].
  - intros t H0 Hb. rewrite bt_bit_set by lia. rewrite Hbits by lia.
    repeat case_bool_decide; simpl; try done; set_solver by lia.
Qed.

(** One call: the answer is the specification's and the relation is kept. *)
Lemma counter_validate_step c st n :
  window_rel c st → fits 64 n →
  (counter_validate c n).2 = (window_step st n).2 ∧
  window_rel (counter_validate c n).1 (window_step st n).1.
Proof.
  intros R Hn. pose proof (wr_range _ _ R) as Hr. destruct st as [h seen]. cbn [fst snd] in *.
  unfold counter_validate, window_step, window_accepts. rewrite (wr_high _ _ R). cbn [fst].
  rewrite (proj2 (Z.leb_gt (REJECT_AFTER_MESSAGES + 1) h)) by lia. cbn [orb].
  destruct (Z.leb_spec REJECT_AFTER_MESSAGES n) as [Hbig|Hsmall].
  { rewrite (proj2 (Z.ltb_ge _ _)) by lia. done. }
  rewrite (proj2 (Z.ltb_lt n _)) by lia. cbn [andb].
  unfold fits in Hn.
  rewrite (wrap_id 64 (n + 1)) by (limits; split; lia).
  rewrite (wrap_id 64 (COUNTER_WINDOW_SIZE + (n + 1))) by (limits; split; lia).
  destruct (Z.ltb_spec (COUNTER_WINDOW_SIZE + (n + 1)) h) as [Hout|Hin].
  { rewrite (proj2 (Z.leb_gt h _)) by lia. done. }
  rewrite (proj2 (Z.leb_le h _)) by lia. cbn [andb].
  rewrite shiftr_6, shiftr_6, land_127, land_63.
  set (c1 := if h <? n + 1 then _ else c).
  assert (counter c1 = Z.max h (n + 1) ∧ length (backtrack c1) = 128%nat ∧
    ∀ t, 0 <= t → Z.max h (n + 1) / 64 - 127 <= t / 64 <= Z.max h (n + 1) / 64 →
      bt_bit (backtrack c1) t = bool_decide (t - 1 ∈ seen)) as (Hc1 & Hl1 & Hb1).
  { subst c1. destruct (Z.ltb_spec h (n + 1)) as [Hadv|Hnadv]; cbn [counter backtrack].
    - rewrite Z.max_r by lia. rewrite length_clear_words. split_and!; [done|apply (wr_len _ _ R)|].
      intros t H0 Hb. by apply (advance_bits c (h, seen) (n + 1) t R); [cbn; lia|..].
    - rewrite Z.max_l by lia. split_and!; [apply (wr_high _ _ R)|apply (wr_len _ _ R)|].
      apply (wr_bits _ _ R). }
  destruct (set_bit_rel (backtrack c1) seen (Z.max h (n + 1)) (n + 1)) as [Hret Hrel];
    [done|lia|lia|limits; lia| |done|].
  { intros m Hm. apply (wr_seen _ _ R) in Hm. cbn in Hm. lia. }
  replace (n + 1 - 1) with n in * by lia.
  destruct (test_and_set_bit _ _ _) as [old bt]. cbn [fst snd] in *. subst old.
  rewrite <- bool_decide_not. rewrite Hc1.
  case_bool_decide as Hs; cbn [fst snd]; split; try done.
  apply (wr_seen _ _ R) in Hs as Hh. cbn in Hh.
  rewrite Z.max_l in Hrel |- * by lia.
  assert ({[n]} ∪ seen = seen) as Heq by (clear -Hs; set_solver). by rewrite Heq in Hrel.
Qed.

Lemma validate_all_refines c st ns :
  window_rel c st → Forall (fits 64) ns →
  (validate_all c ns).2 = (window_all st ns).2 ∧
  window_rel (validate_all c ns).1 (window_all st ns).1.
Proof.
  intros R Hns. revert c st R. induction Hns as [|n ns Hn Hns IH]; intros c st R; [done|].
  cbn [validate_all window_all].
  destruct (counter_validate_step c st n R Hn) as [Hr R'].
  destruct (counter_validate c n) as [c' r]. destruct (window_step st n) as [st' r'].
  cbn [fst snd] in *. subst r'. destruct (IH _ _ R') as [Hrs R''].
  destruct (validate_all c' ns), (window_all st' ns). cbn [fst snd] in *. by subst.
Qed.

(** The specification accepts no nonce twice. *)
Lemma window_accepted_new st ns :
  NoDup (accepted ns (window_all st ns).2) ∧
  (∀ n, n ∈ accepted ns (window_all st ns).2 → n ∉ st.2).
Proof.
  revert st. induction ns as [|n ns IH]; intros [h seen]; cbn [window_all].
  { split; [constructor|]. intros n []%not_elem_of_nil. }
  unfold window_step. destruct (window_accepts h seen n) eqn:E.
  - apply andb_true_iff in E as [_ Hn%bool_decide_eq_true].
    specialize (IH (Z.max h (n + 1), {[n]} ∪ seen)).
    destruct (window_all _ ns) as [st' rs]. cbn [fst snd accepted] in *.
    destruct IH as [Hnd Hin]. split.
    + constructor; [|done]. intros Hx%Hin. set_solver.
    + intros m [->|Hm%Hin]%elem_of_cons; [done|set_solver].
  - specialize (IH (h, seen)). destruct (window_all _ ns) as [st' rs]. done.
Qed.

(** The specification accepts a list of new, distinct nonces that all fit in
    one window. *)
Lemma window_accepts_fresh h seen ns hi :
  NoDup ns → (∀ n, n ∈ ns → n ∉ seen) → h <= hi →
  Forall (fun n => 0 <= n < REJECT_AFTER_MESSAGES ∧ n + 1 <= hi <= COUNTER_WINDOW_SIZE + (n + 1)) ns →
  (window_all (h, seen) ns).2 = map (fun _ => true) ns ∧
  (window_all (h, seen) ns).1.1 <= hi ∧
  (∀ n, n ∈ ns → n + 1 <= (window_all (h, seen) ns).1.1) ∧
  h <= (window_all (h, seen) ns).1.1 ∧
  (window_all (h, seen) ns).1.2 = list_to_set ns ∪ seen.
Proof.
  intros Hnd. revert h seen. induction Hnd as [|n ns Hn Hnd IH]; intros h seen Hnew Hh Hf.
  { simpl. split_and!; [done|lia|by intros ? ?%elem_of_nil|done|set_solver]. }
  apply Forall_cons in Hf as [(Hr & Hw) Hf]. cbn [window_all window_step].
  unfold window_accepts.
  rewrite (proj2 (Z.ltb_lt _ _)), (proj2 (Z.leb_le _ _)), bool_decide_true
    by (lia || apply Hnew; left). cbn [andb].
  destruct (IH (Z.max h (n + 1)) ({[n]} ∪ seen)) as (H1 & H2 & H3 & H4 & H5); [set_solver|lia|done|].
  destruct (window_all _ ns) as [st' rs]. cbn [fst snd] in *. subst rs.
  split_and!; [done|done| |lia|rewrite H5; clear; set_solver].
  intros m [->|Hm%H3]%elem_of_cons; lia.
Qed.

Lemma window_all_app st a b :
  window_all st (a ++ b) =
  let '(st, ra) := window_all st a in
  let '(st, rb) := window_all st b in (st, ra ++ rb).
Proof.
  revert st. induction a as [|n a IH]; intros st; cbn [app window_all].
  { by destruct (window_all st b). }
  destruct (window_step st n) as [st1 r]. rewrite IH.
  destruct (window_all st1 a) as [st2 ra]. by destruct (window_all st2 b).
Qed.

(** ** The self-test through the refinement *)

Lemma selftest_run_window tests :
  Forall (fits 64) (map fst tests) →
  (window_all (0, ∅) (map fst tests)).2 = map snd tests → selftest_run tests = true.
Proof.
  intros Hf Hw. unfold selftest_run.
  pose proof (validate_all_refines _ _ _ window_rel_init Hf) as [Hv _].
  rewrite <- Hv in Hw. clear Hv Hf. revert Hw. generalize counter_init.
  assert (∀ b c, (validate_all c (map fst tests)).2 = map snd tests →
            snd (fold_left selftest_T tests (c, b)) = b) as H; [|by intros; apply H].
  induction tests as [|[n v] tests IH]; intros b c; [done|].
  cbn [map fst snd validate_all fold_left selftest_T].
  destruct (counter_validate c n) as [c' r].
  destruct (validate_all c' (map fst tests)) as [c'' rs] eqn:E. cbn [snd].
  intros [= -> Hrs]. rewrite IH by (by rewrite E). by rewrite eqb_reflx, andb_true_r.
Qed.

Lemma upto_in a b x : x ∈ upto a b ↔ a <= x <= b.
Proof. unfold upto. rewrite elem_of_seqZ. lia. Qed.

Lemma upto_NoDup a b : NoDup (upto a b).
Proof. apply NoDup_seqZ. Qed.

(** A run over one window of fresh nonces [ns] (all accepted), then [rest]. *)
Lemma selftest_run_fresh ns rest hi :
  NoDup ns → hi < 2 ^ 20 →
  (∀ n, n ∈ ns → 0 <= n ∧ n + 1 <= hi <= COUNTER_WINDOW_SIZE + (n + 1)) →
  (∃ n, n ∈ ns ∧ n + 1 = hi) →
  Forall (fits 64) (map fst rest) →
  (∀ seen : gset Z, (∀ x, x ∈ seen ↔ x ∈ ns) →
    (window_all (hi, seen) (map fst rest)).2 = map snd rest) →
  selftest_run (all_true ns ++ rest) = true.
Proof.
  intros Hnd Hhi Hns [m [Hm Hmhi]] Hrest Hwr.
  assert (map fst (all_true ns) = ns) as Hfst.
  { unfold all_true. rewrite map_map. apply map_id. }
  apply selftest_run_window; rewrite !map_app, Hfst.
  - apply Forall_app. split; [|done]. apply Forall_forall. intros n Hn%Hns. limits.
    split; lia.
  - destruct (window_accepts_fresh 0 ∅ ns hi) as (H1 & H2 & H3 & H4 & H5).
    + done.
    + set_solver.
    + apply Hns in Hm. lia.
    + apply Forall_forall. intros n Hn%Hns. limits. lia.
    + rewrite window_all_app. destruct (window_all (0, ∅) ns) as [[h s] rs]. cbn [fst snd] in *.
      specialize (H3 m Hm). rewrite (right_id_L ∅ (∪)) in H5. subst.
      specialize (Hwr (list_to_set ns) ltac:(intros x; apply elem_of_list_to_set)).
      replace h with (m + 1) by lia.
      destruct (window_all _ (map fst rest)) as [st' rb]. cbn [snd] in *. subst.
      f_equal. unfold all_true. by rewrite map_map.
Qed.

Lemma selftest_run_nil ns : selftest_run (all_true ns ++ []) = true → selftest_run (all_true ns) = true.
Proof. by rewrite app_nil_r. Qed.

Ltac window_rest :=
  let seen := fresh "seen" in let Hs := fresh "Hs" in
  intros seen Hs; cbn [map fst snd window_all]; unfold window_step, window_accepts;
  repeat match goal with
  | |- context [?a <? ?b] => rewrite (proj2 (Z.ltb_lt a b)) by (limits; lia)
  | |- context [?a <=? ?b] =>
      first [rewrite (proj2 (Z.leb_le a b)) by (limits; lia)
            |rewrite (proj2 (Z.leb_gt a b)) by (limits; lia)]
  | |- context [bool_decide ?P] =>
      first [rewrite (bool_decide_true P)
               by (rewrite ?elem_of_union, ?elem_of_singleton, Hs, ?elem_of_reverse, upto_in;
                   limits; lia)
            |rewrite (bool_decide_false P)
               by (rewrite ?elem_of_union, ?elem_of_singleton, Hs, ?elem_of_reverse, upto_in;
                   limits; lia)]
  | |- context [andb _ _] => progress cbn [andb]
  end; reflexivity.

Ltac fresh_run hi0 n0 :=
  apply (selftest_run_fresh _ _ hi0);
  [ rewrite ?reverse_Permutation; apply upto_NoDup
  | limits; lia
  | intros n; rewrite ?elem_of_reverse, upto_in; limits; lia
  | exists n0; rewrite ?elem_of_reverse, upto_in; limits; lia
  | cbn [map fst]; repeat apply Forall_cons_2; try apply Forall_nil_2; unfold fits; limits; lia
  | window_rest ].

(** ** Theorems *)

(** C5: over any sequence of received nonces the bitmap gives exactly the
    answers of the set specification: accepted iff below the limit, not behind the
    window, and not accepted before. *)
Theorem counter_validate_refines_window ns :
  Forall (fits 64) ns →
  (validate_all counter_init ns).2 = (window_all (0, ∅) ns).2.
Proof. intros H. by apply (validate_all_refines _ _ _ window_rel_init). Qed.

Lemma counter_validate_refines_window_witness :
  (validate_all counter_init [5; 5; 9000; 5; 900; 871]).2 =
  (window_all (0, ∅) [5; 5; 9000; 5; 900; 871]).2.
Proof. apply counter_validate_refines_window. repeat constructor; lia. Defined.

(** C10: anti-replay: in any sequence of received nonces no nonce is accepted
    twice. *)
Theorem counter_validate_no_replay ns :
  Forall (fits 64) ns → NoDup (accepted ns (validate_all counter_init ns).2).
Proof.
  intros H. destruct (validate_all_refines _ _ _ window_rel_init H) as [-> _].
  apply window_accepted_new.
Qed.

Lemma counter_validate_no_replay_witness :
  NoDup (accepted [7; 3; 7; 3] (validate_all counter_init [7; 3; 7; 3]).2).
Proof. apply counter_validate_no_replay. repeat constructor; lia. Defined.

(** The self-test the module runs at load time (34 vectors and the six
    whole-window sweeps) passes. *)
Theorem wg_packet_counter_selftest_passes : wg_packet_counter_selftest = true.
Proof.
  unfold wg_packet_counter_selftest.
  repeat match goal with |- (_ && _) = true => apply andb_true_intro; split end.
  - vm_compute. reflexivity.
  - fresh_run (COUNTER_WINDOW_SIZE + 1) COUNTER_WINDOW_SIZE.
  - fresh_run (COUNTER_WINDOW_SIZE + 2) (COUNTER_WINDOW_SIZE + 1).
  - apply selftest_run_nil.
    fresh_run (COUNTER_WINDOW_SIZE + 1) COUNTER_WINDOW_SIZE.
  - fresh_run (COUNTER_WINDOW_SIZE + 2) (COUNTER_WINDOW_SIZE + 1).
  - fresh_run (COUNTER_WINDOW_SIZE + 1) COUNTER_WINDOW_SIZE.
  - fresh_run (COUNTER_WINDOW_SIZE + 1) COUNTER_WINDOW_SIZE.
Qed.
