(* ===== verification/Napi.v ===== *)
(** * NAPI scheduling state (net/core/dev.c)

    The life of one [napi_struct]: [napi_schedule_prep], [__napi_schedule],
    [napi_complete_done], [napi_disable_locked], [napi_enable_locked] and
    [__napi_poll].  The state word is a 64-bit mask and the code's branch-free
    updates ([(val & SCHED) / SCHED * MISSED]) are written out.  The positions of
    the [NAPI_STATE_*] bits come from a header that is not part of the tree, so
    they are a parameter, [NapiBits], of which only distinctness is used.  A
    [cmpxchg] loop is its successful iteration: one atomic read-modify-write.

    Theorems: the masks do what the comments say (SCHED/MISSED hand-over), and a
    wake-up posted while a poll is running is never lost by the completion. *)

From S2P Require Import Prelude.

(** ** The state bits *)

Class NapiBits := {
  NAPI_STATE_SCHED : Z;
  NAPI_STATE_MISSED : Z;
  NAPI_STATE_DISABLE : Z;
  NAPI_STATE_NPSVC : Z;
  NAPI_STATE_LISTED : Z;
  NAPI_STATE_NO_BUSY_POLL : Z;
  NAPI_STATE_IN_BUSY_POLL : Z;
  NAPI_STATE_PREFER_BUSY_POLL : Z;
  NAPI_STATE_THREADED : Z;
  NAPI_STATE_SCHED_THREADED : Z;
  NAPI_STATE_THREADED_BUSY_POLL : Z;
}.

Definition napi_bits `{NapiBits} : list Z :=
  [NAPI_STATE_SCHED; NAPI_STATE_MISSED; NAPI_STATE_DISABLE; NAPI_STATE_NPSVC;
   NAPI_STATE_LISTED; NAPI_STATE_NO_BUSY_POLL; NAPI_STATE_IN_BUSY_POLL;
   NAPI_STATE_PREFER_BUSY_POLL; NAPI_STATE_THREADED; NAPI_STATE_SCHED_THREADED;
   NAPI_STATE_THREADED_BUSY_POLL].

(** What the code relies on: distinct positions inside an [unsigned long]. *)
Class NapiBitsOk `{NapiBits} : Prop := {
  napi_bits_nodup : NoDup napi_bits;
  napi_bits_range : Forall (fun b => 0 <= b < 64) napi_bits;
}.

(** [BIT(b)], [test_bit], [set_bit], [clear_bit] on a word. *)
Definition BIT (b : Z) : Z := Z.shiftl 1 b.
Definition test_bit (b v : Z) : bool := Z.testbit v b.
Definition set_bit (b v : Z) : Z := Z.lor v (BIT b).
Definition clear_bit (b v : Z) : Z := Z.ldiff v (BIT b).

(** The fields of [struct napi_struct] the scheduling code touches.
    [on_poll_list] is [!list_empty(&n->poll_list)], [thread] whether
    [napi->thread] is set, [gro_pending] whether [n->gro.bitmask] is non-zero,
    [wakeups] counts [wake_up_process(thread)], [timer] the armed gro-flush
    timeout. *)
Record napi_struct := mk_napi_struct {
  state : Z;
  weight : Z;
  defer_hard_irqs_count : Z;
  gro_pending : bool;
  on_poll_list : bool;
  list_owner : Z;
  thread : bool;
  wakeups : nat;
  timer : option Z;
}.

#[export] Instance settable_napi : Settable napi_struct := fun n =>
  mk_napi_struct (state n) (weight n) (defer_hard_irqs_count n) (gro_pending n)
    (on_poll_list n) (list_owner n) (thread n) (wakeups n) (timer n).

(** The per-CPU [softnet_data] as [____napi_schedule] sees it. *)
Record softnet_data := mk_softnet_data {
  cpu : Z;
  in_net_rx_action : bool;
  net_rx_softirq_raised : bool;
  is_backlog_thread : bool; (* use_backlog_threads() && thread == backlog_napi *)
}.

#[export] Instance settable_softnet : Settable softnet_data := fun s =>
  mk_softnet_data (cpu s) (in_net_rx_action s) (net_rx_softirq_raised s) (is_backlog_thread s).

Section Napi.
Context `{NapiBits}.

(** [____napi_schedule], called by [__napi_schedule] with interrupts off. *)
Definition ____napi_schedule (sd : softnet_data) (napi : napi_struct) : softnet_data * napi_struct :=
  if test_bit NAPI_STATE_THREADED (state napi) && thread napi && negb (is_backlog_thread sd)
  then (sd, napi <| state := set_bit NAPI_STATE_SCHED_THREADED (state napi) |>
                 <| wakeups := S (wakeups napi) |>)
  else
    let napi := napi <| on_poll_list := true |> <| list_owner := cpu sd |> in
    let sd := if in_net_rx_action sd then sd else sd <| net_rx_softirq_raised := true |> in
    (sd, napi).

Definition __napi_schedule (sd : softnet_data) (n : napi_struct) : softnet_data * napi_struct :=
  ____napi_schedule sd n.

(** [napi_schedule_prep]: the new state word and the result. *)
Definition napi_schedule_prep_word (val : Z) : Z * bool :=
  if negb (Z.land val (BIT NAPI_STATE_DISABLE) =? 0) then (val, false)
  else
    let new := Z.lor val (BIT NAPI_STATE_SCHED) in
    let new := Z.lor new (Z.land val (BIT NAPI_STATE_SCHED) / BIT NAPI_STATE_SCHED *
                            BIT NAPI_STATE_MISSED) in
    (new, Z.land val (BIT NAPI_STATE_SCHED) =? 0).

Definition napi_schedule_prep (n : napi_struct) : napi_struct * bool :=
  let '(new, ret) := napi_schedule_prep_word (state n) in (n <| state := new |>, ret).

(** [napi_schedule] of netdevice.h: prepare, and schedule when it succeeds. *)
Definition napi_schedule (sd : softnet_data) (n : napi_struct) : softnet_data * napi_struct * bool :=
  let '(n, ok) := napi_schedule_prep n in
  if ok then (let '(sd, n) := __napi_schedule sd n in (sd, n, true)) else (sd, n, false).

(** The masking done by the loop of [napi_complete_done]. *)
Definition napi_complete_word (val : Z) : Z :=
  let new := Z.ldiff val
    (Z.lor (Z.lor (BIT NAPI_STATE_MISSED) (BIT NAPI_STATE_SCHED))
           (Z.lor (BIT NAPI_STATE_SCHED_THREADED) (BIT NAPI_STATE_PREFER_BUSY_POLL))) in
  Z.lor new (Z.land val (BIT NAPI_STATE_MISSED) / BIT NAPI_STATE_MISSED * BIT NAPI_STATE_SCHED).

(** [napi_complete_done].  [gro_flush_timeout] and [defer_hard_irqs] are the
    per-NAPI settings read by [napi_get_gro_flush_timeout] and
    [napi_get_defer_hard_irqs]; [gro_flush_normal] passes held packets up, which
    empties the GRO lists unless a timeout keeps young packets back. *)
Definition napi_complete_done (gro_flush_timeout defer_hard_irqs : Z)
    (gro_flush_normal : bool -> bool -> bool)
    (sd : softnet_data) (n : napi_struct) (work_done : Z) : softnet_data * napi_struct * bool :=
  if negb (Z.land (state n)
       (Z.lor (BIT NAPI_STATE_NPSVC) (BIT NAPI_STATE_IN_BUSY_POLL)) =? 0)
  then (sd, n, false)
  else
    let '(timeout, n) :=
      if negb (work_done =? 0)
      then ((if gro_pending n then gro_flush_timeout else 0),
            n <| defer_hard_irqs_count := defer_hard_irqs |>)
      else (0, n) in
    let '(timeout, ret, n) :=
      if 0 <? defer_hard_irqs_count n
      then (gro_flush_timeout, gro_flush_timeout =? 0,
            n <| defer_hard_irqs_count := defer_hard_irqs_count n - 1 |>)
      else (timeout, true, n) in
    let n := n <| gro_pending := gro_flush_normal (negb (timeout =? 0)) (gro_pending n) |> in
    let n := if on_poll_list n then n <| on_poll_list := false |> else n in
    let n := n <| list_owner := -1 |> in
    let val := state n in
    let n := n <| state := napi_complete_word val |> in
    if negb (Z.land val (BIT NAPI_STATE_MISSED) =? 0)
    then (let '(sd, n) := __napi_schedule sd n in (sd, n, false))
    else
      let n := if negb (timeout =? 0) then n <| timer := Some timeout |> else n in
      (sd, n, ret).

(** [napi_disable_locked]: DISABLE is set first; the loop waits until SCHED and
    NPSVC are clear ([None]: still waiting), then claims both. *)
Definition napi_disable_begin (n : napi_struct) : napi_struct :=
  n <| state := set_bit NAPI_STATE_DISABLE (state n) |>.

Definition napi_disable_try (n : napi_struct) : option napi_struct :=
  let val := state n in
  if negb (Z.land val (Z.lor (BIT NAPI_STATE_SCHED) (BIT NAPI_STATE_NPSVC)) =? 0)
  then None
  else
    let new := Z.lor (Z.lor val (BIT NAPI_STATE_SCHED)) (BIT NAPI_STATE_NPSVC) in
    let new := Z.ldiff new (Z.lor (BIT NAPI_STATE_THREADED)
                 (Z.lor (BIT NAPI_STATE_THREADED_BUSY_POLL) (BIT NAPI_STATE_PREFER_BUSY_POLL))) in
    Some (n <| state := clear_bit NAPI_STATE_DISABLE new |> <| timer := None |>).

(** [napi_enable_locked]; [None] is its BUG_ON. [threaded] is [n->dev->threaded]. *)
Definition napi_enable_locked (threaded : bool) (n : napi_struct) : option napi_struct :=
  let val := state n in
  if test_bit NAPI_STATE_SCHED val then
    let new := Z.ldiff val (Z.lor (BIT NAPI_STATE_SCHED) (BIT NAPI_STATE_NPSVC)) in
    let new := if threaded && thread n then Z.lor new (BIT NAPI_STATE_THREADED) else new in
    Some (n <| state := new |>)
  else None.

(** The end of [__napi_poll], for a poll that used its whole weight; the last
    component is the [repoll] request. *)
Definition napi_poll_exhausted (gro_flush_timeout defer_hard_irqs HZ : Z)
    (gro_flush_normal : bool -> bool -> bool)
    (sd : softnet_data) (n : napi_struct) (work : Z) : softnet_data * napi_struct * bool :=
  if test_bit NAPI_STATE_DISABLE (state n) then
    let '(sd, n, _) := napi_complete_done gro_flush_timeout defer_hard_irqs gro_flush_normal sd n 0 in
    (sd, n, false)
  else if test_bit NAPI_STATE_PREFER_BUSY_POLL (state n) then
    let '(sd, n, done) :=
      napi_complete_done gro_flush_timeout defer_hard_irqs gro_flush_normal sd n work in
    if done : bool then (let '(sd, n, _) := napi_schedule sd n in (sd, n, false))
    else (sd, n, false)
  else
    let n := n <| gro_pending := gro_flush_normal (1000 <=? HZ) (gro_pending n) |> in
    if on_poll_list n then (sd, n, false) else (sd, n, true).

(** [__napi_poll].  [poll] is the driver's callback (for a WireGuard peer,
    [wg_packet_rx_poll]); it is run on a world [W] it shares with the NAPI.  The
    result is the new state, the work done and the [repoll] request. *)
Definition __napi_poll {W : Type} (gro_flush_timeout defer_hard_irqs HZ : Z)
    (gro_flush_normal : bool -> bool -> bool)
    (poll : softnet_data * napi_struct * W -> Z -> (softnet_data * napi_struct * W) * Z)
    (st : softnet_data * napi_struct * W) : (softnet_data * napi_struct * W) * Z * bool :=
  let w := weight st.1.2 in
  let '(st, work) :=
    if test_bit NAPI_STATE_SCHED (state st.1.2) then poll st w else (st, 0) in
  if work <? w then (st, work, false)
  else
    let '(sd, n, x) := st in
    let '(sd, n, repoll) :=
      napi_poll_exhausted gro_flush_timeout defer_hard_irqs HZ gro_flush_normal sd n work in
    ((sd, n, x), work, repoll).

End Napi.

(** ** Single-bit arithmetic *)

Lemma BIT_testbit b j : 0 <= b → Z.testbit (BIT b) j = (b =? j).
Proof. intros Hb. unfold BIT. by rewrite Z.shiftl_1_l, Z.pow2_bits_eqb. Qed.

Lemma BIT_pos b : 0 <= b → 0 < BIT b.
Proof. intros Hb. unfold BIT. rewrite Z.shiftl_1_l. by apply Z.pow_pos_nonneg. Qed.

Lemma land_BIT v b : 0 <= b → Z.land v (BIT b) = if Z.testbit v b then BIT b else 0.
Proof.
  intros Hb. apply Z.bits_inj'. intros j Hj. rewrite Z.land_spec, BIT_testbit by done.
  destruct (Z.eqb_spec b j) as [->|Hne].
  - destruct (Z.testbit v j); [by rewrite BIT_testbit, Z.eqb_refl|by rewrite Z.bits_0].
  - rewrite andb_false_r. destruct (Z.testbit v b); [|by rewrite Z.bits_0].
    rewrite BIT_testbit by done. symmetry. by apply Z.eqb_neq.
Qed.

(** The branch-free idiom [(v & BIT(a)) / BIT(a) * BIT(b)]. *)
Lemma move_bit v a b :
  0 <= a → Z.land v (BIT a) / BIT a * BIT b = if Z.testbit v a then BIT b else 0.
Proof.
  intros Ha. pose proof (BIT_pos a Ha). rewrite land_BIT by done.
  destruct (Z.testbit v a); [rewrite Z.div_same by lia|rewrite Z.div_0_l by lia]; lia.
Qed.

Lemma land_BIT_eqb0 v b : 0 <= b → (Z.land v (BIT b) =? 0) = negb (Z.testbit v b).
Proof.
  intros Hb. pose proof (BIT_pos b Hb). rewrite land_BIT by done.
  destruct (Z.testbit v b); simpl; [apply Z.eqb_neq; lia|done].
Qed.

Lemma land_lor_eqb0 v a b :
  (Z.land v (Z.lor a b) =? 0) = (Z.land v a =? 0) && (Z.land v b =? 0).
Proof.
  rewrite Z.land_lor_distr_r.
  destruct (Z.eqb_spec (Z.land v a) 0) as [->|Ha]; [by rewrite Z.lor_0_l|].
  apply Z.eqb_neq. intros [? _]%Z.lor_eq_0_iff. done.
Qed.

Section NapiBits.
Context `{NapiBitsOk}.

(** Case analysis over two of the named bits: they are non-negative and
    pairwise different. *)
Lemma napi_bits_nonneg b : b ∈ napi_bits → 0 <= b.
Proof. intros Hb. pose proof napi_bits_range as Hr. rewrite Forall_forall in Hr. apply Hr in Hb. lia. Qed.

Lemma napi_bits_distinct i j a b :
  napi_bits !! i = Some a → napi_bits !! j = Some b → i ≠ j → a ≠ b.
Proof. intros Hi Hj Hne ->. apply Hne, (NoDup_lookup napi_bits i j b); auto. apply napi_bits_nodup. Qed.

End NapiBits.

Ltac bit_index l x :=
  match l with
  | cons x _ => constr:(O)
  | cons _ ?l => let n := bit_index l x in constr:(S n)
  end.

Ltac bit_ne :=
  let l := eval unfold napi_bits in napi_bits in
  match goal with |- ?a ≠ ?b =>
    let i := bit_index l a in let j := bit_index l b in
    by apply (napi_bits_distinct i j)
  end.

Ltac bit_pos := apply napi_bits_nonneg; unfold napi_bits; set_solver.

Section NapiFacts.
Context `{NapiBitsOk}.

Lemma napi_schedule_prep_word_spec v b :
  0 <= b →
  Z.testbit (napi_schedule_prep_word v).1 b =
    (if test_bit NAPI_STATE_DISABLE v then Z.testbit v b
     else if b =? NAPI_STATE_SCHED then true
     else if b =? NAPI_STATE_MISSED then test_bit NAPI_STATE_MISSED v || test_bit NAPI_STATE_SCHED v
     else Z.testbit v b) ∧
  (napi_schedule_prep_word v).2 =
    negb (test_bit NAPI_STATE_DISABLE v) && negb (test_bit NAPI_STATE_SCHED v).
Proof.
  intros Hb. unfold napi_schedule_prep_word, test_bit.
  rewrite land_BIT_eqb0 by bit_pos. destruct (Z.testbit v NAPI_STATE_DISABLE); [done|].
  cbn [negb fst snd andb]. rewrite land_BIT_eqb0 by bit_pos. split; [|done].
  rewrite move_bit by bit_pos. rewrite !Z.lor_spec, BIT_testbit by bit_pos.
  rewrite (Z.eqb_sym b NAPI_STATE_SCHED), (Z.eqb_sym b NAPI_STATE_MISSED).
  destruct (Z.eqb_spec NAPI_STATE_SCHED b) as [<-|Hs]; [by rewrite orb_true_r|].
  rewrite orb_false_r. destruct (Z.eqb_spec NAPI_STATE_MISSED b) as [<-|Hm].
  - destruct (Z.testbit v NAPI_STATE_SCHED);
      [by rewrite BIT_testbit, Z.eqb_refl by bit_pos|by rewrite Z.bits_0].
  - destruct (Z.testbit v NAPI_STATE_SCHED); [|by rewrite Z.bits_0, orb_false_r].
    rewrite BIT_testbit by bit_pos. by rewrite (proj2 (Z.eqb_neq _ _)), orb_false_r by done.
Qed.

Lemma napi_complete_word_spec v b :
  0 <= b →
  Z.testbit (napi_complete_word v) b =
    (if b =? NAPI_STATE_SCHED then test_bit NAPI_STATE_MISSED v
     else if (b =? NAPI_STATE_MISSED) || (b =? NAPI_STATE_SCHED_THREADED) ||
             (b =? NAPI_STATE_PREFER_BUSY_POLL) then false
     else Z.testbit v b).
Proof.
  intros Hb. unfold napi_complete_word, test_bit. rewrite move_bit by bit_pos.
  rewrite Z.lor_spec, Z.ldiff_spec, !Z.lor_spec, !BIT_testbit by bit_pos.
  rewrite !(Z.eqb_sym b).
  destruct (Z.eqb_spec NAPI_STATE_SCHED b) as [<-|Hs].
  - rewrite orb_true_r, andb_false_r. cbn [orb negb].
    destruct (Z.testbit v NAPI_STATE_MISSED);
      [by rewrite BIT_testbit, Z.eqb_refl by bit_pos|by rewrite Z.bits_0].
  - replace (Z.testbit (if Z.testbit v NAPI_STATE_MISSED then BIT NAPI_STATE_SCHED else 0) b)
      with false.
    + rewrite !orb_false_r, orb_assoc. by destruct (_ || _ || _); rewrite ?andb_false_r, ?andb_true_r.
    + destruct (Z.testbit v NAPI_STATE_MISSED); [|by rewrite Z.bits_0].
      rewrite BIT_testbit by bit_pos. symmetry. by apply Z.eqb_neq.
Qed.

(** Where [__napi_schedule] leaves a NAPI: its thread was woken, or it is on
    this CPU's poll list and the softirq will look at it. *)
Definition will_be_polled (sd : softnet_data) (before after : napi_struct) : Prop :=
  (test_bit NAPI_STATE_SCHED_THREADED (state after) = true ∧ wakeups after = S (wakeups before)) ∨
  (on_poll_list after = true ∧ (in_net_rx_action sd = true ∨ net_rx_softirq_raised sd = true)).

Lemma schedule_will_be_polled sd n :
  let r := __napi_schedule sd n in
  will_be_polled r.1 n r.2 ∧
  (∀ b, b ≠ NAPI_STATE_SCHED_THREADED → 0 <= b → test_bit b (state r.2) = test_bit b (state n)).
Proof.
  unfold __napi_schedule, ____napi_schedule, will_be_polled, test_bit.
  destruct (_ && _) eqn:E; cbn.
  - unfold set_bit. split.
    + left. by rewrite Z.lor_spec, BIT_testbit, Z.eqb_refl, orb_true_r by bit_pos.
    + intros b Hne Hb. rewrite Z.lor_spec, BIT_testbit by bit_pos.
      by rewrite (proj2 (Z.eqb_neq _ _)), orb_false_r by done.
  - split; [|done]. right. destruct (in_net_rx_action sd) eqn:Es; cbn; auto.
Qed.

(** The completion path of a NAPI that owns its SCHED bit, down to the word
    update: the fields other than the state are bookkeeping. *)
Lemma napi_complete_done_word to df fl sd n work :
  test_bit NAPI_STATE_NPSVC (state n) = false →
  test_bit NAPI_STATE_IN_BUSY_POLL (state n) = false →
  ∃ m m' ret,
    state m' = state m ∧ state m = napi_complete_word (state n) ∧ wakeups m = wakeups n ∧ thread m = thread n ∧
    on_poll_list m = false ∧ on_poll_list m' = false ∧ weight m = weight n ∧ weight m' = weight n ∧
    napi_complete_done to df fl sd n work =
      if test_bit NAPI_STATE_MISSED (state n)
      then (let '(sd, m) := __napi_schedule sd m in (sd, m, false))
      else (sd, m', ret).
Proof.
  intros Hn Hb. unfold napi_complete_done, test_bit in *.
  rewrite land_lor_eqb0, !land_BIT_eqb0, Hn, Hb by bit_pos. cbn [negb andb].
  destruct n as [st w dh gp opl lo th wk tm]. cbn -[napi_complete_word __napi_schedule] in *.
  destruct (negb (work =? 0)); cbn -[napi_complete_word __napi_schedule];
    destruct (0 <? _); cbn -[napi_complete_word __napi_schedule]; destruct opl;
    cbn -[napi_complete_word __napi_schedule]; rewrite land_BIT_eqb0, negb_involutive by bit_pos;
    do 3 eexists; (split_and!; [..|destruct (Z.testbit st NAPI_STATE_MISSED); reflexivity]);
    try reflexivity; by destruct (negb _).
Qed.

(** ** Theorems *)

(** [napi_schedule_prep]'s branch-free update is the intended test-and-set:
    a disabled NAPI is left alone and refuses; otherwise SCHED becomes set, MISSED
    is set exactly when SCHED already was, every other bit is kept, and the call
    succeeds exactly when SCHED was clear. *)
Theorem napi_schedule_prep_correct n :
  let '(n', ok) := napi_schedule_prep n in
  ok = negb (test_bit NAPI_STATE_DISABLE (state n)) && negb (test_bit NAPI_STATE_SCHED (state n)) ∧
  (∀ b, 0 <= b → test_bit b (state n') =
     if test_bit NAPI_STATE_DISABLE (state n) then test_bit b (state n)
     else (b =? NAPI_STATE_SCHED) || test_bit b (state n) ||
          ((b =? NAPI_STATE_MISSED) && test_bit NAPI_STATE_SCHED (state n))).
Proof.
  unfold napi_schedule_prep.
  pose proof (fun b Hb => proj1 (napi_schedule_prep_word_spec (state n) b Hb)) as Hbits.
  pose proof (proj2 (napi_schedule_prep_word_spec (state n) 0 ltac:(lia))) as Hret.
  destruct (napi_schedule_prep_word (state n)) as [new ok]. cbn [fst snd] in *.
  split; [done|]. intros b Hb. unfold test_bit in *. cbn. rewrite Hbits by done.
  destruct (Z.testbit (state n) NAPI_STATE_DISABLE); [done|].
  bdestruct; subst; cbn; rewrite ?orb_true_r, ?orb_false_r; done.
Qed.

(** A wake-up that arrives while the poll is running is never lost: it
    only sets MISSED, and the poll's own [napi_complete_done] then keeps SCHED,
    clears MISSED and puts the NAPI back where it will be polled again. *)
Theorem napi_wake_during_poll_not_lost to df fl sd n work :
  test_bit NAPI_STATE_SCHED (state n) = true →
  test_bit NAPI_STATE_DISABLE (state n) = false →
  test_bit NAPI_STATE_NPSVC (state n) = false →
  test_bit NAPI_STATE_IN_BUSY_POLL (state n) = false →
  let '(sd1, n1, r1) := napi_schedule sd n in
  let '(sd2, n2, r2) := napi_complete_done to df fl sd1 n1 work in
  r1 = false ∧ r2 = false ∧
  test_bit NAPI_STATE_MISSED (state n1) = true ∧
  test_bit NAPI_STATE_SCHED (state n2) = true ∧
  test_bit NAPI_STATE_MISSED (state n2) = false ∧
  will_be_polled sd2 n n2.
Proof.
  intros Hs Hd Hn Hb. unfold napi_schedule, napi_schedule_prep.
  pose proof (fun b Hb => proj1 (napi_schedule_prep_word_spec (state n) b Hb)) as Hbits.
  pose proof (proj2 (napi_schedule_prep_word_spec (state n) 0 ltac:(lia))) as Hret.
  destruct (napi_schedule_prep_word (state n)) as [new ok]. cbn [fst snd] in *.
  rewrite Hd, Hs in *. cbn [negb andb] in Hret. subst ok. cbn.
  match goal with |- context [napi_complete_done to df fl sd ?x work] => set (n1 := x) end.
  assert (∀ b, 0 <= b → b ≠ NAPI_STATE_SCHED → b ≠ NAPI_STATE_MISSED →
            test_bit b (state n1) = test_bit b (state n)) as Hkeep.
  { intros b Hb0 Hb1 Hb2. unfold test_bit. cbn. rewrite Hbits by done.
    by rewrite !(proj2 (Z.eqb_neq _ _)) by done. }
  assert (test_bit NAPI_STATE_MISSED (state n1) = true) as Hm1.
  { unfold test_bit. cbn. rewrite Hbits by bit_pos.
    rewrite (proj2 (Z.eqb_neq _ _)), Z.eqb_refl by bit_ne. apply orb_true_r. }
  destruct (napi_complete_done_word to df fl sd n1 work) as (m & m' & ret & _ & Hst & Hw & _ & _ & _ & _ & _ & ->).
  { rewrite Hkeep; [done|bit_pos|bit_ne|bit_ne]. }
  { rewrite Hkeep; [done|bit_pos|bit_ne|bit_ne]. }
  rewrite Hm1. pose proof (schedule_will_be_polled sd m) as [Hp Hkeep2].
  destruct (__napi_schedule sd m) as [sd2 n2]. cbn [fst snd] in *.
  split_and!; [done|done|done| | |].
  - rewrite Hkeep2, Hst by (bit_ne || bit_pos). unfold test_bit.
    rewrite napi_complete_word_spec, Z.eqb_refl by bit_pos. done.
  - rewrite Hkeep2, Hst by (bit_ne || bit_pos). unfold test_bit.
    rewrite napi_complete_word_spec, (proj2 (Z.eqb_neq _ _)), Z.eqb_refl by (bit_pos || bit_ne). done.
  - unfold will_be_polled in *. rewrite Hw in Hp. done.
Qed.

End NapiFacts.

(** The positions Linux uses satisfy the assumption. *)
Definition linux_bits : NapiBits := {|
  NAPI_STATE_SCHED := 0; NAPI_STATE_MISSED := 1; NAPI_STATE_DISABLE := 2;
  NAPI_STATE_NPSVC := 3; NAPI_STATE_LISTED := 4; NAPI_STATE_NO_BUSY_POLL := 5;
  NAPI_STATE_IN_BUSY_POLL := 6; NAPI_STATE_PREFER_BUSY_POLL := 7; NAPI_STATE_THREADED := 8;
  NAPI_STATE_SCHED_THREADED := 9; NAPI_STATE_THREADED_BUSY_POLL := 11 |}.

Lemma linux_bits_ok : @NapiBitsOk linux_bits.
Proof.
  split; [|unfold napi_bits; simpl; repeat constructor; lia].
  unfold napi_bits. simpl. repeat (apply NoDup_cons; split; [set_solver|]). constructor.
Qed.

Definition napi_running : napi_struct := mk_napi_struct 1 64 0 false false 0 false 0 None.
Definition some_cpu : softnet_data := mk_softnet_data 0 false false false.

Lemma napi_schedule_prep_correct_witness :
  let '(n', ok) := @napi_schedule_prep linux_bits napi_running in
  ok = false ∧ test_bit 1 (state n') = true.
Proof.
  pose proof (@napi_schedule_prep_correct linux_bits linux_bits_ok napi_running) as Hc.
  destruct (@napi_schedule_prep linux_bits napi_running) as [n' ok].
  destruct Hc as [-> Hb]. split; [reflexivity|]. rewrite Hb by lia. reflexivity.
Defined.

Lemma napi_wake_during_poll_not_lost_witness :
  let '(sd1, n1, r1) := @napi_schedule linux_bits some_cpu napi_running in
  let '(sd2, n2, r2) := @napi_complete_done linux_bits 0 0 (fun _ b => b) sd1 n1 3 in
  r1 = false ∧ r2 = false ∧ test_bit 0 (state n2) = true.
Proof.
  pose proof (@napi_wake_during_poll_not_lost linux_bits linux_bits_ok 0 0 (fun _ b => b)
    some_cpu napi_running 3 eq_refl eq_refl eq_refl eq_refl) as Hc.
  destruct (@napi_schedule linux_bits some_cpu napi_running) as [[sd1 n1] r1].
  destruct (@napi_complete_done linux_bits 0 0 _ sd1 n1 3) as [[sd2 n2] r2].
  destruct Hc as (H1 & H2 & _ & H3 & _). auto.
Defined.
