(* ===== verification/Softirq.v ===== *)
(** * The receive softirq and the backlogs (net/core/dev.c)

    [net_rx_action] of every processor with its poll list, the NAPIs it polls,
    the per-processor packet backlogs ([enqueue_to_backlog], [process_backlog])
    and the interrupts between processors that start them ([napi_schedule_rps],
    [net_rps_action_and_irq_enable], [rps_trigger_softirq]), as a step relation:
    interrupts, other processors and devices act between any two steps.  The NAPI
    state words are those of Napi.v.

    A NAPI that is scheduled has exactly one place where it waits, and that place
    is served ([scheduled_napi_served]); packets leave a backlog in the order in
    which they entered it, none is forgotten, and a backlog is bounded
    ([backlog_fifo]); no NAPI is starved by others ([softirq_fair]); a run of the
    softirq does not exceed its budget by more than one poll ([softirq_budget]);
    the flow limit drops only packets of a flow that fills more than half of the
    recent history ([flow_limit_share]).

    The model is the configuration without threaded NAPIs, backlog threads, busy
    polling and netpoll, with all processors on line; the statistics counters are
    left out.  [__netif_receive_skb] is the end of the model, [sn_received] the
    sequence of its calls. *)
From S2P Require Import Prelude Napi.

Inductive napi_id := Backlog (c : nat) | Dev (d : nat).
#[global] Instance napi_id_eq : EqDecision napi_id.
Proof. solve_decision. Defined.

(** Where [net_rx_action] is: about to run the statement after [start], the
    splice, the head of the loop, inside the poll of a NAPI with its quota and the
    packets it has handled, after [in_net_rx_action] was cleared, after the poll
    list was found empty, after the loop. *)
Inductive pc := Idle | Start | Splice | Loop | Polling (n : napi_id) (quota work : Z) | Emptied | CheckRps | Out.

(** [struct softnet_data] with the local variables of [net_rx_action];
    [sn_received], [sn_accepted], [sn_flushed], [sn_polled] and [sn_runs] are histories: packets
    passed up, taken into the backlog and flushed from it, NAPIs polled, runs that
    ended. *)
Record softnet := mk_softnet {
  sn_sd : softnet_data;
  sn_poll_list : list napi_id;
  sn_rps_ipi_list : list nat;
  sn_input_pkt_queue : list nat;
  sn_process_queue : list nat;
  sn_list : list napi_id;
  sn_repoll : list napi_id;
  sn_budget : Z;
  sn_pc : pc;
  sn_received : list nat;
  sn_accepted : list nat;
  sn_flushed : list nat;
  sn_polled : list napi_id;
  sn_runs : nat;
}.

#[export] Instance settable_sn : Settable softnet := fun s =>
  mk_softnet (sn_sd s) (sn_poll_list s) (sn_rps_ipi_list s) (sn_input_pkt_queue s) (sn_process_queue s)
    (sn_list s) (sn_repoll s) (sn_budget s) (sn_pc s) (sn_received s) (sn_accepted s) (sn_flushed s) (sn_polled s) (sn_runs s).

(** [ipis]: the processors an interrupt is on the way to. *)
Record net := mk_net {
  cpus : list softnet;
  napis : napi_id -> napi_struct;
  ipis : list nat;
}.

#[export] Instance settable_net : Settable net := fun s => mk_net (cpus s) (napis s) (ipis s).

Definition set_napi (id : napi_id) (f : napi_struct -> napi_struct) (m : napi_id -> napi_struct) :
    napi_id -> napi_struct :=
  fun x => if decide (x = id) then f (m x) else m x.

Definition upd_cpu (i : nat) (f : softnet -> softnet) (st : net) : net := st <| cpus ::= alter f i |>.
Definition upd_napi (id : napi_id) (f : napi_struct -> napi_struct) (st : net) : net :=
  st <| napis ::= set_napi id f |>.


Section Softirq.
Context `{NapiBits}.

(** What the code reads from sysctls and the devices. *)
Context (gro_flush_timeout defer_hard_irqs HZ : Z) (gro_flush_normal : bool -> bool -> bool).
Context (netdev_budget max_backlog dev_rx_weight : Z) (napi_weight : napi_id -> Z).

(** Running an operation of Napi.v on a NAPI, on processor [i]: it is linked into
    the poll list when the operation says so. *)
Definition napi_op (i : nat) (id : napi_id)
    (op : softnet_data -> napi_struct -> softnet_data * napi_struct) (st : net) : net :=
  match cpus st !! i with
  | None => st
  | Some c =>
    let n := napis st id in
    let '(sd, n') := op (sn_sd c) n in
    let linked := on_poll_list n' && negb (on_poll_list n) in
    upd_napi id (fun _ => n')
      (upd_cpu i (fun c => c <| sn_sd := sd |> <| sn_poll_list ::= fun l => if linked then l ++ [id] else l |>) st)
  end.

(** ** The backlog of a processor *)

(** [napi_schedule_rps], on processor [i] for the backlog of processor [c]. *)
Definition napi_schedule_rps (i c : nat) (st : net) : net :=
  if decide (c = i) then napi_op i (Backlog i) ____napi_schedule st
  else
    upd_cpu i (fun my =>
      let my := my <| sn_rps_ipi_list ::= cons c |> in
      if in_net_rx_action (sn_sd my) then my
      else my <| sn_sd ::= fun sd => sd <| net_rx_softirq_raised := true |> |>) st.

(** [enqueue_to_backlog]: [running] is [netif_running], [limited] the flow
    limit.  The result is whether the packet was taken. *)
Definition enqueue_to_backlog (i c skb : nat) (running limited : bool) (st : net) : option (net * bool) :=
  sd ← cpus st !! c;
  let qlen := Z.of_nat (length (sn_input_pkt_queue sd)) in
  if negb running then Some (st, false)
  else if (max_backlog <? qlen) || limited then Some (st, false)
  else
    let st :=
      if (qlen =? 0) && negb (test_bit NAPI_STATE_SCHED (state (napis st (Backlog c)))) then
        napi_schedule_rps i c
          (upd_napi (Backlog c) (fun n => n <| state ::= set_bit NAPI_STATE_SCHED |>) st)
      else st in
    Some (upd_cpu c (fun sd => sd <| sn_input_pkt_queue ::= fun q => q ++ [skb] |>
                                  <| sn_accepted ::= fun q => q ++ [skb] |>) st, true).

(** [flush_backlog] on processor [i]: [dead] are the packets of devices that are
    going away. *)
Definition flush_backlog (i : nat) (dead : nat -> bool) (st : net) : net :=
  upd_cpu i (fun sd =>
    sd <| sn_flushed := sn_flushed sd ++ List.filter dead (sn_input_pkt_queue sd) ++ List.filter dead (sn_process_queue sd) |>
       <| sn_input_pkt_queue ::= List.filter (fun p => negb (dead p)) |>
       <| sn_process_queue ::= List.filter (fun p => negb (dead p)) |>) st.

(** [rps_trigger_softirq], the interrupt on processor [c]. *)
Definition rps_trigger_softirq (c : nat) (st : net) : net := napi_op c (Backlog c) ____napi_schedule st.

(** [net_rps_action_and_irq_enable]: the interrupts are on their way. *)
Definition net_rps_action_and_irq_enable (i : nat) (st : net) : net :=
  match cpus st !! i with
  | None => st
  | Some c => (upd_cpu i (fun c => c <| sn_rps_ipi_list := [] |>) st) <| ipis ::= fun l => l ++ sn_rps_ipi_list c |>
  end.

(** ** The flow limit *)

Definition FLOW_LIMIT_HISTORY : Z := 128.

(** A ring of the flows of the last packets and how often each flow is in it. *)
Record sd_flow_limit := mk_flow_limit {
  fl_count : Z;
  fl_history : list nat;
  fl_history_head : Z;
  fl_buckets : list Z;
}.

#[export] Instance settable_flow_limit : Settable sd_flow_limit := fun f =>
  mk_flow_limit (fl_count f) (fl_history f) (fl_history_head f) (fl_buckets f).

(** [new_flow] is the bucket of the packet's hash; the buckets are 8 bits wide. *)
Definition skb_flow_limit (o : option sd_flow_limit) (new_flow : nat) (qlen : Z) :
    option (option sd_flow_limit * bool) :=
  if qlen <? Z.shiftr max_backlog 1 then Some (o, false)
  else
    match o with
    | None => Some (None, false)
    | Some f =>
      let head := Z.to_nat (fl_history_head f) in
      old_flow ← fl_history f !! head;
      let f := f <| fl_history ::= <[head := new_flow]> |>
                 <| fl_history_head := Z.land (fl_history_head f + 1) (FLOW_LIMIT_HISTORY - 1) |> in
      b ← fl_buckets f !! old_flow;
      let f := if b =? 0 then f else f <| fl_buckets ::= <[old_flow := u8 (b - 1)]> |> in
      b ← fl_buckets f !! new_flow;
      let f := f <| fl_buckets ::= <[new_flow := u8 (b + 1)]> |> in
      if Z.shiftr FLOW_LIMIT_HISTORY 1 <? u8 (b + 1) then Some (Some (f <| fl_count ::= fun c => u32 (c + 1) |>), true)
      else Some (Some f, false)
    end.

(** ** Polling *)

(** After [napi_poll] returned [work]: [late] is [time_after_eq(jiffies,
    time_limit)]. *)
Definition after_poll (i : nat) (work : Z) (late : bool) (st : net) : net :=
  upd_cpu i (fun c =>
    let budget := sn_budget c - work in
    c <| sn_budget := budget |> <| sn_pc := if (budget <=? 0) || late then Out else Loop |>) st.

(** The end of [__napi_poll] and [napi_poll] for a poll that used its weight. *)
Definition poll_exhausted (i : nat) (id : napi_id) (work : Z) (late : bool) (st : net) : net :=
  match cpus st !! i with
  | None => st
  | Some c =>
    let '(sd, n, repoll) :=
      napi_poll_exhausted gro_flush_timeout defer_hard_irqs HZ gro_flush_normal (sn_sd c) (napis st id) work in
    let st := napi_op i id (fun _ _ => (sd, n)) st in
    let st := if repoll : bool then
                upd_napi id (fun n => n <| on_poll_list := true |>)
                  (upd_cpu i (fun c => c <| sn_repoll ::= fun l => l ++ [id] |>) st)
              else st in
    after_poll i work late st
  end.

(** What a device's poll function does: it either handles less than its quota and
    calls [napi_complete_done], or uses the whole quota. *)
Inductive outcome := Complete (work : Z) | Exhaust.

Definition dev_poll (i d : nat) (quota : Z) (o : outcome) (late : bool) (st : net) : option net :=
  match o with
  | Complete work =>
    if (0 <=? work) && (work <? quota) then
      Some (after_poll i work late (napi_op i (Dev d)
        (fun sd n => (napi_complete_done gro_flush_timeout defer_hard_irqs gro_flush_normal sd n work).1) st))
    else None
  | Exhaust => Some (poll_exhausted i (Dev d) quota late st)
  end.

(** A step of [process_backlog]: a packet goes up, or the input queue becomes the
    process queue, or the backlog is complete. *)
Definition process_backlog (i : nat) (quota work : Z) (late : bool) (st : net) : option net :=
  c ← cpus st !! i;
  match sn_process_queue c with
  | skb :: rest =>
    let st := upd_cpu i (fun c => c <| sn_process_queue := rest |> <| sn_received ::= fun l => l ++ [skb] |>) st in
    Some (if quota <=? work + 1 then poll_exhausted i (Backlog i) (work + 1) late st
          else upd_cpu i (fun c => c <| sn_pc := Polling (Backlog i) quota (work + 1) |>) st)
  | [] =>
    match sn_input_pkt_queue c with
    | [] =>
      Some (after_poll i work late
        (upd_napi (Backlog i) (fun n => n <| state ::= fun s => Z.land s (BIT NAPI_STATE_THREADED) |>) st))
    | q => Some (upd_cpu i (fun c => c <| sn_input_pkt_queue := [] |> <| sn_process_queue := q |>) st)
    end
  end.

(** [napi_poll] takes the NAPI off the list; a backlog first sends the pending
    interrupts and reloads its weight. *)
Definition napi_poll (i : nat) (id : napi_id) (st : net) : net :=
  let quota := weight (napis st id) in
  let st := upd_napi id (fun n => n <| on_poll_list := false |>) st in
  let st := upd_cpu i (fun c => c <| sn_polled ::= fun l => l ++ [id] |>) st in
  if test_bit NAPI_STATE_SCHED (state (napis st id)) then
    let st := upd_cpu i (fun c => c <| sn_pc := Polling id quota 0 |>) st in
    match id with
    | Backlog _ =>
      upd_napi id (fun n => n <| weight := dev_rx_weight |>) (net_rps_action_and_irq_enable i st)
    | Dev _ => st
    end
  else upd_cpu i (fun c => c <| sn_pc := Loop |>) st.

(** ** A step of [net_rx_action] on processor [i] *)
Definition net_rx_action (i : nat) (o : outcome) (late : bool) (st : net) : option net :=
  c ← cpus st !! i;
  let goto p := upd_cpu i (fun c => c <| sn_pc := p |>) in
  match sn_pc c with
  | Idle =>
    if net_rx_softirq_raised (sn_sd c) then
      Some (upd_cpu i (fun c => c <| sn_sd ::= fun sd => sd <| net_rx_softirq_raised := false |> |>
                                  <| sn_budget := netdev_budget |> <| sn_list := [] |> <| sn_repoll := [] |>
                                  <| sn_pc := Start |>) st)
    else None
  | Start => Some (upd_cpu i (fun c => c <| sn_sd ::= fun sd => sd <| in_net_rx_action := true |> |> <| sn_pc := Splice |>) st)
  | Splice =>
    Some (upd_cpu i (fun c => c <| sn_list := sn_poll_list c ++ sn_list c |> <| sn_poll_list := [] |> <| sn_pc := Loop |>) st)
  | Loop =>
    match sn_list c with
    | id :: rest => Some (napi_poll i id (upd_cpu i (fun c => c <| sn_list := rest |>) st))
    | [] =>
      if is_nil (sn_repoll c) then
        Some (upd_cpu i (fun c => c <| sn_sd ::= fun sd => sd <| in_net_rx_action := false |> |> <| sn_pc := Emptied |>) st)
      else Some (goto Out st)
    end
  | Polling (Backlog j) quota work => if decide (j = i) then process_backlog i quota work late st else None
  | Polling (Dev d) quota _ => dev_poll i d quota o late st
  | Emptied => Some (goto (if is_nil (sn_poll_list c) then CheckRps else Start) st)
  | CheckRps =>
    if is_nil (sn_rps_ipi_list c) then
      Some (upd_cpu i (fun c => c <| sn_pc := Idle |> <| sn_runs ::= S |>) st)
    else Some (goto Out st)
  | Out =>
    let l := sn_list c ++ sn_poll_list c ++ sn_repoll c in
    Some (net_rps_action_and_irq_enable i (upd_cpu i (fun c =>
      c <| sn_poll_list := l |> <| sn_list := [] |> <| sn_repoll := [] |> <| sn_pc := Idle |> <| sn_runs ::= S |>
        <| sn_sd ::= fun sd => if is_nil l then sd <| in_net_rx_action := false |>
                               else sd <| net_rx_softirq_raised := true |> |>) st))
  end.

(** ** The system *)

Inductive step (st : net) : net -> Prop :=
| step_schedule i d :
    step st (napi_op i (Dev d) (fun sd n => (napi_schedule sd n).1) st)
| step_enqueue i c skb running limited st' ok :
    enqueue_to_backlog i c skb running limited st = Some (st', ok) → is_Some (cpus st !! i) → step st st'
| step_flush i dead : step st (flush_backlog i dead st)
| step_ipi c l1 l2 :
    ipis st = l1 ++ c :: l2 → step st (rps_trigger_softirq c (st <| ipis := l1 ++ l2 |>))
| step_rx i o late st' :
    net_rx_action i o late st = Some st' → step st st'.

(** [net_dev_init]: nothing scheduled; a device's NAPI is set up with
    [netif_napi_add] and enabled. *)
Definition idle_cpu (c : nat) : softnet :=
  mk_softnet (mk_softnet_data (Z.of_nat c) false false false) [] [] [] [] [] [] 0 Idle [] [] [] [] 0.
Definition idle_napi (id : napi_id) : napi_struct := mk_napi_struct 0 (napi_weight id) 0 false false (-1) false 0 None.
Definition net_dev_init (ncpus : nat) : net := mk_net (idle_cpu <$> List.seq 0 ncpus) idle_napi [].

Definition reachable (ncpus : nat) (st : net) : Prop := rtc step (net_dev_init ncpus) st.
End Softirq.

(** ** Operations on one NAPI *)

Section Proofs.
Context `{NapiBitsOk}.
Context (to df HZ : Z) (fl : bool -> bool -> bool) (netdev_budget max_backlog dev_rx_weight : Z)
  (napi_weight : napi_id -> Z).

Abbreviation sched n := (test_bit NAPI_STATE_SCHED (state n)).

(** The configuration modelled: no threads, no netpoll, no busy polling. *)
Definition plain (n : napi_struct) : Prop :=
  test_bit NAPI_STATE_THREADED (state n) = false ∧ test_bit NAPI_STATE_NPSVC (state n) = false ∧
  test_bit NAPI_STATE_IN_BUSY_POLL (state n) = false.

(** What every operation keeps; a NAPI it links is noticed. *)
Record op_ok (sd : softnet_data) (n : napi_struct) (sd' : softnet_data) (n' : napi_struct) : Prop := {
  op_plain : plain n';
  op_weight : weight n' = weight n;
  op_in_action : in_net_rx_action sd' = in_net_rx_action sd;
  op_raised : net_rx_softirq_raised sd = true → net_rx_softirq_raised sd' = true;
  op_noticed : on_poll_list n' = true → on_poll_list n = false →
    in_net_rx_action sd = true ∨ net_rx_softirq_raised sd' = true;
}.

Lemma schedule_op sd n :
  plain n → op_ok sd n (____napi_schedule sd n).1 (____napi_schedule sd n).2 ∧
    state (____napi_schedule sd n).2 = state n ∧ on_poll_list (____napi_schedule sd n).2 = true.
Proof.
  intros Hp. unfold ____napi_schedule. rewrite (proj1 Hp). cbn [andb fst snd]. split; [|done].
  split; [done|done|by destruct (in_net_rx_action sd) eqn:E|by destruct (in_net_rx_action sd)|].
  intros _ _. destruct (in_net_rx_action sd); auto.
Qed.

Lemma prep_word_keeps v b :
  0 <= b → b ≠ NAPI_STATE_SCHED → b ≠ NAPI_STATE_MISSED → test_bit b (napi_schedule_prep_word v).1 = test_bit b v.
Proof.
  intros Hb H1 H2. unfold test_bit. rewrite (proj1 (napi_schedule_prep_word_spec v b Hb)).
  rewrite !(proj2 (Z.eqb_neq _ _)) by done. by destruct (test_bit _ _).
Qed.

Lemma napi_schedule_op sd n :
  plain n → let '(sd', n', _) := napi_schedule sd n in
  op_ok sd n sd' n' ∧
  ((sched n' = sched n ∧ on_poll_list n' = on_poll_list n) ∨
   (sched n = false ∧ sched n' = true ∧ on_poll_list n' = true)).
Proof.
  intros Hp. unfold napi_schedule, napi_schedule_prep.
  pose proof (prep_word_keeps (state n)) as Hk. pose proof (napi_schedule_prep_word_spec (state n) NAPI_STATE_SCHED) as Hs.
  destruct (napi_schedule_prep_word (state n)) as [new ok]. cbn [fst snd] in *.
  destruct Hs as [Hs Hok]; [bit_pos|]. rewrite Z.eqb_refl in Hs.
  assert (plain (n <| state := new |>)) as Hp'.
  { destruct Hp as (H1 & H2 & H3). unfold plain. cbn. rewrite !Hk by (bit_pos || bit_ne). done. }
  destruct ok; cbn zeta.
  - pose proof (schedule_op sd (n <| state := new |>) Hp') as (Ho & Hst & Hon).
    unfold __napi_schedule. destruct (____napi_schedule sd _) as [sd' n']. cbn [fst snd] in *.
    symmetry in Hok. apply andb_true_iff in Hok as [Hd Hn]. apply negb_true_iff in Hd, Hn. rewrite Hd in Hs.
    split; [|right; unfold test_bit at 2; rewrite Hst; done]. destruct Ho as [O1 O2 O3 O4 O5]. split; try done.
  - split; [split; try done; cbn; congruence|]. left. cbn. split; [|done]. unfold test_bit in *. rewrite Hs.
    destruct (Z.testbit (state n) NAPI_STATE_DISABLE); [done|]. cbn in Hok. by destruct (Z.testbit (state n) NAPI_STATE_SCHED).
Qed.

Lemma complete_word_keeps v b :
  0 <= b → b ≠ NAPI_STATE_SCHED → b ≠ NAPI_STATE_MISSED → b ≠ NAPI_STATE_SCHED_THREADED → b ≠ NAPI_STATE_PREFER_BUSY_POLL →
  test_bit b (napi_complete_word v) = test_bit b v.
Proof.
  intros Hb H1 H2 H3 H4. unfold test_bit. rewrite napi_complete_word_spec by done. by rewrite !(proj2 (Z.eqb_neq _ _)) by done.
Qed.

Lemma complete_op sd n work :
  plain n → on_poll_list n = false →
  let '(sd', n', _) := napi_complete_done to df fl sd n work in
  op_ok sd n sd' n' ∧ sched n' = on_poll_list n'.
Proof.
  intros Hp Hon. pose proof Hp as (H1 & H2 & H3).
  destruct (napi_complete_done_word to df fl sd n work H2 H3) as (m & m' & ret & S' & S & _ & _ & O & O' & W & W' & ->).
  assert (plain m ∧ plain m') as [Pm Pm'].
  { unfold plain. rewrite S', S, !complete_word_keeps by (bit_pos || bit_ne). done. }
  assert (sched m = test_bit NAPI_STATE_MISSED (state n)) as Hs.
  { unfold test_bit at 1. rewrite S, napi_complete_word_spec, Z.eqb_refl by bit_pos. done. }
  destruct (test_bit NAPI_STATE_MISSED (state n)) eqn:Hm.
  - pose proof (schedule_op sd m Pm) as (Ho & Hst & Hl). unfold __napi_schedule.
    destruct (____napi_schedule sd m) as [sd' n']. cbn [fst snd] in *. rewrite Hst, Hl. split; [|done].
    destruct Ho as [O1 O2 O3 O4 O5]. split; try done; [congruence|]. intros _ _. by apply O5.
  - split; [split; try done; congruence|]. by rewrite S', O'.
Qed.

Lemma exhausted_op sd n work :
  plain n → sched n = true → on_poll_list n = false →
  let '(sd', n', repoll) := napi_poll_exhausted to df HZ fl sd n work in
  op_ok sd n sd' n' ∧ if repoll : bool then sched n' = true ∧ on_poll_list n' = false else sched n' = on_poll_list n'.
Proof.
  intros Hp Hs Hon. unfold napi_poll_exhausted. destruct (test_bit NAPI_STATE_DISABLE (state n)).
  { pose proof (complete_op sd n 0 Hp Hon) as Hc. by destruct (napi_complete_done _ _ _ _ _ _) as [[sd' n'] r]. }
  destruct (test_bit NAPI_STATE_PREFER_BUSY_POLL (state n)).
  - pose proof (complete_op sd n work Hp Hon) as Hc. destruct (napi_complete_done _ _ _ _ _ _) as [[sd1 n1] r].
    destruct Hc as [[C1 C2 C3 C4 C5] Hc]. destruct r; [|by split].
    pose proof (napi_schedule_op sd1 n1 C1) as Hsch. destruct (napi_schedule sd1 n1) as [[sd2 n2] r2].
    destruct Hsch as [[P1 P2 P3 P4 P5] Hsch].
    assert (sched n2 = on_poll_list n2) as E by (destruct Hsch as [[-> ->]|(_ & -> & ->)]; done). split; [|done].
    split; [done|congruence|congruence|auto|]. intros Hn2 _. destruct (on_poll_list n1) eqn:E1.
    + destruct (C5 eq_refl Hon); auto.
    + rewrite <- C3. auto.
  - cbn. rewrite Hon. split; [split; try done; cbn; congruence|done].
Qed.

(** ** Where the scheduled NAPIs are *)

Definition polling (p : pc) : list napi_id := match p with Polling id _ _ => [id] | _ => [] end.

Definition queues (c : softnet) : list napi_id := sn_poll_list c ++ sn_list c ++ sn_repoll c.
Definition places (c : softnet) : list napi_id := queues c ++ polling (sn_pc c) ++ (Backlog <$> sn_rps_ipi_list c).

Definition all_queues (st : net) : list napi_id := cpus st ≫= queues.
Definition all_places (st : net) : list napi_id := (cpus st ≫= places) ++ (Backlog <$> ipis st).

(** The other processors. *)
Definition others {A} (i : nat) (l : list A) : list A := take i l ++ drop (S i) l.

Lemma bind_split {A} (f : softnet -> list A) l i c : l !! i = Some c → l ≫= f ≡ₚ f c ++ (others i l ≫= f).
Proof.
  intros Hc. rewrite <- (take_drop_middle l i c Hc) at 1. unfold others. rewrite !bind_app, bind_cons.
  rewrite !app_assoc. f_equiv. apply Permutation_app_comm.
Qed.

Lemma others_alter {A} (f : A -> A) i (l : list A) : others i (alter f i l) = others i l.
Proof. unfold others. by rewrite take_alter_ge, drop_alter_lt by lia. Qed.

(** [if b then one occurrence of id]. *)
Definition tok (b : bool) (id : napi_id) : list napi_id := if b then [id] else [].

Record tokens (st : net) : Prop := {
  tk_nodup : NoDup (all_places st);
  tk_sched id : sched (napis st id) = true ↔ id ∈ all_places st;
  tk_queued id : on_poll_list (napis st id) = true ↔ id ∈ all_queues st;
  tk_plain id : plain (napis st id);
}.

Lemma places_at st i c : cpus st !! i = Some c → all_places st ≡ₚ places c ++ ((others i (cpus st) ≫= places) ++ (Backlog <$> ipis st)).
Proof. intros Hc. unfold all_places. rewrite (bind_split places _ i c Hc). by rewrite app_assoc. Qed.

Lemma queues_at st i c : cpus st !! i = Some c → all_queues st ≡ₚ queues c ++ (others i (cpus st) ≫= queues).
Proof. intros Hc. unfold all_queues. by rewrite (bind_split queues _ i c Hc). Qed.

Lemma queues_sublist st : all_queues st `sublist_of` all_places st.
Proof.
  unfold all_queues, all_places. apply sublist_inserts_r. induction (cpus st) as [|c l IH]; [done|].
  rewrite !bind_cons. apply sublist_app; [|done]. unfold places. by apply sublist_inserts_r.
Qed.

(** A change to one NAPI: [R] and [Q] are the places and queues of the others. *)
Lemma tokens_change st st' id R Q :
  tokens st → (∀ x, x ≠ id → napis st' x = napis st x) → plain (napis st' id) →
  all_places st ≡ₚ tok (sched (napis st id)) id ++ R → all_places st' ≡ₚ tok (sched (napis st' id)) id ++ R →
  all_queues st ≡ₚ tok (on_poll_list (napis st id)) id ++ Q → all_queues st' ≡ₚ tok (on_poll_list (napis st' id)) id ++ Q →
  tokens st'.
Proof.
  intros [T1 T2 T3 T4] Hx Hp P P' Q1 Q1'.
  assert (id ∉ R) as HR.
  { rewrite P in T1. intros HR. destruct (sched (napis st id)) eqn:E; cbn [tok app] in *.
    - apply NoDup_cons in T1 as [? _]. done.
    - specialize (T2 id). rewrite P, E in T2. destruct T2 as [_ T2]. by discriminate T2. }
  assert (id ∉ Q) as HQ.
  { intros HQ. pose proof (sublist_NoDup _ _ T1 (queues_sublist st)) as Hnd. rewrite Q1 in Hnd.
    destruct (on_poll_list (napis st id)) eqn:E; cbn [tok app] in *.
    - apply NoDup_cons in Hnd as [? _]. done.
    - specialize (T3 id). rewrite Q1, E in T3. destruct T3 as [_ T3]. by discriminate T3. }
  split.
  - rewrite P'. rewrite P in T1. destruct (sched (napis st' id)); cbn [tok app].
    + apply NoDup_cons. split; [done|]. by apply NoDup_app in T1 as (_ & _ & ?).
    + by apply NoDup_app in T1 as (_ & _ & ?).
  - intros x. rewrite P'. destruct (decide (x = id)) as [->|Hne].
    + destruct (sched (napis st' id)); cbn [tok app]; set_solver.
    + rewrite Hx, T2, P by done. rewrite !elem_of_app. destruct (sched _), (sched _); cbn [tok]; set_solver.
  - intros x. rewrite Q1'. destruct (decide (x = id)) as [->|Hne].
    + destruct (on_poll_list (napis st' id)); cbn [tok app]; set_solver.
    + rewrite Hx, T3, Q1 by done. rewrite !elem_of_app. destruct (on_poll_list _), (on_poll_list _); cbn [tok]; set_solver.
  - intros x. destruct (decide (x = id)) as [->|Hne]; [done|]. by rewrite Hx.
Qed.

(** A change to no NAPI. *)
Lemma tokens_same st st' :
  tokens st → (∀ x, napis st' x = napis st x) → all_places st' ≡ₚ all_places st → all_queues st' ≡ₚ all_queues st → tokens st'.
Proof.
  intros [T1 T2 T3 T4] Hx P Q. split; [by rewrite P|..]; intros id; rewrite Hx; [by rewrite P|by rewrite Q|done].
Qed.

(** ** The invariant *)

Record cpu_ok (st : net) (i : nat) (c : softnet) : Prop := {
  co_locals : match sn_pc c with Loop | Polling _ _ _ | Out => True | _ => sn_list c = [] ∧ sn_repoll c = [] end;
  co_served :
    match sn_pc c with
    | Idle => sn_poll_list c ≠ [] ∨ sn_rps_ipi_list c ≠ [] ∨ in_net_rx_action (sn_sd c) = true →
              net_rx_softirq_raised (sn_sd c) = true
    | Emptied => in_net_rx_action (sn_sd c) = false
    | CheckRps => in_net_rx_action (sn_sd c) = false ∧ (sn_poll_list c ≠ [] → net_rx_softirq_raised (sn_sd c) = true)
    | _ => True
    end;
  co_own j : Backlog j ∈ queues c ++ polling (sn_pc c) → j = i;
  co_ipis : Forall (fun j => (j < length (cpus st))%nat) (sn_rps_ipi_list c);
  co_backlog : sn_input_pkt_queue c ++ sn_process_queue c ≠ [] → sched (napis st (Backlog i)) = true;
}.

Record inv (st : net) : Prop := {
  inv_tokens : tokens st;
  inv_cpus i c : cpus st !! i = Some c → cpu_ok st i c;
  inv_ipis : Forall (fun j => (j < length (cpus st))%nat) (ipis st);
}.

Lemma cpu_ok_frame st st' i c :
  length (cpus st') = length (cpus st) → (sched (napis st (Backlog i)) = true → sched (napis st' (Backlog i)) = true) →
  cpu_ok st i c → cpu_ok st' i c.
Proof. intros Hl Hs [C1 C2 C3 C4 C5]. split; [done|done|done|by rewrite Hl|auto]. Qed.

(** The state with processor [i] replaced. *)
Definition at_cpu (i : nat) (c : softnet) (m : napi_id -> napi_struct) (l : list nat) (st : net) : net :=
  mk_net (<[i := c]> (cpus st)) m l.

Lemma others_insert {A} i (x : A) (l : list A) : others i (<[i := x]> l) = others i l.
Proof. unfold others. by rewrite take_insert_ge, drop_insert_lt by lia. Qed.

Lemma upd_cpu_at i c f st : cpus st !! i = Some c → upd_cpu i f st = at_cpu i (f c) (napis st) (ipis st) st.
Proof.
  intros Hc. destruct st as [l m k]. unfold upd_cpu, at_cpu. cbn in *. change (mk_net (alter f i l) m k = mk_net (<[i := f c]> l) m k).
  f_equal. apply list_eq. intros j. destruct (decide (j = i)) as [->|Hne].
  - rewrite list_lookup_alter_eq, Hc. cbn. by rewrite list_lookup_insert_eq by (by eapply lookup_lt_Some).
  - by rewrite list_lookup_alter_ne, list_lookup_insert_ne by done.
Qed.

Lemma upd_cpu_none i f st : cpus st !! i = None → upd_cpu i f st = st.
Proof.
  intros Hc. destruct st as [l m k]. unfold upd_cpu. cbn in *. change (mk_net (alter f i l) m k = mk_net l m k). f_equal.
  apply list_eq. intros j. destruct (decide (j = i)) as [->|Hne]; [by rewrite list_lookup_alter_eq, Hc|by rewrite list_lookup_alter_ne].
Qed.

Lemma inv_at st i c c' m l :
  inv st → cpus st !! i = Some c → tokens (at_cpu i c' m l st) →
  (∀ j, j ≠ i → sched (napis st (Backlog j)) = true → sched (m (Backlog j)) = true) →
  cpu_ok (at_cpu i c' m l st) i c' → Forall (fun j => (j < length (cpus st))%nat) l → inv (at_cpu i c' m l st).
Proof.
  intros [I1 I2 I3] Hc Ht Hs Hok Hl. split; [done| |by cbn; rewrite length_insert].
  intros j cj Hj. cbn in Hj. apply list_lookup_insert_Some in Hj as [(-> & <- & _)|(Hne & Hj)]; [done|].
  apply (cpu_ok_frame st); [by cbn; rewrite length_insert|by apply Hs; apply not_eq_sym|by apply I2].
Qed.

(** Local forms of the two token lemmas. *)
Lemma tokens_at st i c c' :
  tokens st → cpus st !! i = Some c → places c' ≡ₚ places c → queues c' ≡ₚ queues c →
  tokens (at_cpu i c' (napis st) (ipis st) st).
Proof.
  intros Ht Hc Hp Hq. pose proof (lookup_lt_Some _ _ _ Hc) as Hlt.
  assert (cpus (at_cpu i c' (napis st) (ipis st) st) !! i = Some c') as Hc' by (by apply list_lookup_insert_eq).
  apply (tokens_same st); [done|done| |].
  - rewrite (places_at _ i c' Hc'), (places_at st i c Hc), Hp. cbn. by rewrite others_insert.
  - rewrite (queues_at _ i c' Hc'), (queues_at st i c Hc), Hq. cbn. by rewrite others_insert.
Qed.

Lemma tokens_at_napi st i c c' id m R Q :
  tokens st → cpus st !! i = Some c → (∀ x, x ≠ id → m x = napis st x) → plain (m id) →
  places c ≡ₚ tok (sched (napis st id)) id ++ R → places c' ≡ₚ tok (sched (m id)) id ++ R →
  queues c ≡ₚ tok (on_poll_list (napis st id)) id ++ Q → queues c' ≡ₚ tok (on_poll_list (m id)) id ++ Q →
  tokens (at_cpu i c' m (ipis st) st).
Proof.
  intros Ht Hc Hm Hn P P' Q1 Q1'. set (st' := at_cpu _ _ _ _ _). pose proof (lookup_lt_Some _ _ _ Hc) as Hlt.
  assert (cpus st' !! i = Some c') as Hc' by (by apply list_lookup_insert_eq).
  apply (tokens_change st st' id (R ++ ((others i (cpus st) ≫= places) ++ (Backlog <$> ipis st))) (Q ++ (others i (cpus st) ≫= queues)));
    [done|done|done|..].
  - rewrite (places_at st i c Hc), P. by rewrite <- !app_assoc.
  - rewrite (places_at st' i c' Hc'), P'. cbn. rewrite others_insert. by rewrite <- !app_assoc.
  - rewrite (queues_at st i c Hc), Q1. by rewrite <- !app_assoc.
  - rewrite (queues_at st' i c' Hc'), Q1'. cbn. rewrite others_insert. by rewrite <- !app_assoc.
Qed.

Lemma tokens_napi_same st st' id :
  tokens st → (∀ x, x ≠ id → napis st' x = napis st x) → plain (napis st' id) →
  sched (napis st' id) = sched (napis st id) → on_poll_list (napis st' id) = on_poll_list (napis st id) →
  all_places st' ≡ₚ all_places st → all_queues st' ≡ₚ all_queues st → tokens st'.
Proof.
  intros [T1 T2 T3 T4] Hx Hp Hs Ho P Q. split.
  - by rewrite P.
  - intros x. rewrite P. destruct (decide (x = id)) as [->|Hne]; [by rewrite Hs|by rewrite Hx].
  - intros x. rewrite Q. destruct (decide (x = id)) as [->|Hne]; [by rewrite Ho|by rewrite Hx].
  - intros x. destruct (decide (x = id)) as [->|Hne]; [done|by rewrite Hx].
Qed.

Lemma queued_sched st id : tokens st → on_poll_list (napis st id) = true → sched (napis st id) = true.
Proof.
  intros [_ T2 T3 _] Ho. apply T2. apply T3 in Ho. eapply elem_of_submseteq; [exact Ho|]. apply sublist_submseteq, queues_sublist.
Qed.

Definition link (c : softnet) (sd : softnet_data) (linked : bool) (id : napi_id) : softnet :=
  c <| sn_sd := sd |> <| sn_poll_list ::= fun l => if linked then l ++ [id] else l |>.

Lemma napi_op_at i id op st c sd n' :
  cpus st !! i = Some c → op (sn_sd c) (napis st id) = (sd, n') →
  napi_op i id op st =
  at_cpu i (link c sd (on_poll_list n' && negb (on_poll_list (napis st id))) id) (set_napi id (fun _ => n') (napis st)) (ipis st) st.
Proof. intros Hc E. unfold napi_op. rewrite Hc, E. cbv zeta. by rewrite (upd_cpu_at i c _ st Hc). Qed.

Lemma link_queues c sd b id : queues (link c sd b id) ≡ₚ tok b id ++ queues c.
Proof. unfold queues, link. cbn. destruct b; cbn [tok]; [|done]. solve_Permutation. Qed.

Lemma link_places c sd b id : places (link c sd b id) ≡ₚ tok b id ++ places c.
Proof. unfold places. rewrite link_queues. change (sn_pc (link c sd b id)) with (sn_pc c). by rewrite <- app_assoc. Qed.

Lemma cpu_ok_link st st' i c sd n n' id :
  cpu_ok st i c → op_ok (sn_sd c) n sd n' →
  length (cpus st') = length (cpus st) → (sched (napis st (Backlog i)) = true → sched (napis st' (Backlog i)) = true) →
  (∀ j, id = Backlog j → j = i) →
  cpu_ok st' i (link c sd (on_poll_list n' && negb (on_poll_list n)) id).
Proof.
  intros [C1 C2 C3 C4 C5] [O1 O2 O3 O4 O5] Hl Hs Hid. set (b := on_poll_list n' && negb (on_poll_list n)).
  assert (b = true → in_net_rx_action (sn_sd c) = true ∨ net_rx_softirq_raised sd = true) as Hb.
  { unfold b. intros [Hn' Hn]%andb_true_iff. apply negb_true_iff in Hn. auto. }
  assert (sn_poll_list (link c sd b id) ≠ [] → b = true ∨ sn_poll_list c ≠ []) as Hpl.
  { unfold link. cbn. destruct b; [by left|by right]. }
  split.
  - exact C1.
  - change (sn_pc (link c sd b id)) with (sn_pc c). change (sn_sd (link c sd b id)) with sd.
    change (sn_rps_ipi_list (link c sd b id)) with (sn_rps_ipi_list c). rewrite O3.
    destruct (sn_pc c); try done.
    + intros [Hp|Hrest]; [|by apply O4, C2; auto]. destruct (Hpl Hp) as [Hbt|]; [|by apply O4, C2; auto].
      destruct (Hb Hbt); [|done]. apply O4, C2. auto.
    + destruct C2 as [C2 C2']. split; [done|]. intros Hp. destruct (Hpl Hp) as [Hbt|]; [|by apply O4, C2'].
      destruct (Hb Hbt); [congruence|done].
  - intros j. change (sn_pc (link c sd b id)) with (sn_pc c). rewrite link_queues, <- app_assoc, elem_of_app. intros [Hj|Hj]; [|by apply C3].
    destruct b; cbn [tok] in Hj; [|by apply not_elem_of_nil in Hj]. apply list_elem_of_singleton in Hj. by apply Hid.
  - by rewrite Hl.
  - intros Hq. apply Hs, C5, Hq.
Qed.

Lemma set_napi_at id n' m : set_napi id (fun _ => n') m id = n'.
Proof. unfold set_napi. by rewrite decide_True. Qed.
Lemma set_napi_ne id f m x : x ≠ id → set_napi id f m x = m x.
Proof. intros Hx. unfold set_napi. by rewrite decide_False. Qed.

(** A device's interrupt. *)
Lemma inv_schedule st i d : inv st → inv (napi_op i (Dev d) (fun sd n => (napi_schedule sd n).1) st).
Proof.
  intros I. destruct (cpus st !! i) as [c|] eqn:Hc; [|unfold napi_op; by rewrite Hc].
  pose proof (inv_tokens _ I) as Ht. set (n := napis st (Dev d)).
  pose proof (napi_schedule_op (sn_sd c) n (tk_plain _ Ht _)) as Hop.
  destruct (napi_schedule (sn_sd c) n) as [[sd n'] r] eqn:E. destruct Hop as [Ho Hs].
  rewrite (napi_op_at i _ _ st c sd n' Hc) by (fold n; by rewrite E). fold n.
  set (b := on_poll_list n' && negb (on_poll_list n)).
  apply (inv_at st i c); [done|done| |intros j _; by rewrite set_napi_ne| |apply I].
  2:{ apply (cpu_ok_link st _ i c sd n n'); [by apply I|done|by cbn; rewrite length_insert|cbn; by rewrite set_napi_ne|done]. }
  destruct Hs as [[S1 S2]|(S1 & S2 & S3)].
  - assert (b = false) as -> by (unfold b; rewrite S2; by destruct (on_poll_list n)).
    pose proof (lookup_lt_Some _ _ _ Hc) as Hlt. set (st' := at_cpu _ _ _ _ _).
    assert (cpus st' !! i = Some (link c sd false (Dev d))) as Hc' by (by apply list_lookup_insert_eq).
    apply (tokens_napi_same st st' (Dev d)); [done|intros x Hx; by apply set_napi_ne|by cbn; rewrite set_napi_at; apply Ho| | | |].
    + cbn. by rewrite set_napi_at.
    + cbn. by rewrite set_napi_at.
    + rewrite (places_at st' i _ Hc'), (places_at st i c Hc), link_places. cbn. by rewrite others_insert.
    + rewrite (queues_at st' i _ Hc'), (queues_at st i c Hc), link_queues. cbn. by rewrite others_insert.
  - assert (on_poll_list n = false) as Hon.
    { apply not_true_iff_false. intros Hon. pose proof (queued_sched st (Dev d) Ht Hon) as Hx. fold n in Hx. congruence. }
    assert (b = true) as -> by (unfold b; by rewrite S3, Hon).
    apply (tokens_at_napi st i c _ (Dev d) _ (places c) (queues c)); [done|done|by intros x Hx; apply set_napi_ne|..];
      rewrite ?set_napi_at; fold n; rewrite ?S1, ?S2, ?S3, ?Hon; [apply Ho|done|apply link_places|done|apply link_queues].
Qed.

(** *** Enqueueing *)

Lemma set_sched n : plain n → plain (n <| state ::= set_bit NAPI_STATE_SCHED |>) ∧ sched (n <| state ::= set_bit NAPI_STATE_SCHED |>) = true.
Proof.
  intros (H1 & H2 & H3). unfold plain, test_bit, set_bit in *. cbn. rewrite !Z.lor_spec, !BIT_testbit by bit_pos.
  rewrite H1, H2, H3, Z.eqb_refl, orb_true_r. rewrite !(proj2 (Z.eqb_neq _ _)) by bit_ne. done.
Qed.

Lemma inv_push st c sd skb :
  inv st → cpus st !! c = Some sd → sched (napis st (Backlog c)) = true →
  inv (upd_cpu c (fun sd => sd <| sn_input_pkt_queue ::= fun q => q ++ [skb] |> <| sn_accepted ::= fun q => q ++ [skb] |>) st).
Proof.
  intros I Hc Hs. rewrite (upd_cpu_at c sd _ st Hc). apply (inv_at st c sd); [done|done|by eapply tokens_at; [apply I|..]|done| |apply I].
  destruct (inv_cpus _ I c sd Hc) as [C1 C2 C3 C4 C5]. split; [done|done|done|by cbn; rewrite length_insert|done].
Qed.

Section Rps.
Context (st : net) (i : nat) (ci : softnet) (c : nat).
Hypothesis I : inv st.
Hypothesis Hi : cpus st !! i = Some ci.
Hypothesis Hs : sched (napis st (Backlog c)) = false.

Let f (n : napi_struct) : napi_struct := n <| state ::= set_bit NAPI_STATE_SCHED |>.

Lemma unscheduled_off : on_poll_list (napis st (Backlog c)) = false.
Proof using I Hs.
  apply not_true_iff_false. intros Hon. apply (queued_sched st _ (inv_tokens _ I)) in Hon. congruence.
Qed.

Lemma inv_schedule_own :
  c = i → let st' := napi_op i (Backlog i) ____napi_schedule (upd_napi (Backlog i) f st) in
  inv st' ∧ sched (napis st' (Backlog i)) = true.
Proof using All.
  pose proof unscheduled_off as Hon. intros ->. cbv zeta. pose proof (inv_tokens _ I) as Ht.
  destruct (set_sched _ (tk_plain _ Ht (Backlog i))) as [Hp Hs']. fold (f (napis st (Backlog i))) in Hp, Hs'.
  set (st1 := upd_napi (Backlog i) f st).
  assert (napis st1 (Backlog i) = f (napis st (Backlog i))) as E1 by (cbn; unfold set_napi; by rewrite decide_True).
  assert (on_poll_list (napis st1 (Backlog i)) = false) as Hon1 by (rewrite E1; exact Hon).
  pose proof (schedule_op (sn_sd ci) (napis st1 (Backlog i)) ltac:(by rewrite E1)) as Hop.
  destruct (____napi_schedule (sn_sd ci) (napis st1 (Backlog i))) as [sd n'] eqn:E. cbn [fst snd] in Hop.
  destruct Hop as (Ho & Hst & Hl). rewrite (napi_op_at i (Backlog i) _ st1 ci sd n' Hi E).
  assert (sched n' = true) as Hsn by (by rewrite Hst, E1). split; [|cbn; by rewrite set_napi_at].
  change (inv (at_cpu i (link ci sd (on_poll_list n' && negb (on_poll_list (napis st1 (Backlog i)))) (Backlog i))
    (set_napi (Backlog i) (fun _ => n') (napis st1)) (ipis st) st)).
  apply (inv_at st i ci); [done|done| | | |apply I].
  - apply (tokens_at_napi st i ci _ (Backlog i) _ (places ci) (queues ci)); [done|done| |..];
      rewrite ?set_napi_at, ?Hs, ?Hon, ?Hsn, ?Hl, ?Hon1; [|apply Ho|done|apply link_places|done|apply link_queues].
    intros x Hx. rewrite set_napi_ne by done. cbn. by rewrite set_napi_ne.
  - intros j Hj. rewrite set_napi_ne by congruence. cbn. by rewrite set_napi_ne by congruence.
  - apply (cpu_ok_link st); [by apply I|done|by cbn; rewrite length_insert|by intros _; cbn; rewrite set_napi_at|by intros j [= ->]].
Qed.

Lemma inv_schedule_remote :
  c ≠ i → (c < length (cpus st))%nat →
  let st' := napi_schedule_rps i c (upd_napi (Backlog c) f st) in inv st' ∧ sched (napis st' (Backlog c)) = true.
Proof using All.
  intros Hne Hlt. cbv zeta. pose proof (inv_tokens _ I) as Ht. pose proof unscheduled_off as Hon.
  destruct (set_sched _ (tk_plain _ Ht (Backlog c))) as [Hp Hs']. fold (f (napis st (Backlog c))) in Hp, Hs'.
  assert (set_napi (Backlog c) f (napis st) (Backlog c) = f (napis st (Backlog c))) as E by (unfold set_napi; by rewrite decide_True).
  unfold napi_schedule_rps. rewrite decide_False by done. rewrite (upd_cpu_at i ci _ (upd_napi (Backlog c) f st) Hi).
  set (ci' := (if in_net_rx_action _ then _ else _)).
  assert (places ci' ≡ₚ Backlog c :: places ci ∧ queues ci' = queues ci ∧ sn_pc ci' = sn_pc ci) as (P & Q & Hpc).
  { unfold ci'. split_and!; [|by destruct (in_net_rx_action _)..]. destruct (in_net_rx_action _); unfold places, queues; cbn; solve_Permutation. }
  split; [|cbn; by rewrite E]. change (inv (at_cpu i ci' (set_napi (Backlog c) f (napis st)) (ipis st) st)).
  apply (inv_at st i ci); [done|done| | | |apply I].
  - apply (tokens_at_napi st i ci _ (Backlog c) _ (places ci) (queues ci)); [done|done|by intros x Hx; apply set_napi_ne|..];
      rewrite ?E, ?Hs, ?Hon, ?Hs'; [done|done|done|done|]. rewrite Q. change (on_poll_list (f (napis st (Backlog c)))) with (on_poll_list (napis st (Backlog c))). by rewrite Hon.
  - intros j Hj Hsj. destruct (decide (j = c)) as [->|Hjc]; [by rewrite E|]. by rewrite set_napi_ne by congruence.
  - destruct (inv_cpus _ I i ci Hi) as [C1 C2 C3 C4 C5]. split.
    + rewrite Hpc. unfold ci'. by destruct (in_net_rx_action _).
    + rewrite Hpc. unfold ci'. destruct (in_net_rx_action (sn_sd ci <| sn_rps_ipi_list ::= cons c |>)) eqn:Ea;
        cbn in Ea |- *; destruct (sn_pc ci); auto.
    + rewrite Q, Hpc. done.
    + cbn. rewrite length_insert. unfold ci'. by destruct (in_net_rx_action _); cbn; constructor.
    + intros Hq. cbn. rewrite set_napi_ne by congruence. apply C5. unfold ci' in Hq. by destruct (in_net_rx_action _).
Qed.
End Rps.

Lemma inv_enqueue st i c skb running limited st' ok :
  inv st → is_Some (cpus st !! i) → enqueue_to_backlog max_backlog i c skb running limited st = Some (st', ok) → inv st'.
Proof.
  intros I [ci Hi] E. unfold enqueue_to_backlog in E. destruct (cpus st !! c) as [sd|] eqn:Hc; [|done]. cbn [mbind option_bind] in E.
  destruct (negb running); [by simplify_eq|]. destruct (_ || limited); [by simplify_eq|]. cbv zeta in E. injection E as <- <-.
  destruct (sched (napis st (Backlog c))) eqn:Hs.
  { rewrite andb_false_r. by apply (inv_push st c sd). }
  destruct (Z.eqb_spec (Z.of_nat (length (sn_input_pkt_queue sd))) 0) as [Hz|Hz].
  - cbn [negb andb].
    assert (inv (napi_schedule_rps i c (upd_napi (Backlog c) (fun n => n <| state ::= set_bit NAPI_STATE_SCHED |>) st)) ∧
      sched (napis (napi_schedule_rps i c (upd_napi (Backlog c) (fun n => n <| state ::= set_bit NAPI_STATE_SCHED |>) st)) (Backlog c)) = true) as [I' Hs'].
    { destruct (decide (c = i)) as [->|Hne].
      - unfold napi_schedule_rps. rewrite decide_True by done. by apply (inv_schedule_own st i ci i).
      - apply (inv_schedule_remote st i ci c); try done. by eapply lookup_lt_Some. }
    set (st1 := napi_schedule_rps _ _ _) in *. destruct (cpus st1 !! c) as [sd1|] eqn:Hc1; [by apply (inv_push st1 c sd1)|].
    by rewrite upd_cpu_none.
  - cbn [negb andb]. exfalso. assert (sched (napis st (Backlog c)) = true); [|congruence]. apply (inv_cpus _ I c sd Hc).
    destruct (sn_input_pkt_queue sd); [done|]. done.
Qed.

Lemma inv_flush st i dead : inv st → inv (flush_backlog i dead st).
Proof.
  intros I. destruct (cpus st !! i) as [c|] eqn:Hc.
  - unfold flush_backlog. rewrite (upd_cpu_at i c _ st Hc).
    apply (inv_at st i c); [done|done|by eapply tokens_at; [apply I|..]|done| |apply I].
    destruct (inv_cpus _ I i c Hc) as [C1 C2 C3 C4 C5]. split; [done|done|done|by cbn; rewrite length_insert|].
    cbn. intros Hq. apply C5. intros [E1 E2]%app_nil. by rewrite E1, E2 in Hq.
  - unfold flush_backlog. by rewrite upd_cpu_none.
Qed.

(** *** The interrupt for a backlog *)
Lemma inv_ipi st c l1 l2 : inv st → ipis st = l1 ++ c :: l2 → inv (rps_trigger_softirq c (st <| ipis := l1 ++ l2 |>)).
Proof.
  intros I El. pose proof (inv_tokens _ I) as Ht. pose proof (inv_ipis _ I) as Hl. rewrite El in Hl.
  apply Forall_app in Hl as [Hl1 Hl2]. apply Forall_cons in Hl2 as [Hc Hl2].
  destruct (lookup_lt_is_Some_2 _ _ Hc) as [sd Hsd]. set (st1 := st <| ipis := l1 ++ l2 |>). set (n := napis st (Backlog c)).
  assert (Backlog c ∉ all_queues st) as Hq.
  { pose proof (tk_nodup _ Ht) as Hnd. intros Hq. unfold all_places in Hnd. apply NoDup_app in Hnd as (_ & Hd & _).
    apply (Hd (Backlog c)); [|rewrite El, fmap_app; set_solver]. unfold all_queues in Hq. apply list_elem_of_bind in Hq as (x & Hin & Hx).
    apply list_elem_of_bind. exists x. split; [|done]. unfold places. rewrite elem_of_app. by left. }
  assert (sched n = true) as Hs.
  { apply (tk_sched _ Ht). unfold all_places. rewrite El, fmap_app. set_solver. }
  assert (on_poll_list n = false) as Hon.
  { apply not_true_iff_false. intros Hon. by apply (tk_queued _ Ht) in Hon. }
  pose proof (schedule_op (sn_sd sd) n (tk_plain _ Ht _)) as Hop. destruct (____napi_schedule (sn_sd sd) n) as [sd' n'] eqn:E.
  cbn [fst snd] in Hop. destruct Hop as (Ho & Hst & Hln). unfold rps_trigger_softirq.
  rewrite (napi_op_at c (Backlog c) _ st1 sd sd' n' Hsd E). change (napis st1 (Backlog c)) with n. 
  change (inv (at_cpu c (link sd sd' (on_poll_list n' && negb (on_poll_list n)) (Backlog c)) (set_napi (Backlog c) (fun _ => n') (napis st)) (l1 ++ l2) st)).
  apply (inv_at st c sd); [done|done| | | |by apply Forall_app].
  - set (st' := at_cpu _ _ _ _ _). assert (cpus st' !! c = Some (link sd sd' (on_poll_list n' && negb (on_poll_list n)) (Backlog c))) as Hc' by (by apply list_lookup_insert_eq).
    apply (tokens_change st st' (Backlog c) (places sd ++ ((others c (cpus st) ≫= places) ++ (Backlog <$> (l1 ++ l2)))) (all_queues st));
      [done|intros x Hx; by apply set_napi_ne|cbn; by rewrite set_napi_at; apply Ho|..]; fold n; cbn [st' at_cpu napis]; rewrite ?set_napi_at, ?Hs, ?Hon, ?Hst, ?Hln, ?Hs; cbn [tok].
    + rewrite (places_at st c sd Hsd), El, !fmap_app. cbn [fmap list_fmap]. solve_Permutation.
    + rewrite (places_at st' c _ Hc'), link_places, Hln, Hon. cbn. rewrite others_insert. done.
    + done.
    + rewrite (queues_at st' c _ Hc'), link_queues, Hln, Hon, (queues_at st c sd Hsd). cbn. by rewrite others_insert.
  - intros j Hj. by rewrite set_napi_ne by congruence.
  - apply (cpu_ok_link st); [by apply I|done|by cbn; rewrite length_insert| |by intros j [= ->]].
    intros _. cbn. rewrite set_napi_at. by rewrite Hst.
Qed.

(** *** Steps of the softirq *)

(** A step that moves no NAPI. *)
Lemma inv_silent st i c c' :
  inv st → cpus st !! i = Some c →
  queues c' ≡ₚ queues c → polling (sn_pc c') = polling (sn_pc c) → sn_rps_ipi_list c' = sn_rps_ipi_list c →
  (sn_input_pkt_queue c' ++ sn_process_queue c' ≠ [] → sn_input_pkt_queue c ++ sn_process_queue c ≠ []) →
  match sn_pc c' with Loop | Polling _ _ _ | Out => True | _ => sn_list c' = [] ∧ sn_repoll c' = [] end →
  match sn_pc c' with
  | Idle => sn_poll_list c' ≠ [] ∨ sn_rps_ipi_list c' ≠ [] ∨ in_net_rx_action (sn_sd c') = true →
            net_rx_softirq_raised (sn_sd c') = true
  | Emptied => in_net_rx_action (sn_sd c') = false
  | CheckRps => in_net_rx_action (sn_sd c') = false ∧ (sn_poll_list c' ≠ [] → net_rx_softirq_raised (sn_sd c') = true)
  | _ => True
  end →
  inv (at_cpu i c' (napis st) (ipis st) st).
Proof.
  intros I Hc Q P R B C1' C2'. apply (inv_at st i c); [done|done| |done| |apply I].
  - apply (tokens_at st i c); [apply I|done| |done]. unfold places. by rewrite Q, P, R.
  - destruct (inv_cpus _ I i c Hc) as [C1 C2 C3 C4 C5]. split; [done|done| |by cbn; rewrite length_insert, R|auto].
    intros j. rewrite P, Q. apply C3.
Qed.

(** [net_rps_action_and_irq_enable] moves the pending interrupts out. *)
Lemma inv_rps_action st i c :
  inv st → cpus st !! i = Some c → sn_pc c ≠ Idle → inv (net_rps_action_and_irq_enable i st).
Proof.
  intros I Hc Hpc. unfold net_rps_action_and_irq_enable. rewrite Hc, (upd_cpu_at i c _ st Hc).
  change (inv (at_cpu i (c <| sn_rps_ipi_list := [] |>) (napis st) (ipis st ++ sn_rps_ipi_list c) st)).
  destruct (inv_cpus _ I i c Hc) as [C1 C2 C3 C4 C5].
  apply (inv_at st i c); [done|done| |done| |apply Forall_app; split; [apply I|done]].
  - set (st' := at_cpu _ _ _ _ _). assert (cpus st' !! i = Some (c <| sn_rps_ipi_list := [] |>)) as Hc' by (apply list_lookup_insert_eq; by eapply lookup_lt_Some).
    apply (tokens_same st); [apply I|done| |].
    + rewrite (places_at st' i _ Hc'), (places_at st i c Hc). cbn. rewrite others_insert, fmap_app. unfold places. cbn.
      change (queues c <| sn_rps_ipi_list := [] |>) with (queues c). solve_Permutation.
    + rewrite (queues_at st' i _ Hc'), (queues_at st i c Hc). cbn. by rewrite others_insert.
  - split; [done| |done|done|done]. change (sn_pc c <| sn_rps_ipi_list := [] |>) with (sn_pc c). cbn. destruct (sn_pc c); try done.
Qed.

(** The end of a run. *)
Lemma inv_out st i c :
  inv st → cpus st !! i = Some c → sn_pc c = Out →
  let l := sn_list c ++ sn_poll_list c ++ sn_repoll c in
  inv (net_rps_action_and_irq_enable i (upd_cpu i (fun c =>
      c <| sn_poll_list := l |> <| sn_list := [] |> <| sn_repoll := [] |> <| sn_pc := Idle |> <| sn_runs ::= S |>
        <| sn_sd ::= fun sd => if is_nil l then sd <| in_net_rx_action := false |>
                               else sd <| net_rx_softirq_raised := true |> |>) st)).
Proof.
  intros I Hc Hpc l. rewrite (upd_cpu_at i c _ st Hc). set (c' := c <| sn_poll_list := l |> <| sn_list := [] |> <| sn_repoll := [] |> <| sn_pc := Idle |> <| sn_runs ::= S |> <| sn_sd ::= _ |>).
  unfold net_rps_action_and_irq_enable. set (st1 := at_cpu i c' (napis st) (ipis st) st).
  pose proof (lookup_lt_Some _ _ _ Hc) as Hlt.
  assert (cpus st1 !! i = Some c') as Hc1 by (by apply list_lookup_insert_eq). rewrite Hc1, (upd_cpu_at i c' _ st1 Hc1).
  assert ((at_cpu i (c' <| sn_rps_ipi_list := [] |>) (napis st1) (ipis st1) st1) <| ipis ::= fun k => k ++ sn_rps_ipi_list c' |> =
    at_cpu i (c' <| sn_rps_ipi_list := [] |>) (napis st) (ipis st ++ sn_rps_ipi_list c) st) as ->.
  { unfold at_cpu, st1. cbn. change (mk_net (<[i := c' <| sn_rps_ipi_list := [] |>]> (<[i := c']> (cpus st))) (napis st) (ipis st ++ sn_rps_ipi_list c') =
      mk_net (<[i := c' <| sn_rps_ipi_list := [] |>]> (cpus st)) (napis st) (ipis st ++ sn_rps_ipi_list c)). f_equal. apply list_insert_insert_eq. }
  destruct (inv_cpus _ I i c Hc) as [C1 C2 C3 C4 C5]. set (c2 := c' <| sn_rps_ipi_list := [] |>).
  assert (queues c2 ≡ₚ queues c) as Hq. { unfold queues, c2, c', l. cbn. rewrite !app_nil_r. solve_Permutation. }
  apply (inv_at st i c); [done|done| |done| |apply Forall_app; split; [apply I|done]].
  - set (st' := at_cpu _ _ _ _ _). assert (cpus st' !! i = Some c2) as Hc' by (by apply list_lookup_insert_eq).
    apply (tokens_same st); [apply I|done| |].
    + rewrite (places_at st' i _ Hc'), (places_at st i c Hc). change (cpus st') with (<[i := c2]> (cpus st)).
      change (ipis st') with (ipis st ++ sn_rps_ipi_list c). rewrite others_insert, fmap_app. unfold places at 1 3. rewrite Hq, Hpc.
      change (sn_pc c2) with Idle. change (sn_rps_ipi_list c2) with (@nil nat). cbn [polling fmap list_fmap app]. solve_Permutation.
    + rewrite (queues_at st' i _ Hc'), (queues_at st i c Hc), Hq. cbn. by rewrite others_insert.
  - split; [done| | |constructor|done].
    + unfold c2, c'. cbn. destruct l as [|x k]; cbn; [|done]. intros [?|[?|?]]; done.
    + intros j. rewrite Hq. change (sn_pc c2) with Idle. cbn [polling]. rewrite app_nil_r. intros Hj. apply C3, elem_of_app. by left.
Qed.

(** *** Polls *)

Lemma upd_at_cpu i f c m l st : (i < length (cpus st))%nat → upd_cpu i f (at_cpu i c m l st) = at_cpu i (f c) m l st.
Proof.
  intros Hlt. rewrite (upd_cpu_at i c) by (by apply list_lookup_insert_eq). unfold at_cpu. cbn. f_equal. apply list_insert_insert_eq.
Qed.

Lemma napi_op_at_cpu i id op c m l st sd n' :
  (i < length (cpus st))%nat → op (sn_sd c) (m id) = (sd, n') →
  napi_op i id op (at_cpu i c m l st) =
  at_cpu i (link c sd (on_poll_list n' && negb (on_poll_list (m id))) id) (set_napi id (fun _ => n') m) l st.
Proof.
  intros Hlt E. rewrite (napi_op_at i id op _ c sd n'); [|by apply list_lookup_insert_eq|done].
  unfold at_cpu. cbn. f_equal. apply list_insert_insert_eq.
Qed.

(** The NAPI being polled is scheduled and in no queue. *)
Lemma polled_napi st i c id q w :
  inv st → cpus st !! i = Some c → sn_pc c = Polling id q w →
  sched (napis st id) = true ∧ on_poll_list (napis st id) = false ∧ ∀ j, id = Backlog j → j = i.
Proof.
  intros I Hc Hpc. pose proof (inv_tokens _ I) as [T1 T2 T3 T4].
  assert (all_places st ≡ₚ id :: queues c ++ (Backlog <$> sn_rps_ipi_list c) ++ ((others i (cpus st) ≫= places) ++ (Backlog <$> ipis st))) as P.
  { rewrite (places_at st i c Hc). unfold places at 1. rewrite Hpc. cbn [polling]. solve_Permutation. }
  split_and!.
  - apply T2. rewrite P. by left.
  - apply not_true_iff_false. intros Hon. apply T3 in Hon. rewrite P in T1. apply NoDup_cons in T1 as [T1 _]. apply T1.
    rewrite (queues_at st i c Hc) in Hon. apply elem_of_app in Hon as [Hq|Hq]; [by apply elem_of_app; left|].
    rewrite !elem_of_app. right. right. left. apply list_elem_of_bind in Hq as (x & Hx & Hin). apply list_elem_of_bind.
    exists x. split; [unfold places; apply elem_of_app; by left|done].
  - intros j ->. apply (co_own _ _ _ (inv_cpus _ I i c Hc)). rewrite Hpc. cbn. set_solver.
Qed.

(** The end of a poll: the NAPI is queued again exactly when it is scheduled. *)
Lemma inv_leave_poll st i c id q w c' m :
  inv st → cpus st !! i = Some c → sn_pc c = Polling id q w →
  sn_pc c' = Loop ∨ sn_pc c' = Out → queues c' ≡ₚ tok (sched (m id)) id ++ queues c →
  sn_rps_ipi_list c' = sn_rps_ipi_list c → on_poll_list (m id) = sched (m id) → plain (m id) →
  (∀ x, x ≠ id → m x = napis st x) →
  (sn_input_pkt_queue c' ++ sn_process_queue c' ≠ [] → sched (m (Backlog i)) = true) →
  inv (at_cpu i c' m (ipis st) st).
Proof.
  intros I Hc Hpc Hpc' Hq Hr Ho Hp Hm Hb. destruct (polled_napi st i c id q w I Hc Hpc) as (Hs & Hon & Hid).
  assert (polling (sn_pc c') = []) as Hpol by (by destruct Hpc' as [-> | ->]).
  apply (inv_at st i c); [done|done| | | |apply I].
  - apply (tokens_at_napi st i c c' id m (queues c ++ (Backlog <$> sn_rps_ipi_list c)) (queues c)); [apply I|done|done|done|..];
      rewrite ?Hs, ?Hon, ?Ho; cbn [tok]; [| |done|done].
    + unfold places. rewrite Hpc. cbn [polling]. solve_Permutation.
    + unfold places. rewrite Hpol, Hr, Hq. cbn [app]. by rewrite <- app_assoc.
  - intros j Hj Hsj. destruct (decide (Backlog j = id)) as [<-|Hne]; [|by rewrite Hm]. by destruct Hj; apply Hid.
  - destruct (inv_cpus _ I i c Hc) as [C1 C2 C3 C4 C5]. split.
    + by destruct Hpc' as [-> | ->].
    + by destruct Hpc' as [-> | ->].
    + intros j. rewrite Hpol, app_nil_r, Hq, elem_of_app. intros [Hj|Hj]; [|apply C3, elem_of_app; by left].
      destruct (sched (m id)); cbn [tok] in Hj; [|by apply not_elem_of_nil in Hj]. apply list_elem_of_singleton in Hj. by apply Hid.
    + cbn. by rewrite length_insert, Hr.
    + exact Hb.
Qed.

Definition after (c : softnet) (work : Z) (late : bool) : softnet :=
  c <| sn_budget := sn_budget c - work |> <| sn_pc := if (sn_budget c - work <=? 0) || late then Out else Loop |>.

Lemma after_pc c work late : sn_pc (after c work late) = Loop ∨ sn_pc (after c work late) = Out.
Proof. unfold after. cbn. destruct (_ || late); auto. Qed.

Lemma after_queues c work late : queues (after c work late) = queues c.
Proof. done. Qed.

Lemma inv_dev_complete st i c d q w wk late st' :
  inv st → cpus st !! i = Some c → sn_pc c = Polling (Dev d) q w →
  dev_poll to df HZ fl i d q (Complete wk) late st = Some st' → inv st'.
Proof.
  intros I Hc Hpc E. unfold dev_poll in E. destruct (_ && _); [|done]. injection E as <-.
  destruct (polled_napi st i c (Dev d) q w I Hc Hpc) as (Hs & Hon & _). pose proof (tk_plain _ (inv_tokens _ I) (Dev d)) as Hp.
  pose proof (lookup_lt_Some _ _ _ Hc) as Hlt. pose proof (complete_op (sn_sd c) _ wk Hp Hon) as Hop.
  destruct (napi_complete_done to df fl (sn_sd c) (napis st (Dev d)) wk) as [[sd n'] r] eqn:En. destruct Hop as [Ho Hsn].
  rewrite (napi_op_at i (Dev d) _ st c sd n' Hc) by (by rewrite En). rewrite Hon. cbn [negb]. rewrite andb_true_r.
  unfold after_poll. rewrite upd_at_cpu by done. change (inv (at_cpu i (after (link c sd (on_poll_list n') (Dev d)) wk late) (set_napi (Dev d) (fun _ => n') (napis st)) (ipis st) st)).
  apply (inv_leave_poll st i c (Dev d) q w); [done|done|done|apply after_pc| |done|..]; rewrite ?set_napi_at.
  - rewrite after_queues, link_queues. by rewrite Hsn.
  - done.
  - apply Ho.
  - intros x Hx. by apply set_napi_ne.
  - intros Hq. rewrite set_napi_ne by done. by apply (inv_cpus _ I i c Hc).
Qed.

Definition quiet (n : napi_struct) : Prop :=
  test_bit NAPI_STATE_DISABLE (state n) = false ∧ test_bit NAPI_STATE_PREFER_BUSY_POLL (state n) = false.

(** A poll that used its quota. *)
Lemma inv_poll_exhausted st i c id q w work late :
  inv st → (∀ j, id = Backlog j → quiet (napis st id)) → cpus st !! i = Some c → sn_pc c = Polling id q w →
  inv (poll_exhausted to df HZ fl i id work late st).
Proof.
  intros I Hquiet Hc Hpc. destruct (polled_napi st i c id q w I Hc Hpc) as (Hs & Hon & Hid).
  pose proof (tk_plain _ (inv_tokens _ I) id) as Hp. pose proof (lookup_lt_Some _ _ _ Hc) as Hlt.
  unfold poll_exhausted. rewrite Hc. pose proof (exhausted_op (sn_sd c) _ work Hp Hs Hon) as Hop.
  assert (∀ j, id = Backlog j → (napi_poll_exhausted to df HZ fl (sn_sd c) (napis st id) work).2 = true) as Hback.
  { intros j Hj. destruct (Hquiet j Hj) as [Q1 Q2]. unfold napi_poll_exhausted. rewrite Q1, Q2. cbn. by rewrite Hon. }
  destruct (napi_poll_exhausted to df HZ fl (sn_sd c) (napis st id) work) as [[sd n'] repoll]. cbn [snd] in Hback.
  destruct Hop as [Ho Hrep]. rewrite (napi_op_at i id _ st c sd n' Hc eq_refl). rewrite Hon. cbn [negb]. rewrite andb_true_r.
  destruct repoll.
  - destruct Hrep as [Hs' Hon']. rewrite Hon', upd_at_cpu by done. unfold after_poll. 
    set (c1 := link c sd false id). set (m := set_napi id (fun n => n <| on_poll_list := true |>) (set_napi id (fun _ => n') (napis st))).
    change (inv (upd_cpu i (fun c => c <| sn_budget := sn_budget c - work |> <| sn_pc := if (sn_budget c - work <=? 0) || late then Out else Loop |>)
      (at_cpu i (c1 <| sn_repoll ::= fun l => l ++ [id] |>) m (ipis st) st))). rewrite upd_at_cpu by done.
    change (inv (at_cpu i (after (c1 <| sn_repoll ::= fun l => l ++ [id] |>) work late) m (ipis st) st)).
    assert (m id = n' <| on_poll_list := true |>) as Em by (unfold m, set_napi; by rewrite !decide_True by done).
    apply (inv_leave_poll st i c id q w); [done|done|done|apply after_pc| |done|..]; rewrite ?Em.
    + change (sched (n' <| on_poll_list := true |>)) with (sched n'). rewrite Hs', after_queues. unfold queues. cbn. solve_Permutation.
    + by rewrite <- Hs'.
    + exact (op_plain _ _ _ _ Ho).
    + intros x Hx. unfold m, set_napi. by rewrite !decide_False by done.
    + intros Hq. destruct (decide (Backlog i = id)) as [Hi|Hi]; [rewrite Hi, Em; exact Hs'|].
      unfold m, set_napi. rewrite !decide_False by done. by apply (inv_cpus _ I i c Hc).
  - unfold after_poll. rewrite upd_at_cpu by done.
    change (inv (at_cpu i (after (link c sd (on_poll_list n') id) work late) (set_napi id (fun _ => n') (napis st)) (ipis st) st)).
    apply (inv_leave_poll st i c id q w); [done|done|done|apply after_pc| |done|..]; rewrite ?set_napi_at.
    + rewrite after_queues, link_queues. by rewrite Hrep.
    + done.
    + apply Ho.
    + intros x Hx. by apply set_napi_ne.
    + intros Hq. destruct id as [j|d]; [discriminate (Hback j eq_refl)|]. rewrite set_napi_ne by done. by apply (inv_cpus _ I i c Hc).
Qed.

Lemma clear_sched n : plain n → plain (n <| state ::= fun s => Z.land s (BIT NAPI_STATE_THREADED) |>) ∧
  sched (n <| state ::= fun s => Z.land s (BIT NAPI_STATE_THREADED) |>) = false.
Proof.
  intros (H1 & _ & _). unfold plain, test_bit in *. cbn. rewrite land_BIT by bit_pos. rewrite H1. by rewrite !Z.bits_0.
Qed.

Lemma inv_process_backlog st i c q w late st' :
  inv st → quiet (napis st (Backlog i)) → cpus st !! i = Some c → sn_pc c = Polling (Backlog i) q w →
  process_backlog to df HZ fl i q w late st = Some st' → inv st'.
Proof.
  intros I Hquiet Hc Hpc E. unfold process_backlog in E. rewrite Hc in E. cbn [mbind option_bind] in E.
  pose proof (lookup_lt_Some _ _ _ Hc) as Hlt.
  destruct (polled_napi st i c _ q w I Hc Hpc) as (Hs & Hon & _). destruct (sn_process_queue c) as [|skb rest] eqn:Hproc.
  - destruct (sn_input_pkt_queue c) as [|p input] eqn:Hin; injection E as <-.
    + unfold after_poll. rewrite (upd_cpu_at i c) by done.
      change (inv (at_cpu i (after c w late) (napis (upd_napi (Backlog i) (fun n => n <| state ::= fun s => Z.land s (BIT NAPI_STATE_THREADED) |>) st)) (ipis st) st)).
      destruct (clear_sched _ (tk_plain _ (inv_tokens _ I) (Backlog i))) as [Hp' Hs'].
      apply (inv_leave_poll st i c (Backlog i) q w); [done|done|done|apply after_pc| |done|..]; cbn; unfold set_napi; rewrite ?decide_True by done.
      * rewrite Hs'. done.
      * rewrite Hs'. exact Hon.
      * done.
      * intros x Hx. by rewrite decide_False.
      * rewrite Hproc, Hin. done.
    + rewrite (upd_cpu_at i c) by done. apply (inv_silent st i c); [done|done|done|done|done|cbn; by rewrite Hproc, Hin|cbn; by rewrite Hpc|cbn; by rewrite Hpc].
  - injection E as <-. set (c1 := c <| sn_process_queue := rest |> <| sn_received ::= fun l => l ++ [skb] |>).
    assert (inv (at_cpu i c1 (napis st) (ipis st) st)) as I1.
    { apply (inv_silent st i c); [done|done|done|done|done|cbn; rewrite Hproc; by destruct (sn_input_pkt_queue c)|cbn; by rewrite Hpc|cbn; by rewrite Hpc]. }
    rewrite (upd_cpu_at i c) by done. fold c1. set (st1 := at_cpu i c1 (napis st) (ipis st) st) in *.
    assert (cpus st1 !! i = Some c1) as Hc1 by (by apply list_lookup_insert_eq). destruct (q <=? w + 1).
    + by apply (inv_poll_exhausted st1 i c1 (Backlog i) q w).
    + rewrite (upd_cpu_at i c1) by done. by apply (inv_silent st1 i c1); [done|done|done|cbn; by rewrite Hpc|..].
Qed.

Lemma inv_weight st id w : inv st → inv (upd_napi id (fun n => n <| weight := w |>) st).
Proof.
  intros I. set (st' := upd_napi _ _ _). set (g := fun n : napi_struct => n <| weight := w |>).
  assert (∀ x, napis st' x = napis st x ∨ napis st' x = g (napis st x)) as Hx.
  { intros x. cbn. unfold set_napi. destruct (decide (x = id)); auto. }
  split.
  - destruct (inv_tokens _ I) as [T1 T2 T3 T4]. split; [exact T1|..]; intros x; specialize (T2 x); specialize (T3 x); specialize (T4 x); destruct (Hx x) as [-> | ->]; assumption.
  - intros i c Hc. apply (cpu_ok_frame st); [done| |by apply I]. intros Hs. destruct (Hx (Backlog i)) as [-> | ->]; assumption.
  - apply I.
Qed.

(** A NAPI leaves the list to be polled. *)
Lemma inv_napi_poll st i c id rest :
  inv st → cpus st !! i = Some c → sn_pc c = Loop → sn_list c = id :: rest →
  inv (napi_poll dev_rx_weight i id (upd_cpu i (fun c => c <| sn_list := rest |>) st)).
Proof.
  intros I Hc Hpc Hl. pose proof (inv_tokens _ I) as Ht. pose proof (lookup_lt_Some _ _ _ Hc) as Hlt.
  assert (id ∈ queues c) as Hin by (unfold queues; rewrite Hl; set_solver).
  assert (id ∈ all_queues st) as Hq by (rewrite (queues_at st i c Hc); set_solver).
  pose proof (proj2 (tk_queued _ Ht id) Hq) as Hon. pose proof (queued_sched st id Ht Hon) as Hs.
  unfold napi_poll. rewrite (upd_cpu_at i c _ st Hc). set (q := weight _). set (m := set_napi id (fun n => n <| on_poll_list := false |>) (napis st)).
  change (upd_napi id (fun n => n <| on_poll_list := false |>) (at_cpu i (c <| sn_list := rest |>) (napis st) (ipis st) st))
    with (at_cpu i (c <| sn_list := rest |>) m (ipis st) st). cbv zeta. rewrite upd_at_cpu by done.
  assert (m id = (napis st id) <| on_poll_list := false |>) as Em by (unfold m, set_napi; by rewrite decide_True).
  change (napis (at_cpu i _ m (ipis st) st) id) with (m id). rewrite Em. change (sched ((napis st id) <| on_poll_list := false |>)) with (sched (napis st id)).
  rewrite Hs, upd_at_cpu by done. set (c' := c <| sn_list := rest |> <| sn_polled ::= fun l => l ++ [id] |> <| sn_pc := Polling id q 0 |>).
  assert (inv (at_cpu i c' m (ipis st) st)) as I'.
  { destruct (inv_cpus _ I i c Hc) as [C1 C2 C3 C4 C5].
    assert (queues c ≡ₚ id :: queues c') as Hqc by (unfold queues; rewrite Hl; unfold c'; cbn; solve_Permutation).
    apply (inv_at st i c); [done|done| | | |apply I].
    - apply (tokens_at_napi st i c c' id m (queues c' ++ (Backlog <$> sn_rps_ipi_list c)) (queues c')); [done|done| |..]; rewrite ?Em.
      + intros x Hx. by apply set_napi_ne.
      + apply (tk_plain _ Ht).
      + rewrite Hs. unfold places. rewrite Hqc, Hpc. done.
      + change (sched ((napis st id) <| on_poll_list := false |>)) with (sched (napis st id)). rewrite Hs. unfold places at 1. cbn. solve_Permutation.
      + by rewrite Hon.
      + done.
    - intros j Hj Hsj. unfold m, set_napi. by destruct (decide _).
    - split; [done|done| |by cbn; rewrite length_insert|].
      + intros j. cbn [c' sn_pc polling]. intros Hj. apply C3. rewrite Hqc, Hpc. apply elem_of_app in Hj as [Hj|Hj]; [|apply list_elem_of_singleton in Hj as ->]; set_solver.
      + intros Hb. cbn. unfold m, set_napi. destruct (decide _); apply C5, Hb. }
  destruct id as [j|d]; [|done]. apply inv_weight. apply (inv_rps_action _ i c'); [done|by apply list_lookup_insert_eq|done].
Qed.

Abbreviation rx_step := (net_rx_action to df HZ fl netdev_budget dev_rx_weight).
Abbreviation sys_step := (step to df HZ fl netdev_budget max_backlog dev_rx_weight).
Definition net_reachable : nat -> net -> Prop := reachable to df HZ fl netdev_budget max_backlog dev_rx_weight napi_weight.

Lemma inv_net_rx_action st i o late st' :
  inv st → (∀ j, quiet (napis st (Backlog j))) → rx_step i o late st = Some st' → inv st'.
Proof.
  intros I Hquiet E. unfold net_rx_action in E. destruct (cpus st !! i) as [c|] eqn:Hc; [|done]. cbn [mbind option_bind] in E.
  destruct (inv_cpus _ I i c Hc) as [C1 C2 C3 C4 C5]. destruct (sn_pc c) as [| | | |id q w| | |] eqn:Hpc.
  - destruct (net_rx_softirq_raised (sn_sd c)); [|done]. injection E as <-. rewrite (upd_cpu_at i c) by done. destruct C1 as [L1 L2].
    by apply (inv_silent st i c); [done|done|unfold queues; cbn; by rewrite L1, L2|cbn; by rewrite Hpc|..].
  - injection E as <-. rewrite (upd_cpu_at i c) by done. by apply (inv_silent st i c); [done|done|done|cbn; by rewrite Hpc|..].
  - injection E as <-. rewrite (upd_cpu_at i c) by done.
    by apply (inv_silent st i c); [done|done|unfold queues; cbn; solve_Permutation|cbn; by rewrite Hpc|..].
  - destruct (sn_list c) as [|id rest] eqn:Hl.
    + destruct (sn_repoll c) as [|x r] eqn:Hr; cbn [is_nil] in E; injection E as <-; rewrite (upd_cpu_at i c) by done;
        by apply (inv_silent st i c); [done|done|done|cbn; by rewrite Hpc|..].
    + injection E as <-. by eapply inv_napi_poll.
  - destruct id as [j|d].
    + destruct (decide (j = i)) as [->|]; [|done]. by eapply inv_process_backlog.
    + destruct o as [wk|]; [by eapply inv_dev_complete|]. injection E as <-. by apply (inv_poll_exhausted st i c (Dev d) q w).
  - injection E as <-. rewrite (upd_cpu_at i c) by done.
    destruct (sn_poll_list c) eqn:Hpl; cbn [is_nil]; by apply (inv_silent st i c); [done|done|done|cbn; by rewrite Hpc|..].
  - destruct (sn_rps_ipi_list c) eqn:Hr; cbn [is_nil] in E; injection E as <-; rewrite (upd_cpu_at i c) by done.
    + destruct C2 as [C2 C2']. apply (inv_silent st i c); [done|done|done|cbn; by rewrite Hpc|done|done|done|]. cbn. rewrite Hr.
      intros [?|[?|?]]; [by apply C2'|done|congruence].
    + by apply (inv_silent st i c); [done|done|done|cbn; by rewrite Hpc|..].
  - injection E as <-. by apply inv_out.
Qed.

(** *** The backlogs are never disabled or busy polled *)

Definition quiet_net (st : net) : Prop := ∀ j, quiet (napis st (Backlog j)).

Lemma quiet_bits n n' :
  (∀ b, 0 <= b → b ≠ NAPI_STATE_SCHED → test_bit b (state n') = test_bit b (state n) ∨ test_bit b (state n') = false) →
  quiet n → quiet n'.
Proof.
  intros Hb [Q1 Q2]. split.
  - destruct (Hb NAPI_STATE_DISABLE) as [->| ->]; [bit_pos|bit_ne|done|done].
  - destruct (Hb NAPI_STATE_PREFER_BUSY_POLL) as [->| ->]; [bit_pos|bit_ne|done|done].
Qed.

Lemma quiet_upd id f st : quiet_net st → (∀ j, id = Backlog j → quiet (f (napis st id))) → quiet_net (upd_napi id f st).
Proof. intros Hq Hf j. cbn. unfold set_napi. destruct (decide (Backlog j = id)) as [<-|]; [by eapply Hf|apply Hq]. Qed.

Lemma quiet_op i id op st :
  quiet_net st → (∀ j c, id = Backlog j → quiet (op (sn_sd c) (napis st id)).2) → quiet_net (napi_op i id op st).
Proof.
  intros Hq Hf. unfold napi_op. destruct (cpus st !! i) as [c|]; [|done]. specialize (fun j => Hf j c).
  destruct (op (sn_sd c) (napis st id)) as [sd n']. cbv zeta. by apply quiet_upd.
Qed.

Lemma quiet_schedule sd n : quiet n → quiet (____napi_schedule sd n).2.
Proof.
  intros Hq. unfold ____napi_schedule. destruct (_ && _); [|exact Hq]. cbn [snd]. destruct Hq as [Q1 Q2].
  unfold quiet, test_bit, set_bit in *. cbn. rewrite !Z.lor_spec, !BIT_testbit by bit_pos. rewrite Q1, Q2.
  by rewrite !(proj2 (Z.eqb_neq _ _)) by bit_ne.
Qed.

Lemma quiet_exhausted i id work late st :
  quiet_net st → quiet_net (poll_exhausted to df HZ fl i id work late st).
Proof.
  intros Hq. unfold poll_exhausted. destruct (cpus st !! i) as [c|]; [|done].
  assert (∀ j, id = Backlog j → quiet (napi_poll_exhausted to df HZ fl (sn_sd c) (napis st id) work).1.2) as Hf.
  { intros j ->. destruct (Hq j) as [Q1 Q2]. unfold napi_poll_exhausted. rewrite Q1, Q2. cbn zeta. by destruct (on_poll_list _). }
  destruct (napi_poll_exhausted _ _ _ _ _ _ _) as [[sd n'] repoll]. cbn [fst snd] in Hf.
  assert (quiet_net (napi_op i id (fun _ _ => (sd, n')) st)) as Hq' by (apply quiet_op; [done|intros j c' Hj; by eapply Hf]).
  destruct repoll; [|exact Hq']. apply (quiet_upd id _ (upd_cpu i _ (napi_op i id _ st))); [exact Hq'|].
  intros j ->. exact (Hq' j).
Qed.

Lemma quiet_rps i st : quiet_net st → quiet_net (net_rps_action_and_irq_enable i st).
Proof. intros Hq. unfold net_rps_action_and_irq_enable. by destruct (cpus st !! i). Qed.

Lemma quiet_step st st' : quiet_net st → sys_step st st' → quiet_net st'.
Proof.
  intros Hq Hs. destruct Hs as [i d|i c skb running limited st' ok E _|i dead|c l1 l2 El|i o late st' E].
  - by apply quiet_op.
  - unfold enqueue_to_backlog in E. destruct (cpus st !! c); [|done]. cbn [mbind option_bind] in E.
    destruct (negb running); [by simplify_eq|]. destruct (_ || limited); [by simplify_eq|]. cbv zeta in E. injection E as <- <-.
    assert (∀ s, quiet_net s → quiet_net (upd_napi (Backlog c) (fun n => n <| state ::= set_bit NAPI_STATE_SCHED |>) s)) as Hset.
    { intros s' Hqs. apply quiet_upd; [done|]. intros j _. apply (quiet_bits (napis s' (Backlog c))); [|apply Hqs]. intros b Hb Hne.
      unfold test_bit, set_bit. cbn. rewrite Z.lor_spec, BIT_testbit by bit_pos. rewrite (proj2 (Z.eqb_neq _ _)) by done. rewrite orb_false_r. by left. }
    destruct (_ && _); [|exact Hq]. unfold napi_schedule_rps. destruct (decide (c = i)) as [->|]; [|by apply Hset].
    apply (quiet_op i (Backlog i)); [by apply Hset|]. intros j cj _. apply quiet_schedule, (Hset st Hq).
  - done.
  - apply quiet_op; [done|]. intros j cj _. apply quiet_schedule, Hq.
  - unfold net_rx_action in E. destruct (cpus st !! i) as [c|] eqn:Hc; [|done]. cbn [mbind option_bind] in E.
    destruct (sn_pc c) as [| | | |[j|d] q w| | |].
    + destruct (net_rx_softirq_raised _); by simplify_eq.
    + by simplify_eq.
    + by simplify_eq.
    + destruct (sn_list c) as [|id rest]; [destruct (is_nil _); by simplify_eq|]. injection E as <-. unfold napi_poll. cbv zeta.
      set (st1 := upd_cpu i _ (upd_napi _ _ _)).
      assert (quiet_net st1) as Hq1 by (apply quiet_upd; [done|intros j ->; apply Hq]).
      destruct (sched _); [|exact Hq1]. destruct id as [j|d]; [|exact Hq1].
      set (st2 := net_rps_action_and_irq_enable _ _). assert (quiet_net st2) as Hq2 by (by apply quiet_rps).
      apply quiet_upd; [exact Hq2|]. intros k _. exact (Hq2 j).
    + destruct (decide (j = i)) as [->|]; [|done]. unfold process_backlog in E. rewrite Hc in E. cbn [mbind option_bind] in E.
      destruct (sn_process_queue c); [destruct (sn_input_pkt_queue c)|]; injection E as <-.
      * apply quiet_upd; [done|]. intros j _. apply (quiet_bits (napis st (Backlog i))); [|apply Hq]. intros b Hb Hne.
        unfold test_bit. cbn. rewrite Z.land_spec. destruct (Z.testbit (BIT _) b); [left; by rewrite andb_true_r|right; by rewrite andb_false_r].
      * done.
      * destruct (_ <=? _); [by apply quiet_exhausted|exact Hq].
    + destruct o as [wk|]; cbn [dev_poll] in E; [destruct (_ && _); [|done]|]; injection E as <-; [by apply quiet_op|by apply quiet_exhausted].
    + by simplify_eq.
    + destruct (is_nil _); by simplify_eq.
    + injection E as <-. by apply quiet_rps.
Qed.

Lemma inv_step st st' : inv st → quiet_net st → sys_step st st' → inv st'.
Proof.
  intros I Hq Hs. destruct Hs.
  - by apply inv_schedule.
  - by eapply inv_enqueue.
  - by apply inv_flush.
  - by apply inv_ipi.
  - by eapply inv_net_rx_action.
Qed.

Lemma inv_init ncpus : inv (net_dev_init napi_weight ncpus) ∧ quiet_net (net_dev_init napi_weight ncpus).
Proof.
  assert (∀ l, (idle_cpu <$> l) ≫= places = [] ∧ (idle_cpu <$> l) ≫= queues = []) as Hl.
  { induction l as [|x l [IH1 IH2]]; [done|]. cbn. by rewrite IH1, IH2. }
  destruct (Hl (List.seq 0 ncpus)) as [P Q]. split; [|intros j; split; apply Z.bits_0]. split.
  - split; unfold all_places, all_queues; cbn [net_dev_init cpus ipis]; rewrite ?P, ?Q; [constructor|..]; intros id.
    + cbn. unfold test_bit. rewrite Z.bits_0. split; [done|by intros ?%not_elem_of_nil].
    + cbn. split; [done|by intros ?%not_elem_of_nil].
    + split_and!; apply Z.bits_0.
  - intros i c Hc. cbn in Hc. apply list_lookup_fmap_Some in Hc as (k & -> & _). split; cbn; try done.
    + intros [?|[?|?]]; done.
    + intros j ?%not_elem_of_nil. done.
  - constructor.
Qed.

Lemma softirq_inv ncpus st : reachable to df HZ fl netdev_budget max_backlog dev_rx_weight napi_weight ncpus st → inv st ∧ quiet_net st.
Proof.
  unfold reachable. intros Hr. remember (net_dev_init napi_weight ncpus) as s0 eqn:E.
  assert (inv s0 ∧ quiet_net s0) as H0' by (subst; apply inv_init). clear E. induction Hr as [|s s' s'' Hs _ IH]; [done|].
  apply IH. destruct H0' as [I Hq]. split; [by eapply inv_step|by eapply quiet_step].
Qed.

(** ** One processor

    What happens to one processor, as a transition system of its own: the facts
    about its queues, its order and its budget are proved on it. *)

Definition core (c : softnet) :=
  (sn_poll_list c, sn_list c, sn_repoll c, sn_budget c, sn_pc c, (sn_polled c, sn_runs c),
   (sn_input_pkt_queue c, sn_process_queue c, sn_received c, sn_accepted c, sn_flushed c)).

Section OneCpu.
(** [wok]: the quotas that occur. *)
Context (wok : Z -> Prop).

Inductive cpu_step (c : softnet) : softnet -> Prop :=
| cs_frame c' : core c' = core c → cpu_step c c'
| cs_link sd id : cpu_step c (link c sd true id)
| cs_push skb :
    Z.of_nat (length (sn_input_pkt_queue c)) <= max_backlog →
    cpu_step c (c <| sn_input_pkt_queue ::= fun q => q ++ [skb] |> <| sn_accepted ::= fun q => q ++ [skb] |>)
| cs_flush dead :
    cpu_step c (c <| sn_flushed := sn_flushed c ++ List.filter dead (sn_input_pkt_queue c) ++ List.filter dead (sn_process_queue c) |>
       <| sn_input_pkt_queue ::= List.filter (fun p => negb (dead p)) |>
       <| sn_process_queue ::= List.filter (fun p => negb (dead p)) |>)
| cs_softirq sd :
    sn_pc c = Idle →
    cpu_step c (c <| sn_sd := sd |> <| sn_budget := netdev_budget |> <| sn_list := [] |> <| sn_repoll := [] |> <| sn_pc := Start |>)
| cs_start sd : sn_pc c = Start → cpu_step c (c <| sn_sd := sd |> <| sn_pc := Splice |>)
| cs_splice :
    sn_pc c = Splice →
    cpu_step c (c <| sn_list := sn_poll_list c ++ sn_list c |> <| sn_poll_list := [] |> <| sn_pc := Loop |>)
| cs_poll id rest q :
    sn_pc c = Loop → sn_list c = id :: rest → wok q →
    cpu_step c (c <| sn_list := rest |> <| sn_polled ::= fun l => l ++ [id] |> <| sn_pc := Polling id q 0 |>)
| cs_drained sd : sn_pc c = Loop → sn_list c = [] → cpu_step c (c <| sn_sd := sd |> <| sn_pc := Emptied |>)
| cs_leave : sn_pc c = Loop → sn_list c = [] → cpu_step c (c <| sn_pc := Out |>)
| cs_emptied p : sn_pc c = Emptied → p ∈ [Start; CheckRps] → cpu_step c (c <| sn_pc := p |>)
| cs_end : sn_pc c = CheckRps → cpu_step c (c <| sn_pc := Idle |> <| sn_runs ::= S |>)
| cs_rps : sn_pc c = CheckRps → cpu_step c (c <| sn_pc := Out |>)
| cs_out sd k :
    sn_pc c = Out →
    cpu_step c (c <| sn_poll_list := sn_list c ++ sn_poll_list c ++ sn_repoll c |> <| sn_list := [] |> <| sn_repoll := [] |>
                  <| sn_pc := Idle |> <| sn_runs ::= S |> <| sn_sd := sd |> <| sn_rps_ipi_list := k |>)
| cs_deliver skb rest :
    sn_process_queue c = skb :: rest → cpu_step c (c <| sn_process_queue := rest |> <| sn_received ::= fun l => l ++ [skb] |>)
| cs_refill :
    sn_process_queue c = [] →
    cpu_step c (c <| sn_input_pkt_queue := [] |> <| sn_process_queue := sn_input_pkt_queue c |>)
| cs_work id q w : sn_pc c = Polling id q w → w + 1 < q → cpu_step c (c <| sn_pc := Polling id q (w + 1) |>)
| cs_repoll id q w : sn_pc c = Polling id q w → cpu_step c (c <| sn_repoll ::= fun l => l ++ [id] |>)
| cs_after id q w work late :
    sn_pc c = Polling id q w → work <= q ∨ work <= w + 1 → cpu_step c (after c work late).

Definition proj (st st' : net) : Prop :=
  ∀ j c', cpus st' !! j = Some c' → ∃ c, cpus st !! j = Some c ∧ rtc cpu_step c c'.

Lemma proj_at st i c c' m l : cpus st !! i = Some c → rtc cpu_step c c' → proj st (at_cpu i c' m l st).
Proof.
  intros Hc Hr j cj Hj. cbn in Hj. apply list_lookup_insert_Some in Hj as [(-> & <- & _)|(Hne & Hj)]; [by exists c|].
  exists cj. split; [done|apply rtc_refl].
Qed.

Lemma proj_refl st : proj st st.
Proof. intros j c Hc. exists c. split; [done|apply rtc_refl]. Qed.

Lemma proj_trans st1 st2 st3 : proj st1 st2 → proj st2 st3 → proj st1 st3.
Proof. intros H12 H23 j c Hc. destruct (H23 j c Hc) as (c2 & Hc2 & R2). destruct (H12 j c2 Hc2) as (c1 & Hc1 & R1). exists c1.
  split; [done|by etrans]. Qed.

Lemma proj_upd st i f : (∀ c, cpus st !! i = Some c → rtc cpu_step c (f c)) → proj st (upd_cpu i f st).
Proof.
  intros Hf. destruct (cpus st !! i) as [c|] eqn:Hc; [|rewrite upd_cpu_none by done; apply proj_refl].
  rewrite (upd_cpu_at i c) by done. by apply (proj_at st i c); [|apply Hf].
Qed.

Lemma proj_upd1 st i f : (∀ c, cpus st !! i = Some c → cpu_step c (f c)) → proj st (upd_cpu i f st).
Proof. intros Hf. apply proj_upd. intros c Hc. by apply rtc_once, Hf. Qed.

Lemma link_step c sd b id : rtc cpu_step c (link c sd b id).
Proof. apply rtc_once. destruct b; [apply cs_link|by apply cs_frame]. Qed.

Lemma proj_napi_op st i id op : proj st (napi_op i id op st).
Proof.
  unfold napi_op. destruct (cpus st !! i) as [c|] eqn:Hc; [|apply proj_refl]. destruct (op _ _) as [sd n']. cbv zeta.
  intros j cj Hj. change (cpus (upd_napi id (fun _ => n') ?s)) with (cpus s) in Hj. revert j cj Hj. apply proj_upd. intros c' _. apply link_step.
Qed.

Lemma proj_rps st i : proj st (net_rps_action_and_irq_enable i st).
Proof.
  unfold net_rps_action_and_irq_enable. destruct (cpus st !! i) as [c|] eqn:Hc; [|apply proj_refl].
  intros j cj Hj. change (cpus ((upd_cpu i (fun c => c <| sn_rps_ipi_list := [] |>) st) <| ipis ::= _ |>)) with (cpus (upd_cpu i (fun c => c <| sn_rps_ipi_list := [] |>) st)) in Hj.
  revert j cj Hj. apply proj_upd1. intros c' _. by apply cs_frame.
Qed.

Lemma proj_napi st st' id f : proj st st' → proj st (upd_napi id f st').
Proof. done. Qed.

Lemma proj_exhausted st i c id q w work late :
  cpus st !! i = Some c → sn_pc c = Polling id q w → work <= q ∨ work <= w + 1 →
  proj st (poll_exhausted to df HZ fl i id work late st).
Proof.
  intros Hc Hpc Hw. unfold poll_exhausted. rewrite Hc. destruct (napi_poll_exhausted _ _ _ _ _ _ _) as [[sd n'] repoll].
  pose proof (lookup_lt_Some _ _ _ Hc) as Hlt. rewrite (napi_op_at i id _ st c sd n' Hc eq_refl). set (b := _ && _).
  assert (∀ c1 m, sn_pc c1 = Polling id q w → rtc cpu_step c c1 → proj st (after_poll i work late (at_cpu i c1 m (ipis st) st))) as Hafter.
  { intros c1 m H1 Hr. unfold after_poll. rewrite upd_at_cpu by done. apply (proj_at st i c); [done|]. etrans; [exact Hr|].
    apply rtc_once. by apply (cs_after c1 id q w work late H1). }
  destruct repoll; [|apply Hafter; [done|apply link_step]]. rewrite upd_at_cpu by done.
  apply (Hafter ((link c sd b id) <| sn_repoll ::= fun l => l ++ [id] |>) (set_napi id (fun n => n <| on_poll_list := true |>) (set_napi id (fun _ => n') (napis st)))); [done|].
  etrans; [apply link_step|]. apply rtc_once. by apply (cs_repoll (link c sd b id) id q w).
Qed.

Definition weights_ok (st : net) : Prop := ∀ id, wok (weight (napis st id)).

Lemma proj_process_backlog st i c q w late st' :
  inv st → cpus st !! i = Some c → sn_pc c = Polling (Backlog i) q w →
  process_backlog to df HZ fl i q w late st = Some st' → proj st st'.
Proof.
  intros I Hc Hpc E. unfold process_backlog in E. rewrite Hc in E. cbn [mbind option_bind] in E. pose proof (lookup_lt_Some _ _ _ Hc) as Hlt.
  destruct (sn_process_queue c) as [|skb rest] eqn:Hproc; [destruct (sn_input_pkt_queue c) as [|p input] eqn:Hin|]; injection E as <-.
  - apply (proj_upd1 (upd_napi _ _ st)). intros c' Hc'. cbn in Hc'. rewrite Hc in Hc'. injection Hc' as <-.
    apply (cs_after c (Backlog i) q w w late Hpc). right. lia.
  - apply proj_upd1. intros c' Hc'. simplify_eq. rewrite <- Hin. by apply cs_refill.
  - rewrite (upd_cpu_at i c) by done. set (c1 := c <| sn_process_queue := rest |> <| sn_received ::= fun l => l ++ [skb] |>).
    set (st1 := at_cpu i c1 (napis st) (ipis st) st). assert (cpus st1 !! i = Some c1) as Hc1 by (by apply list_lookup_insert_eq).
    apply (proj_trans st st1); [apply (proj_at st i c); [done|]; apply rtc_once; by apply cs_deliver|].
    destruct (Z.leb_spec q (w + 1)) as [Hle|Hgt]; [|apply proj_upd1; intros c' Hc'; simplify_eq; by apply cs_work].
    apply (proj_exhausted st1 i c1 (Backlog i) q w); [done|done|lia].
Qed.

Lemma proj_napi_poll st i c id rest :
  inv st → weights_ok st → cpus st !! i = Some c → sn_pc c = Loop → sn_list c = id :: rest →
  proj st (napi_poll dev_rx_weight i id (upd_cpu i (fun c => c <| sn_list := rest |>) st)).
Proof.
  intros I Hw Hc Hpc Hl. pose proof (lookup_lt_Some _ _ _ Hc) as Hlt.
  assert (id ∈ all_queues st) as Hq by (rewrite (queues_at st i c Hc); unfold queues; rewrite Hl; set_solver).
  pose proof (queued_sched st id (inv_tokens _ I) (proj2 (tk_queued _ (inv_tokens _ I) id) Hq)) as Hs.
  unfold napi_poll. rewrite (upd_cpu_at i c _ st Hc). set (q := weight _).
  set (m := set_napi id (fun n => n <| on_poll_list := false |>) (napis st)).
  change (upd_napi id (fun n => n <| on_poll_list := false |>) (at_cpu i (c <| sn_list := rest |>) (napis st) (ipis st) st))
    with (at_cpu i (c <| sn_list := rest |>) m (ipis st) st). cbv zeta. rewrite upd_at_cpu by done.
  assert (sched (m id) = sched (napis st id)) as Em by (unfold m, set_napi; by rewrite decide_True).
  change (napis (at_cpu i _ m (ipis st) st) id) with (m id). rewrite Em, Hs, upd_at_cpu by done.
  set (c' := c <| sn_list := rest |> <| sn_polled ::= fun l => l ++ [id] |> <| sn_pc := Polling id q 0 |>).
  assert (proj st (at_cpu i c' m (ipis st) st)) as Hp.
  { apply (proj_at st i c); [done|]. apply rtc_once. apply cs_poll; [done|done|apply Hw]. }
  destruct id as [j|d]; [|done]. apply proj_napi. by eapply proj_trans; [exact Hp|apply proj_rps].
Qed.

Lemma proj_net_rx_action st i o late st' :
  inv st → weights_ok st → rx_step i o late st = Some st' → proj st st'.
Proof.
  intros I Hw E. unfold net_rx_action in E. destruct (cpus st !! i) as [c|] eqn:Hc; [|done]. cbn [mbind option_bind] in E.
  pose proof (lookup_lt_Some _ _ _ Hc) as Hlt. destruct (sn_pc c) as [| | | |id q w| | |] eqn:Hpc.
  - destruct (net_rx_softirq_raised _); [|done]. injection E as <-. apply proj_upd1. intros c' Hc'. simplify_eq. by apply cs_softirq.
  - injection E as <-. apply proj_upd1. intros c' Hc'. simplify_eq. by apply cs_start.
  - injection E as <-. apply proj_upd1. intros c' Hc'. simplify_eq. by apply cs_splice.
  - destruct (sn_list c) as [|id rest] eqn:Hl.
    + destruct (is_nil (sn_repoll c)); injection E as <-; apply proj_upd1; intros c' Hc'; simplify_eq; [by apply cs_drained|by apply cs_leave].
    + injection E as <-. by eapply proj_napi_poll.
  - destruct id as [j|d].
    + destruct (decide (j = i)) as [->|]; [|done]. by eapply proj_process_backlog.
    + destruct o as [wk|]; cbn [dev_poll] in E.
      * destruct (Z.leb_spec 0 wk), (Z.ltb_spec wk q); try done. injection E as <-. unfold after_poll.
        destruct (napi_complete_done to df fl (sn_sd c) (napis st (Dev d)) wk) as [[sd n'] r] eqn:En.
        rewrite (napi_op_at i (Dev d) _ st c sd n' Hc) by (by rewrite En). rewrite upd_at_cpu by done. apply (proj_at st i c); [done|].
        etrans; [apply link_step|]. apply rtc_once. apply (cs_after _ (Dev d) q w wk late); [exact Hpc|]. left. lia.
      * injection E as <-. apply (proj_exhausted st i c (Dev d) q w); [done|done|lia].
  - injection E as <-. apply proj_upd1. intros c' Hc'. simplify_eq. apply cs_emptied; [done|]. destruct (is_nil _); set_solver.
  - destruct (is_nil _); injection E as <-; apply proj_upd1; intros c' Hc'; simplify_eq; [by apply cs_end|by apply cs_rps].
  - injection E as <-. eapply proj_trans; [|apply proj_rps]. apply proj_upd1. intros c' Hc'. simplify_eq.
    match goal with |- cpu_step ?c (?x <| sn_sd ::= ?g |>) => change (cpu_step c (x <| sn_sd := g (sn_sd c) |>)) end. by apply cs_out.
Qed.

Lemma proj_step st st' : inv st → weights_ok st → sys_step st st' → proj st st'.
Proof.
  intros I Hw Hs. destruct Hs as [i d|i c skb running limited st' ok E _|i dead|c l1 l2 El|i o late st' E].
  - apply proj_napi_op.
  - unfold enqueue_to_backlog in E. destruct (cpus st !! c) as [sd|] eqn:Hc; [|done]. cbn [mbind option_bind] in E.
    destruct (negb running); [simplify_eq; apply proj_refl|]. destruct (Z.ltb_spec max_backlog (Z.of_nat (length (sn_input_pkt_queue sd)))) as [|Hle]; [cbn in E; simplify_eq; apply proj_refl|].
    destruct limited; [cbn in E; simplify_eq; apply proj_refl|]. cbn [orb] in E. cbv zeta in E. injection E as <- <-.
    match goal with |- proj st (upd_cpu c _ ?s) => set (st1 := s) end.
    assert (proj st st1 ∧ ∀ sd1, cpus st1 !! c = Some sd1 → sn_input_pkt_queue sd1 = sn_input_pkt_queue sd) as [Hp Hin].
    { unfold st1. destruct (_ && _); [|split; [apply proj_refl|intros sd1 ?; by simplify_eq]]. unfold napi_schedule_rps.
      set (st2 := upd_napi _ _ st). destruct (decide (c = i)) as [->|Hne].
      - split; [apply (proj_napi_op st2)|]. unfold napi_op. change (cpus st2) with (cpus st). rewrite Hc. destruct (____napi_schedule _ _) as [sd' n'].
        cbv zeta. intros sd1. rewrite (upd_cpu_at i sd) by done. cbn. rewrite list_lookup_insert_eq by (by eapply lookup_lt_Some). intros [= <-]. done.
      - split; [|intros sd1; cbn; rewrite list_lookup_alter_ne by done; intros; by simplify_eq].
        apply (proj_upd1 st2). intros ci _. apply cs_frame. by destruct (in_net_rx_action _). }
    eapply proj_trans; [exact Hp|]. apply proj_upd1. intros sd1 Hsd1. apply cs_push. by rewrite (Hin sd1 Hsd1).
  - apply proj_upd1. intros c _. apply cs_flush.
  - match goal with |- proj _ (rps_trigger_softirq _ ?s) => exact (proj_napi_op s c (Backlog c) ____napi_schedule) end.
  - by eapply proj_net_rx_action.
Qed.

(** *** Weights *)

Lemma weights_upd id f st : weights_ok st → wok (weight (f (napis st id))) → weights_ok (upd_napi id f st).
Proof. intros Hw Hf x. cbn. unfold set_napi. destruct (decide (x = id)) as [->|]; [done|apply Hw]. Qed.

Lemma weights_op i id op st :
  weights_ok st → (∀ c, weight (op (sn_sd c) (napis st id)).2 = weight (napis st id)) → weights_ok (napi_op i id op st).
Proof.
  intros Hw Hf. unfold napi_op. destruct (cpus st !! i) as [c|]; [|done]. specialize (Hf c). destruct (op _ _) as [sd n']. cbn [snd] in Hf.
  cbv zeta. apply (weights_upd id _ (upd_cpu i _ st)); [done|]. rewrite Hf. apply Hw.
Qed.

Lemma weights_schedule sd n : weight (____napi_schedule sd n).2 = weight n.
Proof. unfold ____napi_schedule. by destruct (_ && _). Qed.

Lemma weights_exhausted st i c id q w work late :
  inv st → weights_ok st → cpus st !! i = Some c → sn_pc c = Polling id q w → weights_ok (poll_exhausted to df HZ fl i id work late st).
Proof.
  intros I Hw Hc Hpc. destruct (polled_napi st i c id q w I Hc Hpc) as (Hs & Hon & _).
  pose proof (exhausted_op (sn_sd c) _ work (tk_plain _ (inv_tokens _ I) id) Hs Hon) as Hop. unfold poll_exhausted. rewrite Hc.
  destruct (napi_poll_exhausted _ _ _ _ _ _ _) as [[sd n'] repoll]. destruct Hop as [Ho _].
  assert (weights_ok (napi_op i id (fun _ _ => (sd, n')) st)) as Hw' by (apply weights_op; [done|intros _; apply Ho]).
  destruct repoll; [|exact Hw']. apply (weights_upd id _ (upd_cpu i _ (napi_op i id _ st))); [exact Hw'|]. exact (Hw' id).
Qed.

Lemma weights_rps i st : weights_ok st → weights_ok (net_rps_action_and_irq_enable i st).
Proof. intros Hq. unfold net_rps_action_and_irq_enable. by destruct (cpus st !! i). Qed.

Lemma weights_step st st' : wok dev_rx_weight → inv st → weights_ok st → sys_step st st' → weights_ok st'.
Proof.
  intros Hdev I Hw Hs. destruct Hs as [i d|i c skb running limited st' ok E _|i dead|c l1 l2 El|i o late st' E].
  - apply weights_op; [done|]. intros c. pose proof (napi_schedule_op (sn_sd c) _ (tk_plain _ (inv_tokens _ I) (Dev d))) as Hop.
    destruct (napi_schedule _ _) as [[sd n'] r]. apply Hop.
  - unfold enqueue_to_backlog in E. destruct (cpus st !! c); [|done]. cbn [mbind option_bind] in E.
    destruct (negb running); [by simplify_eq|]. destruct (_ || limited); [by simplify_eq|]. cbv zeta in E. injection E as <- <-.
    set (st2 := upd_napi (Backlog c) _ st). assert (weights_ok st2) as Hw2 by (apply weights_upd; [done|apply Hw]).
    destruct (_ && _); [|exact Hw]. unfold napi_schedule_rps. destruct (decide (c = i)) as [->|]; [|exact Hw2].
    apply (weights_op i (Backlog i)); [exact Hw2|]. intros ?. apply weights_schedule.
  - done.
  - apply weights_op; [done|]. intros ?. apply weights_schedule.
  - unfold net_rx_action in E. destruct (cpus st !! i) as [c|] eqn:Hc; [|done]. cbn [mbind option_bind] in E.
    destruct (sn_pc c) as [| | | |[j|d] q w| | |] eqn:Hpc.
    + destruct (net_rx_softirq_raised _); by simplify_eq.
    + by simplify_eq.
    + by simplify_eq.
    + destruct (sn_list c) as [|id rest]; [destruct (is_nil _); by simplify_eq|]. injection E as <-. unfold napi_poll. cbv zeta.
      set (st1 := upd_cpu i _ (upd_napi _ _ _)). assert (weights_ok st1) as Hw1 by (apply weights_upd; [done|apply Hw]).
      destruct (sched _); [|exact Hw1]. destruct id as [j|d]; [|exact Hw1]. apply weights_upd; [by apply weights_rps|exact Hdev].
    + destruct (decide (j = i)) as [->|]; [|done]. unfold process_backlog in E. rewrite Hc in E. cbn [mbind option_bind] in E.
      destruct (sn_process_queue c) as [|skb rest] eqn:Hproc; [destruct (sn_input_pkt_queue c)|]; injection E as <-.
      * apply weights_upd; [done|apply Hw].
      * done.
      * destruct (_ <=? _); [|exact Hw]. rewrite (upd_cpu_at i c) by done. set (c1 := c <| sn_process_queue := rest |> <| sn_received ::= fun l => l ++ [skb] |>).
        apply (weights_exhausted _ i c1 (Backlog i) q w); [|exact Hw|apply list_lookup_insert_eq; by eapply lookup_lt_Some|done].
        apply (inv_silent st i c); [done|done|done|done|done|cbn; rewrite Hproc; by destruct (sn_input_pkt_queue c)|cbn; by rewrite Hpc|cbn; by rewrite Hpc].
    + destruct o as [wk|]; cbn [dev_poll] in E; [destruct (_ && _); [|done]|]; injection E as <-; [|by eapply weights_exhausted].
      apply weights_op; [done|]. intros ci. destruct (polled_napi st i c _ q w I Hc Hpc) as (_ & Hon & _).
      pose proof (complete_op (sn_sd ci) _ wk (tk_plain _ (inv_tokens _ I) (Dev d)) Hon) as Hop.
      destruct (napi_complete_done _ _ _ _ _ _) as [[sd n'] r]. apply Hop.
    + by simplify_eq.
    + destruct (is_nil _); by simplify_eq.
    + injection E as <-. by apply weights_rps.
Qed.

(** A run of the system, seen by one processor. *)
Lemma run_proj st st' j c' :
  wok dev_rx_weight → inv st → quiet_net st → weights_ok st → rtc sys_step st st' → cpus st' !! j = Some c' →
  ∃ c, cpus st !! j = Some c ∧ rtc cpu_step c c'.
Proof.
  intros Hdev I Hq Hw Hr. revert j c'. change (proj st st'). induction Hr as [|s1 s2 s3 Hs _ IH]; [apply proj_refl|].
  eapply proj_trans; [by apply proj_step|]. apply IH; [by eapply inv_step|by eapply quiet_step|by eapply weights_step].
Qed.

Lemma reachable_cpu ncpus st j c :
  wok dev_rx_weight → (∀ id, wok (napi_weight id)) → net_reachable ncpus st → cpus st !! j = Some c → rtc cpu_step (idle_cpu j) c.
Proof.
  intros Hdev Hw Hr Hc. destruct (inv_init ncpus) as [I Hq]. destruct (run_proj _ st j c Hdev I Hq Hw Hr Hc) as (c0 & Hc0 & Hs).
  cbn in Hc0. apply list_lookup_fmap_Some in Hc0 as (k & -> & Hk). apply lookup_seq in Hk as [-> _]. done.
Qed.

(** *** The backlog *)

Record fifo (c : softnet) : Prop := {
  ff_order : sn_received c ++ sn_process_queue c ++ sn_input_pkt_queue c `sublist_of` sn_accepted c;
  ff_all : sn_received c ++ sn_process_queue c ++ sn_input_pkt_queue c ++ sn_flushed c ≡ₚ sn_accepted c;
  ff_bound : Z.of_nat (length (sn_input_pkt_queue c)) <= Z.max 0 (max_backlog + 1);
}.

Lemma filter_sublist {A} (f : A -> bool) l : List.filter f l `sublist_of` l.
Proof. induction l as [|x l IH]; [constructor|]. cbn. destruct (f x); by constructor. Qed.

Lemma filter_split {A} (f : A -> bool) l : List.filter f l ++ List.filter (fun x => negb (f x)) l ≡ₚ l.
Proof. induction l as [|x l IH]; [done|]. cbn. destruct (f x); cbn; [by rewrite IH|]. rewrite <- Permutation_middle. by rewrite IH. Qed.

Lemma fifo_same c c' :
  (sn_input_pkt_queue c', sn_process_queue c', sn_received c', sn_accepted c', sn_flushed c') =
  (sn_input_pkt_queue c, sn_process_queue c, sn_received c, sn_accepted c, sn_flushed c) → fifo c → fifo c'.
Proof. intros [= E1 E2 E3 E4 E5] [F1 F2 F3]. split; by rewrite ?E1, ?E2, ?E3, ?E4, ?E5. Qed.

Lemma fifo_step c c' : cpu_step c c' → fifo c → fifo c'.
Proof.
  intros Hs F. destruct Hs as [c' E|sd id|skb Hlen|dead|sd|sd| |id rest q|sd| |p| | |sd k|skb rest Hq|Hq|id q w|id q w|id q w work late];
    try (apply (fifo_same c); [reflexivity|exact F]).
  - unfold core in E. apply (fifo_same c); [congruence|done].
  - destruct F as [F1 F2 F3]. split; cbn.
    + rewrite app_assoc, app_assoc. apply sublist_app; [|done]. by rewrite <- app_assoc.
    + rewrite <- F2. solve_Permutation.
    + rewrite length_app. cbn. lia.
  - destruct F as [F1 F2 F3]. split; cbn.
    + etrans; [|exact F1]. apply sublist_app; [done|]. apply sublist_app; apply filter_sublist.
    + rewrite <- F2. rewrite <- (filter_split dead (sn_process_queue c)) at 3. rewrite <- (filter_split dead (sn_input_pkt_queue c)) at 3. solve_Permutation.
    + pose proof (sublist_length _ _ (filter_sublist (fun p => negb (dead p)) (sn_input_pkt_queue c))). lia.
  - destruct F as [F1 F2 F3]. rewrite Hq in *. split; cbn; [by rewrite <- app_assoc|by rewrite <- app_assoc|done].
  - destruct F as [F1 F2 F3]. rewrite Hq in *. cbn [app] in *. split; cbn; [by rewrite app_nil_r|done|lia].
Qed.

(** *** Order of polling *)

(** [n] waits behind [k] others; [p0] polls and [r0] runs were made before. *)
Definition waiting (n : napi_id) (k p0 r0 : nat) (c : softnet) : Prop :=
  let p := (length (sn_polled c) - p0)%nat in
  (p0 <= length (sn_polled c))%nat ∧
  match sn_pc c with
  | Idle => ∃ pos, sn_poll_list c !! pos = Some n ∧ (pos + p = k)%nat ∧ (sn_runs c <= r0 + p)%nat
  | Start | Splice => ∃ pos, sn_poll_list c !! pos = Some n ∧ sn_list c = [] ∧ (pos + p = k)%nat ∧ (sn_runs c <= r0 + p)%nat
  | Loop => ∃ pos, sn_list c !! pos = Some n ∧ (pos + p = k)%nat ∧ (sn_runs c <= r0 + p)%nat
  | Polling _ _ _ | Out => ∃ pos, sn_list c !! pos = Some n ∧ (pos + p = k)%nat ∧ (S (sn_runs c) <= r0 + p)%nat
  | Emptied | CheckRps => False
  end.

Definition polled_since (n : napi_id) (p0 : nat) (c : softnet) : Prop := n ∈ drop p0 (sn_polled c).

Lemma polled_since_mono n p0 c c' : (∃ l, sn_polled c' = sn_polled c ++ l) → polled_since n p0 c → polled_since n p0 c'.
Proof. intros [l E]. unfold polled_since. rewrite E, drop_app, elem_of_app. by left. Qed.

Lemma cpu_step_polled c c' : cpu_step c c' → ∃ l, sn_polled c' = sn_polled c ++ l.
Proof.
  intros Hs. destruct Hs as [c' E| | | | | | |id rest q| | | | | | | | | | |]; try (exists []; by rewrite app_nil_r).
  - exists []. unfold core in E. rewrite app_nil_r. congruence.
  - by exists [id].
Qed.

Lemma waiting_same n k p0 r0 c c' :
  (sn_poll_list c', sn_list c', sn_pc c', sn_polled c', sn_runs c') = (sn_poll_list c, sn_list c, sn_pc c, sn_polled c, sn_runs c) →
  waiting n k p0 r0 c → waiting n k p0 r0 c'.
Proof. intros [= E1 E2 E3 E4 E5]. unfold waiting. by rewrite E1, E2, E3, E4, E5. Qed.

Lemma waiting_step n k p0 r0 c c' :
  cpu_step c c' → waiting n k p0 r0 c ∨ polled_since n p0 c → waiting n k p0 r0 c' ∨ polled_since n p0 c'.
Proof.
  intros Hs [Hw|Hp]; [|right; eapply polled_since_mono; [by apply cpu_step_polled|done]].
  destruct Hs as [c' E|sd id|skb Hlen|dead|sd Hpc|sd Hpc|Hpc|id rest q Hpc Hl|sd Hpc Hl|Hpc Hl|p Hpc|Hpc|Hpc|sd k' Hpc|skb rest Hq|Hq|id q w Hpc|id q w Hpc|id q w work late Hpc];
    try (left; apply (waiting_same _ _ _ _ c); [reflexivity|exact Hw]);
    try (destruct Hw as [Hp0 Hw]; rewrite Hpc in Hw; try rewrite Hl in Hw).
  - left. unfold core in E. apply (waiting_same _ _ _ _ c); [congruence|done].
  - left. destruct Hw as [Hp0 Hw]. split; [done|]. cbn. destruct (sn_pc c); try done; destruct Hw as (pos & Hpos & Hrest); exists pos;
      (split; [by apply lookup_app_l_Some|done]).
  - left. split; [done|]. destruct Hw as (pos & ?). exists pos. cbn. tauto.
  - left. split; [done|]. exact Hw.
  - left. split; [done|]. cbn. destruct Hw as (pos & Hpos & -> & ?). exists pos. by rewrite app_nil_r.
  - destruct Hw as (pos & Hpos & Hk & Hr). destruct pos as [|pos]; cbn in Hpos.
    + right. injection Hpos as ->. unfold polled_since. cbn. rewrite drop_app, elem_of_app. right. replace (p0 - length (sn_polled c))%nat with 0%nat by lia. cbn. by left.
    + left. split; [cbn; rewrite length_app; cbn; lia|]. cbn. exists pos. rewrite length_app. cbn. split; [done|]. lia.
  - by destruct Hw as (pos & Hpos & _).
  - by destruct Hw as (pos & Hpos & _).
  - done.
  - done.
  - done.
  - left. split; [done|]. cbn. destruct Hw as (pos & Hpos & Hk & Hr). exists pos. split; [by apply lookup_app_l_Some|]. lia.
  - left. split; [done|]. cbn. done.
  - left. split; [done|]. unfold after. cbn. destruct Hw as (pos & Hpos & Hk & Hr). destruct (_ || late); exists pos; (split; [done|]); lia.
Qed.

Lemma waiting_run n k p0 r0 c c' :
  rtc cpu_step c c' → waiting n k p0 r0 c ∨ polled_since n p0 c → waiting n k p0 r0 c' ∨ polled_since n p0 c'.
Proof. induction 1; eauto using waiting_step. Qed.

(** *** The budget *)

Definition in_budget (m : Z) (c : softnet) : Prop :=
  match sn_pc c with
  | Idle | Out => - m < sn_budget c
  | Polling _ q w => 0 < sn_budget c ∧ q <= m ∧ w + 1 <= m
  | _ => 0 < sn_budget c
  end.

Lemma budget_same m c c' : (sn_pc c', sn_budget c') = (sn_pc c, sn_budget c) → in_budget m c → in_budget m c'.
Proof. intros [= E1 E2]. unfold in_budget. by rewrite E1, E2. Qed.

Lemma budget_step m c c' :
  0 < netdev_budget → 1 <= m → (∀ q, wok q → q <= m) → cpu_step c c' → in_budget m c → in_budget m c'.
Proof.
  intros Hn Hm Hwok Hs Hb.
  destruct Hs as [c' E|sd id|skb Hlen|dead|sd Hpc|sd Hpc|Hpc|id rest q Hpc Hl Hq|sd Hpc Hl|Hpc Hl|p Hpc Hp|Hpc|Hpc|sd k' Hpc|skb rest Hq|Hq|id q w Hpc Hlt|id q w Hpc|id q w work late Hpc Hw];
    try (apply (budget_same m c); [reflexivity|exact Hb]); unfold in_budget in *; try rewrite Hpc in Hb; cbn; try lia.
  - unfold core in E. injection E as _ _ _ -> -> _ _. done.
  - specialize (Hwok q Hq). lia.
  - apply elem_of_cons in Hp as [->|Hp]; [done|]. apply list_elem_of_singleton in Hp as ->. done.
  - destruct (Z.leb_spec (sn_budget c - work) 0), late; cbn [orb]; lia.
Qed.

End OneCpu.

(** ** Theorems *)

(** C15: a NAPI that is scheduled waits in exactly one place, and that place is
    served: a list of a processor whose softirq is raised or running (and has not
    yet looked at the list for the last time), the poll itself, the list of
    interrupts a processor will send before its softirq ends, or an interrupt on
    its way; a backlog that holds packets is scheduled. *)
Theorem scheduled_napi_served ncpus st :
  net_reachable ncpus st →
  NoDup (all_places st) ∧
  (∀ id, sched (napis st id) = true →
     (∃ i c, cpus st !! i = Some c ∧ id ∈ queues c ∧
        (net_rx_softirq_raised (sn_sd c) = true ∨ sn_pc c ≠ Idle ∧ sn_pc c ≠ CheckRps)) ∨
     (∃ i c q w, cpus st !! i = Some c ∧ sn_pc c = Polling id q w) ∨
     (∃ i c j, id = Backlog j ∧ cpus st !! i = Some c ∧ j ∈ sn_rps_ipi_list c ∧
        (net_rx_softirq_raised (sn_sd c) = true ∨ sn_pc c ≠ Idle)) ∨
     (∃ j, id = Backlog j ∧ j ∈ ipis st)) ∧
  (∀ i c, cpus st !! i = Some c → sn_input_pkt_queue c ++ sn_process_queue c ≠ [] → sched (napis st (Backlog i)) = true).
Proof.
  intros Hr. destruct (softirq_inv _ _ Hr) as [I _]. pose proof (inv_tokens _ I) as Ht. split; [apply Ht|]. split; [|by intros i c Hc; apply I].
  intros id Hs. apply (tk_sched _ Ht) in Hs. unfold all_places in Hs. apply elem_of_app in Hs as [Hs|Hs].
  2:{ apply list_elem_of_fmap in Hs as (j & -> & Hj). eauto 10. }
  apply list_elem_of_bind in Hs as (c & Hin & Hc). apply list_elem_of_lookup in Hc as [i Hc].
  destruct (inv_cpus _ I i c Hc) as [C1 C2 C3 C4 C5]. unfold places in Hin. rewrite !elem_of_app in Hin.
  destruct Hin as [Hin|[Hin|Hin]].
  - left. exists i, c. split; [done|]. split; [done|]. unfold queues in Hin. destruct (sn_pc c); try (right; done); left.
    + apply C2. left. destruct C1 as [E1 E2]. rewrite E1, E2 in Hin. destruct (sn_poll_list c); [by apply not_elem_of_nil in Hin|done].
    + apply C2. destruct C1 as [E1 E2]. rewrite E1, E2 in Hin. destruct (sn_poll_list c); [by apply not_elem_of_nil in Hin|done].
  - right. left. destruct (sn_pc c) eqn:Hpc; cbn in Hin; try by apply not_elem_of_nil in Hin.
    apply list_elem_of_singleton in Hin as ->. eauto 10.
  - right. right. left. apply list_elem_of_fmap in Hin as (j & -> & Hj). exists i, c, j. split; [done|]. split; [done|]. split; [done|].
    destruct (sn_pc c); try (right; done). left. apply C2. right. left. destruct (sn_rps_ipi_list c); [by apply not_elem_of_nil in Hj|done].
Qed.
(** C34: packets leave a processor's backlog in the order in which they entered it;
    every packet that entered was passed up, is still queued, or was flushed
    because its device went away; and the queue holds at most one packet more than
    [max_backlog]. *)
Theorem backlog_fifo ncpus st i c :
  net_reachable ncpus st → cpus st !! i = Some c →
  sn_received c ++ sn_process_queue c ++ sn_input_pkt_queue c `sublist_of` sn_accepted c ∧
  sn_received c ++ sn_process_queue c ++ sn_input_pkt_queue c ++ sn_flushed c ≡ₚ sn_accepted c ∧
  Z.of_nat (length (sn_input_pkt_queue c)) <= Z.max 0 (max_backlog + 1).
Proof.
  intros Hr Hc. pose proof (reachable_cpu (fun _ => True) ncpus st i c
    Logic.I (fun _ => Logic.I) Hr Hc) as Hs.
  assert (fifo (idle_cpu i)) as F by (split; cbn; [done|done|lia]).
  assert (fifo c) as [F1 F2 F3]; [|done]. induction Hs as [|c1 c2 c3 H1 _ IH]; [done|]. apply IH; [done|]. by eapply fifo_step.
Qed.

(** C33: no NAPI is starved.  When processor [i] is idle and [n] is behind [k] other
    NAPIs on its poll list, then, whatever interrupts and other processors do, at
    most [k] other NAPIs are polled and at most [k] runs of the softirq end before
    [n] is polled. *)
Theorem softirq_fair ncpus st i c n k st' c' :
  net_reachable ncpus st → cpus st !! i = Some c → sn_pc c = Idle → sn_poll_list c !! k = Some n →
  rtc sys_step st st' → cpus st' !! i = Some c' →
  n ∈ drop (length (sn_polled c)) (sn_polled c') ∨
  ((length (sn_polled c') <= length (sn_polled c) + k)%nat ∧ (sn_runs c' <= sn_runs c + k)%nat).
Proof.
  intros Hr Hc Hpc Hn Hs Hc'. destruct (softirq_inv _ _ Hr) as [I Hq].
  destruct (run_proj (fun _ => True) st st' i c' Logic.I I Hq (fun _ => Logic.I) Hs Hc') as (c0 & Hc0 & Hrun).
  rewrite Hc in Hc0. injection Hc0 as <-.
  destruct (waiting_run (fun _ => True) n k (length (sn_polled c)) (sn_runs c) c c' Hrun) as [[Hp0 Hw]|Hp]; [| |by left].
  - left. split; [done|]. rewrite Hpc. exists k. split; [done|]. lia.
  - right. destruct (sn_pc c'); try done; destruct Hw as (pos & Hw); split; destruct_and?; lia.
Qed.

(** When no weight is above [m], a run of the softirq handles fewer than
    [netdev_budget + m] packets: what is left of the budget never falls to [- m]. *)
Theorem softirq_budget ncpus st i c m :
  0 < netdev_budget → 1 <= m → dev_rx_weight <= m → (∀ id, napi_weight id <= m) →
  net_reachable ncpus st → cpus st !! i = Some c → - m < sn_budget c.
Proof.
  intros Hn Hm Hdev Hw Hr Hc. pose proof (reachable_cpu (fun q => q <= m) ncpus st i c
    Hdev Hw Hr Hc) as Hs.
  assert (in_budget m (idle_cpu i)) as B by (unfold in_budget; cbn; lia).
  assert (in_budget m c) as Hb.
  { induction Hs as [|c1 c2 c3 H1 _ IH]; [done|]. apply IH; [done|]. by eapply (budget_step (fun q => q <= m)). }
  unfold in_budget in Hb. destruct (sn_pc c); lia.
Qed.
End Proofs.

(** ** The flow limit *)

Definition occurrences (x : nat) (l : list nat) : nat := length (filter (fun y => y = x) l).

Lemma occurrences_insert x l i old new :
  l !! i = Some old →
  (occurrences x (<[i := new]> l) + (if decide (old = x) then 1 else 0) = occurrences x l + (if decide (new = x) then 1 else 0))%nat.
Proof.
  unfold occurrences. revert i. induction l as [|y l IH]; intros i Hi; [done|]. destruct i as [|i]; cbn in Hi.
  - injection Hi as ->. cbn [insert list_insert]. rewrite !filter_cons. destruct (decide (new = x)), (decide (old = x)); cbn; lia.
  - change (<[S i := new]> (y :: l)) with (y :: <[i := new]> l). rewrite !filter_cons. specialize (IH i Hi).
    destruct (decide (y = x)); cbn [length]; lia.
Qed.

Record flow_ok (f : sd_flow_limit) : Prop := {
  fo_length : length (fl_history f) = 128%nat;
  fo_head : 0 <= fl_history_head f < 128;
  fo_flows : Forall (fun x => (x < length (fl_buckets f))%nat) (fl_history f);
  fo_buckets x b : fl_buckets f !! x = Some b → 0 <= b <= Z.of_nat (occurrences x (fl_history f));
}.

Lemma occurrences_le x l : (occurrences x l <= length l)%nat.
Proof. unfold occurrences. apply length_filter. Qed.

(** The buckets after the oldest entry [old] was taken out. *)
Lemma flow_forget f old b h x v :
  flow_ok f → fl_history f !! h = Some old → fl_buckets f !! old = Some b →
  (if b =? 0 then fl_buckets f else <[old := u8 (b - 1)]> (fl_buckets f)) !! x = Some v →
  0 <= v <= Z.of_nat (occurrences x (fl_history f)) - (if decide (old = x) then 1 else 0).
Proof.
  intros [F1 F2 F3 F4] Hold Hb Hv. pose proof (F4 old b Hb) as Hb0. assert (0 < Z.of_nat (occurrences old (fl_history f))) as Hocc.
  { unfold occurrences. destruct (filter (fun y => y = old) (fl_history f)) eqn:E; [|cbn; lia].
    exfalso. apply (filter_nil_not_elem_of _ _ old E eq_refl). by eapply list_elem_of_lookup_2. }
  pose proof (occurrences_le old (fl_history f)). rewrite F1 in *. pose proof (lookup_lt_Some _ _ _ Hb). destruct (Z.eqb_spec b 0) as [->|Hne].
  - destruct (decide (old = x)) as [<-|]; [rewrite Hb in Hv; injection Hv as <-; lia|]. specialize (F4 x v Hv). lia.
  - destruct (decide (old = x)) as [<-|Hx].
    + rewrite list_lookup_insert_eq in Hv by done. injection Hv as <-. rewrite wrap_id by (unfold fits; lia). lia.
    + rewrite list_lookup_insert_ne in Hv by done. specialize (F4 x v Hv). lia.
Qed.

(** Recording the packet of [new_flow] instead. *)
Lemma flow_record f bk h old new_flow nb k :
  flow_ok f → fl_history f !! h = Some old → length bk = length (fl_buckets f) →
  (∀ x v, bk !! x = Some v → 0 <= v <= Z.of_nat (occurrences x (fl_history f)) - (if decide (old = x) then 1 else 0)) →
  bk !! new_flow = Some nb →
  flow_ok (mk_flow_limit k (<[h := new_flow]> (fl_history f)) (Z.land (fl_history_head f + 1) (FLOW_LIMIT_HISTORY - 1)) (<[new_flow := nb + 1]> bk)) ∧
  nb + 1 <= Z.of_nat (occurrences new_flow (<[h := new_flow]> (fl_history f))).
Proof.
  intros [F1 F2 F3 F4] Hold Hlen Hbk Hnb. pose proof (lookup_lt_Some _ _ _ Hnb) as Hlt. pose proof (Hbk _ _ Hnb) as Hnb0.
  assert (nb + 1 <= Z.of_nat (occurrences new_flow (<[h := new_flow]> (fl_history f)))) as Hn.
  { pose proof (occurrences_insert new_flow (fl_history f) h old new_flow Hold) as Ho.
    destruct (decide (new_flow = new_flow)) as [_|Hx]; [|by destruct Hx]. destruct (decide (old = new_flow)); lia. }
  split; [|done]. split; cbn [fl_history fl_history_head fl_buckets].
  - by rewrite length_insert.
  - pose proof (land_mask (fl_history_head f + 1) 127 ltac:(lia)). change (FLOW_LIMIT_HISTORY - 1) with 127. lia.
  - rewrite length_insert. apply Forall_insert; [|done]. by rewrite Hlen.
  - intros x v Hv. destruct (decide (new_flow = x)) as [<-|Hx].
    + rewrite list_lookup_insert_eq in Hv by done. injection Hv as <-. lia.
    + rewrite list_lookup_insert_ne in Hv by done. specialize (Hbk x v Hv).
      pose proof (occurrences_insert x (fl_history f) h old new_flow Hold) as Ho. rewrite (decide_False (P := new_flow = x)) in Ho by done.
      destruct (decide (old = x)); lia.
Qed.

(** The flow limit keeps its counters below the numbers of occurrences in the
    history, never reads outside its tables, and refuses a packet only when the
    queue is at least half full and more than 64 of the last 128 recorded packets
    are of the packet's flow. *)
Theorem flow_limit_share max_backlog f new_flow qlen :
  flow_ok f → (new_flow < length (fl_buckets f))%nat →
  ∃ f' limited, skb_flow_limit max_backlog (Some f) new_flow qlen = Some (Some f', limited) ∧ flow_ok f' ∧
    (limited = true → Z.shiftr max_backlog 1 <= qlen ∧ (64 < occurrences new_flow (fl_history f'))%nat).
Proof.
  intros F Hnew. pose proof F as [F1 F2 F3 _]. unfold skb_flow_limit.
  destruct (Z.ltb_spec qlen (Z.shiftr max_backlog 1)) as [|Hq]; [by exists f, false|].
  set (h := Z.to_nat (fl_history_head f)). destruct (lookup_lt_is_Some_2 (fl_history f) h) as [old Hold]; [unfold h; lia|].
  rewrite Hold. cbn [mbind option_bind]. cbv zeta. rewrite Forall_forall in F3.
  destruct (lookup_lt_is_Some_2 (fl_buckets f) old (F3 old (list_elem_of_lookup_2 _ _ _ Hold))) as [b Hb].
  match goal with |- context [fl_buckets ?g !! old] => change (fl_buckets g) with (fl_buckets f) end. rewrite Hb. cbn [mbind option_bind].
  pose proof (fun x v => flow_forget f old b h x v F Hold Hb) as Hbk.
  set (bk := if b =? 0 then fl_buckets f else <[old := u8 (b - 1)]> (fl_buckets f)) in *.
  assert (length bk = length (fl_buckets f)) as Hlen by (unfold bk; destruct (b =? 0); by rewrite ?length_insert).
  destruct (lookup_lt_is_Some_2 bk new_flow) as [nb Hnb]; [by rewrite Hlen|].
  match goal with |- context [fl_buckets (if b =? 0 then ?g1 else ?g2) !! new_flow] => set (g := if b =? 0 then g1 else g2) end.
  assert (g = mk_flow_limit (fl_count f) (<[h := new_flow]> (fl_history f)) (Z.land (fl_history_head f + 1) (FLOW_LIMIT_HISTORY - 1)) bk) as ->
    by (unfold g, bk; by destruct (b =? 0)).
  cbn [fl_buckets]. rewrite Hnb. cbn [mbind option_bind].
  pose proof (fun k => flow_record f bk h old new_flow nb k F Hold Hlen Hbk Hnb) as Hok.
  assert (u8 (nb + 1) = nb + 1) as E8.
  { apply wrap_id. pose proof (Hbk _ _ Hnb). destruct (Hok 0) as [_ Hn]. pose proof (occurrences_le new_flow (<[h := new_flow]> (fl_history f))) as Hle.
    rewrite length_insert, F1 in Hle. unfold fits. lia. }
  rewrite E8. change (Z.shiftr FLOW_LIMIT_HISTORY 1) with 64. destruct (Z.ltb_spec 64 (nb + 1)) as [Hlim|Hlim].
  - eexists _, true. split; [reflexivity|]. split; [exact (proj1 (Hok _))|]. intros _. split; [done|]. destruct (Hok 0) as [_ Hn].
    change (64 < occurrences new_flow (<[h := new_flow]> (fl_history f)))%nat. lia.
  - eexists _, false. split; [reflexivity|]. split; [exact (proj1 (Hok _))|done].
Qed.

(** ** A concrete run

    Two processors, weight 64, budget 300, a backlog of 1000.  Processor 0 puts a
    packet into the backlog of processor 1; two devices interrupt processor 0;
    its softirq runs. *)

#[local] Existing Instance linux_bits.
#[local] Existing Instance linux_bits_ok.

Abbreviation demo_step := (step 0 0 1000 (fun _ b => b) 300 1000 64).
Abbreviation demo_reachable := (reachable 0 0 1000 (fun _ b => b) 300 1000 64 (fun _ => 64)).

Definition demo_dev (d : nat) (st : net) : net := napi_op 0 (Dev d) (fun sd n => (napi_schedule sd n).1) st.
Definition demo_rx (st : net) : net :=
  default st (net_rx_action 0 0 1000 (fun _ b => b) 300 64 0 (Complete 1) false st).
Definition demo_start : net :=
  match enqueue_to_backlog 1000 0 1 7 true false (net_dev_init (fun _ => 64) 2) with
  | Some (st, _) => demo_dev 4 (demo_dev 3 st)
  | None => net_dev_init (fun _ => 64) 2
  end.
Definition demo_end : net := Nat.iter 12 demo_rx demo_start.

Lemma demo_rx_step st : rtc demo_step st (demo_rx st).
Proof.
  unfold demo_rx. destruct (net_rx_action _ _ _ _ _ _ _ _ _ _) as [st'|] eqn:E; [|apply rtc_refl].
  apply rtc_once. by eapply step_rx.
Qed.

Lemma demo_start_reachable : demo_reachable 2 demo_start.
Proof.
  unfold demo_start. destruct (enqueue_to_backlog _ _ _ _ _ _ _) as [[st ok]|] eqn:E; [|apply rtc_refl].
  eapply rtc_l; [eapply step_enqueue; [exact E|done]|]. eapply rtc_l; [apply (step_schedule _ _ _ _ _ _ _ st 0 3)|].
  apply rtc_once. apply step_schedule.
Qed.

Lemma demo_run_steps : rtc demo_step demo_start demo_end.
Proof. unfold demo_end. generalize 12%nat. intros n. induction n as [|n IH]; [apply rtc_refl|].
  etrans; [exact IH|apply (demo_rx_step (Nat.iter n demo_rx demo_start))]. Qed.

Lemma demo_end_reachable : demo_reachable 2 demo_end.
Proof. unfold reachable. etrans; [apply demo_start_reachable|apply demo_run_steps]. Qed.

(** The interrupt for the backlog of processor 1 is on its way, both devices were
    polled and the softirq has ended. *)
Lemma demo_end_ipis : ipis demo_end = [1%nat].
Proof. vm_compute. reflexivity. Qed.
Lemma demo_start_cpu0 : ∃ c, cpus demo_start !! 0%nat = Some c ∧ sn_poll_list c = [Dev 3; Dev 4] ∧ sn_pc c = Idle.
Proof. eexists. split; [vm_compute; reflexivity|]. split; reflexivity. Qed.
Lemma demo_end_cpu0 : ∃ c, cpus demo_end !! 0%nat = Some c ∧ sn_polled c = [Dev 3; Dev 4] ∧ sn_pc c = Idle ∧ sn_budget c = 298.
Proof. eexists. split; [vm_compute; reflexivity|]. split_and!; reflexivity. Qed.
Lemma demo_end_cpu1 : ∃ c, cpus demo_end !! 1%nat = Some c ∧ sn_input_pkt_queue c = [7%nat].
Proof. eexists. split; [vm_compute; reflexivity|]. reflexivity. Qed.
Lemma demo_end_sched : test_bit 0 (state (napis demo_end (Backlog 1))) = true.
Proof. vm_compute. reflexivity. Qed.

Lemma scheduled_napi_served_witness :
  NoDup (all_places demo_end) ∧ ∃ j, Backlog 1 = Backlog j ∧ j ∈ ipis demo_end ∧
  ((∃ i c, cpus demo_end !! i = Some c ∧ Backlog 1 ∈ queues c ∧
        (net_rx_softirq_raised (sn_sd c) = true ∨ sn_pc c ≠ Idle ∧ sn_pc c ≠ CheckRps)) ∨
     (∃ i c q w, cpus demo_end !! i = Some c ∧ sn_pc c = Polling (Backlog 1) q w) ∨
     (∃ i c j, Backlog 1 = Backlog j ∧ cpus demo_end !! i = Some c ∧ j ∈ sn_rps_ipi_list c ∧
        (net_rx_softirq_raised (sn_sd c) = true ∨ sn_pc c ≠ Idle)) ∨
     (∃ j, Backlog 1 = Backlog j ∧ j ∈ ipis demo_end)).
Proof.
  destruct (scheduled_napi_served 0 0 1000 (fun _ b => b) 300 1000 64 (fun _ => 64) 2 demo_end demo_end_reachable) as (H1 & H2 & H3).
  split; [exact H1|]. exists 1%nat. split; [done|]. split; [rewrite demo_end_ipis; by left|]. apply H2. exact demo_end_sched.
Defined.

Lemma backlog_fifo_witness :
  ∃ c, cpus demo_end !! 1%nat = Some c ∧ sn_input_pkt_queue c = [7%nat] ∧
    sn_received c ++ sn_process_queue c ++ sn_input_pkt_queue c `sublist_of` sn_accepted c ∧
    sn_received c ++ sn_process_queue c ++ sn_input_pkt_queue c ++ sn_flushed c ≡ₚ sn_accepted c ∧
    Z.of_nat (length (sn_input_pkt_queue c)) <= Z.max 0 (1000 + 1).
Proof.
  destruct demo_end_cpu1 as (c & E & Hq). exists c. split; [exact E|]. split; [exact Hq|].
  exact (backlog_fifo 0 0 1000 (fun _ b => b) 300 1000 64 (fun _ => 64) 2 demo_end 1 c demo_end_reachable E).
Defined.

Lemma softirq_fair_witness :
  ∃ c c', cpus demo_start !! 0%nat = Some c ∧ cpus demo_end !! 0%nat = Some c' ∧ sn_poll_list c = [Dev 3; Dev 4] ∧
  (Dev 4 ∈ drop (length (sn_polled c)) (sn_polled c') ∨
   ((length (sn_polled c') <= length (sn_polled c) + 1)%nat ∧ (sn_runs c' <= sn_runs c + 1)%nat)).
Proof.
  destruct demo_start_cpu0 as (c & E & Hl & Hpc). destruct demo_end_cpu0 as (c' & E' & _).
  exists c, c'. split; [exact E|]. split; [exact E'|]. split; [exact Hl|].
  apply (softirq_fair 0 0 1000 (fun _ b => b) 300 1000 64 (fun _ => 64) 2 demo_start 0 c (Dev 4) 1 demo_end c' demo_start_reachable E Hpc);
    [by rewrite Hl|exact demo_run_steps|exact E'].
Defined.

Lemma softirq_budget_witness : ∃ c, cpus demo_end !! 0%nat = Some c ∧ sn_budget c = 298 ∧ - 64 < sn_budget c.
Proof.
  destruct demo_end_cpu0 as (c & E & _ & _ & Hb). exists c. split; [exact E|]. split; [exact Hb|].
  apply (softirq_budget 0 0 1000 (fun _ b => b) 300 1000 64 (fun _ => 64) 2 demo_end 0 c 64); [lia|lia|lia|intros _; lia|exact demo_end_reachable|exact E].
Defined.

Definition demo_flows : sd_flow_limit := mk_flow_limit 0 (replicate 128 0%nat) 0 (replicate 4 0).

Lemma flow_limit_share_witness :
  ∃ f' limited, skb_flow_limit 1000 (Some demo_flows) 2 800 = Some (Some f', limited) ∧ flow_ok f' ∧
    (limited = true → Z.shiftr 1000 1 <= 800 ∧ (64 < occurrences 2 (fl_history f'))%nat).
Proof.
  apply (flow_limit_share 1000 demo_flows 2 800); [|cbn; lia]. split; cbn [demo_flows fl_history fl_history_head fl_buckets].
  - apply length_replicate.
  - lia.
  - apply Forall_replicate. cbn. lia.
  - intros x b Hb. apply lookup_replicate in Hb as [-> _]. lia.
Defined.
