(* ===== verification/Gro.v ===== *)
(** * Generic receive offload (net/core/gro.c)

    Where [napi_gro_receive], the end of the receive path, hands its packets: held
    packets in eight buckets, merged with their successors by the protocols'
    callbacks and completed when a successor does not fit, when they are too old or
    when the poll ends.

    A packet is its linear part, its page fragments and its fragment list; a
    fragment is the bytes it refers to.  The length fields are those of the code and
    are proved to agree with the bytes.  [None] is an access outside a buffer.  The
    callbacks of the protocols are the records in [offload_base]; those of IPv4 and
    UDP are in GroUdp.v.  [gro_normal_one] appends to [g_passed].

    [gro_pull_contents] and [gro_receive_spec] say that moving bytes between the
    parts of a packet, and between packets, loses nothing. *)
From S2P Require Import Prelude.

Definition E2BIG : Z := 7.
Definition ENOENT : Z := 2.
Definition ETOOMANYREFS : Z := 109.

Definition blen (l : bytes) : Z := Z.of_nat (length l).

(** ** Packets *)

Inductive checksum := CHECKSUM_NONE | CHECKSUM_UNNECESSARY | CHECKSUM_COMPLETE | CHECKSUM_PARTIAL.
#[global] Instance checksum_eq : EqDecision checksum.
Proof. solve_decision. Defined.

Inductive gso_flag :=
  SKB_GSO_TCPV4 | SKB_GSO_TCPV6 | SKB_GSO_DODGY | SKB_GSO_PARTIAL | SKB_GSO_UDP | SKB_GSO_UDP_L4 | SKB_GSO_FRAGLIST
| SKB_GSO_UDP_TUNNEL | SKB_GSO_UDP_TUNNEL_CSUM | SKB_GSO_TUNNEL_REMCSUM | SKB_GSO_TCP_FIXEDID.
#[global] Instance gso_flag_eq : EqDecision gso_flag.
Proof. solve_decision. Defined.

(** What the driver says about a packet and GRO does not change: device, hash,
    VLAN tag, link header, owner, conntrack entry, TC extension, headroom,
    [pp_recycle], [head_frag], [remcsum_offload], and whether the first fragment can
    be addressed and is aligned. *)
Record link := mk_link {
  l_dev : nat;
  l_hash : Z;
  l_vlan_all : Z;
  l_mac_header : bytes;
  l_protocol : Z;
  l_slow_gro : bool;
  l_sk : option nat;
  l_nfct : Z;
  l_tc_ext : option Z;
  l_headroom : Z;
  l_pp_recycle : bool;
  l_head_frag : bool;
  l_frag0_usable : bool;
  l_remcsum_offload : bool;
}.

(** [struct sk_buff], its [skb_shared_info] and its [napi_gro_cb].  Offsets count
    from [skb->data].  [last] is the number of the packet of the fragment list
    that [NAPI_GRO_CB(p)->last] points to, 0 for [p] itself.  [frag0_frag] says
    that [frag0] is the first fragment and not the linear part. *)
Inductive sk_buff := mk_skb {
  meta : link;
  head : bytes;
  tailroom : Z;
  frags : list bytes;
  frag_list : list sk_buff;
  len : Z;
  data_len : Z;
  truesize : Z;
  head_truesize : Z;
  gso_size : Z;
  gso_segs : Z;
  gso_type : list gso_flag;
  ip_summed : checksum;
  csum_level : Z;
  csum_start : Z;
  encapsulation : bool;
  network_header : Z;
  transport_header : Z;
  inner_protocol : Z;
  inner_network_header : Z;
  inner_transport_header : Z;
  data_offset : Z;
  frag0_frag : bool;
  frag0_len : Z;
  flush : Z;
  count : Z;
  same_flow : bool;
  encap_mark : bool;
  csum_valid : bool;
  csum_cnt : Z;
  free : Z;
  is_flist : bool;
  recursion_counter : Z;
  proto : Z;
  age : Z;
  last : nat;
  network_offset : Z;
  inner_network_offset : Z;
}.

#[export] Instance settable_gro_skb : Settable sk_buff := fun s =>
  mk_skb (meta s) (head s) (tailroom s) (frags s) (frag_list s) (len s) (data_len s) (truesize s) (head_truesize s)
    (gso_size s) (gso_segs s) (gso_type s) (ip_summed s) (csum_level s) (csum_start s) (encapsulation s) (network_header s)
    (transport_header s) (inner_protocol s) (inner_network_header s) (inner_transport_header s) (data_offset s) (frag0_frag s) (frag0_len s) (flush s) (count s) (same_flow s) (encap_mark s)
    (csum_valid s) (csum_cnt s) (free s) (is_flist s) (recursion_counter s) (proto s) (age s) (last s) (network_offset s)
    (inner_network_offset s).

(** The bytes of a packet, from [skb->data] on. *)
Fixpoint contents (s : sk_buff) : bytes :=
  head s ++ concat (frags s) ++ (fix go (l : list sk_buff) : bytes :=
    match l with [] => [] | x :: l => contents x ++ go l end) (frag_list s).

Definition skb_headlen (s : sk_buff) : Z := len s - data_len s.
Definition skb_gro_offset (s : sk_buff) : Z := data_offset s.
Definition skb_gro_len (s : sk_buff) : Z := len s - data_offset s.
Definition skb_gro_pull (n : Z) (s : sk_buff) : sk_buff := s <| data_offset ::= Z.add n |>.
Definition skb_is_gso (s : sk_buff) : bool := negb (gso_size s =? 0).
Definition skb_is_gso_tcp (s : sk_buff) : bool :=
  bool_decide (SKB_GSO_TCPV4 ∈ gso_type s) || bool_decide (SKB_GSO_TCPV6 ∈ gso_type s).
Definition skb_has_frag_list (s : sk_buff) : bool := match frag_list s with [] => false | _ => true end.

(** [__skb_pull]: the start of the data moves inside the linear part. *)
Definition __skb_pull (n : Z) (s : sk_buff) : option sk_buff :=
  if n <=? blen (head s) then Some (s <| head ::= drop (Z.to_nat n) |> <| len ::= fun x => x - n |>) else None.

(** [skb_frag_off_add] and [skb_frag_size_sub] on the first fragment of a list. *)
Definition eat_frag (n : Z) (l : list bytes) : option (list bytes) :=
  match l with
  | f :: l => if n <=? blen f then Some (drop (Z.to_nat n) f :: l) else None
  | [] => None
  end.

Definition NAPI_GRO_FREE : Z := 1.
Definition NAPI_GRO_FREE_STOLEN_HEAD : Z := 2.
Definition MAX_GRO_SKBS : Z := 8.
Definition GRO_HASH_BUCKETS : Z := 8.
Definition GRO_LEGACY_MAX_SIZE : Z := 65536.
Definition IPPROTO_TCP : Z := 6.
Definition ETH_P_IPV6 : Z := 34525.

(** ** What GRO asks of other code *)

Class GroEnv := {
  hard_header_len : nat -> Z;
  netif_elide_gro : nat -> bool;
  netif_get_gro_max_size : link -> Z;
  skb_metadata_differs : link -> link -> bool;
  skb_metadata_dst_cmp : link -> link -> bool;
  psp_skb_coalesce_diff : link -> link -> bool;
  MAX_SKB_FRAGS : Z;
  SKB_TRUESIZE_HEAD : Z;
  sizeof_hop_jumbo_hdr : Z;
}.

Section Gro.
Context `{GroEnv}.

(** ** Appending a packet to a held one *)

(** The packet [NAPI_GRO_CB(p)->last]. *)
Definition lp_frags (p : sk_buff) : option (list bytes) :=
  match last p with O => Some (frags p) | S k => frags <$> (frag_list p !! k) end.
Definition upd_last (f : sk_buff -> sk_buff) (p : sk_buff) : sk_buff :=
  match last p with O => f p | S k => p <| frag_list ::= alter f k |> end.

(** [NAPI_GRO_CB(p)->last->next = skb], or the first of the list. *)
Definition link_last (skb p : sk_buff) : sk_buff :=
  p <| frag_list := take (last p) (frag_list p) ++ [skb] |> <| last ::= S |>.

Definition add_len (n delta : Z) (s : sk_buff) : sk_buff :=
  s <| data_len ::= fun x => x + n |> <| truesize ::= fun x => x + delta |> <| len ::= fun x => x + n |>.

(** The end of [skb_gro_receive], from [done] on. *)
Definition gro_receive_done (p skb : sk_buff) (n delta : Z) (own : bool) : Z * sk_buff * sk_buff :=
  let p := add_len n delta (p <| count ::= fun c => u16 (c + count skb) |>) in
  let p := if own || (last p =? 0)%nat then p else upd_last (add_len n delta) p in
  (0, p, skb <| same_flow := true |>).

(** From [merge] on: the packet goes to the end of the fragment list. *)
Definition gro_receive_merge (p skb : sk_buff) (offset headlen n : Z) : option (Z * sk_buff * sk_buff) :=
  let skb := skb <| meta ::= fun m => mk_link (l_dev m) (l_hash m) (l_vlan_all m) (l_mac_header m) (l_protocol m)
    (l_slow_gro m) None (l_nfct m) (l_tc_ext m) (l_headroom m) (l_pp_recycle m) (l_head_frag m) (l_frag0_usable m) (l_remcsum_offload m) |> in
  let delta := truesize skb in
  '(skb, offset) ←
    if headlen <? offset then
      fs ← eat_frag (offset - headlen) (frags skb);
      Some (skb <| frags := fs |> <| data_len ::= fun x => x - (offset - headlen) |>
                <| len ::= fun x => x - (offset - headlen) |>, headlen)
    else Some (skb, offset);
  skb ← __skb_pull offset skb;
  Some (gro_receive_done (link_last (skb <| same_flow := true |>) p) skb n delta true).

(** The fragments of the packet go to the last packet of [p]. *)
Definition gro_receive_frags (p skb : sk_buff) (offset headlen n : Z) : option (Z * sk_buff * sk_buff) :=
  fs ← eat_frag (offset - headlen) (frags skb);
  let delta := truesize skb - head_truesize skb in
  let skb := skb <| frags := [] |> <| truesize := head_truesize skb |> <| len ::= fun x => x - data_len skb |>
                 <| data_len := 0 |> <| free := NAPI_GRO_FREE |> in
  Some (gro_receive_done (upd_last (fun lp => lp <| frags ::= fun l => l ++ fs |>) p) skb n delta false).

(** The linear part of the packet is a page: it becomes a fragment, before the
    others. *)
Definition gro_receive_head (p skb : sk_buff) (offset n : Z) : option (Z * sk_buff * sk_buff) :=
  let first := drop (Z.to_nat offset) (head skb) in
  let delta := truesize skb - SKB_TRUESIZE_HEAD in
  let fs := first :: frags skb in
  let skb := skb <| truesize := SKB_TRUESIZE_HEAD |> <| free := NAPI_GRO_FREE_STOLEN_HEAD |> in
  Some (gro_receive_done (upd_last (fun lp => lp <| frags ::= fun l => l ++ fs |>) p) skb n delta false).

Definition skb_gro_receive (p skb : sk_buff) : option (Z * sk_buff * sk_buff) :=
  let offset := skb_gro_offset skb in
  let headlen := skb_headlen skb in
  let n := skb_gro_len skb in
  if negb (Bool.eqb (l_pp_recycle (meta p)) (l_pp_recycle (meta skb))) then Some (- ETOOMANYREFS, p, skb)
  else if (netif_get_gro_max_size (meta p) <=? len p + n) || negb (flush skb =? 0) then Some (- E2BIG, p, skb)
  else if (GRO_LEGACY_MAX_SIZE <=? len p + n) &&
          (negb (proto skb =? IPPROTO_TCP)
           || ((l_protocol (meta p) =? ETH_P_IPV6) && (l_headroom (meta p) <? sizeof_hop_jumbo_hdr))
           || encapsulation p) then Some (- E2BIG, p, skb)
  else
    pinfo ← lp_frags p;
    let nr := Z.of_nat (length pinfo) in
    let skbnr := Z.of_nat (length (frags skb)) in
    if headlen <=? offset then
      if MAX_SKB_FRAGS <? nr + skbnr then gro_receive_merge p skb offset headlen n
      else gro_receive_frags p skb offset headlen n
    else if l_head_frag (meta skb) then
      if MAX_SKB_FRAGS <? nr + 1 + skbnr then gro_receive_merge p skb offset headlen n
      else gro_receive_head p skb offset n
    else gro_receive_merge p skb offset headlen n.

(** The packet becomes the next of the fragment list as it is, without its
    headers. *)
Definition skb_gro_receive_list (p skb : sk_buff) : option (Z * sk_buff * sk_buff) :=
  if 65536 <=? len p + len skb then Some (- E2BIG, p, skb)
  else
    skb ← __skb_pull (skb_gro_offset skb) skb;
    let p := link_last (skb <| same_flow := true |>) p in
    let p := p <| count ::= fun c => u16 (c + 1) |> <| data_len ::= fun x => x + len skb |>
               <| truesize ::= fun x => x + truesize skb |> <| len ::= fun x => x + len skb |> in
    Some (0, p, skb <| same_flow := true |>).

(** ** The linear part and the first fragment *)

Definition skb_gro_reset_offset (s : sk_buff) : sk_buff :=
  let s := s <| network_offset := 0 |> <| data_offset := 0 |> <| frag0_frag := false |> <| frag0_len := skb_headlen s |> in
  if negb (skb_headlen s =? 0) then s
  else
    match frags s with
    | f :: _ => if l_frag0_usable (meta s) then s <| frag0_frag := true |> <| frag0_len := Z.min (blen f) (tailroom s) |> else s
    | [] => s
    end.

(** Copies [grow] bytes from [frag0] to the end of the linear part and takes them
    off the first fragment. *)
Definition gro_pull_from_frag0 (s : sk_buff) (grow : Z) : option sk_buff :=
  if tailroom s <? grow then None
  else
    fs ← eat_frag grow (frags s);
    f ← frags s !! 0%nat;
    let src := if frag0_frag s then f else head s in
    if blen src <? grow then None
    else
      Some (s <| head ::= fun h => h ++ take (Z.to_nat grow) src |> <| tailroom ::= fun x => x - grow |>
              <| data_len ::= fun x => x - grow |>
              <| frags := match fs with [] :: fs => fs | _ => fs end |>).

Definition gro_try_pull_from_frag0 (s : sk_buff) : option sk_buff :=
  let grow := skb_gro_offset s - skb_headlen s in
  if 0 <? grow then gro_pull_from_frag0 s grow else Some s.

(** ** Packets of the same flow *)

Definition gro_list_prepare_tc_ext (skb p : link) (diffs : bool) : bool :=
  let diffs := diffs || xorb (bool_decide (is_Some (l_tc_ext p))) (bool_decide (is_Some (l_tc_ext skb))) in
  if diffs then diffs
  else match l_tc_ext skb, l_tc_ext p with Some a, Some b => negb (a =? b) | _, _ => false end.

Definition gro_diffs (p skb : link) : bool :=
  let maclen := Z.to_nat (hard_header_len (l_dev skb)) in
  let diffs := bool_decide (l_dev p ≠ l_dev skb) || negb (l_vlan_all p =? l_vlan_all skb)
    || skb_metadata_differs p skb || bool_decide (take maclen (l_mac_header p) ≠ take maclen (l_mac_header skb)) in
  if negb diffs && (l_slow_gro skb || l_slow_gro p) then
    let diffs := bool_decide (l_sk p ≠ l_sk skb) || skb_metadata_dst_cmp p skb || negb (l_nfct p =? l_nfct skb) in
    let diffs := gro_list_prepare_tc_ext skb p diffs in
    diffs || psp_skb_coalesce_diff skb p
  else diffs.

Definition prepare_one (skb p : sk_buff) : sk_buff :=
  if negb (l_hash (meta skb) =? l_hash (meta p)) then p <| same_flow := false |>
  else p <| same_flow := negb (gro_diffs (meta p) (meta skb)) |>.

Definition gro_list_prepare (l : list sk_buff) (skb : sk_buff) : list sk_buff := prepare_one skb <$> l.
End Gro.

(** ** The protocols *)

(** The packet a callback asks to complete: none, the [i]-th of the bucket, or
    the packet was taken over ([-EINPROGRESS]). *)
Inductive completion := NoPP | PP (i : nat) | InProgress.

Record offload_callbacks := mk_callbacks {
  gro_receive : option (list sk_buff -> sk_buff -> option (list sk_buff * sk_buff * completion));
  gro_complete_cb : option (sk_buff -> Z -> option (Z * sk_buff));
}.

Record packet_offload := mk_offload {
  po_type : Z;
  po_priority : Z;
  po_callbacks : offload_callbacks;
}.

(** Insertion by priority, behind those of the same priority. *)
Fixpoint dev_add_offload (po : packet_offload) (base : list packet_offload) : list packet_offload :=
  match base with
  | [] => [po]
  | elem :: rest => if po_priority po <? po_priority elem then po :: base else elem :: dev_add_offload po rest
  end.

Definition receives (type : Z) (po : packet_offload) : bool :=
  (po_type po =? type) && bool_decide (is_Some (gro_receive (po_callbacks po))).
Definition completes (type : Z) (po : packet_offload) : bool :=
  (po_type po =? type) && bool_decide (is_Some (gro_complete_cb (po_callbacks po))).

Definition gro_find_receive_by_type (base : list packet_offload) (type : Z) : option packet_offload := List.find (receives type) base.
Definition gro_find_complete_by_type (base : list packet_offload) (type : Z) : option packet_offload := List.find (completes type) base.

(** ** The buckets *)

Record gro_list := mk_gro_list { gl_list : list sk_buff; gl_count : Z }.
#[export] Instance settable_gro_list : Settable gro_list := fun l => mk_gro_list (gl_list l) (gl_count l).

(** [struct gro_node]; [g_passed] are the packets given to [gro_normal_one],
    [g_dropped] those whose completion failed, [g_freed] the merged ones whose
    [sk_buff] was given back. *)
Record gro_node := mk_gro_node {
  g_hash : list gro_list;
  g_bitmask : Z;
  g_passed : list sk_buff;
  g_dropped : list sk_buff;
  g_freed : list sk_buff;
}.
#[export] Instance settable_gro_node : Settable gro_node := fun g =>
  mk_gro_node (g_hash g) (g_bitmask g) (g_passed g) (g_dropped g) (g_freed g).

Inductive gro_result := GRO_MERGED | GRO_MERGED_FREE | GRO_HELD | GRO_NORMAL | GRO_CONSUMED.

Definition gro_init : gro_node := mk_gro_node (replicate 8 (mk_gro_list [] 0)) 0 [] [] [].

Definition upd_bucket (b : nat) (f : gro_list -> gro_list) (g : gro_node) : gro_node := g <| g_hash ::= alter f b |>.
Definition gro_normal_one (s : sk_buff) (g : gro_node) : gro_node := g <| g_passed ::= fun l => l ++ [s] |>.

Section Node.
Context `{GroEnv} (offload_base : list packet_offload).

Definition gro_complete (s : sk_buff) (g : gro_node) : option gro_node :=
  if count s =? 1 then Some (gro_normal_one (s <| gso_size := 0 |>) g)
  else
    let s := s <| encapsulation := false |> in
    '(err, s) ←
      match gro_find_complete_by_type offload_base (l_protocol (meta s)) with
      | Some po => match gro_complete_cb (po_callbacks po) with Some f => f s 0 | None => None end
      | None => Some (- ENOENT, s)
      end;
    Some (if negb (err =? 0) then g <| g_dropped ::= fun l => l ++ [s] |> else gro_normal_one s g).

(** [__gro_flush_chain]: from the oldest packet, the last of the list, on. *)
Fixpoint flush_chain (now : Z) (flush_old : bool) (b : nat) (l : list sk_buff) (g : gro_node) : option (bool * gro_node) :=
  match l with
  | [] => Some (true, g)
  | s :: l =>
    if flush_old && (age s =? now) then Some (false, g)
    else
      g ← gro_complete s (upd_bucket b (fun x => x <| gl_list ::= fun q => take (length q - 1) q |>) g);
      flush_chain now flush_old b l (upd_bucket b (fun x => x <| gl_count ::= fun c => c - 1 |>) g)
  end.

Definition __gro_flush_chain (now : Z) (flush_old : bool) (b : nat) (g : gro_node) : option gro_node :=
  x ← g_hash g !! b;
  '(all, g) ← flush_chain now flush_old b (reverse (gl_list x)) g;
  if all : bool then
    x ← g_hash g !! b;
    Some (if gl_count x =? 0 then g <| g_bitmask ::= fun m => Z.ldiff m (Z.shiftl 1 (Z.of_nat b)) |> else g)
  else Some g.

(** [ffs]: one more than the position of the lowest bit set, 0 if there is none. *)
Fixpoint ffs_from (n : nat) (i m : Z) : Z :=
  match n with
  | O => 0
  | S n => if Z.testbit m i then i + 1 else ffs_from n (i + 1) m
  end.
Definition ffs (m : Z) : Z := ffs_from 32 0 m.

Fixpoint gro_flush_loop (fuel : nat) (now : Z) (flush_old : bool) (bitmask base : Z) (g : gro_node) : option gro_node :=
  match fuel with
  | O => None
  | S fuel =>
    let i := ffs bitmask in
    if i =? 0 then Some g
    else
      let base := u32 (base + i) in
      g ← __gro_flush_chain now flush_old (Z.to_nat base) g;
      gro_flush_loop fuel now flush_old (Z.shiftr bitmask i) base g
  end.

Definition __gro_flush (now : Z) (flush_old : bool) (g : gro_node) : option gro_node :=
  gro_flush_loop 65 now flush_old (g_bitmask g) (2 ^ 32 - 1) g.

(** ** Receiving *)

Definition gro_flush_oldest (b : nat) (g : gro_node) : option gro_node :=
  x ← g_hash g !! b;
  oldest ← List.last (Some <$> gl_list x) None;
  gro_complete oldest (upd_bucket b (fun x => x <| gl_list ::= fun q => take (length q - 1) q |>) g).

(** The end of [dev_gro_receive], from [ok] on. *)
Definition gro_receive_ok (b : nat) (g : gro_node) (s : sk_buff) (ret : gro_result) : option (gro_node * sk_buff * gro_result) :=
  x ← g_hash g !! b;
  let bit := Z.shiftl 1 (Z.of_nat b) in
  Some (g <| g_bitmask ::= fun m => if negb (gl_count x =? 0) then Z.lor m bit else Z.ldiff m bit |>, s, ret).

Definition gro_receive_normal (b : nat) (g : gro_node) (s : sk_buff) : option (gro_node * sk_buff * gro_result) :=
  s ← gro_try_pull_from_frag0 s;
  gro_receive_ok b g s GRO_NORMAL.

(** The packet is put at the head of its bucket. *)
Definition gro_hold (now : Z) (b : nat) (g : gro_node) (s : sk_buff) : option (gro_node * sk_buff * gro_result) :=
  x ← g_hash g !! b;
  g ← if MAX_GRO_SKBS <=? gl_count x then gro_flush_oldest b g
      else Some (upd_bucket b (fun x => x <| gl_count ::= fun c => c + 1 |>) g);
  s ← gro_try_pull_from_frag0 s;
  let s := s <| age := now |> <| last := 0%nat |> in
  let s := if skb_is_gso s then s else s <| gso_size := skb_gro_len s |> in
  gro_receive_ok b (upd_bucket b (fun x => x <| gl_list ::= cons s |>) g) s GRO_HELD.

(** The control block as the callbacks find it; the value of the checksum is left
    out. *)
Definition gro_prepare_cb (s : sk_buff) : sk_buff :=
  let s := s <| network_header := skb_gro_offset s |> <| same_flow := false |> <| encap_mark := false |> <| csum_valid := false |>
             <| csum_cnt := 0 |> <| free := 0 |> <| is_flist := false |> <| recursion_counter := 0 |>
             <| flush := if skb_has_frag_list s then 1 else 0 |> <| count := 1 |> in
  let s := if skb_is_gso s then
             let s := s <| count := gso_segs s |> in
             if negb (skb_is_gso_tcp s) || bool_decide (SKB_GSO_DODGY ∈ gso_type s) then s <| flush := 1 |> else s
           else s in
  match ip_summed s with
  | CHECKSUM_COMPLETE => s <| csum_valid := true |>
  | CHECKSUM_UNNECESSARY => s <| csum_cnt := csum_level s + 1 |>
  | _ => s
  end.

(** What the callback asks for, and then the packet itself. *)
Definition gro_after_callback (now : Z) (b : nat) (g : gro_node) (s : sk_buff) (pp : completion) : option (gro_node * sk_buff * gro_result) :=
  match pp with
  | InProgress => gro_receive_ok b g s GRO_CONSUMED
  | _ =>
    let ret := if free s =? 0 then GRO_MERGED else GRO_MERGED_FREE in
    g ← match pp with
        | PP i =>
          x ← g_hash g !! b;
          p ← gl_list x !! i;
          g ← gro_complete p (upd_bucket b (fun x => x <| gl_list ::= delete i |>) g);
          Some (upd_bucket b (fun x => x <| gl_count ::= fun c => c - 1 |>) g)
        | _ => Some g
        end;
    if same_flow s then gro_receive_ok b g s ret
    else if negb (flush s =? 0) then gro_receive_normal b g s
    else gro_hold now b g s
  end.

Definition dev_gro_receive (now : Z) (g : gro_node) (s : sk_buff) : option (gro_node * sk_buff * gro_result) :=
  let b := Z.to_nat (Z.land (l_hash (meta s)) (GRO_HASH_BUCKETS - 1)) in
  if netif_elide_gro (l_dev (meta s)) then gro_receive_normal b g s
  else
    let g := upd_bucket b (fun x => x <| gl_list ::= fun l => gro_list_prepare l s |>) g in
    match gro_find_receive_by_type offload_base (l_protocol (meta s)) ≫= (fun po => gro_receive (po_callbacks po)) with
    | None => gro_receive_normal b g s
    | Some rcv =>
      x ← g_hash g !! b;
      '(l, s, pp) ← rcv (gl_list x) (gro_prepare_cb s);
      gro_after_callback now b (upd_bucket b (fun x => x <| gl_list := l |>) g) s pp
    end.

Definition gro_skb_finish (g : gro_node) (s : sk_buff) (ret : gro_result) : gro_node :=
  match ret with
  | GRO_NORMAL => gro_normal_one s g
  | GRO_MERGED_FREE => g <| g_freed ::= fun l => l ++ [s] |>
  | GRO_HELD | GRO_MERGED | GRO_CONSUMED => g
  end.

Definition gro_receive_skb (now : Z) (g : gro_node) (s : sk_buff) : option (gro_node * gro_result) :=
  '(g, s, ret) ← dev_gro_receive now g (skb_gro_reset_offset s);
  Some (gro_skb_finish g s ret, ret).

(** [gro_cleanup] frees what is held; the lists themselves are not touched, they
    are set up again before they are used. *)
Definition gro_cleanup (g : gro_node) : gro_node :=
  g <| g_hash ::= fmap (fun x => x <| gl_count := 0 |>) |> <| g_bitmask := 0 |>
    <| g_dropped ::= fun l => l ++ concat (gl_list <$> g_hash g) |>.
End Node.

(** ** The bytes of a packet *)

Lemma contents_eq s : contents s = head s ++ concat (frags s) ++ concat (contents <$> frag_list s).
Proof.
  destruct s; cbn [contents head frags frag_list]. do 2 f_equal.
  match goal with |- ?f ?l = _ => induction l as [|x l IH] end; [done|]. cbn. by rewrite IH.
Qed.
#[global] Arguments contents : simpl never.

Lemma contents_ext s t : head s = head t → frags s = frags t → frag_list s = frag_list t → contents s = contents t.
Proof. intros Eh Ef El. by rewrite !contents_eq, Eh, Ef, El. Qed.

Lemma blen_app l k : blen (l ++ k) = blen l + blen k.
Proof. unfold blen. rewrite length_app. lia. Qed.
Lemma blen_nonneg l : 0 <= blen l.
Proof. unfold blen. lia. Qed.
Lemma blen_drop n l : 0 <= n <= blen l → blen (drop (Z.to_nat n) l) = blen l - n.
Proof. unfold blen. rewrite length_drop. lia. Qed.

(** The length fields agree with the bytes. *)
Record skb_wf (s : sk_buff) : Prop := {
  wf_len : len s = blen (contents s);
  wf_headlen : skb_headlen s = blen (head s);
}.

(** What [data_offset] has passed is in the linear part, or there is none and it is
    in the first fragment. *)
Definition reached (n : Z) (s : sk_buff) : Prop :=
  0 <= n ∧ (n <= blen (head s) ∨ ∃ f l, frags s = f :: l ∧ head s = [] ∧ n <= blen f).

(** [last] is the end of the fragment list, and that packet has no list of its own. *)
Definition last_ok (p : sk_buff) : Prop :=
  last p = length (frag_list p) ∧ (∀ k x, last p = S k → frag_list p !! k = Some x → frag_list x = []).

(** What merging does not change of a held packet. *)
Definition frame (p : sk_buff) : sk_buff :=
  p <| frags := [] |> <| frag_list := [] |> <| len := 0 |> <| data_len := 0 |> <| truesize := 0 |> <| count := 0 |> <| last := 0%nat |>.

Lemma eat_frag_spec n l : 0 <= n → (∃ f r, l = f :: r ∧ n <= blen f) →
  ∃ l', eat_frag n l = Some l' ∧ concat l' = drop (Z.to_nat n) (concat l) ∧ length l' = length l.
Proof.
  intros Hn (f & r & -> & Hf). cbn. rewrite (proj2 (Z.leb_le _ _)) by done. eexists. split; [done|]. cbn.
  split; [|done]. rewrite drop_app_le; [done|]. unfold blen in Hf. lia.
Qed.

Lemma push_frags p fs : last_ok p →
  contents (upd_last (fun lp => lp <| frags ::= fun l => l ++ fs |>) p) = contents p ++ concat fs.
Proof.
  intros [Hl Hx]. unfold upd_last. destruct (last p) as [|k] eqn:El.
  - destruct (frag_list p) eqn:Ef; [|done]. rewrite !contents_eq. cbn. rewrite Ef, concat_app. cbn. by rewrite !app_nil_r, <- !app_assoc.
  - destruct (frag_list p) as [|x l _] eqn:Ef using rev_ind; [done|]. rewrite length_app in Hl. cbn in Hl.
    assert (k = length l) as -> by lia.
    specialize (Hx (length l) x eq_refl ltac:(by rewrite lookup_app_r, Nat.sub_diag by lia)).
    rewrite (contents_eq p), contents_eq. cbn. rewrite Ef, alter_app_r_alt, Nat.sub_diag by lia.
    rewrite !fmap_app, !concat_app. cbn. rewrite !app_nil_r, !contents_eq. cbn. by rewrite Hx, concat_app, !app_nil_r, <- !app_assoc.
Qed.

Lemma link_last_contents p skb : last p = length (frag_list p) → contents (link_last skb p) = contents p ++ contents skb.
Proof.
  intros Hl. rewrite contents_eq, (contents_eq p). cbn. rewrite Hl, firstn_all, fmap_app, concat_app. cbn.
  by rewrite app_nil_r, <- !app_assoc.
Qed.

Lemma upd_last_frame f p : (∀ x, frame (f x) = frame x) → frame (upd_last f p) = frame p.
Proof. intros Hf. unfold upd_last. destruct (last p); [apply Hf|done]. Qed.

Lemma add_len_upd_last_contents n d p : contents (upd_last (add_len n d) p) = contents p.
Proof.
  unfold upd_last. destruct (last p); rewrite contents_eq, (contents_eq p); cbn; [done|]. do 3 f_equal.
  rewrite (list_fmap_alter contents _ (fun x => x)); [by apply list_alter_id|]. apply Forall_true. intros x.
  by rewrite contents_eq, (contents_eq x).
Qed.

(** ** Merging *)

Section Receive.
Context `{GroEnv}.

(** The held packet [p'] is [p] with the bytes [b] behind its own. *)
Record merged (p p' : sk_buff) (b : bytes) (segs : Z) : Prop := {
  mg_contents : contents p' = contents p ++ b;
  mg_wf : skb_wf p';
  mg_last : last_ok p';
  mg_count : count p' = u16 (count p + segs);
  mg_frame : frame p' = frame p;
}.

Lemma relen_last n d own q q' : q' = (if own || (last q =? 0)%nat then q else upd_last (add_len n d) q) →
  contents q' = contents q ∧ frame q' = frame q ∧ (last_ok q → last_ok q') ∧ head q' = head q ∧
  (len q', data_len q', count q', truesize q') = (len q, data_len q, count q, truesize q).
Proof.
  intros ->. destruct (own || _) eqn:E; [done|]. split; [apply add_len_upd_last_contents|].
  split; [by apply upd_last_frame|]. apply orb_false_iff in E as [_ E]. unfold upd_last, last_ok. destruct (last q) as [|k] eqn:El; [done|]. cbn.
  rewrite El, length_alter. split; [|done]. intros [Hn Hx]. split; [done|]. intros k' x Hk' Hk.
  assert (k' = k) as -> by congruence.
  rewrite list_lookup_alter_eq in Hk. destruct (frag_list q !! k) as [y|] eqn:Ey; [|done]. cbn in Hk. simplify_eq.
  exact (Hx k y eq_refl Ey).
Qed.

Lemma done_spec p q skb b delta own :
  skb_wf p → frame q = frame p → contents q = contents p ++ b → last_ok q →
  (len q, data_len q, count q, truesize q) = (len p, data_len p, count p, truesize p) →
  ∃ p', gro_receive_done q skb (blen b) delta own = (0, p', skb <| same_flow := true |>) ∧ merged p p' b (count skb) ∧
        truesize p' = truesize p + delta ∧ len p' = len p + blen b.
Proof.
  intros [Wl Wh] Hf Hc Hl Ef. unfold gro_receive_done. eexists. split; [done|].
  set (q1 := add_len _ _ _). destruct (relen_last (blen b) delta own q1 _ eq_refl) as (Hc' & Hf' & Hl' & Hh' & Ef').
  match goal with |- merged p ?x _ _ ∧ _ => set (q2 := x) in * end. clearbody q2.
  assert (contents q1 = contents q) as Hq1 by (by rewrite contents_eq, (contents_eq q)).
  pose proof (f_equal head Hf) as Hh. cbn in Hh. injection Ef as E1 E2 E3 E4. injection Ef' as F1 F2 F3 F4. cbn in F1, F2, F3, F4, Hh'.
  split; [|split; congruence]. split; [congruence| |by apply Hl'|congruence|by rewrite Hf'].
  split; [rewrite Hc', Hq1, Hc, blen_app; lia|]. unfold skb_headlen in *. rewrite Hh', Hh. lia.
Qed.
(** What the packet [skb] brings: its bytes behind [data_offset]. *)
Definition payload (s : sk_buff) : bytes := drop (Z.to_nat (data_offset s)) (contents s).

(** The packet is in [p'], and its truesize is accounted for once: with [p'] or,
    when its [sk_buff] is given back, with both. *)
Record appended (p skb p' skb' : sk_buff) : Prop := {
  ap_merged : merged p p' (payload skb) (count skb);
  ap_flow : same_flow skb' = true;
  ap_len : len p' = len p + blen (payload skb);
  ap_truesize : truesize p' + (if free skb' =? 0 then 0 else truesize skb') = truesize p + truesize skb;
}.

Section Ways.
Context (p skb : sk_buff) (Wp : skb_wf p) (Lp : last_ok p).
Context (Ws : skb_wf skb) (Fs : frag_list skb = []) (Rs : reached (data_offset skb) skb) (Ns : 0 < skb_gro_len skb) (Zs : free skb = 0).

Lemma flat_contents : contents skb = head skb ++ concat (frags skb).
Proof using Fs. rewrite contents_eq, Fs. cbn. by rewrite app_nil_r. Qed.

Lemma payload_len : blen (payload skb) = skb_gro_len skb.
Proof using Ws Ns Rs. destruct Ws as [E _]. unfold payload, skb_gro_len in *. rewrite blen_drop; [lia|]. destruct Rs. lia. Qed.

Lemma first_frag : skb_headlen skb <= data_offset skb → ∃ f r, frags skb = f :: r ∧ data_offset skb - skb_headlen skb <= blen f.
Proof using Ws Ns Rs Fs.
  intros Hle. destruct Ws as [El Eh]. destruct Rs as [_ [Hh|(f & r & -> & Hn & Hf)]]; [|exists f, r; rewrite Eh, Hn; split; [done|change (blen []) with 0; lia]].
  rewrite Eh in *. unfold skb_gro_len in Ns. rewrite El, flat_contents, blen_app in Ns.
  destruct (frags skb) as [|f r]; [change (blen (concat [])) with 0 in Ns; lia|]. exists f, r. split; [done|]. pose proof (blen_nonneg f). lia.
Qed.

Lemma payload_frags : skb_headlen skb <= data_offset skb → payload skb = drop (Z.to_nat (data_offset skb - skb_headlen skb)) (concat (frags skb)).
Proof using Ws Fs Rs.
  intros Hle. destruct Ws as [_ Eh]. unfold payload. rewrite flat_contents, drop_app_ge by (unfold blen in *; lia). f_equal. unfold blen in *. lia.
Qed.

Lemma payload_head : data_offset skb <= skb_headlen skb → payload skb = drop (Z.to_nat (data_offset skb)) (head skb) ++ concat (frags skb).
Proof using Ws Fs. intros Hle. destruct Ws as [_ Eh]. unfold payload. rewrite flat_contents, drop_app_le; [done|]. unfold blen in *. lia. Qed.

Lemma pushed_last_ok fs : last_ok (upd_last (fun lp => lp <| frags ::= fun l => l ++ fs |>) p).
Proof using Lp.
  destruct Lp as [Hl Hx]. unfold upd_last, last_ok. destruct (last p) as [|k] eqn:El; [done|]. cbn. rewrite El, length_alter. split; [done|].
  intros k' x Hk' Hk. assert (k' = k) as -> by congruence. rewrite list_lookup_alter_eq in Hk.
  destruct (frag_list p !! k) as [y|] eqn:Ey; [|done]. cbn in Hk. simplify_eq. exact (Hx k y eq_refl Ey).
Qed.

Lemma pushed_fields fs : let q := upd_last (fun lp => lp <| frags ::= fun l => l ++ fs |>) p in
  (len q, data_len q, count q, truesize q) = (len p, data_len p, count p, truesize p).
Proof using. unfold upd_last. cbn. by destruct (last p). Qed.

Lemma frags_spec : skb_headlen skb <= data_offset skb →
  ∃ p' skb', gro_receive_frags p skb (data_offset skb) (skb_headlen skb) (skb_gro_len skb) = Some (0, p', skb') ∧ appended p skb p' skb'.
Proof using All.
  intros Hle. destruct (first_frag Hle) as (f & r & Ef & Hf). unfold gro_receive_frags.
  destruct (eat_frag_spec (data_offset skb - skb_headlen skb) (frags skb)) as (fs & -> & Hc & _); [lia|eauto|]. cbn [mbind option_bind].
  rewrite <- payload_len. match goal with |- context [gro_receive_done ?q ?s _ ?d false] =>
    destruct (done_spec p q s (payload skb) d false) as (p' & -> & Hm & Ht & Hl) end;
    [done|by apply upd_last_frame|by rewrite push_frags, Hc, payload_frags|apply pushed_last_ok|apply pushed_fields|].
  eexists _, _. split; [done|]. split; [done|done|done|]. cbn. lia.
Qed.
Lemma head_spec : data_offset skb < skb_headlen skb →
  ∃ p' skb', gro_receive_head p skb (data_offset skb) (skb_gro_len skb) = Some (0, p', skb') ∧ appended p skb p' skb'.
Proof using All.
  intros Hlt. unfold gro_receive_head. rewrite <- payload_len.
  match goal with |- context [gro_receive_done ?q ?s _ ?d false] =>
    destruct (done_spec p q s (payload skb) d false) as (p' & -> & Hm & Ht & Hl) end;
    [done|by apply upd_last_frame|by rewrite push_frags, payload_head by (done || lia)|apply pushed_last_ok|apply pushed_fields|].
  eexists _, _. split; [done|]. split; [done|done|done|]. cbn. lia.
Qed.

(** Without its headers the packet is its payload. *)
Lemma merge_pull s : contents s = contents skb → frags s = frags skb → head s = head skb → frag_list s = [] →
  ∃ s' o, (if skb_headlen skb <? data_offset skb then
             fs ← eat_frag (data_offset skb - skb_headlen skb) (frags s);
             Some (s <| frags := fs |> <| data_len ::= fun x => x - (data_offset skb - skb_headlen skb) |>
                     <| len ::= fun x => x - (data_offset skb - skb_headlen skb) |>, skb_headlen skb)
           else Some (s, data_offset skb)) = Some (s', o) ∧
    ∃ s'', __skb_pull o s' = Some s'' ∧ contents s'' = payload skb ∧ frag_list s'' = [] ∧ (free s'', count s'') = (free s, count s).
Proof using Ws Ns Rs Fs.
  intros Ec Ef Eh El. destruct Ws as [_ Whd]. destruct (Z.ltb_spec (skb_headlen skb) (data_offset skb)) as [Hlt|Hge].
  - destruct (first_frag ltac:(lia)) as (f & r & Efr & Hf).
    destruct (eat_frag_spec (data_offset skb - skb_headlen skb) (frags s)) as (fs & -> & Hc & _); [lia|rewrite Ef; eauto|].
    eexists _, _. split; [done|]. unfold __skb_pull. cbn. rewrite Eh, Whd, Z.leb_refl. eexists. split; [done|].
    split; [|done]. rewrite contents_eq. cbn. rewrite Eh, El. cbn. rewrite app_nil_r, Hc, Ef, payload_frags by lia.
    rewrite drop_ge by (unfold blen; lia). done.
  - eexists _, _. split; [done|]. unfold __skb_pull. rewrite Eh, (proj2 (Z.leb_le _ _)) by lia. eexists. split; [done|].
    split; [|done]. rewrite contents_eq. cbn. rewrite Eh, El, Ef. cbn. by rewrite app_nil_r, payload_head by lia.
Qed.

Lemma link_last_ok x : frag_list x = [] → last_ok (link_last x p).
Proof using Lp.
  destruct Lp as [Hl _]. intros Hx. split.
  - cbn. rewrite Hl, firstn_all, length_app. cbn. lia.
  - cbn. intros k y [= <-] Hk. rewrite Hl, firstn_all, lookup_app_r, Nat.sub_diag in Hk by lia. cbn in Hk. by simplify_eq.
Qed.

Lemma merge_spec : ∃ p' skb', gro_receive_merge p skb (data_offset skb) (skb_headlen skb) (skb_gro_len skb) = Some (0, p', skb') ∧ appended p skb p' skb'.
Proof using All.
  unfold gro_receive_merge. match goal with |- context [skb <| meta ::= ?f |>] => set (s := skb <| meta ::= f |>) end.
  destruct (merge_pull s) as (s' & o & -> & s'' & Hp & Hc & Hfl & Ef); [by rewrite contents_eq, (contents_eq skb)|done..|].
  cbn [mbind option_bind]. rewrite Hp. cbn [mbind option_bind]. rewrite <- payload_len. injection Ef as Ef Ec.
  match goal with |- context [gro_receive_done ?q ?x _ ?d true] =>
    destruct (done_spec p q x (payload skb) d true) as (p' & -> & Hm & Ht & Hl) end; [done|done| |by apply link_last_ok|done|].
  { rewrite link_last_contents by apply Lp. f_equal. rewrite contents_eq, <- Hc, (contents_eq s''). done. }
  eexists _, _. split; [done|]. rewrite Ec in Hm. split; [done|done|done|]. cbn. rewrite Ef. cbn. rewrite Zs. cbn. rewrite Ht. cbn. lia.
Qed.
End Ways.
(** [skb_gro_receive] refuses and changes nothing, or appends the packet. *)
Lemma gro_receive_spec p skb :
  skb_wf p → last_ok p → skb_wf skb → frag_list skb = [] → reached (data_offset skb) skb → 0 < skb_gro_len skb → free skb = 0 →
  ∃ r p' skb', skb_gro_receive p skb = Some (r, p', skb') ∧
    ((r ≠ 0 ∧ p' = p ∧ skb' = skb) ∨
     (r = 0 ∧ flush skb = 0 ∧ (proto skb ≠ IPPROTO_TCP → len p' < GRO_LEGACY_MAX_SIZE) ∧ appended p skb p' skb')).
Proof.
  intros Wp Lp Ws Fs Rs Ns Zs. unfold skb_gro_receive, skb_gro_offset.
  destruct (negb _); [by eexists _, _, _; split; [done|left]|].
  destruct (_ || negb (flush skb =? 0)) eqn:E1; [by eexists _, _, _; split; [done|left]|].
  destruct (_ && _) eqn:E2; [by eexists _, _, _; split; [done|left]|].
  apply orb_false_iff in E1 as [_ E1]. apply negb_false_iff, Z.eqb_eq in E1.
  assert (∀ p', len p' = len p + skb_gro_len skb → proto skb ≠ IPPROTO_TCP → len p' < GRO_LEGACY_MAX_SIZE) as Hlen.
  { intros p' -> Hp. apply andb_false_iff in E2 as [E2|E2]; [by apply Z.leb_gt in E2|].
    apply orb_false_iff in E2 as [E2 _]. apply orb_false_iff in E2 as [E2 _]. by apply negb_false_iff, Z.eqb_eq in E2. }
  assert (is_Some (lp_frags p)) as [fs ->].
  { unfold lp_frags. destruct Lp as [Hl _]. destruct (last p) as [|k]; [done|]. apply fmap_is_Some, lookup_lt_is_Some. lia. }
  cbn [mbind option_bind].
  assert (∀ o, (∃ p' skb', o = Some (0, p', skb') ∧ appended p skb p' skb') → ∃ r p' skb', o = Some (r, p', skb') ∧
    ((r ≠ 0 ∧ p' = p ∧ skb' = skb) ∨ (r = 0 ∧ flush skb = 0 ∧ (proto skb ≠ IPPROTO_TCP → len p' < GRO_LEGACY_MAX_SIZE) ∧ appended p skb p' skb')))
    as Hway.
  { intros o (p' & skb' & -> & Ha). eexists _, _, _. split; [done|right]. split_and!; [done|done| |done]. apply Hlen.
    rewrite (ap_len _ _ _ _ Ha). by rewrite payload_len. }
  destruct (Z.leb_spec (skb_headlen skb) (data_offset skb)).
  - apply Hway. destruct (MAX_SKB_FRAGS <? _); [by apply merge_spec|by apply frags_spec].
  - apply Hway. destruct (l_head_frag _); [destruct (MAX_SKB_FRAGS <? _)|]; (by apply merge_spec) || by apply head_spec.
Qed.

(** [skb_gro_receive_list] refuses or puts the packet, without its headers, at the
    end of the list. *)
Record listed (p skb p' skb' : sk_buff) : Prop := {
  ls_list : ∃ x, frag_list p' = frag_list p ++ [x] ∧ contents x = payload skb;
  ls_last : last p' = length (frag_list p');
  ls_wf : skb_wf p';
  ls_count : count p' = u16 (count p + 1);
  ls_frame : frame p' = frame p;
  ls_len : len p' < 65536;
  ls_frags : frags p' = frags p;
  ls_flow : same_flow skb' = true;
  ls_free : free skb' = free skb;
}.

Lemma gro_receive_list_spec p skb :
  skb_wf p → last p = length (frag_list p) → skb_wf skb → 0 <= data_offset skb <= skb_headlen skb →
  ∃ r p' skb', skb_gro_receive_list p skb = Some (r, p', skb') ∧
    ((r ≠ 0 ∧ p' = p ∧ skb' = skb) ∨ (r = 0 ∧ listed p skb p' skb')).
Proof.
  intros Wp Lp Ws Hd. unfold skb_gro_receive_list. destruct (Z.leb_spec 65536 (len p + len skb)); [by eexists _, _, _; split; [done|left]|].
  destruct Ws as [Wl Wh]. unfold __skb_pull, skb_gro_offset. rewrite (proj2 (Z.leb_le _ _)) by lia. cbn [mbind option_bind].
  match goal with |- context [link_last ?y _] => set (x := y) end.
  assert (contents x = payload skb) as Hx.
  { rewrite contents_eq. cbn. unfold payload. rewrite (contents_eq skb), drop_app_le; [done|]. unfold blen in *. lia. }
  assert (len skb - data_offset skb = blen (contents x)) as Hl.
  { rewrite Hx. unfold payload. rewrite blen_drop; [lia|]. rewrite contents_eq, blen_app in Wl. rewrite contents_eq, blen_app.
    pose proof (blen_nonneg (concat (frags skb) ++ concat (contents <$> frag_list skb))). lia. }
  pose proof (link_last_contents p x Lp) as Hc. destruct Wp as [Wpl Wph].
  eexists _, _, _. split; [done|right]. split; [done|]. split; cbn; [|..|done|done].
  - exists x. split; [|done]. by rewrite Lp, firstn_all.
  - rewrite Lp, firstn_all, length_app. cbn. lia.
  - split; [|unfold skb_headlen in *; cbn; lia]. cbn. rewrite contents_eq. cbn. rewrite contents_eq in Hc. cbn in Hc. rewrite Hc, blen_app, Wpl, Hl. done.
  - done.
  - done.
  - unfold blen in *. lia.
  - done.
Qed.
(** ** The linear part *)

(** The first [n] bytes are in the linear part, or there is none and [frag0], the
    first fragment, covers them. *)
Definition pullable (n : Z) (s : sk_buff) : Prop :=
  0 <= n ∧ (n <= blen (head s) ∨
    (head s = [] ∧ frag0_frag s = true ∧ n <= frag0_len s ∧ ∃ f l, frags s = f :: l ∧ frag0_len s <= blen f ∧ frag0_len s <= tailroom s)).

Lemma pullable_reached n s : pullable n s → reached n s.
Proof. intros [? [?|(? & _ & ? & f & l & ? & ? & _)]]; (split; [done|]); [by left|right; exists f, l; split_and!; [done|done|lia]]. Qed.

(** What copying bytes to the linear part does not change. *)
Definition pull_frame (s : sk_buff) : sk_buff := s <| head := [] |> <| tailroom := 0 |> <| data_len := 0 |> <| frags := [] |>.

Record pulled (n : Z) (s s' : sk_buff) : Prop := {
  pl_contents : contents s' = contents s;
  pl_wf : skb_wf s';
  pl_frame : pull_frame s' = pull_frame s;
  pl_head : n <= blen (head s');
}.

Lemma gro_pull_contents s : skb_wf s → pullable (data_offset s) s → ∃ s', gro_try_pull_from_frag0 s = Some s' ∧ pulled (data_offset s) s s'.
Proof.
  intros [Wl Wh] [Hn Hp]. unfold gro_try_pull_from_frag0, skb_gro_offset.
  destruct (Z.ltb_spec 0 (data_offset s - skb_headlen s)) as [Hg|Hg]; cycle 1.
  { exists s. split; [done|]. split; [done|done|done|lia]. }
  destruct Hp as [Hp|(Eh & Ef0 & Hn0 & f & l & Ef & Hf & Ht)]; [lia|]. unfold gro_pull_from_frag0. rewrite Wh, Eh in *. change (blen []) with 0 in *.
  rewrite Z.sub_0_r in *. rewrite Ef, Ef0. rewrite (proj2 (Z.ltb_ge _ _)) by lia. cbn. rewrite (proj2 (Z.leb_le _ _)) by lia. cbn.
  rewrite (proj2 (Z.ltb_ge _ _)) by lia. eexists. split; [done|]. set (n := Z.to_nat (data_offset s)).
  assert (take n f ++ concat (match drop n f with [] => l | _ => drop n f :: l end) = f ++ concat l) as Hc.
  { rewrite <- (take_drop n f) at 3. rewrite <- app_assoc. f_equal. by destruct (drop n f). }
  assert (blen (take n f) = data_offset s) as Hl by (unfold blen in *; rewrite length_take; lia).
  assert (∀ x, contents x = head x ++ concat (frags x) ++ concat (contents <$> frag_list x)) as Hx by apply contents_eq.
  split.
  - rewrite !Hx. cbn. rewrite Eh, Ef. cbn. rewrite app_assoc. fold n. by rewrite Hc.
  - split; [|unfold skb_headlen in *; cbn; rewrite Eh; cbn; fold n; lia]. cbn. rewrite Wl, !Hx. cbn. rewrite Eh, Ef. cbn. rewrite app_assoc. fold n. by rewrite Hc.
  - done.
  - cbn. rewrite Eh. cbn. fold n. lia.
Qed.
End Receive.
