(* ===== verification/GroUdp.v ===== *)
(** * Receive offload of IPv4 and UDP (net/ipv4/af_inet.c, net/ipv4/udp_offload.c)

    The callbacks of GRO for UDP datagrams over IPv4: [inet_gro_receive] and
    [udp4_gro_receive] find the held packet of the same addresses and ports and
    append the datagram to it, [inet_gro_complete] and [udp4_gro_complete] write the
    lengths of the whole into its headers.  Headers are read as bytes.

    Access to the headers ([skb_gro_header], [pskb_may_pull]), checksum arithmetic,
    the comparison of the remaining header fields ([gro_receive_network_flush]) and
    the look-up of sockets are parameters. *)
From S2P Require Import Prelude Gro.

Definition ENOSYS : Z := 38.
Definition IPPROTO_UDP : Z := 17.
Definition ETH_P_IP : Z := 2048.
Definition IP_DF : Z := 16384.
Definition IP_MF : Z := 8192.
Definition IP_OFFSET : Z := 8191.
Definition UDP_GRO_CNT_MAX : Z := 64.

(** Fields of the headers, from their bytes; addresses and ports are compared as
    they are in memory. *)
Definition be (off n : nat) (h : bytes) : Z := be_combine (slice off n h).
Definition ip_first (h : bytes) : Z := be 0 1 h.
Definition ip_totlen (h : bytes) : Z := be 2 2 h.
Definition ip_id (h : bytes) : Z := be 4 2 h.
Definition ip_frag_off (h : bytes) : Z := be 6 2 h.
Definition ip_protocol (h : bytes) : Z := be 9 1 h.
Definition ip_check (h : bytes) : Z := be 10 2 h.
Definition ip_saddr (h : bytes) : bytes := slice 12 4 h.
Definition ip_daddr (h : bytes) : bytes := slice 16 4 h.
Definition udp_source (h : bytes) : Z := be 0 2 h.
Definition udp_dest (h : bytes) : Z := be 2 2 h.
Definition udp_ports (h : bytes) : bytes := slice 0 4 h.
Definition udp_len (h : bytes) : Z := be 4 2 h.
Definition udp_check (h : bytes) : Z := be 6 2 h.

(** Reading and writing headers in the linear part. *)
Definition head_bytes (s : sk_buff) (off n : Z) : option bytes :=
  if (0 <=? off) && (off + n <=? blen (head s)) then Some (slice (Z.to_nat off) (Z.to_nat n) (head s)) else None.
Definition put16 (off v : Z) (s : sk_buff) : option sk_buff :=
  if (0 <=? off) && (off + 2 <=? blen (head s)) then
    Some (s <| head ::= fun h => take (Z.to_nat off) h ++ be_split 2 v ++ drop (Z.to_nat off + 2) h |>)
  else None.

(** The checksum state of a packet. *)
Record csum_state := mk_csum { cs_summed : checksum; cs_level : Z; cs_valid : bool; cs_cnt : Z }.
Definition csum_of (s : sk_buff) : csum_state := mk_csum (ip_summed s) (csum_level s) (csum_valid s) (csum_cnt s).
Definition set_csum (c : csum_state) (s : sk_buff) : sk_buff :=
  s <| ip_summed := cs_summed c |> <| csum_level := cs_level c |> <| csum_valid := cs_valid c |> <| csum_cnt := cs_cnt c |>.

Abbreviation callback := (list sk_buff -> sk_buff -> option (list sk_buff * sk_buff * completion)).

(** [struct udp_sock] as GRO sees it. *)
Record sock := mk_sock {
  sk_num : Z;
  sk_gro_enabled : bool;
  sk_gro_receive : option callback;
  sk_gro_complete : option (sk_buff -> Z -> option (Z * sk_buff));
}.

Class GroInet := {
  skb_gro_header : sk_buff -> Z -> Z -> option (sk_buff * bytes);
  pskb_may_pull : sk_buff -> Z -> option sk_buff;
  ip_fast_csum : bytes -> Z;
  csum_replace2 : Z -> Z -> Z -> Z;
  iph_totlen : Z -> Z;
  udp_v4_check : Z -> bytes -> bytes -> Z;
  gro_receive_network_flush : sk_buff -> sk_buff -> bool;
  checksum_validate : sk_buff -> Z -> option csum_state;
  checksum_try_convert : sk_buff -> csum_state;
  incr_checksum_unnecessary : csum_state -> csum_state;
  udp_encap_needed : bool;
  udp_tunnel_sk : nat -> option sock;
  __udp4_lib_lookup : nat -> bytes -> Z -> bytes -> Z -> option sock;
  udp4_lib_lookup_skb : sk_buff -> Z -> Z -> option sock;
  udp_tunnel_gro_rcv : sock -> callback;
  NETIF_F_GRO_FRAGLIST : nat -> bool;
  NETIF_F_GRO_UDP_FWD : nat -> bool;
  GRO_RECURSION_LIMIT : Z;
}.

Section Udp.
Context `{GroEnv} `{GroInet}.

(** [skb_gro_flush_final]: a packet that may not be held is marked. *)
Definition skb_gro_flush_final (s : sk_buff) (pp : completion) (f : Z) : sk_buff :=
  match pp with InProgress => s | _ => s <| flush ::= fun x => Z.lor x (if f =? 0 then 0 else 1) |> end.

(** [network_offsets[i]]: of the outer or the inner header. *)
Definition network_offsets (inner : bool) (s : sk_buff) : Z := if inner then inner_network_offset s else network_offset s.
Definition set_network_offsets (off : Z) (s : sk_buff) : sk_buff :=
  if encap_mark s then s <| inner_network_offset := off |> else s <| network_offset := off |>.

(** [gro_recursion_inc_test] and the call behind it. *)
Definition call_gro_receive (cb : callback) : callback := fun l s =>
  let s := s <| recursion_counter ::= fun c => c + 1 |> in
  if recursion_counter s =? GRO_RECURSION_LIMIT then Some (l, s <| flush ::= Z.lor 1 |>, NoPP) else cb l s.

Definition udp_gro_udphdr (s : sk_buff) : option (sk_buff * bytes) := skb_gro_header s (skb_gro_offset s + 8) (skb_gro_offset s).

(** ** UDP *)

(** The held packet [p] has the ports of the datagram. *)
Definition segment_match (p skb : sk_buff) (ulen ulen2 : Z) : option (sk_buff * sk_buff * bool) :=
  if negb (Bool.eqb (is_flist skb) (is_flist p)) then Some (p, skb <| flush := 1 |>, true)
  else
    let finish ret p skb pp :=
      Some (p, skb, pp || negb (ret =? 0) || negb (ulen =? ulen2) || (UDP_GRO_CNT_MAX <=? count p)) in
    if (ulen2 <? ulen) || gro_receive_network_flush skb p then finish 0 p skb true
    else if is_flist skb then
      match pskb_may_pull skb (skb_gro_offset skb) with
      | None => Some (p, skb <| flush := 1 |>, false)
      | Some skb =>
        if negb (bool_decide (ip_summed skb = ip_summed p)) || negb (csum_level skb =? csum_level p) then Some (p, skb <| flush := 1 |>, false)
        else '(ret, p, skb) ← skb_gro_receive_list p (skb <| network_header := network_offsets (encap_mark skb) skb |>); finish ret p skb false
      end
    else '(ret, p, skb) ← skb_gro_receive p skb; finish ret p skb false.

Fixpoint segment_loop (i : nat) (l : list sk_buff) (skb : sk_buff) (uh : bytes) (ulen : Z) : option (list sk_buff * sk_buff * completion) :=
  match l with
  | [] => Some ([], skb, NoPP)
  | p :: rest =>
    let continue p := '(rest, skb, pp) ← segment_loop (S i) rest skb uh ulen; Some (p :: rest, skb, pp) in
    if negb (same_flow p) then continue p
    else
      uh2 ← head_bytes p (transport_header p) 8;
      if bool_decide (udp_ports uh ≠ udp_ports uh2) then continue (p <| same_flow := false |>)
      else
        '(p, skb, pp) ← segment_match p skb ulen (udp_len uh2);
        Some (p :: rest, skb, if pp : bool then PP i else NoPP)
  end.

Definition udp_gro_receive_segment : callback := fun l skb =>
  '(skb, uh) ← udp_gro_udphdr skb;
  if udp_check uh =? 0 then Some (l, skb <| flush := 1 |>, NoPP)
  else
    let ulen := udp_len uh in
    if (ulen <=? 8) || negb (ulen =? skb_gro_len skb) then Some (l, skb <| flush := 1 |>, NoPP)
    else segment_loop 0 l (skb_gro_pull 8 skb) uh ulen.

(** The packets of other flows, inside a tunnel. *)
Definition tunnel_match (off : Z) (uh : bytes) (p : sk_buff) : option sk_buff :=
  if negb (same_flow p) then Some p
  else
    uh2 ← head_bytes p off 8;
    Some (if bool_decide (udp_ports uh ≠ udp_ports uh2) || xorb (udp_check uh =? 0) (udp_check uh2 =? 0)
          then p <| same_flow := false |> else p).

Definition udp_gro_receive (uh : bytes) (sk : option sock) : callback := fun l skb =>
  let skb := skb <| is_flist := false |> in
  let out pp l skb f := Some (l, skb_gro_flush_final skb pp f, pp) in
  match sk ≫= sk_gro_receive, sk with
  | Some _, Some sk =>
    if encap_mark skb
       || (negb (udp_check uh =? 0) && negb (bool_decide (ip_summed skb = CHECKSUM_PARTIAL)) && (csum_cnt skb =? 0)
           && negb (csum_valid skb)) then out NoPP l skb 1
    else
      let off := skb_gro_offset skb in
      l ← mapM (tunnel_match off uh) l;
      '(l, skb, pp) ← udp_tunnel_gro_rcv sk l (skb_gro_pull 8 (skb <| encap_mark := true |>));
      out pp l skb 0
  | _, _ =>
    if encapsulation skb then out NoPP l skb 1
    else
      let skb := if NETIF_F_GRO_FRAGLIST (l_dev (meta skb))
                 then skb <| is_flist := match sk with Some sk => negb (sk_gro_enabled sk) | None => true end |> else skb in
      if match sk with Some sk => sk_gro_enabled sk | None => NETIF_F_GRO_UDP_FWD (l_dev (meta skb)) end || is_flist skb
      then call_gro_receive udp_gro_receive_segment l skb
      else out NoPP l skb 1
  end.

Definition udp4_gro_lookup_skb (skb : sk_buff) (sport dport : Z) : option sock :=
  let iph := slice (Z.to_nat (network_offsets (encap_mark skb) skb)) 20 (contents skb) in
  match udp_tunnel_sk (l_dev (meta skb)) with
  | Some sk => if dport =? sk_num sk then Some sk
               else __udp4_lib_lookup (l_dev (meta skb)) (ip_saddr iph) sport (ip_daddr iph) dport
  | None => __udp4_lib_lookup (l_dev (meta skb)) (ip_saddr iph) sport (ip_daddr iph) dport
  end.

Definition udp4_gro_receive : callback := fun l skb =>
  let flush_it skb := Some (l, skb <| flush := 1 |>, NoPP) in
  match udp_gro_udphdr skb with
  | None => flush_it skb
  | Some (skb, uh) =>
    let go skb :=
      let sk := if udp_encap_needed then udp4_gro_lookup_skb skb (udp_source uh) (udp_dest uh) else None in
      udp_gro_receive uh sk l skb in
    if negb (flush skb =? 0) then go skb
    else
      match checksum_validate skb (udp_check uh) with
      | None => flush_it skb
      | Some c =>
        let skb := set_csum c skb in
        go (if negb (udp_check uh =? 0) then set_csum (checksum_try_convert skb) skb else skb)
      end
  end.

Definition udp_gro_complete_segment (skb : sk_buff) : sk_buff :=
  let skb := skb <| csum_start := transport_header skb |> <| ip_summed := CHECKSUM_PARTIAL |> <| gso_segs := count skb |>
                 <| gso_type ::= cons SKB_GSO_UDP_L4 |> in
  if encapsulation skb then skb <| inner_transport_header := transport_header skb |> else skb.

Definition udp_gro_complete (skb : sk_buff) (nhoff : Z) : option (Z * sk_buff) :=
  skb ← put16 (nhoff + 4) (len skb - nhoff) skb;
  uh ← head_bytes skb nhoff 8;
  let sk := udp4_lib_lookup_skb skb (udp_source uh) (udp_dest uh) in
  '(err, skb) ←
    match sk ≫= sk_gro_complete with
    | Some f =>
      f (skb <| gso_type := [if udp_check uh =? 0 then SKB_GSO_UDP_TUNNEL else SKB_GSO_UDP_TUNNEL_CSUM] |>
             <| encap_mark := false |> <| encapsulation := true |>) (nhoff + 8)
    | None => Some (0, udp_gro_complete_segment skb)
    end;
  Some (err, if l_remcsum_offload (meta skb) then skb <| gso_type ::= cons SKB_GSO_TUNNEL_REMCSUM |> else skb).

Definition udp4_gro_complete (skb : sk_buff) (nhoff : Z) : option (Z * sk_buff) :=
  iph ← head_bytes skb (network_offsets (encapsulation skb) skb) 20;
  if is_flist skb && negb (encap_mark skb) then
    skb ← put16 (nhoff + 4) (len skb - nhoff) skb;
    let skb := skb <| gso_type ::= fun t => SKB_GSO_FRAGLIST :: SKB_GSO_UDP_L4 :: t |> <| gso_segs := count skb |> in
    Some (0, set_csum (incr_checksum_unnecessary (csum_of skb)) skb)
  else
    uh ← head_bytes skb nhoff 8;
    skb ← if negb (udp_check uh =? 0)
          then put16 (nhoff + 6) (u16 (Z.lnot (udp_v4_check (len skb - nhoff) (ip_saddr iph) (ip_daddr iph)))) skb
          else Some skb;
    udp_gro_complete skb nhoff.

(** ** IPv4 *)

Definition ip_is_fragment (h : bytes) : bool := negb (Z.land (ip_frag_off h) (Z.lor IP_MF IP_OFFSET) =? 0).

Context (inet_offloads : Z -> option offload_callbacks).

(** The held packets with other addresses are not of the flow. *)
Definition inet_match (off : Z) (iph : bytes) (p : sk_buff) : option sk_buff :=
  if negb (same_flow p) then Some p
  else
    iph2 ← head_bytes p off 20;
    Some (if negb (ip_protocol iph =? ip_protocol iph2) || bool_decide (ip_saddr iph ≠ ip_saddr iph2) || bool_decide (ip_daddr iph ≠ ip_daddr iph2)
          then p <| same_flow := false |> else p).

(** [flush]: the length of the packet is not that of its header, or a bit other
    than "don't fragment" is set. *)
Definition inet_flush (iph : bytes) (n : Z) : Z :=
  u16 (Z.lor (Z.lxor (be 0 4 iph) n) (Z.ldiff (be 4 4 iph) IP_DF)).

(** The headers are checked: the control block for the next layer. *)
Definition inet_accept (iph : bytes) (f : Z) (skb : sk_buff) : sk_buff :=
  let off := skb_gro_offset skb in
  let skb := skb <| proto := ip_protocol iph |> <| flush ::= fun x => Z.lor x f |> in
  let skb := skb_gro_pull 20 (set_network_offsets off skb) in
  skb <| transport_header := skb_gro_offset skb |>.

Definition inet_gro_receive : callback := fun l skb =>
  let off := skb_gro_offset skb in
  let out l skb pp f := Some (l, skb_gro_flush_final skb pp f, pp) in
  match skb_gro_header skb (off + 20) off with
  | None => out l skb NoPP 1
  | Some (skb, iph) =>
    match inet_offloads (ip_protocol iph) ≫= gro_receive with
    | None => out l skb NoPP 1
    | Some rcv =>
      if negb (ip_first iph =? 69) then out l skb NoPP 1
      else if ip_is_fragment iph then out l skb NoPP 1
      else if negb (ip_fast_csum iph =? 0) then out l skb NoPP 1
      else
        let f := inet_flush iph (skb_gro_len skb) in
        l ← mapM (inet_match off iph) l;
        '(l, skb, pp) ← call_gro_receive rcv l (inet_accept iph f skb);
        out l skb pp f
    end
  end.

Definition inet_gro_complete (skb : sk_buff) (nhoff : Z) : option (Z * sk_buff) :=
  iph ← head_bytes skb nhoff 20;
  let skb := if encapsulation skb then skb <| inner_protocol := ETH_P_IP |> <| inner_network_header := nhoff |> else skb in
  skb ← put16 (nhoff + 2) (iph_totlen (len skb - nhoff)) skb;
  skb ← put16 (nhoff + 10) (csum_replace2 (ip_check iph) (ip_totlen iph) (iph_totlen (len skb - nhoff))) skb;
  match inet_offloads (ip_protocol iph) ≫= gro_complete_cb with
  | None => Some (- ENOSYS, skb)
  | Some f => f skb (nhoff + 20)
  end.

(** IP in IP: one more header, once. *)
Definition ipip_gro_receive : callback := fun l skb =>
  if encap_mark skb then Some (l, skb <| flush := 1 |>, NoPP) else inet_gro_receive l (skb <| encap_mark := true |>).
End Udp.

Section Offloads.
Context `{GroEnv} `{GroInet}.

(** [udpv4_offload_init] and [ip_packet_offload]: the table of protocols over IPv4
    with UDP alone, and the entry of IPv4. *)
Definition udpv4_offload : offload_callbacks := mk_callbacks (Some udp4_gro_receive) (Some udp4_gro_complete).
Definition inet_offloads_udp (proto : Z) : option offload_callbacks := if proto =? IPPROTO_UDP then Some udpv4_offload else None.
Definition ip_packet_offload : packet_offload :=
  mk_offload ETH_P_IP 0 (mk_callbacks (Some (inet_gro_receive inet_offloads_udp)) (Some (inet_gro_complete inet_offloads_udp))).
End Offloads.
