(* ===== verification/GroProofs.v ===== *)
(** * What the UDP callbacks do to the datagrams

    A packet stands for the datagrams in it: one, or the pieces of [gso_size] bytes
    of a merged packet, or the members of a fragment list ([segs], [out_segs]).  The
    callbacks of GroUdp.v either leave the held packets as they are or append the
    datagram to one of them, and completing a packet does not change what it stands
    for. *)
From S2P Require Import Prelude Gro GroUdp.

(** ** Pieces *)

Fixpoint chunks_of (fuel n : nat) (l : bytes) : list bytes :=
  match fuel, l with
  | S fuel, _ :: _ => take n l :: chunks_of fuel n (drop n l)
  | _, _ => []
  end.

(** The pieces of [n] bytes; the last one may be shorter. *)
Definition chunks (n : Z) (l : bytes) : list bytes := chunks_of (length l) (Z.to_nat n) l.

Lemma chunks_fuel fuel n l : (0 < n)%nat → (length l <= fuel)%nat → chunks_of fuel n l = chunks_of (length l) n l.
Proof.
  intros Hn. revert l. induction fuel as [fuel IH] using lt_wf_ind. intros l Hl.
  destruct l as [|x l]; [by destruct fuel|]. destruct fuel as [|fuel]; [cbn in Hl; lia|].
  change (length (x :: l)) with (S (length l)) in *. cbn [chunks_of]. f_equal.
  rewrite (IH fuel) by (rewrite ?length_drop; cbn; lia).
  destruct (decide (fuel = length l)) as [->|]; [|rewrite (IH (length l)) by (rewrite ?length_drop; cbn; lia)].
  all: try (rewrite <- (IH (length l)) by (rewrite ?length_drop; cbn; lia)); done.
Qed.

Lemma chunks_step n l : 0 < n → l ≠ [] → chunks n l = take (Z.to_nat n) l :: chunks n (drop (Z.to_nat n) l).
Proof.
  intros Hn Hl. unfold chunks. destruct l as [|x l]; [done|]. change (length (x :: l)) with (S (length l)). cbn [chunks_of]. f_equal.
  apply chunks_fuel; [lia|]. rewrite length_drop. cbn. lia.
Qed.

Lemma chunks_one n l : 0 < blen l <= n → chunks n l = [l].
Proof.
  unfold blen. intros Hl. rewrite chunks_step; [|lia|intros ->; cbn in Hl; lia]. by rewrite take_ge, drop_ge by lia.
Qed.

Lemma chunks_app (k : nat) n l r : 0 < n → blen l = Z.of_nat k * n → chunks n (l ++ r) = chunks n l ++ chunks n r.
Proof.
  intros Hn. revert l. induction k as [|k IH]; intros l Hl; unfold blen in *.
  - by destruct l.
  - assert (l ≠ []) by (intros ->; cbn in Hl; lia). rewrite (chunks_step n (l ++ r)), (chunks_step n l) by (try done; by destruct l).
    rewrite take_app_le, drop_app_le by lia. cbn. f_equal. apply IH. rewrite length_drop. lia.
Qed.

(** ** The datagrams of a packet *)

Inductive datagram := Dgram (addrs ports data : bytes) | Raw (b : bytes).

(** An IPv4 header without options in front of a UDP header. *)
Definition udp_shape (b : bytes) : bool := (28 <=? blen b) && (ip_first b =? 69) && (ip_protocol b =? IPPROTO_UDP).

Definition addrs (b : bytes) : bytes := slice 12 8 b.
Definition ports (b : bytes) : bytes := slice 20 4 b.
Definition one (b : bytes) : datagram := if udp_shape b then Dgram (addrs b) (ports b) (drop 28 b) else Raw b.

Definition own_part (s : sk_buff) : bytes := drop 28 (head s ++ concat (frags s)).

(** The datagrams of a held packet. *)
Definition segs (p : sk_buff) : list datagram :=
  Dgram (addrs (head p)) (ports (head p)) <$>
    (if is_flist p then own_part p :: (contents <$> frag_list p) else chunks (gso_size p) (drop 28 (contents p))).

(** The datagrams of a packet that was passed up, from what the layers above see. *)
Definition out_segs (s : sk_buff) : list datagram :=
  if gso_size s =? 0 then [one (contents s)]
  else
    Dgram (addrs (head s)) (ports (head s)) <$>
      (if decide (SKB_GSO_FRAGLIST ∈ gso_type s) then own_part s :: (contents <$> frag_list s)
       else chunks (gso_size s) (drop 28 (contents s))).

(** ** Held packets *)

(** A packet in a bucket.  All its datagrams have [gso_size] bytes, except that the
    last one of a packet about to be completed ([full] false) may be shorter. *)
Record hold_ok (full : bool) (p : sk_buff) : Prop := {
  ho_wf : skb_wf p;
  ho_last : last p = length (frag_list p);
  ho_flat : is_flist p = false → last_ok p;
  ho_shape : udp_shape (head p) = true;
  ho_offset : data_offset p = 28;
  ho_transport : transport_header p = 20;
  ho_network : network_offset p = 0;
  ho_type : l_protocol (meta p) = ETH_P_IP;
  ho_plain : (gso_type p, encap_mark p) = ([], false);
  ho_ulen : udp_len (slice 20 8 (head p)) = 8 + gso_size p;
  ho_size : 0 < gso_size p;
  ho_count : 1 <= count p <= UDP_GRO_CNT_MAX ∧ (full = true → count p < UDP_GRO_CNT_MAX);
  ho_bound : count p ≠ 1 → len p < 65536;
  ho_own : is_flist p = true → blen (own_part p) = gso_size p ∧ count p = 1 + Z.of_nat (length (frag_list p));
  ho_full : is_flist p = false →
    ∃ l r, drop 28 (contents p) = l ++ r ∧ blen l = (count p - 1) * gso_size p ∧ 0 < blen r <= gso_size p ∧
           (full = true → blen r = gso_size p);
  ho_single : count p = 1 → frag_list p = [] ∧ blen (drop 28 (contents p)) = gso_size p;
}.

(** Flags of the control block that do not matter for the datagrams. *)
Definition like (p p' : sk_buff) : Prop := p' <| same_flow := false |> = p <| same_flow := false |>.

Lemma like_eq p p' : like p p' → p' = p <| same_flow := same_flow p' |>.
Proof. unfold like. intros E. destruct p, p'. cbn in *. by simplify_eq. Qed.

Lemma like_contents p p' : like p p' → contents p' = contents p.
Proof. intros ->%like_eq. by apply contents_ext. Qed.

Lemma like_segs p p' : like p p' → segs p' = segs p.
Proof. intros E. unfold segs. rewrite (like_contents _ _ E). by rewrite (like_eq _ _ E). Qed.

Lemma like_ok full p p' : like p p' → hold_ok full p → hold_ok full p'.
Proof.
  intros E Hp. pose proof (like_contents _ _ E) as Hc. apply like_eq in E. revert Hc. rewrite E. intros Hc.
  destruct Hp as [[? ?] **]. split; rewrite ?Hc; try done. by split; rewrite ?Hc.
Qed.

(** ** Datagrams on their way *)

(** The packet is the same datagram, perhaps with more of it in the linear part. *)
Record still (s s' : sk_buff) : Prop := {
  st_contents : contents s' = contents s;
  st_wf : skb_wf s';
  st_pull : pullable (data_offset s') s';
  st_same : (gso_size s', free s', meta s', same_flow s') = (gso_size s, free s, meta s, same_flow s);
}.

(** A datagram whose headers passed all checks; [data_offset] is behind them. *)
Record ready (s : sk_buff) : Prop := {
  rd_wf : skb_wf s;
  rd_flat : frag_list s = [];
  rd_pull : pullable 28 s;
  rd_offset : data_offset s = 28;
  rd_transport : transport_header s = 20;
  rd_network : network_offset s = 0;
  rd_type : l_protocol (meta s) = ETH_P_IP;
  rd_plain : (gso_type s, encap_mark s, gso_size s, free s, same_flow s, count s) = ([], false, 0, 0, false, 1);
  rd_shape : udp_shape (contents s) = true;
  rd_proto : proto s = IPPROTO_UDP;
  rd_ulen : udp_len (slice 20 8 (contents s)) = len s - 20;
  rd_data : 28 < len s;
}.

Lemma slice_app_l off n l r : (off + n <= length l)%nat → slice off n (l ++ r) = slice off n l.
Proof. intros Hl. unfold slice. rewrite drop_app_le, take_app_le; [done|rewrite length_drop; lia|lia]. Qed.

Lemma head_slice s off n : (off + n <= length (head s))%nat → slice off n (contents s) = slice off n (head s).
Proof. intros Hl. rewrite contents_eq. by apply slice_app_l. Qed.

Lemma head_shape s : 28 <= blen (head s) → udp_shape (contents s) = udp_shape (head s).
Proof.
  intros Hh. unfold udp_shape, ip_first, ip_protocol, be. rewrite !head_slice by (unfold blen in *; lia).
  replace (28 <=? blen (contents s)) with true; [by replace (28 <=? blen (head s)) with true by (symmetry; by apply Z.leb_le)|].
  symmetry. apply Z.leb_le. rewrite contents_eq, blen_app. pose proof (blen_nonneg (concat (frags s) ++ concat (contents <$> frag_list s))). lia.
Qed.

Lemma shape_len b : udp_shape b = true → 28 <= blen b.
Proof. unfold udp_shape. rewrite !andb_true_iff, Z.leb_le. tauto. Qed.

Lemma own_flat s : frag_list s = [] → own_part s = drop 28 (contents s).
Proof. intros El. unfold own_part. by rewrite contents_eq, El, app_nil_r. Qed.

(** A field that an equation of frames fixes. *)
Ltac framed E f := let F := fresh "F" in pose proof (f_equal f E) as F; cbn in F.

Lemma single_segs h : frag_list h = [] → blen (drop 28 (contents h)) = gso_size h → 0 < gso_size h → 28 <= blen (head h) →
  udp_shape (head h) = true → segs h = [one (contents h)].
Proof.
  intros El Eg Hg Hh Sh. unfold segs, one. rewrite head_shape, Sh by done. unfold addrs, ports. rewrite !head_slice by (unfold blen in *; lia).
  destruct (is_flist h); [by rewrite own_flat, El by done|]. rewrite chunks_one by lia. done.
Qed.

(** Holding a datagram. *)
Definition as_held (now : Z) (s : sk_buff) : sk_buff :=
  let s := s <| age := now |> <| last := 0%nat |> in if skb_is_gso s then s else s <| gso_size := skb_gro_len s |>.

Lemma hold_ready now s : ready s → ∃ s', gro_try_pull_from_frag0 s = Some s' ∧ hold_ok true (as_held now s') ∧
  segs (as_held now s') = [one (contents s)] ∧ contents (as_held now s') = contents s ∧ age (as_held now s') = now ∧ meta (as_held now s') = meta s.
Proof.
  intros [W F P Eo Et En Ety Ep Sh Epr Eu Ed]. destruct (gro_pull_contents s W) as (s' & -> & [Pc [Pw Pw'] Pf Ph]); [by rewrite Eo|].
  exists s'. split; [done|]. injection Ep as E1 E2 E3 E4 E5 E6. rewrite Eo in Ph.
  framed Pf frag_list. framed Pf data_offset. framed Pf gso_size. framed Pf len. framed Pf count. framed Pf meta. framed Pf encap_mark.
  framed Pf gso_type. framed Pf transport_header. framed Pf network_offset.
  assert (as_held now s' = s' <| age := now |> <| last := 0%nat |> <| gso_size := len s' - data_offset s' |>) as ->.
  { unfold as_held, skb_is_gso. cbn. by replace (gso_size s') with 0 by congruence. }
  match goal with |- hold_ok _ ?x ∧ _ => set (h := x) end.
  assert (contents h = contents s) as Hc by (rewrite <- Pc; by apply contents_ext).
  assert (gso_size h = len s - 28) as Hg by (cbn; unfold skb_gro_len; cbn; congruence).
  assert (blen (drop 28 (contents h)) = gso_size h) as Hb.
  { rewrite Hc, Hg. destruct W as [Wl _]. change 28%nat with (Z.to_nat 28). rewrite blen_drop; lia. }
  assert (udp_shape (head h) = true) as Hs by (rewrite <- head_shape by done; by rewrite Hc).
  assert (frag_list h = []) as Hf by (cbn; congruence).
  split_and!; [|rewrite <- Hc; apply single_segs; try done; lia|done|done|cbn; congruence].
  split; try (cbn; congruence); [| | |done|..].
  - split; [rewrite Hc, <- Pc; done|done].
  - cbn. rewrite F0, F. done.
  - intros _. split; [cbn; by rewrite F0, F|done].
  - rewrite <- head_slice by (cbn; unfold blen in Ph; lia). rewrite Hc, Hg. lia.
  - lia.
  - cbn. rewrite F4, E6. unfold UDP_GRO_CNT_MAX. lia.
  - intros _. rewrite own_flat by done. split; [done|]. cbn. by rewrite F4, E6, F0, F.
  - intros _. exists [], (drop 28 (contents h)). cbn [app]. split; [done|]. rewrite Hb. split; [cbn; rewrite F4, E6; done|lia].
  - done.
Qed.

(** ** The laws of the header accessors *)

(** A header that is returned is that of the packet, whose bytes may have moved to
    the linear part; one that is within reach is returned and nothing moves. *)
Class GroInetOk `{GroInet} : Prop := {
  header_spec s hlen off s' h : skb_wf s → 0 <= off <= hlen → skb_gro_header s hlen off = Some (s', h) →
    contents s' = contents s ∧ skb_wf s' ∧ pull_frame s' = pull_frame s ∧ pullable hlen s' ∧
    h = slice (Z.to_nat off) (Z.to_nat (hlen - off)) (contents s);
  header_ready s hlen off : skb_wf s → 0 <= off <= hlen → pullable hlen s →
    skb_gro_header s hlen off = Some (s, slice (Z.to_nat off) (Z.to_nat (hlen - off)) (contents s));
  may_pull_spec s n s' : skb_wf s → pskb_may_pull s n = Some s' → pulled n s s';
  recursion_limit : 2 < GRO_RECURSION_LIMIT;
}.

(** No socket belongs to a tunnel that has callbacks of its own. *)
Class NoTunnel `{GroInet} : Prop := {
  nt_tunnel d k : udp_tunnel_sk d = Some k → sk_gro_receive k = None;
  nt_lookup d a x b y k : __udp4_lib_lookup d a x b y = Some k → sk_gro_receive k = None;
  nt_complete s x y k : udp4_lib_lookup_skb s x y = Some k → sk_gro_complete k = None;
}.

Section Match.
Context `{GroEnv} `{GroInetOk}.

Lemma full_len p : hold_ok true p → is_flist p = false → blen (drop 28 (contents p)) = count p * gso_size p.
Proof. intros Hp Hf. destruct (ho_full _ _ Hp Hf) as (l & r & -> & Hl & _ & Hr). rewrite blen_app, Hl, Hr by done. lia. Qed.

Lemma held_long full p : hold_ok full p → 28 <= blen (head p).
Proof. intros Hp. by apply shape_len, (ho_shape _ _ Hp). Qed.

Lemma contents_long p : 28 <= blen (head p) → 28 <= blen (contents p).
Proof. intros Hh. rewrite contents_eq, blen_app. pose proof (blen_nonneg (concat (frags p) ++ concat (contents <$> frag_list p))). lia. Qed.

(** The datagram of a packet of the flow of [p]. *)
Lemma one_flow p s : udp_shape (contents s) = true → addrs (contents s) = addrs (head p) → ports (contents s) = ports (head p) →
  one (contents s) = Dgram (addrs (head p)) (ports (head p)) (drop 28 (contents s)).
Proof. intros Sh Ea Ep. unfold one. by rewrite Sh, Ea, Ep. Qed.

Lemma merged_ok p s p' (b : bool) : hold_ok true p → ready s → is_flist p = false → merged p p' (payload s) 1 → len p' < 65536 →
  len s - 28 <= gso_size p → (b = false → len s - 28 = gso_size p ∧ count p' < UDP_GRO_CNT_MAX) →
  addrs (contents s) = addrs (head p) → ports (contents s) = ports (head p) →
  hold_ok (negb b) p' ∧ segs p' = segs p ++ [one (contents s)].
Proof.
  intros Hp Hs Hfl [Mc Mw Ml Mn Mf] Hl Hd Hb Ea Ep. pose proof (held_long _ _ Hp) as Hh. pose proof (contents_long _ Hh) as Hc.
  pose proof (full_len _ Hp Hfl) as Hfull. pose proof (ho_count _ _ Hp) as [Hn1 Hn2]. specialize (Hn2 eq_refl).
  pose proof (ho_size _ _ Hp) as Hg. pose proof (rd_data _ Hs) as Hdata. destruct (rd_wf _ Hs) as [Wl _].
  assert (count p' = count p + 1) as Ec by (rewrite Mn; apply wrap_id; unfold fits, UDP_GRO_CNT_MAX in *; lia).
  assert (payload s = drop 28 (contents s)) as Epay by (unfold payload; by rewrite (rd_offset _ Hs)).
  assert (blen (payload s) = len s - 28) as Elen.
  { rewrite Epay. change 28%nat with (Z.to_nat 28). rewrite blen_drop; lia. }
  assert (drop 28 (contents p') = drop 28 (contents p) ++ payload s) as Edrop.
  { rewrite Mc, drop_app_le; [done|]. unfold blen in Hc. lia. }
  framed Mf head. framed Mf gso_size. framed Mf is_flist. framed Mf meta. framed Mf data_offset. framed Mf transport_header.
  framed Mf network_offset. framed Mf gso_type. framed Mf encap_mark.
  split.
  - destruct Hp. split; try congruence.
    + apply Ml.
    + rewrite Ec. split; [lia|]. intros Eb. destruct b; [done|]. destruct (Hb eq_refl). lia.
    + intros _. exists (drop 28 (contents p)), (payload s). rewrite Edrop, Ec, F0, Elen. split; [done|]. split; [rewrite Hfull; lia|].
      split; [lia|]. intros Eb. destruct b; [done|]. by destruct (Hb eq_refl).
    + lia.
  - unfold segs. rewrite F, F0, F1, Hfl, Edrop, (chunks_app (Z.to_nat (count p))) by lia. rewrite fmap_app, (chunks_one _ (payload s)) by lia.
    cbn. by rewrite (one_flow p s (rd_shape _ Hs)), Epay.
Qed.
Lemma listed_ok p s p' s' (b : bool) : hold_ok true p → udp_shape (contents s) = true → data_offset s = 28 → is_flist p = true → listed p s p' s' →
  (b = false → count p' < UDP_GRO_CNT_MAX) → addrs (contents s) = addrs (head p) → ports (contents s) = ports (head p) →
  hold_ok (negb b) p' ∧ segs p' = segs p ++ [one (contents s)].
Proof.
  intros Hp Sh Eo Hfl [(x & Mx & Mc) Ml Mw Mn Mf Mlen Mfr _ _] Hb Ea Ep. pose proof (held_long _ _ Hp) as Hh.
  pose proof (ho_count _ _ Hp) as [Hn1 Hn2]. specialize (Hn2 eq_refl). pose proof (ho_own _ _ Hp Hfl) as [Ho Hc].
  assert (count p' = count p + 1) as Ec by (rewrite Mn; apply wrap_id; unfold fits, UDP_GRO_CNT_MAX in *; lia).
  framed Mf head. framed Mf gso_size. framed Mf is_flist. framed Mf meta. framed Mf data_offset. framed Mf transport_header.
  framed Mf network_offset. framed Mf gso_type. framed Mf encap_mark.
  assert (own_part p' = own_part p) as Eown by (unfold own_part; congruence).
  split.
  - destruct Hp. split; try congruence.
    + rewrite Ec. split; [lia|]. intros Eb. destruct b; [done|]. by rewrite <- Ec; apply Hb.
    + intros _. rewrite Eown, Ho, Mx, length_app, Ec, Hc. cbn. split; [done|lia].
    + lia.
  - unfold segs. rewrite F, F1, Hfl, Eown, Mx, fmap_app. cbn. rewrite fmap_app. cbn.
    rewrite (one_flow p s Sh), Mc by done. unfold payload. by rewrite Eo.
Qed.

(** The outcome for the held packet of the flow: the datagram is appended, or it is
    not and the held packet is to be completed, except that a datagram for a
    fragment list may be refused alone. *)
Record matched (p s p' s' : sk_buff) (b : bool) : Prop := {
  ma_meta : (meta p', age p', addrs (head p'), ports (head p')) = (meta p, age p, addrs (head p), ports (head p));
  ma_case :
    (same_flow s' = true ∧ hold_ok (negb b) p' ∧ segs p' = segs p ++ [one (contents s)]) ∨
    (p' = p ∧ same_flow s' = false ∧ still s s' ∧ (flush s' = 0 → ready s') ∧ (b = false → is_flist s = true ∧ flush s' ≠ 0));
}.
(** Fields outside the datagram. *)
Lemma wf_ext s t : head s = head t → frags s = frags t → frag_list s = frag_list t → len s = len t → data_len s = data_len t → skb_wf t → skb_wf s.
Proof. intros Eh Ef El E1 E2 [W1 W2]. unfold skb_headlen in *. split; [rewrite (contents_ext s t); congruence|unfold skb_headlen; congruence]. Qed.

Lemma still_refl s : skb_wf s → pullable (data_offset s) s → still s s.
Proof. by split. Qed.

Lemma still_trans s t u : still s t → still t u → still s u.
Proof. intros [C1 _ _ S1] [C2 W2 P2 S2]. split; [congruence|done|done|congruence]. Qed.

Lemma still_flush s x : skb_wf s → pullable (data_offset s) s → still s (s <| flush := x |>).
Proof. intros W P. split; [by apply contents_ext|by apply (wf_ext _ s)|done|done]. Qed.

Lemma still_network s x : skb_wf s → pullable (data_offset s) s → still s (s <| network_header := x |>).
Proof. intros W P. split; [by apply contents_ext|by apply (wf_ext _ s)|done|done]. Qed.

Lemma still_pulled s s' : pullable (data_offset s) s → pulled (data_offset s) s s' → still s s'.
Proof.
  intros [Hn _] [Pc Pw Pf Ph]. framed Pf data_offset. framed Pf gso_size. framed Pf free. framed Pf meta. framed Pf same_flow.
  split; [done|done| |congruence]. rewrite F. split; [done|by left].
Qed.

Lemma ready_still s : ready s → still s s.
Proof. intros Hs. apply still_refl; [apply Hs|]. rewrite (rd_offset _ Hs). apply Hs. Qed.

Lemma ready_network s x : ready s → ready (s <| network_header := x |>).
Proof.
  intros []. split; try done; [by apply (wf_ext _ s)|by rewrite (contents_ext _ s)..].
Qed.

Lemma ready_pulled s s' : ready s → pulled 28 s s' → ready s'.
Proof.
  intros [] [Pc Pw Pf Ph]. framed Pf frag_list. framed Pf data_offset. framed Pf gso_size. framed Pf len. framed Pf count. framed Pf meta.
  framed Pf encap_mark. framed Pf gso_type. framed Pf transport_header. framed Pf network_offset. framed Pf free. framed Pf same_flow. framed Pf proto.
  split; rewrite ?Pc; try congruence. split; [lia|by left].
Qed.

Section Append.
Context (p s : sk_buff) (Hp : hold_ok true p) (Hs : ready s).
Context (Ea : addrs (contents s) = addrs (head p)) (Ep : ports (contents s) = ports (head p)).

Lemma frame_meta p' : frame p' = frame p →
  (meta p', age p', addrs (head p'), ports (head p')) = (meta p, age p, addrs (head p), ports (head p)).
Proof using. intros Mf. framed Mf meta. framed Mf age. framed Mf head. congruence. Qed.

Lemma match_frags : is_flist s = is_flist p → is_flist p = false → len s - 20 <= 8 + gso_size p →
  ∃ p' s' b, ('(ret, p0, skb) ← skb_gro_receive p s; Some (p0, skb, false || negb (ret =? 0) || negb (len s - 20 =? 8 + gso_size p) || (UDP_GRO_CNT_MAX <=? count p0)))
             = Some (p', s', b) ∧ matched p s p' s' b.
Proof using All.
  intros Efl Hfl Hle. pose proof (rd_plain _ Hs) as Epl. injection Epl as E1 E2 E3 E4 E5 E6.
  destruct (gro_receive_spec p s) as (r & p' & s' & -> & Hr).
  { apply Hp. } { by apply Hp. } { apply Hs. } { apply Hs. } { rewrite (rd_offset _ Hs). apply pullable_reached, Hs. }
  { unfold skb_gro_len. rewrite (rd_offset _ Hs). pose proof (rd_data _ Hs). lia. } { done. }
  cbn [mbind option_bind]. eexists _, _, _. split; [done|]. destruct Hr as [(Hr & -> & ->)|(-> & _ & Hlen & [Am Af _ _])].
  - split; [done|right]. split_and!; [done|done|by apply ready_still|done|]. intros Eb. apply Z.eqb_neq in Hr. by rewrite Hr in Eb.
  - split; [apply frame_meta, Am|left]. split; [done|]. rewrite E6 in Am. apply merged_ok; try done.
    + apply Hlen. by rewrite (rd_proto _ Hs).
    + lia.
    + intros Eb. cbn in Eb. apply orb_false_iff in Eb as [Eb1 Eb2]. apply negb_false_iff, Z.eqb_eq in Eb1. apply Z.leb_gt in Eb2. split; lia.
Qed.

Lemma match_list x : is_flist s = is_flist p → is_flist p = true → 28 <= blen (head s) →
  ∃ p' s' b, ('(ret, p0, skb) ← skb_gro_receive_list p (s <| network_header := x |>); Some (p0, skb, false || negb (ret =? 0) || negb (len s - 20 =? 8 + gso_size p) || (UDP_GRO_CNT_MAX <=? count p0)))
             = Some (p', s', b) ∧ matched p s p' s' b.
Proof using All.
  intros Efl Hfl Hh. set (t := s <| network_header := x |>). assert (contents t = contents s) as Ec by by apply contents_ext.
  pose proof (ready_network s x Hs) as Ht. fold t in Ht.
  pose proof (rd_plain _ Hs) as Epl. injection Epl as E1 E2 E3 E4 E5 E6.
  destruct (gro_receive_list_spec p t) as (r & p' & s' & -> & Hr).
  { apply Hp. } { by apply Hp. } { apply Ht. } { rewrite (rd_offset _ Ht), (wf_headlen _ (rd_wf _ Ht)). cbn. lia. }
  cbn [mbind option_bind]. eexists _, _, _. split; [done|]. destruct Hr as [(Hr & -> & ->)|(-> & Hl)].
  - split; [done|right]. split_and!; [done|done| |done|].
    + apply still_network; [apply Hs|]. rewrite (rd_offset _ Hs). apply Hs.
    + intros Eb. apply Z.eqb_neq in Hr. by rewrite Hr in Eb.
  - split; [apply frame_meta, Hl|left]. split; [by apply Hl|]. rewrite <- Ec in *. eapply listed_ok; try done.
    + apply Ht.
    + apply Ht.
    + intros Eb. cbn in Eb. apply orb_false_iff in Eb as [_ Eb]. by apply Z.leb_gt in Eb.
Qed.
End Append.

Lemma segment_match_spec p s : hold_ok true p → ready s → addrs (contents s) = addrs (head p) → ports (contents s) = ports (head p) →
  ∃ p' s' b, segment_match p s (len s - 20) (8 + gso_size p) = Some (p', s', b) ∧ matched p s p' s' b.
Proof using All.
  intros Hp Hs Ea Ep. pose proof (ready_still _ Hs) as Hst. pose proof (rd_wf _ Hs) as Ws.
  assert (pullable (data_offset s) s) as Hpull by (rewrite (rd_offset _ Hs); apply Hs).
  pose proof (rd_plain _ Hs) as Epl. injection Epl as E1 E2 E3 E4 E5 E6. unfold segment_match.
  assert (∀ t (b : bool), still s t → (b = false → is_flist s = true) → ∃ p' s' b', Some (p, t <| flush := 1 |>, b) = Some (p', s', b') ∧ matched p s p' s' b') as Hflush.
  { intros t b Ht Hb. eexists _, _, _. split; [done|]. split; [done|right]. pose proof (st_same _ _ Ht) as Es. injection Es as S1 S2 S3 S4.
    split_and!; [done|cbn; congruence| |done|by intros Eb; split; [by apply Hb|]].
    apply (still_trans s t); [done|]. apply still_flush; apply Ht. }
  destruct (Bool.eqb (is_flist s) (is_flist p)) eqn:Efl; cbn [negb]; [|by apply Hflush]. apply eqb_prop in Efl.
  destruct (_ || gro_receive_network_flush s p) eqn:Eg.
  { eexists _, _, _. split; [done|]. split; [done|right]. by split_and!. }
  apply orb_false_iff in Eg as [Eg _]. apply Z.ltb_ge in Eg. destruct (is_flist s) eqn:Efs; [|apply match_frags; try done; lia || congruence].
  destruct (pskb_may_pull s _) as [t|] eqn:Em; [|by apply Hflush].
  apply may_pull_spec in Em; [|done]. assert (still s t) as Hstt by by apply still_pulled.
  unfold skb_gro_offset in Em. rewrite (rd_offset _ Hs) in Em. pose proof (ready_pulled _ _ Hs Em) as Ht.
  destruct (_ || _); [by apply Hflush|]. pose proof (pl_frame _ _ _ Em) as Pf. framed Pf len. framed Pf is_flist. rewrite <- F.
  pose proof (pl_contents _ _ _ Em) as Ec. rewrite <- Ec in *.
  destruct (match_list p t Hp Ht Ea Ep (network_offsets (encap_mark t) t)) as (p' & s' & b & -> & Hm); [congruence|congruence|apply Em|].
  eexists _, _, _. split; [done|]. destruct Hm as [Mm Mc]. split; [done|]. rewrite Ec in Mc.
  destruct Mc as [Mc|(-> & M2 & M3 & M4 & M5)]; [by left|right]. split_and!; [done|done|by apply (still_trans s t)|done|]. by rewrite <- F0.
Qed.
(** ** The search for the flow *)

Lemma slice_slice a n c m l : (c + m <= n)%nat → slice c m (slice a n l) = slice (a + c) m l.
Proof. intros Hl. unfold slice. rewrite skipn_firstn_comm, drop_drop, take_take. f_equal. lia. Qed.

(** [p] is not the packet of the flow of [s]. *)
Definition passed_over (s p : sk_buff) : Prop :=
  same_flow p = false ∨ addrs (head p) ≠ addrs (contents s) ∨ ports (head p) ≠ ports (contents s).

(** The result of a search that reached the end, or the packet of the flow. *)
Inductive searched (i : nat) (l : list sk_buff) (s : sk_buff) : list sk_buff -> sk_buff -> completion -> Prop :=
| se_none l' : Forall2 like l l' → Forall (passed_over s) l → searched i l s l' s NoPP
| se_found l1 p l2 l1' p' s' (b : bool) :
    l = l1 ++ p :: l2 → Forall2 like l1 l1' → Forall (passed_over s) l1 → same_flow p = true → ports (head p) = ports (contents s) →
    matched p s p' s' b → searched i l s (l1' ++ p' :: l2) s' (if b then PP (i + length l1) else NoPP).

Lemma searched_cons i q q' l s l' s' pp : like q q' → passed_over s q → searched (S i) l s l' s' pp → searched i (q :: l) s (q' :: l') s' pp.
Proof.
  intros Hq Ho [l'' Hl Hf|l1 p l2 l1' p' s'' b -> Hl Hf Hs Hp Hm]; [by apply se_none; constructor|].
  replace (S i + length l1)%nat with (i + length (q :: l1))%nat by (cbn; lia).
  apply (se_found i (q :: l1 ++ p :: l2) s (q :: l1) p l2 (q' :: l1')); try done; by constructor.
Qed.

Lemma segment_loop_spec i l s : Forall (hold_ok true) l → ready s → Forall (fun p => same_flow p = true → addrs (contents s) = addrs (head p)) l →
  ∃ l' s' pp, segment_loop i l s (slice 20 8 (contents s)) (len s - 20) = Some (l', s', pp) ∧ searched i l s l' s' pp.
Proof using All.
  intros Hl Hs Ha. revert i. induction Hl as [|p l Hp Hl IH]; intros i.
  { eexists _, _, _. split; [done|]. by apply se_none. }
  apply Forall_cons in Ha as [Hpa Ha]. destruct (IH Ha (S i)) as (l' & s' & pp & E & HS). cbn [segment_loop].
  destruct (same_flow p) eqn:Ef; cbn [negb].
  - pose proof (held_long _ _ Hp) as Hh. unfold head_bytes. rewrite (ho_transport _ _ Hp). cbn.
    rewrite (proj2 (Z.leb_le _ _)) by lia. cbn [mbind option_bind]. change (Z.to_nat 20) with 20%nat. change (Z.to_nat 8) with 8%nat.
    unfold udp_ports. rewrite !slice_slice by lia. change (20 + 0)%nat with 20%nat. fold (ports (contents s)) (ports (head p)).
    case_bool_decide as Epo.
    + rewrite E. eexists _, _, _. split; [done|]. apply searched_cons; [done|right; right; congruence|done].
    + rewrite (ho_ulen _ _ Hp). destruct (segment_match_spec p s) as (p' & s2 & b & -> & Hm); [done|done|by apply Hpa|done|].
      eexists _, _, _. split; [done|].
      replace (PP i) with (PP (i + length (@nil sk_buff))) by (f_equal; cbn; lia). by apply (se_found i (p :: l) s [] p l []).
  - rewrite E. eexists _, _, _. split; [done|]. apply searched_cons; [done|by left|done].
Qed.
(** ** Through the layers *)

Section Layers.
(** [good]: the packet is one that GRO has no reason to refuse, see [regular]. *)
Context (good : Prop).

(** What a callback makes of the bucket [l] and the packet [s]: everything stays as
    it is, or one held packet is the packet of its flow. *)
Inductive outcome (l : list sk_buff) (s : sk_buff) : list sk_buff -> sk_buff -> completion -> Prop :=
| oc_kept l' s' : Forall2 like l l' → still s s' → same_flow s' = false →
    (flush s' = 0 → ready s' ∧ Forall (passed_over s) l) → (good → flush s' = 0) → outcome l s l' s' NoPP
| oc_found l1 p l2 l1' p' l2' s0 s' (b : bool) :
    l = l1 ++ p :: l2 → Forall2 like l1 l1' → Forall2 like l2 l2' → Forall (passed_over s) l1 → same_flow p = true →
    ports (head p) = ports (contents s) → addrs (head p) = addrs (contents s) → contents s0 = contents s → ready s0 →
    (is_flist s0 = true → NETIF_F_GRO_FRAGLIST (l_dev (meta s)) = true) →
    (same_flow s' = false → still s s') → matched p s0 p' s' b →
    outcome l s (l1' ++ p' :: l2') s' (if b then PP (length l1) else NoPP).

(** A packet inside [inet_gro_receive], when UDP gets it: the IP header was
    checked. *)
Record at_udp (s : sk_buff) : Prop := {
  au_wf : skb_wf s;
  au_flat : frag_list s = [];
  au_pull : pullable 20 s;
  au_offset : data_offset s = 20;
  au_transport : transport_header s = 20;
  au_network : network_offset s = 0;
  au_type : l_protocol (meta s) = ETH_P_IP;
  au_plain : (gso_type s, encap_mark s, gso_size s, free s, same_flow s, count s) = ([], false, 0, 0, false, 1);
  au_proto : proto s = IPPROTO_UDP;
  au_ip : ip_first (contents s) = 69 ∧ ip_protocol (contents s) = IPPROTO_UDP;
}.

Lemma pullable_len n s : skb_wf s → pullable n s → n <= len s.
Proof.
  intros [Wl _] [_ [Hh|(Eh & _ & Hn & f & l & Ef & Hf & _)]]; rewrite Wl, contents_eq, !blen_app.
  - pose proof (blen_nonneg (concat (frags s))). pose proof (blen_nonneg (concat (contents <$> frag_list s))). lia.
  - rewrite Eh, Ef. cbn. rewrite blen_app. change (blen []) with 0. pose proof (blen_nonneg (concat l)).
    pose proof (blen_nonneg (concat (contents <$> frag_list s))). lia.
Qed.

(** A change of fields outside the datagram. *)
Lemma still_ext s t : head s = head t → frags s = frags t → frag_list s = frag_list t → len s = len t → data_len s = data_len t →
  skb_wf s → pullable (data_offset t) t → (gso_size t, free t, meta t, same_flow t) = (gso_size s, free s, meta s, same_flow s) → still s t.
Proof. intros E1 E2 E3 E4 E5 W P E. split; [by apply contents_ext|by apply (wf_ext _ s)|done|done]. Qed.

Lemma pullable_le n m s : 0 <= n <= m → pullable m s → pullable n s.
Proof. intros Hn [_ [Hp|(? & ? & ? & Hx)]]; (split; [lia|]); [left; lia|right; split_and!; [done|done|lia|done]]. Qed.

Lemma likes_refl l : Forall2 like l l.
Proof. by induction l; constructor. Qed.

Lemma kept_flush l s : skb_wf s → pullable (data_offset s) s → same_flow s = false → ¬ good → outcome l s l (s <| flush := 1 |>) NoPP.
Proof. intros W P E Hg. apply oc_kept; [apply likes_refl|by apply still_flush|done..]. Qed.

(** The socket of a datagram wants GRO. *)
Definition wanted (u : sk_buff) : bool :=
  let uh := slice 20 8 (contents u) in
  match (if udp_encap_needed then udp4_gro_lookup_skb u (udp_source uh) (udp_dest uh) else None) with
  | Some sk => sk_gro_enabled sk
  | None => NETIF_F_GRO_UDP_FWD (l_dev (meta u))
  end.

Record good_udp (s : sk_buff) : Prop := {
  gu_flush : flush s = 0;
  gu_plain : encapsulation s = false;
  gu_check : udp_check (slice 20 8 (contents s)) ≠ 0;
  gu_ulen : udp_len (slice 20 8 (contents s)) = len s - 20;
  gu_data : 28 < len s;
  gu_valid : ∀ u, meta u = meta s → contents u = contents s → checksum_validate u (udp_check (slice 20 8 (contents s))) ≠ None;
  gu_wanted : ∀ u, meta u = meta s → contents u = contents s → network_offset u = 0 → encap_mark u = false → wanted u = true;
}.

Lemma good_udp_ext s t : (flush t, encapsulation t, len t, meta t) = (flush s, encapsulation s, len s, meta s) → contents t = contents s →
  good_udp s → good_udp t.
Proof. intros E Ec []. injection E as E1 E2 E3 E4. split; rewrite ?Ec, ?E4; try done; congruence. Qed.

Lemma segment_spec l s : Forall (hold_ok true) l → at_udp s → pullable 28 s →
  Forall (fun p => same_flow p = true → addrs (contents s) = addrs (head p)) l →
  (is_flist s = true → NETIF_F_GRO_FRAGLIST (l_dev (meta s)) = true) → (good → good_udp s) →
  ∃ l' s' pp, udp_gro_receive_segment l s = Some (l', s', pp) ∧ outcome l s l' s' pp.
Proof using All.
  intros Hl [W F P20 Eo Et En Ety Epl Epr [Ei1 Ei2]] P28 Ha Hfl Hg. injection Epl as E1 E2 E3 E4 E5 E6.
  unfold udp_gro_receive_segment, udp_gro_udphdr, skb_gro_offset. rewrite Eo, header_ready by (done || lia).
  cbn [mbind option_bind]. change (Z.to_nat 20) with 20%nat. change (Z.to_nat (20 + 8 - 20)) with 8%nat.
  assert (pullable (data_offset s) s) as Hpull by by rewrite Eo.
  assert (¬ good → ∃ l' s' pp, Some (l, s <| flush := 1 |>, NoPP) = Some (l', s', pp) ∧ outcome l s l' s' pp) as Hflush.
  { intros Hn. eexists _, _, _. split; [done|]. by apply kept_flush. }
  destruct (Z.eqb_spec (udp_check (slice 20 8 (contents s))) 0) as [E0|_]; [apply Hflush; intros Hgd; by destruct (Hg Hgd)|].
  destruct (_ || _) eqn:Eu.
  { apply Hflush. intros Hgd. destruct (Hg Hgd). unfold skb_gro_len in Eu. apply orb_true_iff in Eu as [Eu|Eu]; [apply Z.leb_le in Eu; lia|].
    apply negb_true_iff, Z.eqb_neq in Eu. lia. }
  apply orb_false_iff in Eu as [Eu1 Eu2].
  apply Z.leb_gt in Eu1. apply negb_false_iff, Z.eqb_eq in Eu2. unfold skb_gro_len in Eu2. rewrite Eo in Eu2.
  set (t := skb_gro_pull 8 s). assert (contents t = contents s) as Ec by by apply contents_ext.
  assert (still s t) as Hst by (apply still_ext; try done; cbn; by rewrite Eo).
  assert (ready t) as Ht.
  { split; rewrite ?Ec; try done; [apply Hst|cbn; by rewrite Eo|cbn; congruence| |cbn; lia].
    unfold udp_shape. rewrite Ei1, Ei2, !andb_true_iff. split_and!; [|done|done]. apply Z.leb_le. rewrite <- (wf_len _ W). by apply pullable_len. }
  destruct (segment_loop_spec 0 l t) as (l' & s' & pp & E & HS); [done|done|by rewrite Ec|]. rewrite Ec in E. cbn in E.
  rewrite Eu2, E. eexists _, _, _. split; [done|]. destruct HS as [l'' Hk Hf|l1 p l2 l1' p' s'' b -> Hk Hf Hs Hp Hm].
  - apply oc_kept; [done|done|done| |].
    + intros _. split; [done|]. unfold passed_over in *. by rewrite Ec in Hf.
    + cbn. intros Hgd. by destruct (Hg Hgd).
  - cbn. rewrite Ec in Hp. apply (oc_found _ _ l1 p l2 l1' p' l2 t); try done.
    + apply likes_refl.
    + unfold passed_over in *. by rewrite Ec in Hf.
    + apply Forall_app in Ha as [_ [Ha _]%Forall_cons]. symmetry. by apply Ha.
    + intros Ef. destruct Hm as [_ [[Hm _]|(_ & _ & Hm & _)]]; [congruence|]. by apply (still_trans s t).
Qed.

(** Changing flags of the packet before or after a callback. *)
Lemma outcome_before l s t l' s' pp : still s t → contents t = contents s → outcome l t l' s' pp → outcome l s l' s' pp.
Proof.
  intros Hst Ec Ho. pose proof (st_same _ _ Hst) as Es. injection Es as S1 S2 S3 S4.
  destruct Ho as [l'' s'' Hk Hs Hf Hr Hgf|l1 p l2 l1' p' l2' s0 s'' b -> Hk1 Hk2 Hf Hs Hp Ha Ec0 Hrd Hfl Hstl Hm].
  - apply oc_kept; [done|by apply (still_trans s t)|done| |done]. unfold passed_over in *. by rewrite <- Ec.
  - rewrite Ec, S3 in *. apply (oc_found _ _ l1 p l2 l1' p' l2' s0); try done; [by unfold passed_over in *; rewrite <- Ec|].
    intros Ef. by apply (still_trans s t), Hstl.
Qed.

Lemma ready_flush s x : ready s → ready (s <| flush := x |>).
Proof. intros []. split; try done; [by apply (wf_ext _ s)|by rewrite (contents_ext _ s)..]. Qed.

Lemma outcome_flush l s l' s' pp f : (good → f = 0) → outcome l s l' s' pp → outcome l s l' (skb_gro_flush_final s' pp f) pp.
Proof.
  intros Hg Ho. assert (∃ c, skb_gro_flush_final s' pp f = s' <| flush := Z.lor (flush s') c |> ∧ (f = 0 → c = 0)) as (c & -> & Hc0).
  { unfold skb_gro_flush_final. exists (if f =? 0 then 0 else 1). split; [destruct Ho; [|destruct b]; done|]. by intros ->. }
  assert (Z.lor (flush s') c = 0 → flush s' = 0) as Hz by (intros [? _]%Z.lor_eq_0_iff; done).
  destruct Ho as [l'' s'' Hk Hs Hf Hr Hgf|l1 p l2 l1' p' l2' s0 s'' b -> Hk1 Hk2 Hf Hs Hp Ha Ec0 Hrd Hfl Hstl Hm].
  - apply oc_kept; [done| |done| |intros Hgd; cbn; by rewrite (Hgf Hgd), (Hc0 (Hg Hgd))].
    + apply (still_trans s s''); [done|]. apply still_flush; apply Hs.
    + intros Ef. destruct (Hr (Hz Ef)). split; [by apply ready_flush|done].
  - apply (oc_found _ _ l1 p l2 l1' p' l2' s0); try done.
    + intros Ef. apply (still_trans s s''); [by apply Hstl|]. apply still_flush; by apply Hstl.
    + destruct Hm as [Mm Mc]. split; [done|]. destruct Mc as [Mc|(M1 & M2 & M3 & M4 & M5)]; [by left|right].
      split_and!; [done|done| | |].
      * apply (still_trans s0 s''); [done|]. apply still_flush; apply M3.
      * intros Ef. by apply ready_flush, M4, Hz.
      * intros Eb. destruct (M5 Eb). split; [done|]. cbn. intros Ef. by apply Hz in Ef.
Qed.

(** The rest of the control block and the checksum state. *)
Definition side (s : sk_buff) : sk_buff :=
  s <| is_flist := false |> <| recursion_counter := 0 |> <| ip_summed := CHECKSUM_NONE |> <| csum_level := 0 |> <| csum_valid := false |> <| csum_cnt := 0 |>.

Lemma pullable_side n s t : side t = side s → pullable n s → pullable n t.
Proof.
  intros E. framed E head. framed E frags. framed E frag0_frag. framed E frag0_len. framed E tailroom.
  unfold pullable. by rewrite F, F0, F1, F2, F3.
Qed.

Lemma at_udp_side s t : side t = side s → at_udp s → at_udp t.
Proof.
  intros E [W F P Eo Et En Ety Epl Epr Ei]. framed E head. framed E frags. framed E frag_list. framed E len. framed E data_len.
  assert (contents t = contents s) as Ec by by apply contents_ext.
  framed E data_offset. framed E transport_header. framed E network_offset. framed E meta. framed E gso_type. framed E encap_mark.
  framed E gso_size. framed E free. framed E same_flow. framed E count. framed E proto.
  split; rewrite ?Ec; try congruence; [by apply (wf_ext _ s)|by apply (pullable_side _ s)].
Qed.

Lemma at_udp_still s t : side t = side s → at_udp s → still s t.
Proof.
  intros E Hs. pose proof (at_udp_side _ _ E Hs) as Ht. framed E head. framed E frags. framed E frag_list. framed E len. framed E data_len.
  framed E gso_size. framed E free. framed E meta. framed E same_flow.
  apply still_ext; try done; [apply Hs|rewrite (au_offset _ Ht); apply Ht|congruence].
Qed.

Lemma outcome_side l s t l' s' pp : side t = side s → at_udp s → outcome l t l' s' pp → outcome l s l' s' pp.
Proof. intros E Hs. pose proof (at_udp_still _ _ E Hs) as Hst. apply outcome_before; [done|apply Hst]. Qed.

Lemma call_spec l s cb : at_udp s → (good → recursion_counter s + 1 ≠ GRO_RECURSION_LIMIT) →
  (∀ t, side t = side s → is_flist t = is_flist s → recursion_counter t = recursion_counter s + 1 → ∃ l' s' pp, cb l t = Some (l', s', pp) ∧ outcome l t l' s' pp) →
  ∃ l' s' pp, call_gro_receive cb l s = Some (l', s', pp) ∧ outcome l s l' s' pp.
Proof using All.
  intros Hs Hg Hcb. unfold call_gro_receive. cbn. set (t := s <| recursion_counter ::= _ |>). assert (side t = side s) as E by done.
  pose proof (at_udp_side _ _ E Hs) as Ht. destruct (Z.eqb_spec (recursion_counter s + 1) GRO_RECURSION_LIMIT) as [Er|_].
  - eexists _, _, _. split; [done|]. apply (outcome_side _ _ t); [done|done|]. apply oc_kept; [apply likes_refl| | | |by intros Hgd%Hg].
    + apply still_flush; [apply Ht|rewrite (au_offset _ Ht); apply Ht].
    + pose proof (au_plain _ Ht) as Epl. by injection Epl.
    + cbn. intros Ez. apply Z.lor_eq_0_iff in Ez. lia.
  - destruct (Hcb t E eq_refl eq_refl) as (l' & s' & pp & -> & Ho). eexists _, _, _. split; [done|]. by apply (outcome_side _ _ t).
Qed.

Lemma udp_receive_spec uh sk l s : (∀ k, sk = Some k → sk_gro_receive k = None) → Forall (hold_ok true) l → at_udp s → pullable 28 s →
  Forall (fun p => same_flow p = true → addrs (contents s) = addrs (head p)) l →
  (good → good_udp s ∧ recursion_counter s + 1 ≠ GRO_RECURSION_LIMIT ∧
          match sk with Some sk => sk_gro_enabled sk | None => NETIF_F_GRO_UDP_FWD (l_dev (meta s)) end = true) →
  ∃ l' s' pp, udp_gro_receive uh sk l s = Some (l', s', pp) ∧ outcome l s l' s' pp.
Proof using All.
  intros Hsk Hl Hs P Ha Hg. unfold udp_gro_receive. replace (sk ≫= sk_gro_receive) with (@None callback) by (destruct sk as [k|]; [cbn; by rewrite Hsk|done]).
  assert (∀ t, side t = side s → ¬ good → ∃ l' s' pp, Some (l, skb_gro_flush_final t NoPP 1, NoPP) = Some (l', s', pp) ∧ outcome l s l' s' pp) as Hout.
  { intros t E Hn. pose proof (at_udp_side _ _ E Hs) as Ht. eexists _, _, _. split; [done|]. apply (outcome_side _ _ t); [done|done|].
    pose proof (au_plain _ Ht) as Epl. injection Epl as E1 E2 E3 E4 E5 E6. cbn. apply oc_kept; [apply likes_refl| |done| |done].
    - apply still_flush; [apply Ht|rewrite (au_offset _ Ht); apply Ht].
    - cbn. intros Ez. apply Z.lor_eq_0_iff in Ez. lia. }
  match goal with |- context [if encapsulation ?x then _ else _] => destruct (encapsulation x) eqn:Een end.
  { apply Hout; [done|]. intros Hgd. destruct (Hg Hgd) as ([] & _). cbn in Een. congruence. }
  match goal with |- context [call_gro_receive _ l ?x] => set (t := x) end.
  assert (side t = side s) as E by (unfold t; cbn; by destruct (NETIF_F_GRO_FRAGLIST _)).
  assert (is_flist t = true → NETIF_F_GRO_FRAGLIST (l_dev (meta t)) = true) as Hfl.
  { unfold t. cbn. destruct (NETIF_F_GRO_FRAGLIST (l_dev (meta s))) eqn:En; [cbn; done|done]. }
  destruct (_ || is_flist t) eqn:Ew.
  2:{ apply Hout; [done|]. intros Hgd. destruct (Hg Hgd) as (_ & _ & Hw). apply orb_false_iff in Ew as [Ew _]. framed E meta. rewrite F in Ew. congruence. }
  assert (∃ l' s' pp, call_gro_receive udp_gro_receive_segment l t = Some (l', s', pp) ∧ outcome l t l' s' pp) as (l' & s' & pp & E' & Ho).
  { pose proof (at_udp_side _ _ E Hs) as Ht. assert (recursion_counter t = recursion_counter s) as Erc by (unfold t; cbn; by destruct (NETIF_F_GRO_FRAGLIST _)).
    apply call_spec; [done|rewrite Erc; intros Hgd; by destruct (Hg Hgd) as (_ & ? & _)|]. intros u Eu Efu _. framed Eu meta.
    pose proof (st_contents _ _ (at_udp_still _ _ Eu Ht)) as Ec. pose proof (st_contents _ _ (at_udp_still _ _ E Hs)) as Ec'.
    apply segment_spec; [done|by apply (at_udp_side t)|by apply (pullable_side _ t), (pullable_side _ s)| |by rewrite F, Efu|].
    - by rewrite Ec, Ec'.
    - intros Hgd. destruct (Hg Hgd) as (Hgs & _). apply (good_udp_ext s); [|congruence|done]. framed Eu flush. framed Eu encapsulation. framed Eu len.
      framed E flush. framed E encapsulation. framed E len. framed E meta. congruence. }
  rewrite E'. eexists _, _, _. split; [done|]. by apply (outcome_side _ _ t).
Qed.

Context `{!NoTunnel}.

Lemma lookup_plain s x y k : udp4_gro_lookup_skb s x y = Some k → sk_gro_receive k = None.
Proof using All.
  unfold udp4_gro_lookup_skb. destruct (udp_tunnel_sk _) as [sk|] eqn:Et; [|apply nt_lookup].
  destruct (_ =? _); [intros [= <-]; by apply nt_tunnel in Et|apply nt_lookup].
Qed.

Lemma at_udp_pulled s t n : at_udp s → 20 <= n → contents t = contents s → skb_wf t → pull_frame t = pull_frame s → pullable n t → at_udp t ∧ still s t.
Proof.
  intros Hs Hn Ec Wt E P. pose proof Hs as []. framed E frag_list.
  framed E data_offset. framed E transport_header. framed E network_offset. framed E meta. framed E gso_type. framed E encap_mark.
  framed E gso_size. framed E free. framed E same_flow. framed E count. framed E proto. assert (pullable 20 t) by (apply (pullable_le 20 n); [lia|done]).
  split; [split; rewrite ?Ec; congruence || done|]. split; [done|done| |congruence]. replace (data_offset t) with 20 by congruence. done.
Qed.

Lemma udp4_receive_spec l s : Forall (hold_ok true) l → at_udp s →
  Forall (fun p => same_flow p = true → addrs (contents s) = addrs (head p)) l →
  (good → good_udp s ∧ pullable 28 s ∧ recursion_counter s + 1 ≠ GRO_RECURSION_LIMIT) →
  ∃ l' s' pp, udp4_gro_receive l s = Some (l', s', pp) ∧ outcome l s l' s' pp.
Proof using All.
  intros Hl Hs Ha Hg. unfold udp4_gro_receive, udp_gro_udphdr, skb_gro_offset. rewrite (au_offset _ Hs).
  pose proof (au_plain _ Hs) as Epl. injection Epl as E1 E2 E3 E4 E5 E6.
  destruct (skb_gro_header _ _ _) as [[t uh]|] eqn:Eh; cycle 1.
  { eexists _, _, _. split; [done|]. apply kept_flush; [apply Hs|rewrite (au_offset _ Hs); apply Hs|done|].
    intros Hgd. destruct (Hg Hgd) as (_ & Hp & _). by rewrite header_ready in Eh by (apply Hs || done || lia). }
  apply header_spec in Eh as (Ec & Wt & Pf & Pt & Euh); [|apply Hs|lia]. change (20 + 8) with 28 in Pt.
  change (Z.to_nat 20) with 20%nat in Euh. change (Z.to_nat (20 + 8 - 20)) with 8%nat in Euh.
  destruct (at_udp_pulled s t 28) as [Ht Hst]; [done|lia|done..|].
  assert (good → good_udp t ∧ recursion_counter t + 1 ≠ GRO_RECURSION_LIMIT) as Hgt.
  { intros Hgd. destruct (Hg Hgd) as (Hgs & _ & Hrc). framed Pf flush. framed Pf encapsulation. framed Pf len. framed Pf meta. framed Pf recursion_counter.
    split; [apply (good_udp_ext s); [congruence|done|done]|congruence]. }
  assert (∀ u, side u = side t → recursion_counter u = recursion_counter t → ∃ l' s' pp, udp_gro_receive uh (if udp_encap_needed then udp4_gro_lookup_skb u (udp_source uh) (udp_dest uh) else None) l u
    = Some (l', s', pp) ∧ outcome l s l' s' pp) as Hgo.
  { intros u Eu Erc. pose proof (at_udp_side _ _ Eu Ht) as Hu. pose proof (st_contents _ _ (at_udp_still _ _ Eu Ht)) as Ecu.
    destruct (udp_receive_spec uh (if udp_encap_needed then udp4_gro_lookup_skb u (udp_source uh) (udp_dest uh) else None) l u)
      as (l' & s' & pp & -> & Ho).
    - intros k. destruct udp_encap_needed; [apply lookup_plain|done].
    - done.
    - by apply (at_udp_side t).
    - by apply (pullable_side _ t).
    - by rewrite Ecu, Ec.
    - intros Hgd. destruct (Hgt Hgd) as [Hgu Hrc]. framed Eu flush. framed Eu encapsulation. framed Eu len. framed Eu meta.
      split_and!; [apply (good_udp_ext t); [congruence|done|done]|congruence|]. pose proof (au_plain _ Hu) as Eup. injection Eup as U1 U2 U3 U4 U5 U6.
      pose proof (gu_wanted _ Hgu u F2 Ecu (au_network _ Hu) U2) as Hw. unfold wanted in Hw. rewrite Ecu, Ec, <- Euh in Hw. done.
    - eexists _, _, _. split; [done|]. apply (outcome_before _ _ t); [done|done|]. by apply (outcome_side _ _ u). }
  destruct (negb (flush t =? 0)); [by apply Hgo|]. destruct (checksum_validate _ _) as [c|] eqn:Ecv; cycle 1.
  { eexists _, _, _. split; [done|]. apply (outcome_before _ _ t); [done|done|]. pose proof (st_same _ _ Hst) as Es. injection Es as S1 S2 S3 S4.
    apply kept_flush; [done|rewrite (au_offset _ Ht); apply Ht|congruence|]. intros Hgd. destruct (Hgt Hgd) as [Hgu _].
    rewrite Euh, <- Ec in Ecv. by apply (gu_valid _ Hgu t) in Ecv. }
  apply Hgo; by destruct (negb _).
Qed.

(** A packet as [dev_gro_receive] gives it to a callback. *)
Record arrived (s : sk_buff) : Prop := {
  ar_wf : skb_wf s;
  ar_flat : frag_list s = [];
  ar_offset : data_offset s = 0;
  ar_type : l_protocol (meta s) = ETH_P_IP;
  ar_plain : (gso_type s, encap_mark s, gso_size s, free s, same_flow s, count s) = ([], false, 0, 0, false, 1);
}.

Lemma addrs_split b : addrs b = ip_saddr b ++ ip_daddr b.
Proof.
  unfold addrs, ip_saddr, ip_daddr, slice. change 16%nat with (12 + 4)%nat. rewrite <- drop_drop. generalize (drop 12 b). intros l.
  rewrite <- (take_drop 4 (take 8 l)), take_take. f_equal. rewrite skipn_firstn_comm. done.
Qed.

Lemma addrs_eq b c : 20 <= blen b → 20 <= blen c → addrs b = addrs c ↔ ip_saddr b = ip_saddr c ∧ ip_daddr b = ip_daddr c.
Proof.
  intros Hb Hc. rewrite !addrs_split. split; [|by intros [-> ->]]. intros E. apply app_inj_1 in E; [done|].
  unfold ip_saddr, slice. rewrite !length_take, !length_drop. unfold blen in *. lia.
Qed.

Lemma inet_match_spec c l : 20 <= blen c → Forall (hold_ok true) l → ip_protocol c = IPPROTO_UDP →
  ∃ l', mapM (inet_match 0 (slice 0 20 c)) l = Some l' ∧ Forall2 like l l' ∧
    Forall2 (fun p p' => same_flow p' = same_flow p && bool_decide (addrs (head p) = addrs c)) l l'.
Proof.
  intros Hc Hl Ec. induction Hl as [|p l Hp Hl (l' & IH & Hk & Hs)]; [by exists []|]. cbn. rewrite IH.
  unfold inet_match at 1. destruct (same_flow p) eqn:Ef; cbn; [|by eexists; split; [done|]; split; constructor; try done; by rewrite Ef].
  pose proof (held_long _ _ Hp) as Hh. unfold head_bytes. cbn. rewrite (proj2 (Z.leb_le _ _)) by lia. cbn.
  assert (ip_protocol (head p) = IPPROTO_UDP) as Ep.
  { pose proof (ho_shape _ _ Hp) as Hsh. unfold udp_shape in Hsh. apply andb_true_iff in Hsh as [_ Hsh]. by apply Z.eqb_eq in Hsh. }
  unfold ip_protocol, ip_saddr, ip_daddr, be in *. change (Pos.to_nat 20) with 20%nat. change (Z.to_nat 0) with 0%nat.
  rewrite !slice_slice by lia. cbn [Nat.add]. rewrite Ec, Ep, Z.eqb_refl. cbn [negb orb].
  fold (ip_saddr c) (ip_saddr (head p)) (ip_daddr c) (ip_daddr (head p)).
  pose proof (addrs_eq (head p) c ltac:(lia) Hc) as Hd. eexists. split; [done|].
  split; constructor; try done; [by destruct (_ || _)|]. rewrite Ef. cbn.
  do 2 case_bool_decide; cbn; rewrite ?Ef; case_bool_decide; try done; naive_solver congruence.
Qed.

Lemma likes_trans l1 l2 l3 : Forall2 like l1 l2 → Forall2 like l2 l3 → Forall2 like l1 l3.
Proof. intros H12. revert l3. induction H12; intros l3 H23; inversion H23; subst; constructor; [unfold like in *; congruence|auto]. Qed.

Lemma like_same p q : like p q → same_flow q = same_flow p → q = p.
Proof. intros E Es. rewrite (like_eq _ _ E), Es. by destruct p. Qed.

Lemma like_head p q : like p q → head q = head p.
Proof. intros E. by rewrite (like_eq _ _ E). Qed.

(** The packets the IP layer has ruled out. *)
Lemma passed_over_back c s l l1 : contents s = c → Forall2 like l l1 →
  Forall2 (fun p p' => same_flow p' = same_flow p && bool_decide (addrs (head p) = addrs c)) l l1 → Forall (passed_over s) l1 → Forall (passed_over s) l.
Proof.
  intros Ec Hk. induction Hk as [|p q l l1 Hpq Hk IH]; intros Hs Hp; [done|]. apply Forall2_cons_1 in Hs as [Hs1 Hs2].
  apply Forall_cons in Hp as [Hp1 Hp2]. constructor; [|by apply IH]. unfold passed_over in *. rewrite (like_head _ _ Hpq), Hs1 in Hp1.
  rewrite Ec in *. case_bool_decide; [|by right; left]. by rewrite andb_true_r in Hp1.
Qed.

Lemma outcome_match c l l1 s l' s' pp : contents s = c → Forall2 like l l1 →
  Forall2 (fun p p' => same_flow p' = same_flow p && bool_decide (addrs (head p) = addrs c)) l l1 → outcome l1 s l' s' pp → outcome l s l' s' pp.
Proof.
  intros Ec Hk Hs Ho. destruct Ho as [l'' s'' Hk' Hst Hf Hr Hgf|l1a p l1b l1' p' l2' s0 s'' b -> Hk1 Hk2 Hf Hsf Hp Ha Ec0 Hrd Hfl Hstl Hm].
  - apply oc_kept; [by apply (likes_trans l l1)|done|done| |done]. intros Ef. destruct (Hr Ef). split; [done|]. by apply (passed_over_back c s l l1).
  - apply Forall2_app_inv_r in Hk as (la & lb & Hka & Hkb & ->). inversion Hkb as [|q ? lb' ? Hq Hkb' E1 E2]; subst.
    rewrite <- (Forall2_length _ _ _ Hka). assert (length la = length l1a) as Hlen by by apply Forall2_length in Hka.
    apply Forall2_app_inv in Hs as [Hsa Hsb]; [|done]. apply Forall2_cons_1 in Hsb as [Hsq _].
    assert (same_flow q = true) as Hq1 by (rewrite Hsf in Hsq; by destruct (same_flow q)).
    assert (p = q) as -> by (apply like_same; [done|congruence]).
    apply (oc_found _ _ la q lb' l1' p' l2' s0); try done; [by apply (likes_trans la l1a)|by apply (likes_trans lb' l1b)|].
    by apply (passed_over_back (contents s) s la l1a).
Qed.

Lemma accept_spec t iph f : arrived t → pullable 20 t → ip_first (contents t) = 69 → ip_protocol (contents t) = IPPROTO_UDP →
  ip_protocol iph = IPPROTO_UDP → at_udp (inet_accept iph f t) ∧ still t (inet_accept iph f t).
Proof.
  intros [W F Eo Ety Epl] P Ei1 Ei2 Ep. injection Epl as E1 E2 E3 E4 E5 E6. unfold inet_accept, set_network_offsets, skb_gro_offset. cbn. rewrite E2.
  match goal with |- at_udp ?x ∧ _ => set (u := x) end.
  assert (contents u = contents t) as Ec by by apply contents_ext.
  assert (data_offset u = 20) as Eu by (cbn; by rewrite Eo).
  split; [split; rewrite ?Ec; try done; [by apply (wf_ext _ t)|cbn; congruence]|]. apply still_ext; try done. by rewrite Eu.
Qed.

Lemma likes_ok l l' : Forall2 like l l' → Forall (hold_ok true) l → Forall (hold_ok true) l'.
Proof. induction 1; intros Hl; [done|]. apply Forall_cons in Hl as [? ?]. constructor; [by eapply like_ok|auto]. Qed.

Lemma matched_addrs c l l1 : Forall2 like l l1 → Forall2 (fun p p' => same_flow p' = same_flow p && bool_decide (addrs (head p) = addrs c)) l l1 →
  Forall (fun p => same_flow p = true → addrs c = addrs (head p)) l1.
Proof.
  induction 1 as [|p q l l1 Hpq Hk IH]; intros Hs; [done|]. apply Forall2_cons_1 in Hs as [Hs1 Hs2]. constructor; [|by apply IH].
  rewrite Hs1, (like_head _ _ Hpq), andb_true_iff, bool_decide_eq_true. by intros [_ ->].
Qed.

(** The datagram goes to UDP. *)
Lemma inet_udp_spec l t f : Forall (hold_ok true) l → arrived t → pullable 20 t → ip_first (contents t) = 69 → ip_protocol (contents t) = IPPROTO_UDP →
  (good → good_udp t ∧ pullable 28 t ∧ f = 0 ∧ recursion_counter t = 0) →
  ∃ l' s' pp, (l ← mapM (inet_match 0 (slice 0 20 (contents t))) l;
               '(l, skb, pp) ← call_gro_receive udp4_gro_receive l (inet_accept (slice 0 20 (contents t)) f t);
               Some (l, skb_gro_flush_final skb pp f, pp)) = Some (l', s', pp) ∧ outcome l t l' s' pp.
Proof using All.
  intros Hl Ht P Ei Ep Hg. assert (20 <= blen (contents t)) as Hc by (rewrite <- (wf_len _ (ar_wf _ Ht)); by apply pullable_len, P; apply Ht).
  destruct (inet_match_spec (contents t) l) as (l1 & -> & Hk & Hs); [done..|]. rewrite some_bind.
  destruct (accept_spec t (slice 0 20 (contents t)) f) as [Hu Htu]; [done..|unfold ip_protocol, be in *; by rewrite slice_slice by lia|].
  pose proof (st_contents _ _ Htu) as Ecu. pose proof recursion_limit as Hlim.
  assert (good → good_udp (inet_accept (slice 0 20 (contents t)) f t) ∧ pullable 28 (inet_accept (slice 0 20 (contents t)) f t) ∧
    recursion_counter (inet_accept (slice 0 20 (contents t)) f t) = 0) as Hgu.
  { intros Hgd. destruct (Hg Hgd) as (Hgt & Hp & -> & Hrc). pose proof (ar_plain _ Ht) as Epl. injection Epl as P1 P2 P3 P4 P5 P6.
    split; [apply (good_udp_ext t); [|done|done]|]; unfold inet_accept, set_network_offsets; cbn; rewrite P2; [|done]. cbn. by rewrite Z.lor_0_r. }
  set (u := inet_accept _ _ t) in *. clearbody u.
  assert (∃ l' s' pp, call_gro_receive udp4_gro_receive l1 u = Some (l', s', pp) ∧ outcome l1 u l' s' pp) as (l' & s' & pp & -> & Ho).
  { apply call_spec; [done|intros Hgd; destruct (Hgu Hgd); lia|]. intros v Ev _ Hrc. pose proof (st_contents _ _ (at_udp_still _ _ Ev Hu)) as Ecv.
    apply udp4_receive_spec; [by apply (likes_ok l)|by apply (at_udp_side u)| |].
    - rewrite Ecv, Ecu. by apply (matched_addrs _ l).
    - intros Hgd. destruct (Hgu Hgd) as (Hgs & Hp & Hr0). framed Ev flush. framed Ev encapsulation. framed Ev len. framed Ev meta.
      split_and!; [apply (good_udp_ext u); [congruence|done|done]|by apply (pullable_side _ u)|lia]. }
  rewrite some_bind. eexists _, _, _. split; [done|]. apply outcome_flush; [by intros Hgd; destruct (Hg Hgd) as (_ & _ & ? & _)|].
  apply (outcome_before _ _ u); [done|congruence|].
  by apply (outcome_match (contents t) _ l1).
Qed.

Lemma kept_out l s t : still s t → same_flow s = false → ¬ good →
  ∃ l' s' pp, Some (l, skb_gro_flush_final t NoPP 1, NoPP) = Some (l', s', pp) ∧ outcome l s l' s' pp.
Proof.
  intros Ht Ef Hn. pose proof (st_same _ _ Ht) as Es. injection Es as S1 S2 S3 S4. eexists _, _, _. split; [done|].
  apply (outcome_before _ _ t); [done|apply Ht|]. cbn. apply oc_kept; [apply likes_refl|apply still_flush; apply Ht|cbn; congruence| |done].
  cbn. intros Ez. apply Z.lor_eq_0_iff in Ez. lia.
Qed.

(** A datagram that GRO has no reason to refuse: its headers are in the linear
    part, the IP header is valid, has no options and is not that of a fragment, the
    lengths agree with the packet, it has a checksum that is right, and its socket
    wants GRO. *)
Record regular (s : sk_buff) : Prop := {
  rg_linear : 28 <= blen (head s);
  rg_shape : udp_shape (contents s) = true;
  rg_fragment : ip_is_fragment (slice 0 20 (contents s)) = false;
  rg_csum : ip_fast_csum (slice 0 20 (contents s)) = 0;
  rg_flush : inet_flush (slice 0 20 (contents s)) (len s) = 0;
  rg_udp : good_udp s;
}.

Lemma inet_receive_spec l s : Forall (hold_ok true) l → arrived s → (good → regular s ∧ recursion_counter s = 0) →
  ∃ l' s' pp, inet_gro_receive inet_offloads_udp l s = Some (l', s', pp) ∧ outcome l s l' s' pp.
Proof using All.
  intros Hl [W F Eo Ety Epl] Hg. injection Epl as E1 E2 E3 E4 E5 E6. unfold inet_gro_receive, skb_gro_offset. rewrite Eo.
  assert (pullable 0 s) as P0 by (split; [done|left; apply blen_nonneg]).
  destruct (skb_gro_header _ _ _) as [[t iph]|] eqn:Eh; cycle 1.
  { apply kept_out; [by apply still_refl; rewrite ?Eo|done|]. intros Hgd. destruct (Hg Hgd) as [[Hl0 _ _ _ _ _] _].
    by rewrite header_ready in Eh by (done || lia || (split; [lia|left; lia])). }
  assert (28 <= blen (head s) → t = s) as Hts.
  { intros Hl0. rewrite header_ready in Eh by (done || lia || (split; [lia|left; lia])). by injection Eh. }
  apply header_spec in Eh as (Ec & Wt & Pf & Pt & Eiph); [|done|lia]. rewrite <- Ec in Eiph.
  framed Pf frag_list. framed Pf data_offset. framed Pf meta. framed Pf gso_type. framed Pf encap_mark. framed Pf gso_size. framed Pf free.
  framed Pf same_flow. framed Pf count.
  assert (still s t) as Hst. { split; [done|done| |congruence]. rewrite F1, Eo. split; [done|left; apply blen_nonneg]. }
  change (Z.to_nat 0) with 0%nat in Eiph. change (Z.to_nat (0 + 20 - 0)) with 20%nat in Eiph. subst iph.
  assert (good → ip_first (slice 0 20 (contents t)) = 69 ∧ ip_protocol (slice 0 20 (contents t)) = IPPROTO_UDP) as Hsh.
  { intros Hgd. destruct (Hg Hgd) as [[_ Hs _ _ _ _] _]. rewrite <- Ec in Hs. unfold udp_shape in Hs. rewrite !andb_true_iff, !Z.eqb_eq in Hs.
    unfold ip_first, ip_protocol, be in *. rewrite !slice_slice by lia. tauto. }
  destruct (inet_offloads_udp _ ≫= gro_receive) as [rcv|] eqn:Er.
  2:{ apply kept_out; [done|done|]. intros Hgd. destruct (Hsh Hgd) as [_ Hpr]. by rewrite Hpr in Er. }
  destruct (Z.eqb_spec (ip_first (slice 0 20 (contents t))) 69) as [Ei|Ei]; cbn [negb]; [|by apply kept_out; [..|intros Hgd%Hsh; tauto]].
  destruct (ip_is_fragment _) eqn:Efr.
  { apply kept_out; [done|done|]. intros Hgd. destruct (Hg Hgd) as [[_ _ Hx _ _ _] _]. rewrite Ec in Efr. congruence. }
  destruct (Z.eqb_spec (ip_fast_csum (slice 0 20 (contents t))) 0) as [Ecs|Ecs]; cbn [negb].
  2:{ apply kept_out; [done|done|]. intros Hgd. destruct (Hg Hgd) as [[_ _ _ Hx _ _] _]. rewrite Ec in Ecs. congruence. }
  assert (rcv = udp4_gro_receive ∧ ip_protocol (contents t) = IPPROTO_UDP) as [-> Epr].
  { unfold inet_offloads_udp, ip_protocol, be in *. rewrite slice_slice in Er by lia. cbn [Nat.add] in Er.
    destruct (Z.eqb_spec (be_combine (slice 9 1 (contents t))) IPPROTO_UDP) as [Ep|]; cbn in Er; [|done]. by injection Er as <-. }
  assert (ip_first (contents t) = 69) as Ei' by (unfold ip_first, be in *; by rewrite slice_slice in Ei by lia).
  destruct (inet_udp_spec l t (inet_flush (slice 0 20 (contents t)) (skb_gro_len t))) as (l' & s' & pp & E & Ho);
    [done|by split; congruence|done|done|done| |].
  { intros Hgd. destruct (Hg Hgd) as [[Hl0 _ _ _ Hf Hgu] Hrc]. framed Pf flush. framed Pf encapsulation. framed Pf len. framed Pf recursion_counter.
    split_and!; [by apply (good_udp_ext s); [congruence|..]| |rewrite Ec; unfold skb_gro_len; by rewrite F1, F11, Eo, Z.sub_0_r|congruence].
    rewrite (Hts Hl0). split; [done|by left]. }
  eexists _, _, _. split; [exact E|]. by apply (outcome_before _ _ t).
Qed.

End Layers.

Context `{!NoTunnel}.

(** ** Completion *)

Lemma length_be_split n v : length (be_split n v) = n.
Proof. unfold be_split. by rewrite length_reverse, length_le_split. Qed.

(** Writing a length or a checksum into a header. *)
Lemma put16_spec off v s : (Z.to_nat off + 2 <= length (head s))%nat → 0 <= off → ∃ h, put16 off v s = Some (s <| head := h |>) ∧
  length h = length (head s) ∧ (∀ a n, (a + n <= Z.to_nat off ∨ Z.to_nat off + 2 <= a)%nat → slice a n h = slice a n (head s)) ∧
  slice (Z.to_nat off) 2 h = be_split 2 v ∧ (∀ n, (Z.to_nat off + 2 <= n)%nat → drop n h = drop n (head s)).
Proof.
  intros Hl Ho. unfold put16. rewrite (proj2 (Z.leb_le _ _)), (proj2 (Z.leb_le _ _)) by (unfold blen; lia). cbn [andb].
  set (o := Z.to_nat off) in *. eexists. split; [done|]. assert (length (be_split 2 v) = 2%nat) as Hb by apply length_be_split.
  assert (length (take o (head s)) = o) as Ht by (rewrite length_take; lia).
  assert (∀ n, (o + 2 <= n)%nat → drop n (take o (head s) ++ be_split 2 v ++ drop (o + 2) (head s)) = drop n (head s)) as Hd.
  { intros n Hn. rewrite drop_app_ge by lia. rewrite drop_app_ge by lia. rewrite drop_drop. f_equal. lia. }
  split_and!; [rewrite !length_app, length_drop; lia| | |done].
  - intros a n [Ha|Ha]; [|unfold slice; by rewrite Hd]. rewrite slice_app_l by lia. unfold slice. rewrite skipn_firstn_comm, take_take. f_equal. lia.
  - unfold slice. rewrite drop_app_ge by lia. rewrite Ht, Nat.sub_diag, drop_0. by rewrite take_app_length' by lia.
Qed.

(** [p'] is [p] with other lengths and checksums in its headers. *)
Record rewritten (p p' : sk_buff) : Prop := {
  rw_len : length (head p') = length (head p);
  rw_fixed : (addrs (head p'), ports (head p'), ip_protocol (head p')) = (addrs (head p), ports (head p), ip_protocol (head p));
  rw_data : drop 28 (head p') = drop 28 (head p);
  rw_rest : (frags p', frag_list p', len p', gso_size p', is_flist p', count p', meta p', network_offset p', encapsulation p', encap_mark p', gso_type p')
          = (frags p, frag_list p, len p, gso_size p, is_flist p, count p, meta p, network_offset p, encapsulation p, encap_mark p, gso_type p);
}.

Lemma rewritten_refl p : rewritten p p.
Proof. by split. Qed.

Lemma rewritten_trans p q r : rewritten p q → rewritten q r → rewritten p r.
Proof. intros [] []. split; congruence. Qed.

Lemma put16_rewritten off v s : (28 <= length (head s))%nat → off = 2 ∨ off = 10 ∨ off = 24 ∨ off = 26 →
  ∃ s', put16 off v s = Some s' ∧ rewritten s s' ∧ slice (Z.to_nat off) 2 (head s') = be_split 2 v ∧
        (∀ a n, (a + n <= Z.to_nat off ∨ Z.to_nat off + 2 <= a)%nat → slice a n (head s') = slice a n (head s)).
Proof.
  intros Hl Ho. destruct (put16_spec off v s) as (h & -> & Hh & Hs & Hv & Hd); [lia|lia|]. eexists. split; [done|].
  split; [|done]. split; [done| |cbn; apply Hd; lia|done].
  assert (head (s <| head := h |>) = h) as -> by done. unfold addrs, ports, ip_protocol, be. by rewrite !Hs by lia.
Qed.
Lemma rewritten_data p p' : (28 <= length (head p))%nat → rewritten p p' →
  drop 28 (contents p') = drop 28 (contents p) ∧ own_part p' = own_part p ∧ segs p' = segs p.
Proof.
  intros Hl [Rl Rf Rd Rr]. injection Rr as R1 R2 R3 R4 R5 R6 R7 R8 R9 R10 R11. injection Rf as A1 A2 A3.
  assert (drop 28 (contents p') = drop 28 (contents p)) as Ed.
  { rewrite !contents_eq, R1, R2, !drop_app_le, Rd by lia. done. }
  assert (own_part p' = own_part p) as Eo by (unfold own_part; rewrite R1, !drop_app_le, Rd by lia; done).
  split_and!; [done|done|]. unfold segs. by rewrite A1, A2, R5, Eo, R2, R4, Ed.
Qed.

Lemma head_bytes_ok s off n : 0 <= off → 0 <= n → off + n <= blen (head s) → head_bytes s off n = Some (slice (Z.to_nat off) (Z.to_nat n) (head s)).
Proof. intros. unfold head_bytes. by rewrite (proj2 (Z.leb_le _ _)), (proj2 (Z.leb_le _ _)) by lia. Qed.

Lemma be_combine_split n v : be_combine (be_split n v) = v mod 2 ^ (8 * Z.of_nat n).
Proof. unfold be_combine, be_split. by rewrite reverse_involutive, le_combine_split. Qed.

(** What the layers above get of a packet of several datagrams. *)
Record completed (p p' : sk_buff) : Prop := {
  cp_segs : out_segs p' = segs p;
  cp_ulen : udp_len (slice 20 8 (head p')) = len p - 20;
  cp_tot : ip_totlen (head p') = u16 (iph_totlen (len p));
  cp_gso : (len p', gso_size p', gso_segs p') = (len p, gso_size p, count p);
}.

Lemma completed_intro full p q r : hold_ok full p → rewritten p q →
  (head r, frags r, frag_list r, len r, gso_size r) = (head q, frags q, frag_list q, len q, gso_size q) →
  (SKB_GSO_FRAGLIST ∈ gso_type r ↔ is_flist p = true) → gso_segs r = count p →
  udp_len (slice 20 8 (head q)) = len p - 20 → ip_totlen (head q) = u16 (iph_totlen (len p)) → completed p r.
Proof.
  intros Hp Hq Er Ht Eseg Eu Etot. injection Er as R1 R2 R3 R4 R5. pose proof (held_long _ _ Hp) as Hh. unfold blen in Hh.
  destruct (rewritten_data p q) as (Ed & Eo & Es); [lia|done|]. pose proof (rw_rest _ _ Hq) as Rq. injection Rq as Q1 Q2 Q3 Q4 Q5 Q6 Q7 Q8 Q9 Q10 Q11.
  pose proof (rw_fixed _ _ Hq) as Rf. injection Rf as A1 A2 A3. split; [|by rewrite R1..|congruence].
  unfold out_segs, segs. pose proof (ho_size _ _ Hp). rewrite (proj2 (Z.eqb_neq _ _)) by lia. rewrite R1, R5, A1, A2, Q4. f_equal.
  assert (own_part r = own_part p) as -> by (unfold own_part in *; congruence). rewrite R3, Q2.
  assert (contents r = contents q) as -> by by apply contents_ext. rewrite Ed.
  destruct (is_flist p), (decide (SKB_GSO_FRAGLIST ∈ gso_type r)); naive_solver.
Qed.

Lemma ulen_put (q' : sk_buff) v : slice 24 2 (head q') = be_split 2 v → 0 <= v < 65536 → udp_len (slice 20 8 (head q')) = v.
Proof.
  intros Hs Hv. unfold udp_len, be. rewrite slice_slice by lia. change (20 + 4)%nat with 24%nat. rewrite Hs, be_combine_split. by apply Z.mod_small.
Qed.

Lemma held_len full p : hold_ok full p → 28 <= len p.
Proof. intros Hp. rewrite (wf_len _ (ho_wf _ _ Hp)). by apply contents_long, (held_long full). Qed.

Lemma udp_complete_spec full p q : hold_ok full p → count p ≠ 1 → rewritten p q → is_flist p = false →
  ip_totlen (head q) = u16 (iph_totlen (len p)) → ∃ p', udp_gro_complete q 20 = Some (0, p') ∧ completed p p'.
Proof using All.
  intros Hp Hn Hr Hfl Etot. pose proof (held_long _ _ Hp) as Hh. pose proof (rw_len _ _ Hr) as El. unfold blen in Hh.
  pose proof (rw_rest _ _ Hr) as Rr. injection Rr as R1 R2 R3 R4 R5 R6 R7 R8 R9 R10 R11. pose proof (ho_plain _ _ Hp) as Epl. injection Epl as P1 P2.
  pose proof (ho_bound _ _ Hp Hn). pose proof (held_len _ _ Hp).
  unfold udp_gro_complete. destruct (put16_rewritten (20 + 4) (len q - 20) q) as (q' & -> & Hq & Hv & Hs); [lia|tauto|]. rewrite some_bind.
  pose proof (rw_rest _ _ Hq) as Qr. injection Qr as Q1 Q2 Q3 Q4 Q5 Q6 Q7 Q8 Q9 Q10 Q11. pose proof (rw_len _ _ Hq) as El'.
  rewrite (head_bytes_ok q' 20 8) by (unfold blen; lia). rewrite some_bind. set (uh := slice _ _ (head q')).
  assert (udp4_lib_lookup_skb q' (udp_source uh) (udp_dest uh) ≫= sk_gro_complete = None) as ->.
  { destruct (udp4_lib_lookup_skb _ _ _) as [k|] eqn:Ek; [|done]. cbn. by apply nt_complete in Ek. }
  rewrite some_bind. eexists. split; [done|]. apply (completed_intro full p q'); [done|by apply (rewritten_trans p q)| | | | |].
  - unfold udp_gro_complete_segment. cbn. by destruct (encapsulation q'), (l_remcsum_offload _).
  - rewrite Hfl. unfold udp_gro_complete_segment. cbn. destruct (encapsulation q'), (l_remcsum_offload _); cbn; rewrite Q11, R11, P1; set_solver.
  - unfold udp_gro_complete_segment. cbn. destruct (encapsulation q'), (l_remcsum_offload _); cbn; congruence.
  - rewrite R3 in Hv. by apply ulen_put; [|lia].
  - unfold ip_totlen, be in *. rewrite Hs by (cbn; lia). done.
Qed.

Lemma udp4_complete_spec full p q : hold_ok full p → count p ≠ 1 → rewritten p q → network_offset q = 0 → encapsulation q = false →
  ip_totlen (head q) = u16 (iph_totlen (len p)) → ∃ p', udp4_gro_complete q 20 = Some (0, p') ∧ completed p p'.
Proof using All.
  intros Hp Hn Hr En Ee Etot. pose proof (held_long _ _ Hp) as Hh. pose proof (rw_len _ _ Hr) as El. unfold blen in Hh.
  pose proof (rw_rest _ _ Hr) as Rr. injection Rr as R1 R2 R3 R4 R5 R6 R7 R8 R9 R10 R11. pose proof (ho_plain _ _ Hp) as Epl. injection Epl as P1 P2.
  pose proof (ho_bound _ _ Hp Hn). pose proof (held_len _ _ Hp).
  unfold udp4_gro_complete, network_offsets. rewrite Ee, En, (head_bytes_ok q 0 20) by (unfold blen; lia). rewrite some_bind, R10, P2, R5, R3.
  destruct (is_flist p) eqn:Efl; cbn [andb negb].
  - destruct (put16_rewritten (20 + 4) (len p - 20) q) as (q' & -> & Hq & Hv & Hs); [lia|tauto|]. rewrite some_bind. eexists. split; [done|].
    pose proof (rw_rest _ _ Hq) as Qr. injection Qr as Q1 Q2 Q3 Q4 Q5 Q6 Q7 Q8 Q9 Q10 Q11.
    apply (completed_intro full p q'); [done|by apply (rewritten_trans p q)|done| | | |].
    + cbn. rewrite Efl. set_solver.
    + cbn. congruence.
    + by apply ulen_put; [|lia].
    + unfold ip_totlen, be in *. rewrite Hs by (cbn; lia). done.
  - rewrite (head_bytes_ok q 20 8) by (unfold blen; lia). rewrite some_bind. destruct (negb (_ =? 0)).
    + match goal with |- context [put16 (20 + 6) ?v q] => destruct (put16_rewritten (20 + 6) v q) as (q' & -> & Hq & Hv & Hs); [lia|tauto|] end.
      rewrite some_bind. apply (udp_complete_spec full); [done|done|by apply (rewritten_trans p q)|done|]. unfold ip_totlen, be in *. rewrite Hs by (cbn; lia). done.
    + rewrite some_bind. by apply (udp_complete_spec full).
Qed.

Lemma encapsulation_ok full p b : hold_ok full p → hold_ok full (p <| encapsulation := b |>) ∧ segs (p <| encapsulation := b |>) = segs p.
Proof.
  set (q := p <| encapsulation := b |>). intros Hp. assert (contents q = contents p) as Hc by by apply contents_ext.
  split; [|unfold segs; by rewrite Hc]. destruct Hp. split; rewrite ?Hc; try done. by apply (wf_ext _ p).
Qed.

Lemma inet_complete_spec full p : hold_ok full p → count p ≠ 1 →
  ∃ p', inet_gro_complete inet_offloads_udp (p <| encapsulation := false |>) 0 = Some (0, p') ∧ completed p p'.
Proof using All.
  intros Hp0 Hn. destruct (encapsulation_ok full p false Hp0) as [Hp Es]. set (q := p <| encapsulation := false |>) in *.
  assert (∃ p', inet_gro_complete inet_offloads_udp q 0 = Some (0, p') ∧ completed q p') as (p' & E & []); [|by exists p'; split; [done|]; split; [congruence|done..]].
  assert (count q ≠ 1) as Hnq by done. assert (encapsulation q = false) as Ee by done. clearbody q. clear p Hp0 Hn Es.
  pose proof (held_long _ _ Hp) as Hh. unfold blen in Hh.
  unfold inet_gro_complete. rewrite (head_bytes_ok q 0 20) by (unfold blen; lia). rewrite some_bind, Ee.
  destruct (put16_rewritten (0 + 2) (iph_totlen (len q - 0)) q) as (r & -> & Hr & Hv & Hs); [lia|tauto|]. rewrite some_bind.
  match goal with |- context [put16 (0 + 10) ?v r] => destruct (put16_rewritten (0 + 10) v r) as (t & -> & Ht & Hv' & Hs'); [rewrite (rw_len _ _ Hr); lia|tauto|] end.
  rewrite some_bind. pose proof (rewritten_trans _ _ _ Hr Ht) as Hq. pose proof (rw_rest _ _ Hq) as Qr. injection Qr as Q1 Q2 Q3 Q4 Q5 Q6 Q7 Q8 Q9 Q10 Q11.
  assert (ip_protocol (slice (Z.to_nat 0) (Z.to_nat 20) (head q)) = IPPROTO_UDP) as ->.
  { pose proof (ho_shape _ _ Hp) as Hsh. unfold udp_shape in Hsh. apply andb_true_iff in Hsh as [_ Hsh]. apply Z.eqb_eq in Hsh.
    unfold ip_protocol, be in *. rewrite slice_slice by (cbn; lia). done. }
  change (inet_offloads_udp IPPROTO_UDP ≫= gro_complete_cb) with (Some udp4_gro_complete).
  apply (udp4_complete_spec full); [done|done|done| |congruence|].
  - rewrite Q8. apply Hp.
  - unfold ip_totlen, be. rewrite Hs' by (cbn; lia). change 2%nat with (Z.to_nat (0 + 2)) at 1. rewrite Hv, be_combine_split, Z.sub_0_r. done.
Qed.
End Match.
