(* ===== verification/GroRun.v ===== *)
(** * Receive offload as a whole

    Runs of [gro_receive_skb] and [__gro_flush] on one node, with the callbacks of
    IPv4 and UDP.  Whatever packets arrive, nothing outside a buffer is touched, no
    datagram is lost, duplicated or altered, and the buckets are bounded
    ([gro_conserves]); regular datagrams of a flow come up in the order of their
    arrival ([gro_in_order]); a flush leaves nothing that is older than the current
    tick ([gro_flush_spec]). *)
From stdpp Require Import sorting.
From S2P Require Import Prelude Gro GroUdp GroProofs.

Section Run.
Context `{GroEnv} `{GroInetOk} `{!NoTunnel}.

Abbreviation base := [ip_packet_offload].

(** A packet from a driver. *)
Record fresh (s : sk_buff) : Prop := {
  fr_wf : skb_wf s;
  fr_flat : frag_list s = [];
  fr_plain : (gso_type s, gso_size s) = ([], 0);
}.

(** ** Completing *)

Lemma complete_spec full p g : hold_ok full p → ∃ p', gro_complete base p g = Some (gro_normal_one p' g) ∧ out_segs p' = segs p.
Proof using All.
  intros Hp. unfold gro_complete. destruct (Z.eqb_spec (count p) 1) as [E1|E1].
  - eexists. split; [done|]. set (q := p <| gso_size := 0 |>). destruct (ho_single _ _ Hp E1) as [Ef Eg].
    assert (contents q = contents p) as Ec by by apply contents_ext. unfold out_segs. cbn. rewrite Ec.
    rewrite single_segs; [done|done|done|by apply (ho_size full)|by apply (held_long full)|apply Hp].
  - assert (gro_find_complete_by_type base (l_protocol (meta (p <| encapsulation := false |>))) = Some ip_packet_offload) as ->.
    { unfold gro_find_complete_by_type, completes. cbn. by rewrite (ho_type _ _ Hp). }
    cbn [po_callbacks ip_packet_offload gro_complete_cb]. destruct (inet_complete_spec full p Hp E1) as (p' & E & Hc).
    rewrite E, some_bind. exists p'. split; [done|apply Hc].
Qed.

(** ** One bucket *)

(** [g] with another bucket [b] and more packets passed up. *)
Definition put (b : nat) (x : gro_list) (ps : list sk_buff) (g : gro_node) : gro_node :=
  mk_gro_node (<[b := x]> (g_hash g)) (g_bitmask g) (g_passed g ++ ps) (g_dropped g) (g_freed g).

Section Bucket.
Context (b : nat) (g : gro_node) (Hb : (b < length (g_hash g))%nat).

Lemma put_id x : g_hash g !! b = Some x → g = put b x [] g.
Proof using Hb. intros Hx. unfold put. rewrite list_insert_id, app_nil_r by done. by destruct g. Qed.

Lemma put_upd f x ps : upd_bucket b f (put b x ps g) = put b (f x) ps g.
Proof using Hb.
  unfold upd_bucket, put, upd. cbn. f_equal. apply list_eq. intros i. destruct (decide (i = b)) as [->|].
  - rewrite list_lookup_alter_eq, !list_lookup_insert_eq by done. done.
  - by rewrite list_lookup_alter_ne, !list_lookup_insert_ne by done.
Qed.

Lemma put_bucket_lookup x ps : g_hash (put b x ps g) !! b = Some x.
Proof using Hb. by apply list_lookup_insert_eq. Qed.

Lemma put_complete full p x ps : hold_ok full p → ∃ p', gro_complete base p (put b x ps g) = Some (put b x (ps ++ [p']) g) ∧ out_segs p' = segs p.
Proof using All.
  intros Hp. destruct (complete_spec full p (put b x ps g) Hp) as (p' & -> & Ho). exists p'. split; [|done]. unfold gro_normal_one, put, upd. cbn. by rewrite app_assoc.
Qed.

Lemma put_normal s x ps : gro_normal_one s (put b x ps g) = put b x (ps ++ [s]) g.
Proof using. unfold gro_normal_one, put, upd. cbn. by rewrite app_assoc. Qed.

(** The bit of the bucket. *)
Definition marked (x : gro_list) (h : gro_node) : gro_node :=
  h <| g_bitmask ::= fun m => if negb (gl_count x =? 0) then Z.lor m (Z.shiftl 1 (Z.of_nat b)) else Z.ldiff m (Z.shiftl 1 (Z.of_nat b)) |>.

Lemma put_ok x ps s ret : gro_receive_ok b (put b x ps g) s ret = Some (marked x (put b x ps g), s, ret).
Proof using Hb. unfold gro_receive_ok. by rewrite put_bucket_lookup, some_bind. Qed.
End Bucket.

(** ** What a bucket shows *)

Record view := mk_view { v_flow : bytes * bytes; v_segs : list datagram; v_meta : link; v_age : Z }.
Definition view_of (p : sk_buff) : view := mk_view (addrs (head p), ports (head p)) (segs p) (meta p) (age p).
Definition key (s : sk_buff) : bytes * bytes := (addrs (contents s), ports (contents s)).

(** The packets have the same hash, device and link header. *)
Definition alike (m ms : link) : Prop := l_hash ms = l_hash m ∧ gro_diffs m ms = false.
Definition of_flow (s : sk_buff) (w : view) : Prop := v_flow w = key s ∧ alike (v_meta w) (meta s).

Definition new_view (now : Z) (s : sk_buff) : view := mk_view (key s) [one (contents s)] (meta s) now.
Definition add_view (s : sk_buff) (w : view) : view := mk_view (v_flow w) (v_segs w ++ [one (contents s)]) (v_meta w) (v_age w).

(** What receiving [s] does to a bucket, and what it passes up. *)
Inductive received (good : Prop) (v : list view) (s : sk_buff) (now : Z) : list view -> list sk_buff -> Prop :=
| rx_normal s' : out_segs s' = [one (contents s)] → ¬ good → received good v s now v [s']
| rx_hold : Forall (fun w => ¬ of_flow s w) v → udp_shape (contents s) = true → (length v < 8)%nat → received good v s now (new_view now s :: v) []
| rx_evict v0 o o' : v = v0 ++ [o] → length v = 8%nat → Forall (fun w => ¬ of_flow s w) v → udp_shape (contents s) = true →
    out_segs o' = v_segs o → received good v s now (new_view now s :: v0) [o']
| rx_merge v1 w v2 : v = v1 ++ w :: v2 → of_flow s w → udp_shape (contents s) = true → received good v s now (v1 ++ add_view s w :: v2) []
| rx_complete v1 w v2 p' : v = v1 ++ w :: v2 → of_flow s w → udp_shape (contents s) = true → out_segs p' = v_segs w ++ [one (contents s)] →
    received good v s now (v1 ++ v2) [p']
| rx_replace v1 w v2 p' : v = v1 ++ w :: v2 → of_flow s w → udp_shape (contents s) = true → out_segs p' = v_segs w →
    received good v s now (new_view now s :: v1 ++ v2) [p']
| rx_both v1 w v2 p' s' : v = v1 ++ w :: v2 → of_flow s w → out_segs p' = v_segs w → out_segs s' = [one (contents s)] →
    received good v s now (v1 ++ v2) [p'; s'].

Lemma like_view p q : like p q → view_of q = view_of p.
Proof. intros E. unfold view_of. rewrite (like_segs _ _ E). by rewrite (like_eq _ _ E). Qed.

Lemma likes_view l l' : Forall2 like l l' → view_of <$> l' = view_of <$> l.
Proof. induction 1; cbn; [done|]. f_equal; [by apply like_view|done]. Qed.

Lemma prepare_like s l : Forall2 like l (gro_list_prepare l s).
Proof. induction l; cbn; constructor; [unfold prepare_one; by destruct (negb _)|done]. Qed.

Lemma prepare_flow s p : same_flow (prepare_one s p) = true ↔ alike (meta p) (meta s).
Proof.
  unfold prepare_one, alike. destruct (Z.eqb_spec (l_hash (meta s)) (l_hash (meta p))); cbn; [|naive_solver]. rewrite negb_true_iff. naive_solver.
Qed.

Lemma prepare_head s p : head (prepare_one s p) = head p ∧ meta (prepare_one s p) = meta p.
Proof. unfold prepare_one. by destruct (negb _). Qed.

Lemma passed_over_view s t l : contents t = contents s → meta t = meta s → Forall (passed_over t) (gro_list_prepare l s) → Forall (fun w => ¬ of_flow s w) (view_of <$> l).
Proof.
  intros Ec Em. induction l as [|p l IH]; intros Hl; [constructor|]. apply Forall_cons in Hl as [Hp Hl]. constructor; [|by apply IH].
  destruct (prepare_head s p) as [Eh _]. intros [Hk Ha]. apply prepare_flow in Ha. unfold passed_over, key in *. cbn in Hk.
  rewrite Eh, Ec in Hp. injection Hk as H3 H4. destruct Hp as [Hp|[Hp|Hp]]; congruence.
Qed.

(** ** Receiving *)

Definition bucket_of (s : sk_buff) : nat := Z.to_nat (Z.land (l_hash (meta s)) (GRO_HASH_BUCKETS - 1)).

Record bucket_ok (b : nat) (x : gro_list) : Prop := {
  bk_held : Forall (hold_ok true) (gl_list x);
  bk_count : gl_count x = Z.of_nat (length (gl_list x));
  bk_bound : (length (gl_list x) <= 8)%nat;
  bk_hash : Forall (fun p => bucket_of p = b) (gl_list x);
}.

Section Receive.
Context (b : nat) (g : gro_node) (Hb : (b < length (g_hash g))%nat) (now : Z).

Lemma normal_spec x ps s : skb_wf s → pullable (data_offset s) s → gso_size s = 0 →
  ∃ s', gro_receive_normal b (put b x ps g) s = Some (marked b x (put b x ps g), s', GRO_NORMAL) ∧ out_segs s' = [one (contents s)].
Proof using All.
  intros W P E. unfold gro_receive_normal. destruct (gro_pull_contents s W P) as (s' & -> & [Pc _ Pf _]). rewrite some_bind, put_ok by done.
  exists s'. split; [done|]. framed Pf gso_size. unfold out_segs. by rewrite F, E, Pc.
Qed.

Lemma hold_spec x ps s : bucket_ok b x → ready s → bucket_of s = b →
  ∃ h x' ps', gro_hold base now b (put b x ps g) s = Some (marked b x' (put b x' (ps ++ ps') g), h, GRO_HELD) ∧ bucket_ok b x' ∧
    view_of h = new_view now s ∧
    (((length (gl_list x) < 8)%nat ∧ gl_list x' = h :: gl_list x ∧ ps' = []) ∨
     (∃ l0 o o', gl_list x = l0 ++ [o] ∧ length (gl_list x) = 8%nat ∧ gl_list x' = h :: l0 ∧ ps' = [o'] ∧ out_segs o' = segs o)).
Proof using All.
  intros Hx Hs Hbs. destruct (hold_ready now s Hs) as (s' & Hpull & Hok & Hseg & Hcon & Hage & Hmeta).
  pose proof (bk_count _ _ Hx) as Hc. pose proof (bk_bound _ _ Hx) as Hn. pose proof (bk_held _ _ Hx) as Hh. pose proof (bk_hash _ _ Hx) as Hha.
  assert (view_of (as_held now s') = new_view now s) as Hview.
  { unfold view_of, new_view, key. rewrite Hseg, Hage, Hmeta, <- Hcon. pose proof (held_long _ _ Hok) as Hl. unfold blen in Hl.
    unfold addrs, ports. by rewrite !head_slice by lia. }
  assert (bucket_of (as_held now s') = b) as Hbh by (unfold bucket_of; by rewrite Hmeta).
  unfold gro_hold. rewrite put_bucket_lookup, some_bind by done. destruct (Z.leb_spec MAX_GRO_SKBS (gl_count x)) as [Hfull|Hroom]; unfold MAX_GRO_SKBS in *.
  - assert (length (gl_list x) = 8%nat) as H8 by lia. destruct (gl_list x) as [|o l0 _] eqn:El using rev_ind; [done|].
    rewrite length_app in H8. cbn in H8. apply Forall_app in Hh as [Hh0 [Ho _]%Forall_cons]. apply Forall_app in Hha as [Hha0 _].
    assert (gro_flush_oldest base b (put b x ps g) = gro_complete base o (put b (x <| gl_list := l0 |>) ps g)) as ->.
    { unfold gro_flush_oldest. rewrite put_bucket_lookup, some_bind, El, fmap_app by done. cbn. rewrite last_last. cbn. rewrite put_upd by done.
      f_equal. f_equal. unfold upd. cbn. f_equal. rewrite El, length_app. cbn. rewrite Nat.add_sub. by rewrite take_app_length. }
    destruct (put_complete b g Hb true o (x <| gl_list := l0 |>) ps Ho) as (o' & -> & Hoo). rewrite some_bind, Hpull, some_bind.
    change (if skb_is_gso _ then _ else _) with (as_held now s'). rewrite put_upd, put_ok by done. eexists _, _, [o']. split; [done|].
    split; [split; cbn; [by constructor|rewrite Hc, length_app; cbn; lia|lia|by constructor]|]. split; [done|]. right. exists l0, o, o'.
    split_and!; [done|rewrite length_app; cbn; lia|done|done|done].
  - rewrite put_upd, some_bind, Hpull, some_bind by done. change (if skb_is_gso _ then _ else _) with (as_held now s'). rewrite put_upd, put_ok by done.
    eexists _, _, []. rewrite app_nil_r. split; [done|]. split; [split; cbn; [by constructor|lia|lia|by constructor]|]. split; [done|]. left. split_and!; [lia|done|done].
Qed.
(** The packets of the bucket, after the callback, other than the one of the flow. *)
Lemma outcome_others good l s l' s' pp : Forall (hold_ok true) l → outcome good l s l' s' pp →
  (pp = NoPP ∧ Forall (hold_ok true) l' ∧ same_flow s' = false ∧ view_of <$> l' = view_of <$> l ∧ still s s' ∧
     (flush s' = 0 → ready s' ∧ Forall (passed_over s) l) ∧ (good → flush s' = 0)) ∨
  (∃ l1 p l2 l1' p' l2' s0 (bo : bool), l = l1 ++ p :: l2 ∧ l' = l1' ++ p' :: l2' ∧ pp = (if bo then PP (length l1') else NoPP) ∧
     view_of <$> l1' = view_of <$> l1 ∧ view_of <$> l2' = view_of <$> l2 ∧ Forall (hold_ok true) l1' ∧ Forall (hold_ok true) l2' ∧ hold_ok true p ∧
     same_flow p = true ∧ ports (head p) = ports (contents s) ∧ addrs (head p) = addrs (contents s) ∧ contents s0 = contents s ∧ ready s0 ∧
     (is_flist s0 = true → NETIF_F_GRO_FRAGLIST (l_dev (meta s)) = true) ∧ (same_flow s' = false → still s s') ∧ matched p s0 p' s' bo).
Proof using.
  intros Hl [l'' s'' Hk Hst Hf Hr Hg|l1 p l2 l1' p' l2' s0 s'' bo -> Hk1 Hk2 Hf Hs Hp Ha Ec0 Hrd Hfl Hstl Hm].
  - left. split_and!; [done|by apply (likes_ok l)|done|by apply likes_view|done|done|done].
  - right. apply Forall_app in Hl as [Hl1 [Hl2 Hl3]%Forall_cons]. exists l1, p, l2, l1', p', l2', s0, bo.
    rewrite (Forall2_length _ _ _ Hk1). split_and!; try done; [by apply likes_view|by apply likes_view|by apply (likes_ok l1)|by apply (likes_ok l2)].
Qed.
(** [g'] is [g] with the bucket [x'] in place [b] and [ps] passed up. *)
Record lands (x' : gro_list) (ps : list sk_buff) (g' : gro_node) : Prop := {
  la_hash : g_hash g' = <[b := x']> (g_hash g);
  la_mask : g_bitmask g' = if negb (gl_count x' =? 0) then Z.lor (g_bitmask g) (Z.shiftl 1 (Z.of_nat b))
                           else Z.ldiff (g_bitmask g) (Z.shiftl 1 (Z.of_nat b));
  la_passed : g_passed g' = g_passed g ++ ps;
  la_dropped : g_dropped g' = g_dropped g;
}.

Lemma finish_normal x ps s : lands x (ps ++ [s]) (gro_skb_finish (marked b x (put b x ps g)) s GRO_NORMAL).
Proof using. split; cbn; [done|done|by rewrite app_assoc|done]. Qed.

Lemma finish_held x ps s : lands x ps (gro_skb_finish (marked b x (put b x ps g)) s GRO_HELD).
Proof using. by split. Qed.

Lemma finish_merged x ps s ret : ret = GRO_MERGED ∨ ret = GRO_MERGED_FREE → lands x ps (gro_skb_finish (marked b x (put b x ps g)) s ret).
Proof using. intros [-> | ->]; by split. Qed.

Definition outcome_ok (good : Prop) (x : gro_list) (s : sk_buff) (o : option (gro_node * sk_buff * gro_result)) : Prop :=
  ∃ g' s' ret x' ps, o = Some (g', s', ret) ∧ lands x' ps (gro_skb_finish g' s' ret) ∧ bucket_ok b x' ∧
    received good (view_of <$> gl_list x) s now (view_of <$> gl_list x') ps.

Lemma after_normal good x x' ps s s' : bucket_ok b x' → skb_wf s' → pullable (data_offset s') s' → gso_size s' = 0 → contents s' = contents s →
  (∀ u, out_segs u = [one (contents s)] → received good (view_of <$> gl_list x) s now (view_of <$> gl_list x') (ps ++ [u])) →
  outcome_ok good x s (gro_receive_normal b (put b x' ps g) s').
Proof using All.
  intros Hx W P E Ec Hr. destruct (normal_spec x' ps s' W P E) as (u & -> & Hu). rewrite Ec in Hu.
  eexists _, _, _, x', (ps ++ [u]). split; [done|]. split; [apply finish_normal|]. split; [done|by apply Hr].
Qed.

Lemma after_hold good x x' ps s s' : bucket_ok b x' → ready s' → bucket_of s = b → contents s' = contents s → meta s' = meta s →
  (∀ h, view_of h = new_view now s → (length (gl_list x') < 8)%nat → received good (view_of <$> gl_list x) s now (view_of <$> h :: gl_list x') ps) →
  (∀ h l0 o o', view_of h = new_view now s → gl_list x' = l0 ++ [o] → length (gl_list x') = 8%nat → out_segs o' = segs o →
     received good (view_of <$> gl_list x) s now (view_of <$> h :: l0) (ps ++ [o'])) →
  outcome_ok good x s (gro_hold base now b (put b x' ps g) s').
Proof using All.
  intros Hx Hs Hbs Ec Em Hr1 Hr2. destruct (hold_spec x' ps s') as (h & y & ps' & -> & Hy & Hh & Hc); [done|done|by unfold bucket_of in *; rewrite Em|].
  assert (view_of h = new_view now s) as Hh' by (rewrite Hh; unfold new_view, key; by rewrite Ec, Em).
  eexists _, _, _, y, (ps ++ ps'). split; [done|]. split; [apply finish_held|]. split; [done|].
  destruct Hc as [(Hl & -> & ->)|(l0 & o & o' & Hl & H8 & -> & -> & Ho)]; [rewrite app_nil_r; by apply Hr1|by apply (Hr2 h l0 o o')].
Qed.
Lemma views_bucket l l' : view_of <$> l' = view_of <$> l → Forall (fun p => bucket_of p = b) l → Forall (fun p => bucket_of p = b) l'.
Proof using.
  intros E Hl. assert (Forall (fun w => Z.to_nat (Z.land (l_hash (v_meta w)) (GRO_HASH_BUCKETS - 1)) = b) (view_of <$> l')) as Hv by (rewrite E; by apply Forall_fmap).
  by apply Forall_fmap in Hv.
Qed.

Lemma prepared_alike s l : Forall (fun p => same_flow p = true → alike (meta p) (meta s)) (gro_list_prepare l s).
Proof using. induction l as [|p l IH]; constructor; [|done]. destruct (prepare_head s p) as [_ ->]. apply prepare_flow. Qed.

Lemma after_kept good x l' s sc s' : bucket_ok b x → bucket_of s = b → contents sc = contents s → meta sc = meta s → gso_size sc = 0 →
  Forall (hold_ok true) l' → same_flow s' = false → view_of <$> l' = view_of <$> gro_list_prepare (gl_list x) s → still sc s' →
  (flush s' = 0 → ready s' ∧ Forall (passed_over sc) (gro_list_prepare (gl_list x) s)) → (good → flush s' = 0) →
  outcome_ok good x s (gro_after_callback base now b (put b (x <| gl_list := l' |>) [] g) s' NoPP).
Proof using All.
  intros Hx Hbs Ec Em Eg Hl' Hsf Hv Hst Hrd Hg. rewrite (likes_view _ _ (prepare_like s (gl_list x))) in Hv.
  pose proof (st_same _ _ Hst) as Es. injection Es as S1 S2 S3 S4. pose proof (st_contents _ _ Hst) as Ecs.
  assert (length l' = length (gl_list x)) as Hlen by (by rewrite <- (length_fmap view_of), Hv, length_fmap).
  assert (bucket_ok b (x <| gl_list := l' |>)) as Hx'.
  { destruct Hx as [B1 B2 B3 B4]. split; cbn; [done|by rewrite Hlen|by rewrite Hlen|by apply (views_bucket (gl_list x))]. }
  unfold gro_after_callback. rewrite some_bind, Hsf. destruct (Z.eqb_spec (flush s') 0) as [Ef|Ef]; cbn [negb].
  - destruct (Hrd Ef) as [Hr Hp]. apply (passed_over_view _ _ _ Ec Em) in Hp.
    apply after_hold; [done|done|done|congruence|congruence| |].
    + intros h Hh Hl8. cbn [fmap list_fmap]. rewrite Hh. cbn. rewrite Hv. apply rx_hold; [done| |].
      * rewrite <- Ec, <- Ecs. apply Hr.
      * rewrite length_fmap. cbn in Hl8. lia.
    + intros h l0 o o' Hh Ho H8 Hoo. cbn in Ho, H8. cbn [fmap list_fmap]. rewrite Hh. cbn [app]. apply (rx_evict _ _ _ _ _ (view_of o)); [| |done| |done].
      * rewrite <- Hv, Ho, fmap_app. done.
      * rewrite length_fmap. lia.
      * rewrite <- Ec, <- Ecs. apply Hr.
  - apply after_normal; [done|apply Hst|apply Hst|congruence|congruence|]. intros u Hu. cbn. rewrite Hv. apply rx_normal; [done|]. intros Hgd. by apply Ef, Hg.
Qed.
(** The packet of the flow is taken out of the bucket and completed. *)
Lemma complete_found full x l1 p l2 : hold_ok full p → gl_list x = l1 ++ p :: l2 → gl_count x = Z.of_nat (length (gl_list x)) →
  ∃ p' y, (y0 ← g_hash (put b x [] g) !! b; q ← gl_list y0 !! length l1;
           g ← gro_complete base q (upd_bucket b (fun x => x <| gl_list ::= delete (length l1) |>) (put b x [] g));
           Some (upd_bucket b (fun x => x <| gl_count ::= fun c => c - 1 |>) g)) = Some (put b y [p'] g) ∧
    out_segs p' = segs p ∧ gl_list y = l1 ++ l2 ∧ gl_count y = Z.of_nat (length (l1 ++ l2)).
Proof using All.
  intros Hp El Hc. rewrite put_bucket_lookup, some_bind, El by done. rewrite lookup_app_r, Nat.sub_diag by lia. cbn [lookup list_lookup].
  rewrite some_bind, put_upd by done. destruct (put_complete b g Hb full p (x <| gl_list ::= delete (length l1) |>) [] Hp) as (p' & -> & Ho).
  rewrite some_bind, put_upd by done. eexists p', _. split; [done|]. split; [done|]. cbn. rewrite El. split.
  - rewrite delete_middle. done.
  - rewrite Hc, El, !length_app. cbn. lia.
Qed.

Lemma after_found good x l1 p l2 l1' p' l2' s0 s sc s' (bo : bool) : bucket_ok b x → bucket_of s = b → contents sc = contents s → meta sc = meta s →
  gso_size sc = 0 → (good → NETIF_F_GRO_FRAGLIST (l_dev (meta s)) = false) →
  gro_list_prepare (gl_list x) s = l1 ++ p :: l2 → view_of <$> l1' = view_of <$> l1 → view_of <$> l2' = view_of <$> l2 →
  Forall (hold_ok true) l1' → Forall (hold_ok true) l2' → hold_ok true p → same_flow p = true → ports (head p) = ports (contents sc) → addrs (head p) = addrs (contents sc) →
  contents s0 = contents sc → ready s0 → (is_flist s0 = true → NETIF_F_GRO_FRAGLIST (l_dev (meta sc)) = true) → (same_flow s' = false → still sc s') →
  matched p s0 p' s' bo →
  outcome_ok good x s (gro_after_callback base now b (put b (x <| gl_list := l1' ++ p' :: l2' |>) [] g) s' (if bo then PP (length l1') else NoPP)).
Proof using All.
  intros Hx Hbs Ec Em Eg Hgf El Hv1 Hv2 Hk1 Hk2 Hp Hsf Hpo Had Ec0 Hr0 Hfl Hst [Mm Mc]. injection Mm as M1 M2 M3 M4.
  assert (of_flow s (view_of p)) as Hof.
  { split; [unfold key; cbn; congruence|]. pose proof (prepared_alike s (gl_list x)) as Ha. rewrite El in Ha. apply Forall_app in Ha as [_ [Ha _]%Forall_cons]. by apply Ha. }
  assert (view_of <$> gl_list x = (view_of <$> l1') ++ view_of p :: (view_of <$> l2')) as Hv.
  { rewrite <- (likes_view _ _ (prepare_like s (gl_list x))), El, fmap_app. cbn. by rewrite Hv1, Hv2. }
  assert (udp_shape (contents s) = true) as Hsh by (rewrite <- Ec, <- Ec0; apply Hr0).
  assert (length (l1' ++ p' :: l2') = length (gl_list x)) as Hlen.
  { rewrite <- (length_fmap view_of (gl_list x)), Hv, !length_app, !length_fmap. cbn. by rewrite length_fmap. }
  destruct Hx as [B1 B2 B3 B4].
  assert (Forall (fun p => bucket_of p = b) l1' ∧ bucket_of p = b ∧ Forall (fun p => bucket_of p = b) l2') as (Hb1 & Hb2 & Hb3).
  { pose proof (views_bucket (gl_list x) (l1' ++ p :: l2')) as Hvb. rewrite fmap_app in Hvb. cbn in Hvb. specialize (Hvb (eq_sym Hv) B4).
    apply Forall_app in Hvb as [? [? ?]%Forall_cons]. done. }
  destruct Mc as [(Ms & Mk & Mg)|(-> & Ms & Mst & Mr & Mb)].
  - assert (view_of p' = add_view s (view_of p)) as Hvp.
    { unfold view_of, add_view. cbn. rewrite Mg, M1, M2, M3, M4, Ec0, Ec. done. }
    destruct bo; unfold gro_after_callback; cbn [negb] in Mk.
    + destruct (complete_found false (x <| gl_list := l1' ++ p' :: l2' |>) l1' p' l2') as (u & y & E & Hu & Hy & Hyc); [done|done|cbn; by rewrite Hlen|].
      rewrite E, some_bind, Ms, put_ok by done. eexists _, _, _, y, [u]. split; [done|]. split; [apply finish_merged; destruct (_ =? 0); tauto|].
      split; [split; rewrite ?Hy; [by apply Forall_app|done|rewrite length_app in *; cbn in Hlen; lia|by apply Forall_app]|].
      rewrite Hv, Hy, fmap_app. apply (rx_complete _ _ _ _ _ (view_of p)); [done|done|done|]. rewrite Hu, Mg, Ec0, Ec. done.
    + rewrite some_bind, Ms, put_ok by done. eexists _, _, _, _, []. split; [done|]. split; [apply finish_merged; destruct (_ =? 0); tauto|].
      split; [split; cbn; [by apply Forall_app; split; [|constructor]|by rewrite Hlen|by rewrite Hlen|]|].
      * apply Forall_app; split; [done|constructor; [unfold bucket_of in *; by rewrite M1|done]].
      * cbn. rewrite Hv, fmap_app. cbn. rewrite Hvp. by apply rx_merge.
  - specialize (Hst Ms). pose proof (st_same _ _ Hst) as Es. injection Es as S1 S2 S3 S4. pose proof (st_contents _ _ Hst) as Ecs.
    destruct bo; unfold gro_after_callback.
    + destruct (complete_found true (x <| gl_list := l1' ++ p :: l2' |>) l1' p l2') as (u & y & E & Hu & Hy & Hyc); [done|done|cbn; by rewrite Hlen|].
      assert (bucket_ok b y) as Hyo by (split; rewrite ?Hy; [by apply Forall_app|done|rewrite length_app in *; cbn in Hlen; lia|by apply Forall_app]).
      rewrite E, some_bind, Ms. destruct (Z.eqb_spec (flush s') 0) as [Ef|Ef]; cbn [negb].
      * apply after_hold; [done|by apply Mr|done|congruence|congruence| |].
        -- intros h Hh _. cbn [fmap list_fmap]. rewrite Hh. cbn. rewrite Hv, Hy, fmap_app. by apply (rx_replace _ _ _ _ _ (view_of p)).
        -- intros h l0 o o' _ _ H8 _. rewrite Hy in H8. rewrite length_app in *. cbn in Hlen. lia.
      * apply after_normal; [done|apply Hst|apply Hst|congruence|congruence|]. intros w Hw. rewrite Hv, Hy, fmap_app. by apply (rx_both _ _ _ _ _ (view_of p)).
    + rewrite some_bind, Ms. destruct (Mb eq_refl) as [Hf1 Hf2]. rewrite (proj2 (Z.eqb_neq _ _)) by done. cbn [negb].
      apply after_normal; [|apply Hst|apply Hst|congruence|congruence|].
      * split; cbn; [by apply Forall_app; split; [|constructor]|by rewrite Hlen|by rewrite Hlen|]. apply Forall_app; split; [done|by constructor].
      * intros w Hw. cbn. rewrite Hv, fmap_app. apply rx_normal; [done|]. intros Hgd. rewrite Em in Hfl. rewrite Hfl in Hgf by done. by apply Hgf in Hgd.
Qed.
End Receive.

(** A datagram that GRO merges with those of its flow. *)
Definition mergeable (s : sk_buff) : Prop :=
  netif_elide_gro (l_dev (meta s)) = false ∧ l_protocol (meta s) = ETH_P_IP ∧ NETIF_F_GRO_FRAGLIST (l_dev (meta s)) = false ∧
  regular (gro_prepare_cb (skb_gro_reset_offset s)).

Lemma reset_spec s : fresh s → let t := skb_gro_reset_offset s in
  contents t = contents s ∧ skb_wf t ∧ meta t = meta s ∧ data_offset t = 0 ∧ gso_size t = 0 ∧ gso_type t = [] ∧ frag_list t = [].
Proof.
  intros [W F P]. injection P as P1 P2. unfold skb_gro_reset_offset. cbn.
  assert (∀ t, head t = head s → frags t = frags s → frag_list t = frag_list s → len t = len s → data_len t = data_len s → meta t = meta s →
    data_offset t = 0 → gso_size t = gso_size s → gso_type t = gso_type s →
    contents t = contents s ∧ skb_wf t ∧ meta t = meta s ∧ data_offset t = 0 ∧ gso_size t = 0 ∧ gso_type t = [] ∧ frag_list t = []) as Ht.
  { intros t E1 E2 E3 E4 E5 E6 E7 E8 E9. split_and!; [by apply contents_ext|by apply (wf_ext _ s)|done|done|congruence..]. }
  destruct (negb _); [by apply Ht|]. destruct (frags s) eqn:Efs; [by apply Ht|]. destruct (l_frag0_usable _); by apply Ht.
Qed.

Lemma prepare_cb_spec t : skb_wf t → frag_list t = [] → data_offset t = 0 → gso_size t = 0 → gso_type t = [] → l_protocol (meta t) = ETH_P_IP →
  arrived (gro_prepare_cb t) ∧ contents (gro_prepare_cb t) = contents t ∧ meta (gro_prepare_cb t) = meta t ∧ recursion_counter (gro_prepare_cb t) = 0.
Proof.
  intros W F Eo Eg Et Ep. unfold gro_prepare_cb, skb_has_frag_list, skb_is_gso. rewrite F. cbn. rewrite Eg. cbn.
  assert (∀ u, head u = head t → frags u = frags t → frag_list u = frag_list t → len u = len t → data_len u = data_len t → meta u = meta t → data_offset u = 0 →
    (gso_type u, encap_mark u, gso_size u, free u, same_flow u, count u) = ([], false, 0, 0, false, 1) → recursion_counter u = 0 →
    arrived u ∧ contents u = contents t ∧ meta u = meta t ∧ recursion_counter u = 0) as Hu.
  { intros u E1 E2 E3 E4 E5 E6 E7 E8 E9. assert (contents u = contents t) by by apply contents_ext.
    split_and!; [split; [by apply (wf_ext _ t)|congruence|done|congruence|done]|done|done|done]. }
  destruct (ip_summed t); apply Hu; try done; cbn; by rewrite Et, Eg.
Qed.

Lemma prepare_ext s t l : meta t = meta s → gro_list_prepare l t = gro_list_prepare l s.
Proof. intros Em. unfold gro_list_prepare. apply list_fmap_ext. intros i p _. unfold prepare_one. by rewrite Em. Qed.

Section Node.
Context (g : gro_node) (now : Z) (s : sk_buff) (x : gro_list) (Hs : fresh s).
Context (Hx : g_hash g !! bucket_of s = Some x) (Ok : bucket_ok (bucket_of s) x).

Lemma receive_spec : ∃ g' ret x' ps, gro_receive_skb base now g s = Some (g', ret) ∧ lands (bucket_of s) g x' ps g' ∧ bucket_ok (bucket_of s) x' ∧
  received (mergeable s) (view_of <$> gl_list x) s now (view_of <$> gl_list x') ps.
Proof using All.
  destruct (reset_spec s Hs) as (Ec & W & Em & Eo & Eg & Et & Ef). unfold gro_receive_skb, dev_gro_receive, mergeable. set (t := skb_gro_reset_offset s) in *. clearbody t.
  assert (Z.to_nat (Z.land (l_hash (meta t)) (GRO_HASH_BUCKETS - 1)) = bucket_of s) as -> by (unfold bucket_of; by rewrite Em).
  assert (bucket_of s < length (g_hash g))%nat as Hb by by apply lookup_lt_is_Some; exists x.
  assert (∀ good o, outcome_ok (bucket_of s) g now good x s o → (∃ g' ret x' ps, ('(g, s, ret) ← o; Some (gro_skb_finish g s ret, ret)) = Some (g', ret) ∧
    lands (bucket_of s) g x' ps g' ∧ bucket_ok (bucket_of s) x' ∧ received good (view_of <$> gl_list x) s now (view_of <$> gl_list x') ps)) as Hfin.
  { intros good o (g' & s' & ret & x' & ps & -> & Hl & Hk & Hr). by exists (gro_skb_finish g' s' ret), ret, x', ps. }
  apply Hfin. clear Hfin. assert (pullable (data_offset t) t) as P0 by (rewrite Eo; split; [done|left; apply blen_nonneg]).
  set (y := x <| gl_list := gro_list_prepare (gl_list x) s |>).
  assert (upd_bucket (bucket_of s) (fun x => x <| gl_list ::= fun l => gro_list_prepare l t |>) g = put (bucket_of s) y [] g) as ->.
  { rewrite (put_id _ _ Hb x Hx) at 1. rewrite put_upd by done. unfold y, upd. cbn. by rewrite (prepare_ext s t). }
  assert (view_of <$> gl_list y = view_of <$> gl_list x) as Hv by apply likes_view, prepare_like.
  assert (length (gl_list y) = length (gl_list x)) as Hlen by apply length_fmap.
  assert (bucket_ok (bucket_of s) y) as Oy.
  { destruct Ok as [B1 B2 B3 B4]. split; cbn [gl_count y]; [by apply (likes_ok (gl_list x)), B1; apply prepare_like|by rewrite Hlen|by rewrite Hlen|].
    by apply (views_bucket _ (gl_list x)). }
  rewrite <- Em. destruct (netif_elide_gro _) eqn:Ee.
  { rewrite (put_id _ _ Hb x Hx) at 2. apply after_normal; try done. intros u Hu. apply rx_normal; [done|]. by intros [? _]. }
  unfold gro_find_receive_by_type, receives. cbn [List.find po_type ip_packet_offload]. destruct (Z.eqb_spec ETH_P_IP (l_protocol (meta t))) as [Ety|Ety]; cbn [andb].
  - rewrite bool_decide_eq_true_2 by done. rewrite some_bind. cbn [po_callbacks ip_packet_offload gro_receive].
    rewrite put_bucket_lookup, some_bind by done.
    destruct (prepare_cb_spec t W Ef Eo Eg Et (eq_sym Ety)) as (Har & Ecc & Emc & Erc).
    set (good := _ ∧ _). destruct (inet_receive_spec good (gl_list y) (gro_prepare_cb t)) as (l' & s' & pp & -> & Ho); [apply Oy|done|by intros (_ & _ & _ & ?)|].
    rewrite some_bind, put_upd by done. apply outcome_others in Ho; [|apply Oy].
    pose proof (ar_plain _ Har) as Epl. injection Epl as P1 P2 P3 P4 P5 P6.
    destruct Ho as [(-> & Hk & Hsf & Hvl & Hst & Hr & Hg)|(l1 & p & l2 & l1' & p' & l2' & s0 & bo & El & -> & -> & Hv1 & Hv2 & Hk1 & Hk2 & Hp & Hsf & Hpo & Had & Ec0 & Hr0 & Hfl & Hst & Hm)].
    + apply (after_kept (bucket_of s) g Hb now good x l' s (gro_prepare_cb t) s'); try done; congruence.
    + apply (after_found (bucket_of s) g Hb now good x l1 p l2 l1' p' l2' s0 s (gro_prepare_cb t) s' bo); try done; try congruence. unfold good. rewrite <- Em. tauto.
  - apply after_normal; try done. intros u Hu. rewrite Hv. apply rx_normal; [done|]. rewrite Em in *. naive_solver.
Qed.
End Node.

(** ** Flushing *)

Section Flush.
Context (g : gro_node) (now : Z) (flush_old : bool) (b : nat) (Hb : (b < length (g_hash g))%nat).

Lemma flush_chain_spec l : ∀ x ps, gl_list x = reverse l → bucket_ok b x →
  ∃ all y keep gone ps', flush_chain base now flush_old b l (put b x ps g) = Some (all, put b y (ps ++ ps') g) ∧ bucket_ok b y ∧
    gl_list x = keep ++ gone ∧ gl_list y = keep ∧ out_segs <$> ps' = segs <$> reverse gone ∧
    (all = true → keep = []) ∧ (all = false → flush_old = true ∧ ∃ k p, keep = k ++ [p] ∧ age p = now).
Proof using All.
  induction l as [|p l IH]; intros x ps El Hx.
  { eexists true, x, [], [], []. rewrite app_nil_r. by split_and!. }
  rewrite reverse_cons in El. destruct Hx as [B1 B2 B3 B4]. cbn [flush_chain]. destruct (flush_old && (age p =? now)) eqn:Ea.
  { apply andb_true_iff in Ea as [Ef Ea%Z.eqb_eq]. eexists false, x, (gl_list x), [], []. rewrite !app_nil_r. split; [done|]. split; [by split|].
    split_and!; [done|done|done|done|]. intros _. split; [done|]. by exists (reverse l), p. }
  rewrite put_upd by done. set (x1 := x <| gl_list ::= _ |>).
  assert (gl_list x1 = reverse l) as El1 by (cbn; rewrite El, length_app; cbn; rewrite Nat.add_sub; by rewrite take_app_length).
  rewrite El in B1, B3, B4. apply Forall_app in B1 as [B1 [Hp _]%Forall_cons]. apply Forall_app in B4 as [B4 _].
  destruct (put_complete b g Hb true p x1 ps Hp) as (p' & -> & Ho). rewrite some_bind, put_upd by done.
  destruct (IH (x1 <| gl_count ::= fun c => c - 1 |>) (ps ++ [p'])) as (all & y & keep & gone & ps' & -> & Hy & Ex & Ey & Eo & Ha & Hn); [done| |].
  { split; cbn [gl_list]; change (gl_list (x1 <| gl_count ::= _ |>)) with (gl_list x1); rewrite ?El1; [done| |rewrite length_app in B3; lia|done].
    cbn. rewrite B2, El, length_app. cbn. lia. }
  eexists all, y, keep, (gone ++ [p]), (p' :: ps'). rewrite <- app_assoc. split; [done|]. split; [done|].
  change (gl_list (x1 <| gl_count ::= _ |>)) with (gl_list x1) in Ex. rewrite El1 in Ex.
  split_and!; [rewrite El, Ex; by rewrite app_assoc|done| |done|done]. rewrite reverse_app. cbn. by rewrite Ho, Eo.
Qed.

(** One bucket: a tail of the list is passed up, oldest first; nothing is left, or
    what is left ends with a packet of this tick. *)
Record flushed (x y : gro_list) (ps : list sk_buff) : Prop := {
  fl_ok : bucket_ok b y;
  fl_split : ∃ gone, gl_list x = gl_list y ++ gone ∧ out_segs <$> ps = segs <$> reverse gone;
  fl_left : gl_list y = [] ∨ (flush_old = true ∧ ∃ k p, gl_list y = k ++ [p] ∧ age p = now);
}.

Lemma flush_bucket_spec x : g_hash g !! b = Some x → bucket_ok b x →
  ∃ y ps, __gro_flush_chain base now flush_old b g =
    Some ((put b y ps g) <| g_bitmask ::= fun m => if is_nil (gl_list y) then Z.ldiff m (Z.shiftl 1 (Z.of_nat b)) else m |>) ∧ flushed x y ps.
Proof using All.
  intros Hx Ok. unfold __gro_flush_chain. rewrite Hx, some_bind.
  assert (flush_chain base now flush_old b (reverse (gl_list x)) g = flush_chain base now flush_old b (reverse (gl_list x)) (put b x [] g)) as ->
    by (f_equal; by apply put_id).
  destruct (flush_chain_spec (reverse (gl_list x)) x []) as (all & y & keep & gone & ps & -> & Hy & Ex & Ey & Eo & Ha & Hn); [by rewrite reverse_involutive|done|].
  rewrite some_bind. cbn [app]. pose proof (bk_count _ _ Hy) as Hc. exists y, ps. destruct all.
  - rewrite put_bucket_lookup, some_bind by done. rewrite Hc, Ey, (Ha eq_refl). cbn. split; [done|]. split; [done|exists gone; by rewrite Ey|left; by rewrite Ey, Ha].
  - destruct (Hn eq_refl) as (Hf & k & p & Ek & Hp). split; [|split; [done|exists gone; by rewrite Ey|right; split; [done|]; exists k, p; by rewrite Ey]].
    rewrite Ey, Ek. destruct (k ++ [p]) eqn:E; [by destruct k|]. by destruct g.
Qed.
End Flush.

(** ** The node *)

Record node_ok (g : gro_node) : Prop := {
  no_len : length (g_hash g) = 8%nat;
  no_bucket : ∀ b x, g_hash g !! b = Some x → bucket_ok b x;
  no_mask : ∀ b x, g_hash g !! b = Some x → Z.testbit (g_bitmask g) (Z.of_nat b) = negb (is_nil (gl_list x));
  no_high : 0 <= g_bitmask g ∧ ∀ i, 8 <= i → Z.testbit (g_bitmask g) i = false;
  no_dropped : g_dropped g = [];
}.

Lemma shifted_bit b i : 0 <= i → Z.testbit (Z.shiftl 1 (Z.of_nat b)) i = (i =? Z.of_nat b).
Proof. intros Hi. rewrite Z.shiftl_1_l, Z.pow2_bits_eqb by lia. by rewrite Z.eqb_sym. Qed.

(** Setting or clearing the bit of one bucket. *)
Lemma node_put g b y ps fr (on : bool) m : node_ok g → (b < 8)%nat → bucket_ok b y → on = negb (is_nil (gl_list y)) →
  m = (if on then Z.lor (g_bitmask g) (Z.shiftl 1 (Z.of_nat b)) else Z.ldiff (g_bitmask g) (Z.shiftl 1 (Z.of_nat b))) →
  node_ok (mk_gro_node (<[b := y]> (g_hash g)) m (g_passed g ++ ps) (g_dropped g) fr).
Proof.
  intros [N1 N2 N3 [N4 N5] N6] Hb Hy Hon ->.
  assert (∀ i, 0 <= i → Z.testbit (if on then Z.lor (g_bitmask g) (Z.shiftl 1 (Z.of_nat b)) else Z.ldiff (g_bitmask g) (Z.shiftl 1 (Z.of_nat b))) i
    = if i =? Z.of_nat b then on else Z.testbit (g_bitmask g) i) as Hbit.
  { intros i Hi. destruct on; rewrite ?Z.lor_spec, ?Z.ldiff_spec, shifted_bit by done; destruct (i =? Z.of_nat b), (Z.testbit (g_bitmask g) i); done. }
  split; cbn; [by rewrite length_insert|..|done].
  - intros c x Hc. apply list_lookup_insert_Some in Hc as [(<- & -> & _)|(_ & Hc)]; [done|by apply N2].
  - intros c x Hc. rewrite Hbit by lia. apply list_lookup_insert_Some in Hc as [(<- & -> & _)|(Hne & Hc)]; [by rewrite Z.eqb_refl|].
    rewrite (proj2 (Z.eqb_neq _ _)) by lia. by apply N3.
  - split; [destruct on; [apply Z.lor_nonneg; split; [done|apply Z.shiftl_nonneg; lia]|apply Z.ldiff_nonneg; by left]|].
    intros i Hi. rewrite Hbit by lia. rewrite (proj2 (Z.eqb_neq _ _)) by lia. by apply N5.
Qed.

Lemma node_lands g b x' ps g' : node_ok g → (b < 8)%nat → bucket_ok b x' → lands b g x' ps g' → node_ok g'.
Proof.
  intros Hg Hb Hx [L1 L2 L3 L4]. destruct g' as [h m p d f]. cbn in *. subst. apply (node_put g b x' ps f (negb (gl_count x' =? 0))); [done|done|done| |done].
  rewrite (bk_count _ _ Hx). by destruct (gl_list x').
Qed.

Lemma bucket_range s : (bucket_of s < 8)%nat.
Proof.
  unfold bucket_of, GRO_HASH_BUCKETS. assert (0 <= Z.land (l_hash (meta s)) (8 - 1) <= 8 - 1) by (apply land_mask; lia). lia.
Qed.

Lemma node_receive g now s : node_ok g → fresh s →
  ∃ g' ret x x' ps, gro_receive_skb base now g s = Some (g', ret) ∧ node_ok g' ∧ g_hash g !! bucket_of s = Some x ∧ lands (bucket_of s) g x' ps g' ∧
    received (mergeable s) (view_of <$> gl_list x) s now (view_of <$> gl_list x') ps.
Proof using All.
  intros Hg Hs. pose proof (bucket_range s) as Hb. destruct (lookup_lt_is_Some_2 (g_hash g) (bucket_of s)) as [x Hx]; [by rewrite (no_len _ Hg)|].
  destruct (receive_spec g now s x Hs Hx) as (g' & ret & x' & ps & E & Hl & Hk & Hr); [by apply Hg|].
  exists g', ret, x, x', ps. split_and!; [done|by apply (node_lands g (bucket_of s) x' ps)|done..].
Qed.

(** *** The loop over the bits *)

Lemma ffs_from_spec n i m : 0 <= i → (ffs_from n i m = 0 ∧ ∀ j, i <= j < i + Z.of_nat n → Z.testbit m j = false) ∨
  (i < ffs_from n i m <= i + Z.of_nat n ∧ Z.testbit m (ffs_from n i m - 1) = true ∧ ∀ j, i <= j < ffs_from n i m - 1 → Z.testbit m j = false).
Proof.
  revert i. induction n as [|n IH]; intros i Hi; [left; split; [done|lia]|]. cbn [ffs_from]. destruct (Z.testbit m i) eqn:Eb.
  - right. rewrite Z.add_simpl_r. split; [lia|]. split; [done|lia].
  - destruct (IH (i + 1)) as [[E Hz]|(Hr & Ht & Hz)]; [lia|left|right].
    + split; [done|]. intros j Hj. destruct (decide (j = i)) as [->|]; [done|apply Hz; lia].
    + split; [lia|]. split; [done|]. intros j Hj. destruct (decide (j = i)) as [->|]; [done|apply Hz; lia].
Qed.

Inductive flush_step (now : Z) (flush_old : bool) (g g' : gro_node) : Prop :=
  flush_step_intro b x y ps : g_hash g !! b = Some x → flushed now flush_old b x y ps →
    g_hash g' = <[b := y]> (g_hash g) → g_passed g' = g_passed g ++ ps → flush_step now flush_old g g'.

(** Nothing is left in the bucket, or its last packet is of this tick. *)
Definition left_ok (now : Z) (flush_old : bool) (x : gro_list) : Prop :=
  gl_list x = [] ∨ (flush_old = true ∧ ∃ k p, gl_list x = k ++ [p] ∧ age p = now).

Lemma chain_step g now fo b : node_ok g → (b < 8)%nat →
  ∃ g' y, __gro_flush_chain base now fo b g = Some g' ∧ node_ok g' ∧ flush_step now fo g g' ∧ g_hash g' = <[b := y]> (g_hash g) ∧ left_ok now fo y.
Proof using All.
  intros Hg Hb. destruct (lookup_lt_is_Some_2 (g_hash g) b) as [x Hx]; [by rewrite (no_len _ Hg)|].
  destruct (flush_bucket_spec g now fo b ltac:(by rewrite (no_len _ Hg)) x Hx) as (y & ps & -> & Hf); [by apply Hg|]. pose proof Hf as [Hy (gone & Ex & _) Hl].
  eexists _, y. split; [done|]. split; [|split; [by apply (flush_step_intro _ _ _ _ b x y ps)|done]].
  apply (node_put g b y ps (g_freed g) (negb (is_nil (gl_list y)))); [done..|]. destruct (gl_list y) eqn:Ey; [done|]. cbn.
  pose proof (no_mask _ Hg b x Hx) as Hm. rewrite Ex in Hm. cbn in Hm. symmetry. apply Z.bits_inj'. intros i Hi. rewrite Z.lor_spec, shifted_bit by done.
  destruct (Z.eqb_spec i (Z.of_nat b)) as [->|]; [by rewrite Hm|apply orb_false_r].
Qed.

Lemma flush_loop_spec now fo M fuel : ∀ (n : nat) g, (n <= 8)%nat → (8 - n < fuel)%nat → 0 <= M → (∀ i, 8 <= i → Z.testbit M i = false) → node_ok g →
  (∀ b x, (n <= b)%nat → g_hash g !! b = Some x → Z.testbit M (Z.of_nat b) = negb (is_nil (gl_list x))) →
  (∀ b x, (b < n)%nat → g_hash g !! b = Some x → left_ok now fo x) →
  ∃ g', gro_flush_loop base fuel now fo (Z.shiftr M (Z.of_nat n)) (u32 (Z.of_nat n - 1)) g = Some g' ∧ node_ok g' ∧ rtc (flush_step now fo) g g' ∧
    ∀ b x, g_hash g' !! b = Some x → left_ok now fo x.
Proof using All.
  induction fuel as [|fuel IH]; intros n g Hn Hfuel HM HMh Hg Hmask Hleft; [lia|]. cbn [gro_flush_loop].
  destruct (ffs_from_spec 32 0 (Z.shiftr M (Z.of_nat n))) as [[E Hz]|(Hr & Ht & Hz)]; [done|..]; fold (ffs (Z.shiftr M (Z.of_nat n))) in *.
  - rewrite E. cbn. exists g. split_and!; [done|done|done|]. intros b x Hx. destruct (decide (b < n)%nat); [by apply (Hleft b)|left].
    assert (b < 8)%nat by (rewrite <- (no_len _ Hg); by apply lookup_lt_is_Some; exists x). specialize (Hmask b x ltac:(lia) Hx).
    specialize (Hz (Z.of_nat b - Z.of_nat n) ltac:(lia)). rewrite Z.shiftr_spec, Z.sub_add in Hz by lia. rewrite Hz in Hmask. by destruct (gl_list x).
  - set (i := ffs _) in *. rewrite (proj2 (Z.eqb_neq i 0)) by lia. rewrite Z.shiftr_spec in Ht by lia.
    assert (i - 1 + Z.of_nat n < 8) as Hi8. { destruct (Z.lt_ge_cases (i - 1 + Z.of_nat n) 8); [done|]. by rewrite HMh in Ht. }
    assert (u32 (u32 (Z.of_nat n - 1) + i) = i - 1 + Z.of_nat n) as ->.
    { unfold wrap. rewrite Zplus_mod_idemp_l. rewrite Z.mod_small; lia. }
    set (b := Z.to_nat (i - 1 + Z.of_nat n)). destruct (chain_step g now fo b Hg ltac:(lia)) as (g1 & y & -> & Hg1 & Hs & Hh & Hl). rewrite some_bind.
    rewrite Z.shiftr_shiftr by lia. replace (Z.of_nat n + i) with (Z.of_nat (S b)) by lia. replace (i - 1 + Z.of_nat n) with (Z.of_nat (S b) - 1) by lia.
    assert (Z.of_nat (S b) - 1 = u32 (Z.of_nat (S b) - 1)) as -> by (symmetry; apply wrap_id; unfold fits; lia).
    destruct (IH (S b) g1) as (g' & E & Hg' & Hrtc & Hall); [lia|lia|done|done|done| | |].
    + intros c x Hc Hx. rewrite Hh, list_lookup_insert_ne in Hx by lia. apply Hmask; [lia|done].
    + intros c x Hc Hx. rewrite Hh in Hx. apply list_lookup_insert_Some in Hx as [(<- & -> & _)|(Hne & Hx)]; [done|].
      destruct (decide (c < n)%nat); [by apply (Hleft c)|left]. specialize (Hmask c x ltac:(lia) Hx).
      specialize (Hz (Z.of_nat c - Z.of_nat n) ltac:(lia)). rewrite Z.shiftr_spec, Z.sub_add in Hz by lia. rewrite Hz in Hmask. by destruct (gl_list x).
    + exists g'. split_and!; [done|done|by apply (rtc_l _ g g1)|done].
Qed.

Lemma node_flush g now fo : node_ok g → ∃ g', __gro_flush base now fo g = Some g' ∧ node_ok g' ∧ rtc (flush_step now fo) g g' ∧
  ∀ b x, g_hash g' !! b = Some x → left_ok now fo x.
Proof using All.
  intros Hg. pose proof (no_high _ Hg) as [Hm Hh]. destruct (flush_loop_spec now fo (g_bitmask g) 65 0 g) as (g' & E & Hx); [lia|lia|done|done|done| |lia|].
  - intros b x _. apply Hg.
  - exists g'. split; [|done]. rewrite <- E. done.
Qed.

(** ** Runs *)

(** A packet arrives, or the node is flushed, at the time [now]. *)
Inductive event := Receive (now : Z) (s : sk_buff) | Flush (now : Z) (flush_old : bool).

Definition gro_step (g : gro_node) (e : event) : option gro_node :=
  match e with Receive now s => fst <$> gro_receive_skb base now g s | Flush now flush_old => __gro_flush base now flush_old g end.
Definition gro_run (es : list event) : option gro_node := foldl (fun o e => o ≫= fun g => gro_step g e) (Some gro_init) es.

Definition arrival (e : event) : list sk_buff := match e with Receive _ s => [s] | Flush _ _ => [] end.
Definition arrivals (es : list event) : list sk_buff := concat (arrival <$> es).
Definition at_time (e : event) : Z := match e with Receive now _ => now | Flush now _ => now end.
Definition held (g : gro_node) : list sk_buff := concat (gl_list <$> g_hash g).

Definition views (g : gro_node) : list (list view) := (fun x => view_of <$> gl_list x) <$> g_hash g.
Definition flow_of (d : datagram) : option (bytes * bytes) := match d with Dgram a p _ => Some (a, p) | Raw _ => None end.

(** The views of a bucket are in the place of their hash and all of one flow. *)
Definition proper (V : list (list view)) : Prop := ∀ b v w, V !! b = Some v → w ∈ v →
  Z.to_nat (Z.land (l_hash (v_meta w)) (GRO_HASH_BUCKETS - 1)) = b ∧ Forall (fun d => flow_of d = Some (v_flow w)) (v_segs w).

Inductive moves : event -> list (list view) -> list (list view) -> list sk_buff -> Prop :=
| mv_receive now s v V v' ps : V !! bucket_of s = Some v → received (mergeable s) v s now v' ps →
    moves (Receive now s) V (<[bucket_of s := v']> V) ps
| mv_done now fo V : moves (Flush now fo) V V []
| mv_flush now fo b keep gone V V' ps ps' : V !! b = Some (keep ++ gone) → out_segs <$> ps = v_segs <$> reverse gone →
    moves (Flush now fo) (<[b := keep]> V) V' ps' → moves (Flush now fo) V V' (ps ++ ps').

(** What has been held and passed up after a list of events. *)
Inductive trace : list event -> list (list view) -> list sk_buff -> Prop :=
| tr_start : trace [] (replicate 8 []) []
| tr_step es V out e V' ps : trace es V out → proper V → moves e V V' ps → proper V' → trace (es ++ [e]) V' (out ++ ps).

Lemma node_proper g : node_ok g → proper (views g).
Proof.
  intros Hg b v w Hv Hw. unfold views in Hv. rewrite list_lookup_fmap in Hv. destruct (g_hash g !! b) as [x|] eqn:Hx; [|done]. injection Hv as <-.
  apply list_elem_of_fmap in Hw as (p & -> & Hp). destruct (no_bucket _ Hg b x Hx) as [_ _ _ Hh]. rewrite Forall_forall in Hh.
  split; [by apply Hh|]. cbn. unfold segs. apply Forall_fmap, Forall_forall. done.
Qed.

Lemma views_insert g g' b y : g_hash g' = <[b := y]> (g_hash g) → views g' = <[b := view_of <$> gl_list y]> (views g).
Proof. intros E. unfold views. by rewrite E, list_fmap_insert. Qed.

Lemma proper_keep V b keep gone : proper V → V !! b = Some (keep ++ gone) → proper (<[b := keep]> V).
Proof.
  intros HV Hb c v w Hc Hw. apply list_lookup_insert_Some in Hc as [(<- & <- & _)|(_ & Hc)]; [|by apply (HV c v)].
  apply (HV b (keep ++ gone)); [done|]. apply elem_of_app. by left.
Qed.

Lemma steps_moves now fo g g' : rtc (flush_step now fo) g g' → ∃ ps, moves (Flush now fo) (views g) (views g') ps ∧ g_passed g' = g_passed g ++ ps.
Proof.
  induction 1 as [g|g h g' [b x y ps Hx [Hy (gone & Ex & Eo) Hl] Eh Ep] _ (ps' & Hm & Ep')]; [exists []; rewrite app_nil_r; split; [constructor|done]|].
  exists (ps ++ ps'). split; [|by rewrite Ep', Ep, app_assoc]. rewrite (views_insert _ _ _ _ Eh) in Hm.
  apply (mv_flush now fo b (view_of <$> gl_list y) (view_of <$> gone)); [|by rewrite Eo, <- fmap_reverse, <- list_fmap_compose|done].
  unfold views. by rewrite list_lookup_fmap, Hx, <- fmap_app, <- Ex.
Qed.

(** The buckets right after an event. *)
Definition settled (e : event) (g : gro_node) : Prop :=
  match e with Receive _ _ => True | Flush now flush_old => ∀ b x, g_hash g !! b = Some x → left_ok now flush_old x end.

Lemma step_moves g e : node_ok g → Forall fresh (arrival e) →
  ∃ g' ps, gro_step g e = Some g' ∧ node_ok g' ∧ moves e (views g) (views g') ps ∧ g_passed g' = g_passed g ++ ps ∧ settled e g'.
Proof using All.
  intros Hg He. destruct e as [now s|now fo]; cbn [gro_step arrival settled] in *.
  - apply Forall_cons in He as [He _]. destruct (node_receive g now s Hg He) as (g' & ret & x & x' & ps & -> & Hg' & Hx & Hl & Hr).
    exists g', ps. split_and!; [done|done| |apply Hl|done]. rewrite (views_insert _ _ _ _ (la_hash _ _ _ _ _ Hl)).
    apply (mv_receive now s (view_of <$> gl_list x)); [|done]. unfold views. by rewrite list_lookup_fmap, Hx.
  - destruct (node_flush g now fo Hg) as (g' & -> & Hg' & Hs & Hl). destruct (steps_moves _ _ _ _ Hs) as (ps & Hm & Ep). by exists g', ps.
Qed.

Lemma init_ok : node_ok gro_init ∧ views gro_init = replicate 8 [] ∧ g_passed gro_init = [].
Proof.
  split; [|done]. split; [done| | |split; [done|]|done].
  - intros b x Hx. change (replicate 8 (mk_gro_list [] 0) !! b = Some x) in Hx. apply lookup_replicate in Hx as [-> _]. split; cbn; [done|done|lia|done].
  - intros b x Hx. change (replicate 8 (mk_gro_list [] 0) !! b = Some x) in Hx. apply lookup_replicate in Hx as [-> _]. apply Z.testbit_0_l.
  - intros i _. apply Z.testbit_0_l.
Qed.

Lemma run_snoc es e : gro_run (es ++ [e]) = gro_run es ≫= fun g => gro_step g e.
Proof. unfold gro_run. by rewrite foldl_app. Qed.

Lemma arrivals_snoc es e : arrivals (es ++ [e]) = arrivals es ++ arrival e.
Proof. unfold arrivals. rewrite fmap_app, concat_app. cbn. by rewrite app_nil_r. Qed.

Lemma run_trace es : Forall fresh (arrivals es) →
  ∃ g, gro_run es = Some g ∧ node_ok g ∧ trace es (views g) (g_passed g) ∧ (∀ es' e, es = es' ++ [e] → settled e g).
Proof using All.
  induction es as [|e es IH] using rev_ind; intros Hf.
  - destruct init_ok as (Hn & Hv & Hp). exists gro_init. split_and!; [done|done|rewrite Hv, Hp; constructor|]. intros es' e E. by destruct es'.
  - rewrite arrivals_snoc in Hf. apply Forall_app in Hf as [Hf He]. destruct (IH Hf) as (g & Eg & Hg & Ht & _).
    destruct (step_moves g e Hg He) as (g' & ps & Es & Hg' & Hm & Ep & Hs). exists g'. rewrite run_snoc, Eg, some_bind, Es, Ep.
    split_and!; [done|done| |]. { apply (tr_step es (views g)); [done|by apply node_proper|done|by apply node_proper]. }
    intros es' e' E. by apply app_inj_tail in E as [_ <-].
Qed.

(** *** Conservation *)

Lemma elem_concat {A} (x : A) (V : list (list A)) : x ∈ concat V ↔ ∃ v, x ∈ v ∧ v ∈ V.
Proof. rewrite list_elem_of_In, in_concat. setoid_rewrite <- list_elem_of_In. naive_solver. Qed.

Definition all_segs (V : list (list view)) : list datagram := concat (v_segs <$> concat V).

Lemma segs_middle (V : list (list view)) b v : V !! b = Some v → ∃ A C, V = A ++ v :: C ∧ (∀ v', <[b := v']> V = A ++ v' :: C) ∧ length A = b.
Proof.
  intros Hv. assert (b < length V)%nat by by apply lookup_lt_is_Some; exists v. exists (take b V), (drop (S b) V).
  split; [by rewrite take_drop_middle|]. split; [|apply length_take_le; lia]. intros v'. by rewrite insert_take_drop.
Qed.

Lemma all_segs_middle A v C : all_segs (A ++ v :: C) = all_segs A ++ concat (v_segs <$> v) ++ all_segs C.
Proof. unfold all_segs. by rewrite concat_app, fmap_app, concat_app; cbn; rewrite fmap_app, concat_app. Qed.

Lemma received_conserves good v s now v' ps : received good v s now v' ps →
  concat (out_segs <$> ps) ++ concat (v_segs <$> v') ≡ₚ concat (v_segs <$> v) ++ [one (contents s)].
Proof.
  intros [s' E _|_ _ _|v0 o o' -> _ _ _ E|v1 w v2 -> _ _|v1 w v2 p' -> _ _ E|v1 w v2 p' -> _ _ E|v1 w v2 p' s' -> _ E E'];
    cbn; repeat rewrite ?fmap_app, ?concat_app, ?app_nil_r; cbn; rewrite ?E, ?E', ?app_nil_r; try solve_Permutation.
Qed.

Lemma moves_conserve e V V' ps : moves e V V' ps →
  concat (out_segs <$> ps) ++ all_segs V' ≡ₚ all_segs V ++ ((one ∘ contents) <$> arrival e).
Proof.
  induction 1 as [now s v V v' ps Hv Hr|now fo V|now fo b keep gone V V' ps ps' Hb Eo _ IH].
  - destruct (segs_middle _ _ _ Hv) as (A & C & -> & -> & _). rewrite !all_segs_middle. apply received_conserves in Hr. cbn.
    rewrite (Permutation_app_comm (all_segs A)), (Permutation_app_comm (all_segs A)), <- !app_assoc, (app_assoc (concat (out_segs <$> ps))), Hr. solve_Permutation.
  - cbn. by rewrite app_nil_r.
  - destruct (segs_middle _ _ _ Hb) as (A & C & -> & E & _). rewrite E in IH. rewrite fmap_app, concat_app, <- app_assoc, IH, !all_segs_middle, Eo.
    rewrite fmap_app, concat_app, !app_nil_r. rewrite (reverse_Permutation gone). solve_Permutation.
Qed.

Lemma trace_conserves es V out : trace es V out → concat (out_segs <$> out) ++ all_segs V ≡ₚ (one ∘ contents) <$> arrivals es.
Proof.
  induction 1 as [|es V out e V' ps _ IH _ Hm _]; [done|]. rewrite arrivals_snoc, !fmap_app, concat_app, <- app_assoc, (moves_conserve _ _ _ _ Hm), app_assoc, IH. done.
Qed.

Lemma views_held g : all_segs (views g) = concat (segs <$> held g).
Proof.
  unfold all_segs, views, held. induction (g_hash g) as [|x l IH]; cbn; [done|]. rewrite !fmap_app, !concat_app, IH, <- list_fmap_compose. done.
Qed.

(** *** Order *)

Section Order.
(** The addresses and ports of a flow. *)
Context (t : bytes * bytes).

Definition of_t (d : datagram) : bool := bool_decide (flow_of d = Some t).
Definition in_flow : list datagram -> list datagram := List.filter of_t.
Definition flow_views : list view -> list view := List.filter (fun w => bool_decide (v_flow w = t)).

Definition shaped (w : view) : Prop := Forall (fun d => flow_of d = Some (v_flow w)) (v_segs w).

Lemma in_flow_app l k : in_flow (l ++ k) = in_flow l ++ in_flow k.
Proof. apply List.filter_app. Qed.

Lemma flow_views_app l k : flow_views (l ++ k) = flow_views l ++ flow_views k.
Proof. apply List.filter_app. Qed.

Lemma in_flow_view w : shaped w → in_flow (v_segs w) = if bool_decide (v_flow w = t) then v_segs w else [].
Proof.
  unfold shaped. induction 1 as [|d l Hd _ IH]; cbn; [by destruct (bool_decide _)|]. rewrite IH. unfold of_t. rewrite Hd.
  destruct (decide (v_flow w = t)) as [->|]; [by rewrite !bool_decide_true|by rewrite !bool_decide_false by congruence].
Qed.

Lemma in_flow_views l : Forall shaped l → in_flow (concat (v_segs <$> l)) = concat (v_segs <$> flow_views l).
Proof.
  induction 1 as [|w l Hw _ IH]; cbn; [done|]. rewrite in_flow_app, IH, in_flow_view by done. by destruct (bool_decide _).
Qed.

Lemma flow_views_elem w l : w ∈ flow_views l ↔ w ∈ l ∧ v_flow w = t.
Proof. unfold flow_views. rewrite !list_elem_of_In, List.filter_In. by rewrite bool_decide_eq_true. Qed.

Lemma of_t_one s : udp_shape (contents s) = true → of_t (one (contents s)) = bool_decide (key s = t).
Proof. intros E. unfold one, of_t, key. rewrite E. cbn. apply bool_decide_ext. naive_solver. Qed.

Lemma in_flow_one s : in_flow [one (contents s)] = if of_t (one (contents s)) then [one (contents s)] else [].
Proof. done. Qed.

(** At most one packet of the flow is held: it is [w], or [w] is of another flow. *)
Lemma flow_middle v1 w v2 : (length (flow_views (v1 ++ w :: v2)) <= 1)%nat →
  (v_flow w = t ∧ flow_views v1 = [] ∧ flow_views v2 = [] ∧ flow_views (v1 ++ w :: v2) = [w]) ∨
  (v_flow w ≠ t ∧ flow_views (v1 ++ w :: v2) = flow_views (v1 ++ v2)).
Proof.
  rewrite !flow_views_app. cbn. destruct (decide (v_flow w = t)) as [E|E].
  - rewrite bool_decide_true by done. rewrite length_app. cbn. intros Hl. left. destruct (flow_views v1), (flow_views v2); cbn in *; try lia. done.
  - rewrite bool_decide_false by done. right. done.
Qed.

(** What a change of one bucket means for the flow. *)
Record in_order (v v' : list view) (ps : list sk_buff) (new : list datagram) (m : link) : Prop := {
  io_segs : in_flow (concat (out_segs <$> ps)) ++ concat (v_segs <$> flow_views v') = concat (v_segs <$> flow_views v) ++ new;
  io_one : (length (flow_views v') <= 1)%nat;
  io_meta : ∀ w, w ∈ flow_views v' → (∃ w0, w0 ∈ flow_views v ∧ v_meta w0 = v_meta w) ∨ (new ≠ [] ∧ v_meta w = m);
}.

Lemma no_flow s v : Forall (fun w => ¬ of_flow s w) v → (∀ w, w ∈ v → v_flow w = t → of_flow s w) → flow_views v = [].
Proof.
  intros Hn Ht. apply elem_of_nil_inv. intros w [Hw Ew]%flow_views_elem. rewrite Forall_forall in Hn. by eapply Hn, Ht.
Qed.

(** A held packet leaves the bucket. *)
Lemma leave_order v1 w v2 ps : Forall shaped (v1 ++ w :: v2) → (length (flow_views (v1 ++ w :: v2)) <= 1)%nat → concat (out_segs <$> ps) = v_segs w → ∀ m,
  in_order (v1 ++ w :: v2) (v1 ++ v2) ps [] m.
Proof.
  intros Hs Hl E m. apply Forall_app in Hs as [_ [Hs _]%Forall_cons].
  destruct (flow_middle _ _ _ Hl) as [(Ew & E1 & E2 & E3)|(Ew & E3)]; split; rewrite ?E, ?in_flow_view, ?E3 by done.
  - rewrite bool_decide_true, flow_views_app, E1, E2 by done. cbn. by rewrite !app_nil_r.
  - rewrite flow_views_app, E1, E2; cbn; lia.
  - rewrite flow_views_app, E1, E2. intros x Hx. by apply not_elem_of_nil in Hx.
  - rewrite bool_decide_false by done. by rewrite app_nil_r.
  - by rewrite <- E3.
  - eauto.
Qed.

(** A new packet is put in front of the others. *)
Lemma enter_order v v' ps s now : udp_shape (contents s) = true → in_order v v' ps [] (meta s) →
  (key s = t → flow_views v' = []) → in_order v (new_view now s :: v') ps (in_flow [one (contents s)]) (meta s).
Proof.
  intros Sh [I1 I2 I3] Hk. rewrite in_flow_one, of_t_one by done. destruct (decide (key s = t)) as [Ek|Ek].
  - rewrite bool_decide_true by done. specialize (Hk Ek). rewrite Hk in *. split; cbn; rewrite bool_decide_true, Hk by done; cbn; [|lia|].
    + cbn in I1. rewrite !app_nil_r in I1. by rewrite I1.
    + intros w ->%list_elem_of_singleton. by right.
  - rewrite bool_decide_false by done. split; cbn; rewrite bool_decide_false; done.
Qed.

Lemma stay_order v m : (length (flow_views v) <= 1)%nat → in_order v v [] [] m.
Proof. intros Hl. split; [by rewrite app_nil_r|done|eauto]. Qed.

Lemma merge_order v1 w v2 s : (length (flow_views (v1 ++ w :: v2)) <= 1)%nat → v_flow w = key s → udp_shape (contents s) = true →
  in_order (v1 ++ w :: v2) (v1 ++ add_view s w :: v2) [] (in_flow [one (contents s)]) (meta s).
Proof.
  intros Hl Hw Sh. rewrite in_flow_one, of_t_one, <- Hw by done. set (w' := add_view s w).
  destruct (flow_middle _ _ _ Hl) as [(Et & E1 & E2 & E3)|(Et & E3)].
  - rewrite bool_decide_true by done. assert (flow_views (v1 ++ w' :: v2) = [w']) as E4.
    { rewrite flow_views_app. cbn. by rewrite bool_decide_true, E1, E2. }
    split; rewrite ?E3, ?E4; cbn; [by rewrite !app_nil_r|lia|]. intros x ->%list_elem_of_singleton. left. exists w. split; [by apply list_elem_of_singleton|done].
  - rewrite bool_decide_false by done. assert (flow_views (v1 ++ w' :: v2) = flow_views (v1 ++ w :: v2)) as E4.
    { rewrite E3, !flow_views_app. cbn. by rewrite bool_decide_false. }
    split; rewrite ?E4; [by rewrite app_nil_r|done|eauto].
Qed.

(** The held packet of the flow leaves, and the new one with it or after it. *)
Lemma complete_order v1 w v2 ps s : Forall shaped (v1 ++ w :: v2) → (length (flow_views (v1 ++ w :: v2)) <= 1)%nat →
  (of_t (one (contents s)) = true → v_flow w = t) → concat (out_segs <$> ps) = v_segs w ++ [one (contents s)] →
  in_order (v1 ++ w :: v2) (v1 ++ v2) ps (in_flow [one (contents s)]) (meta s).
Proof.
  intros Hs Hl Hw E. apply Forall_app in Hs as [_ [Hs _]%Forall_cons]. split.
  - rewrite E, in_flow_app, in_flow_view by done. destruct (flow_middle _ _ _ Hl) as [(Ew & E1 & E2 & E3)|(Ew & E3)]; rewrite ?E3.
    + rewrite bool_decide_true, flow_views_app, E1, E2 by done. cbn [fmap list_fmap app concat]. by rewrite !app_nil_r.
    + rewrite bool_decide_false, in_flow_one by done. destruct (of_t _) eqn:Et; [by destruct Ew; apply Hw|]. by rewrite !app_nil_r.
  - rewrite flow_views_app in *. cbn in Hl. destruct (bool_decide _); rewrite length_app in *; cbn in *; lia.
  - intros x. rewrite !flow_views_elem, !elem_of_app. intros [Hx Ex]. left. exists x. rewrite flow_views_elem, elem_of_app, elem_of_cons. naive_solver.
Qed.

Lemma received_order good v s now v' ps : received good v s now v' ps → Forall shaped v → (length (flow_views v) <= 1)%nat →
  (of_t (one (contents s)) = true → good ∧ ∀ w, w ∈ v → v_flow w = t → of_flow s w) → in_order v v' ps (in_flow [one (contents s)]) (meta s).
Proof.
  intros Hr Hs Hl Hg.
  destruct Hr as [s' E Hb|Hn Sh _|v0 o o' -> _ Hn Sh E|v1 w v2 -> [Hw _] Sh|v1 w v2 p' -> [Hw _] Sh E|v1 w v2 p' -> [Hw _] Sh E|v1 w v2 p' s' -> [Hw _] E E'].
  - rewrite in_flow_one. destruct (of_t _) eqn:Et; [naive_solver|]. split; cbn; rewrite ?E, ?app_nil_r; [|done|eauto]. cbn. by rewrite Et.
  - apply enter_order; [done|by apply stay_order|]. intros Ek. apply (no_flow s); [done|]. apply Hg. by rewrite of_t_one, bool_decide_true.
  - rewrite <- (app_nil_r v0) at 2. apply enter_order; [done|apply leave_order; [done|done|cbn; by rewrite app_nil_r]|]. intros Ek. rewrite app_nil_r.
    assert (flow_views (v0 ++ [o]) = []) as E0; [|rewrite flow_views_app in E0; by apply app_eq_nil in E0 as [-> _]].
    apply (no_flow s); [done|]. apply Hg. by rewrite of_t_one, bool_decide_true.
  - by apply merge_order.
  - apply complete_order; [done|done| |cbn; by rewrite app_nil_r]. rewrite of_t_one, bool_decide_eq_true by done. congruence.
  - apply enter_order; [done|apply leave_order; [done|done|cbn; by rewrite app_nil_r]|]. intros Ek. rewrite flow_views_app.
    destruct (flow_middle _ _ _ Hl) as [(_ & -> & -> & _)|[]]; [done|congruence].
  - apply complete_order; [done|done| |cbn; by rewrite app_nil_r, E, E']. intros Et. rewrite Hw. unfold of_t, one in Et.
    destruct (udp_shape _); cbn in Et; [|done]. apply bool_decide_eq_true in Et. unfold key. congruence.
Qed.

Lemma flow_views_reverse l : flow_views (reverse l) = reverse (flow_views l).
Proof. induction l as [|w l IH]; [done|]. rewrite reverse_cons, flow_views_app, IH.
  change (flow_views (w :: l)) with (if bool_decide (v_flow w = t) then w :: flow_views l else flow_views l).
  change (flow_views [w]) with (if bool_decide (v_flow w = t) then [w] else []). destruct (bool_decide _); [by rewrite reverse_cons|apply app_nil_r]. Qed.

Lemma flush_order keep gone ps m : Forall shaped (keep ++ gone) → (length (flow_views (keep ++ gone)) <= 1)%nat → out_segs <$> ps = v_segs <$> reverse gone →
  in_order (keep ++ gone) keep ps [] m.
Proof.
  intros Hs Hl Eo. apply Forall_app in Hs as [_ Hs]. rewrite flow_views_app in Hl. rewrite length_app in Hl.
  assert (in_flow (concat (out_segs <$> ps)) = concat (v_segs <$> flow_views gone)) as Ef.
  { rewrite Eo, in_flow_views by by apply Forall_reverse. rewrite flow_views_reverse.
    destruct (flow_views gone) as [|w []]; [done|done|cbn in Hl; lia]. }
  split; rewrite ?Ef, ?flow_views_app; [|lia|]; cycle 1.
  { intros w Hw. left. exists w. rewrite elem_of_app. split; [by left|done]. }
  destruct (flow_views keep) as [|w l]; [cbn; by rewrite !app_nil_r|]. destruct (flow_views gone); [|cbn in Hl; lia]. cbn. by rewrite !app_nil_r.
Qed.

Lemma bucket_order A v v' C ps new m : in_order v v' ps new m → (new ≠ [] → flow_views (concat A) = [] ∧ flow_views (concat C) = []) →
  (length (flow_views (concat (A ++ v :: C))) <= 1)%nat → in_order (concat (A ++ v :: C)) (concat (A ++ v' :: C)) ps new m.
Proof.
  intros [I1 I2 I3] Hn. rewrite !concat_app. cbn. intros Hl.
  assert ((flow_views (concat A) = [] ∧ flow_views (concat C) = []) ∨ (flow_views v = [] ∧ new = [])) as [[EA EC]|[Ev ->]].
  { destruct new; [|left; by apply Hn]. rewrite !flow_views_app, !length_app in Hl. destruct (flow_views (concat A)), (flow_views v), (flow_views (concat C)); cbn in Hl; auto; lia. }
  - split; rewrite ?flow_views_app, EA, EC; cbn; rewrite ?app_nil_r; done.
  - assert (flow_views v' = []) as Ev'.
    { apply elem_of_nil_inv. intros w Hw. destruct (I3 w Hw) as [(w0 & Hw0 & _)|[]]; [|done]. rewrite Ev in Hw0. by apply not_elem_of_nil in Hw0. }
    rewrite Ev, Ev' in I1. rewrite !app_nil_r in I1. rewrite !flow_views_app, !length_app, Ev in Hl.
    split; rewrite ?flow_views_app, Ev'; [rewrite Ev, app_nil_r; cbn in I1; by rewrite I1|by rewrite !length_app|].
    intros w Hw. left. exists w. by rewrite Ev.
Qed.

Lemma in_order_trans v v1 v2 ps ps' m : in_order v v1 ps [] m → in_order v1 v2 ps' [] m → in_order v v2 (ps ++ ps') [] m.
Proof.
  intros [I1 I2 I3] [J1 J2 J3]. rewrite !app_nil_r in *. split; [|done|].
  - by rewrite fmap_app, concat_app, in_flow_app, <- app_assoc, J1, app_nil_r.
  - intros w Hw. destruct (J3 w Hw) as [(w1 & Hw1 & E1)|[]]; [|done]. destruct (I3 w1 Hw1) as [(w0 & Hw0 & E0)|[]]; [|done]. left. exists w0. by rewrite E0.
Qed.

Lemma proper_shaped V b v : proper V → V !! b = Some v → Forall shaped v.
Proof. intros HV Hb. apply Forall_forall. intros w Hw. by apply (HV b v w). Qed.

Lemma moves_flush_order now fo V V' ps m : moves (Flush now fo) V V' ps → proper V → (length (flow_views (concat V)) <= 1)%nat → in_order (concat V) (concat V') ps [] m.
Proof.
  remember (Flush now fo) as e eqn:Ee. induction 1 as [? ? ? ? ? ?|now' fo' V|now' fo' b keep gone V V' ps ps' Hb Eo _ IH]; intros HV Hl; [done|by apply stay_order|].
  assert (in_order (concat V) (concat (<[b := keep]> V)) ps [] m) as Ho.
  { destruct (segs_middle _ _ _ Hb) as (A & C & EV & -> & _). rewrite EV in Hl |- *. apply bucket_order; [|done|done]. apply flush_order; [by apply (proper_shaped V b)| |done].
    revert Hl. rewrite concat_app. cbn. rewrite !flow_views_app, !length_app. lia. }
  apply (in_order_trans _ (concat (<[b := keep]> V))); [done|]. apply IH; [done|by apply (proper_keep V b keep gone)|apply Ho].
Qed.

Lemma flow_views_concat V : (∀ i v, V !! i = Some v → flow_views v = []) → flow_views (concat V) = [].
Proof.
  intros HV. apply elem_of_nil_inv. intros w [Hw Ew]%flow_views_elem. apply elem_concat in Hw as (v & Hw & [i Hi]%list_elem_of_lookup_1).
  specialize (HV i v Hi). apply (not_elem_of_nil w). rewrite <- HV. by apply flow_views_elem.
Qed.

(** The packets of the flow among [l]: GRO merges them, and they agree in what the
    driver says of them. *)
Definition flow_ok (l : list sk_buff) : Prop := ∀ s, s ∈ l → of_t (one (contents s)) = true →
  mergeable s ∧ ∀ s', s' ∈ l → of_t (one (contents s')) = true → alike (meta s') (meta s).

Lemma receive_order l now s V V' ps : moves (Receive now s) V V' ps → proper V → flow_ok (l ++ [s]) → (length (flow_views (concat V)) <= 1)%nat →
  (∀ w, w ∈ flow_views (concat V) → ∃ s', s' ∈ l ∧ of_t (one (contents s')) = true ∧ v_meta w = meta s') →
  in_order (concat V) (concat V') ps (in_flow [one (contents s)]) (meta s).
Proof.
  intros Hm HV Hf Hl Hw. inversion Hm as [? ? v ? v' ? Hv Hr| |]; subst.
  assert (∀ b v0 w, V !! b = Some v0 → w ∈ v0 → v_flow w = t → of_t (one (contents s)) = true → b = bucket_of s ∧ of_flow s w) as Hb.
  { intros b v0 w Hb Hin Ew Et. destruct (Hw w) as (s' & Hs' & Et' & Em).
    { apply flow_views_elem. split; [|done]. apply elem_concat. exists v0. split; [done|]. by eapply list_elem_of_lookup_2. }
    destruct (Hf s) as [_ Ha]; [set_solver|done|]. destruct (Ha s' ltac:(set_solver) Et') as [Eh Ed].
    split; [destruct (HV b v0 w Hb Hin) as [<- _]; unfold bucket_of; by rewrite Em, Eh|]. split; [|by rewrite Em].
    rewrite Ew. unfold of_t, one in Et. destruct (udp_shape _); cbn in Et; [|done]. apply bool_decide_eq_true in Et. unfold key. congruence. }
  destruct (segs_middle _ _ _ Hv) as (A & C & EV & -> & EA). rewrite EV in Hl |- *. apply bucket_order; [| |done].
  - apply (received_order (mergeable s) _ _ now); [done|by apply (proper_shaped V (bucket_of s))| |].
    + revert Hl. rewrite concat_app. cbn. rewrite !flow_views_app, !length_app. lia.
    + intros Et. split; [apply Hf; [set_solver|done]|]. intros w Hin Ew. by apply (Hb (bucket_of s) v w).
  - rewrite in_flow_one. destruct (of_t _) eqn:Et; [|done]. intros _.
    assert (∀ c v0, V !! c = Some v0 → c ≠ bucket_of s → flow_views v0 = []) as Hc.
    { intros c v0 Hc Hne. apply elem_of_nil_inv. intros w [Hin Ew]%flow_views_elem. by destruct (Hb c v0 w Hc Hin Ew eq_refl). }
    split; apply flow_views_concat; intros i v0 Hi.
    + pose proof (lookup_lt_Some _ _ _ Hi). apply (Hc i); [by rewrite EV, lookup_app_l|lia].
    + apply (Hc (length A + S i)%nat); [|lia]. rewrite EV, lookup_app_r by lia. by replace (length A + S i - length A)%nat with (S i) by lia.
Qed.

Lemma trace_order es V out : trace es V out → flow_ok (arrivals es) →
  in_flow (concat (out_segs <$> out)) ++ concat (v_segs <$> flow_views (concat V)) = in_flow ((one ∘ contents) <$> arrivals es) ∧
  (length (flow_views (concat V)) <= 1)%nat ∧
  (∀ w, w ∈ flow_views (concat V) → ∃ s', s' ∈ arrivals es ∧ of_t (one (contents s')) = true ∧ v_meta w = meta s').
Proof.
  induction 1 as [|es V out e V' ps _ IH HV Hm _]; [intros _; split; [done|split; [cbn; lia|]]; intros w Hw; by apply not_elem_of_nil in Hw|].
  rewrite arrivals_snoc. intros Hf. destruct IH as (I1 & I2 & I3). { intros s Hs Et. destruct (Hf s ltac:(set_solver) Et) as [Hs1 Hs2]. split; [done|]. intros s' Hs'. apply Hs2. set_solver. }
  rewrite !fmap_app, concat_app, !in_flow_app, <- I1, <- !app_assoc. destruct e as [now s|now fo]; cbn [arrival] in *.
  - destruct (receive_order (arrivals es) now s V V' ps Hm HV Hf I2 I3) as [J1 J2 J3]. split; [by rewrite J1|]. split; [done|]. intros w Hw.
    destruct (J3 w Hw) as [(w0 & Hw0 & <-)|[Hn ->]]; [destruct (I3 w0 Hw0) as (s' & Hs' & ?); exists s'; split; [set_solver|done]|].
    exists s. rewrite in_flow_one in Hn. destruct (of_t _); [set_solver|done].
  - destruct (moves_flush_order now fo V V' ps (mk_link 0 0 0 [] 0 false None 0 None 0 false false false false) Hm HV I2) as [J1 J2 J3]. split; [by rewrite J1|]. split; [done|].
    intros w Hw. destruct (J3 w Hw) as [(w0 & Hw0 & <-)|[]]; [|done]. destruct (I3 w0 Hw0) as (s' & Hs' & ?); exists s'; split; [set_solver|done].
Qed.
End Order.

Lemma proper_all V : proper V → Forall shaped (concat V).
Proof.
  intros HV. apply Forall_forall. intros w (v & Hw & [b Hb]%list_elem_of_lookup_1)%elem_concat. by apply (HV b v w).
Qed.

(** *** Ages *)

(** The youngest packet comes first, and none is of the future. *)
Definition aged (now : Z) (v : list view) : Prop := StronglySorted (fun x y => v_age y <= v_age x) v ∧ Forall (fun x => v_age x <= now) v.

Lemma aged_app now v1 v2 : aged now (v1 ++ v2) ↔ (∀ x y, x ∈ v1 → y ∈ v2 → v_age y <= v_age x) ∧ aged now v1 ∧ aged now v2.
Proof. unfold aged. rewrite StronglySorted_app, Forall_app. naive_solver. Qed.

Lemma aged_skip now v1 w v2 : aged now (v1 ++ w :: v2) → aged now (v1 ++ v2).
Proof. rewrite (cons_middle w v1 v2), !aged_app. set_solver. Qed.

Lemma aged_new now s v : aged now v → aged now (new_view now s :: v).
Proof. intros [Hs Hn]. split; constructor; cbn; [done|done|lia|done]. Qed.

Lemma received_aged good v s now v' ps : received good v s now v' ps → aged now v → aged now v'.
Proof.
  intros [s' E Hb|Hn Sh _|v0 o o' -> _ Hn Sh E|v1 w v2 -> _ Sh|v1 w v2 p' -> _ Sh E|v1 w v2 p' -> _ Sh E|v1 w v2 p' s' -> _ E E'] Ha;
    try apply aged_new; try done; try (by apply (aged_skip _ _ w)).
  - by apply aged_app in Ha as (_ & Ha & _).
  - rewrite aged_app in Ha |- *. destruct Ha as (H12 & Hv1 & Hs & Hn). apply StronglySorted_inv in Hs as [Hs1 Hs2]. apply Forall_cons in Hn as [Hn1 Hn2].
    split_and!; [|done|split; by constructor]. intros x y Hx [->|Hy]%elem_of_cons; [|set_solver]. by apply (H12 x w); [|set_solver].
Qed.

Lemma moves_aged e V V' ps : moves e V V' ps → Forall (aged (at_time e)) V → Forall (aged (at_time e)) V'.
Proof.
  induction 1 as [now s v V v' ps Hv Hr|now fo V|now fo b keep gone V V' ps ps' Hb Eo _ IH]; intros HV; [|done|].
  - apply Forall_insert; [done|]. apply (received_aged _ _ _ _ _ _ Hr). by apply (Forall_lookup_1 _ V (bucket_of s)).
  - apply IH, Forall_insert; [done|]. pose proof (Forall_lookup_1 _ _ _ _ HV Hb) as Ha. by apply aged_app in Ha as (_ & Ha & _).
Qed.

Lemma aged_le now now' v : now <= now' → aged now v → aged now' v.
Proof. intros Hn [Hs Ha]. split; [done|]. apply (Forall_impl _ _ _ Ha). cbn. lia. Qed.

Lemma trace_aged es V out : trace es V out → StronglySorted Z.le (at_time <$> es) → ∀ now, Forall (fun n => n <= now) (at_time <$> es) → Forall (aged now) V.
Proof.
  induction 1 as [|es V out e V' ps _ IH _ Hm _]; intros Hs now Hn; [by repeat constructor|].
  rewrite fmap_app in Hs, Hn. apply StronglySorted_app in Hs as (Hle & Hs & _). apply Forall_app in Hn as [_ [Hn _]%Forall_cons].
  apply (Forall_impl (aged (at_time e))); [|intros v; by apply aged_le]. apply (moves_aged _ _ _ _ Hm), IH; [done|].
  apply Forall_forall. intros n Hin. apply Hle; [done|set_solver].
Qed.

Lemma left_age now fo x : left_ok now fo x → aged now (view_of <$> gl_list x) → Forall (fun p => fo = true ∧ age p = now) (gl_list x).
Proof.
  intros [->|(-> & k & p & -> & Ep)] Ha; [done|]. rewrite fmap_app, aged_app in Ha. destruct Ha as (Hk & [_ Hn] & _).
  apply Forall_app. split; [|by repeat constructor]. apply Forall_forall. intros q Hq. split; [done|].
  specialize (Hk (view_of q) (view_of p)). cbn in Hk. rewrite Forall_forall in Hn. specialize (Hn (view_of q)). cbn in Hn.
  assert (view_of q ∈ view_of <$> k) by by apply list_elem_of_fmap_2. assert (age p <= age q); [apply Hk; [done|set_solver]|]. specialize (Hn ltac:(done)). lia.
Qed.

(** ** The theorems *)


(** C13: GRO keeps a flow in order: when every datagram of the flow [t] is one that
    GRO merges and the driver says the same of all of them, the datagrams of the flow
    that were passed up, followed by those held, are those received, in the order of
    their arrival, whatever other traffic and flushes come between. *)
Theorem gro_in_order t es : Forall fresh (arrivals es) → flow_ok t (arrivals es) →
  ∃ g, gro_run es = Some g ∧ in_flow t (concat (out_segs <$> g_passed g)) ++ in_flow t (concat (segs <$> held g)) = in_flow t ((one ∘ contents) <$> arrivals es).
Proof using All.
  intros Hf Ho. destruct (run_trace es Hf) as (g & Eg & Hg & Ht & _). exists g. split; [done|].
  destruct (trace_order t es _ _ Ht Ho) as [<- _]. by rewrite <- views_held, <- in_flow_views by by apply proper_all, node_proper.
Qed.

(** C35: a flush leaves nothing behind that is older than the current tick:
    [__gro_flush] of everything empties all buckets and clears their bits, and the
    flush of old packets leaves those of the tick [now] only. *)
Theorem gro_flush_spec es now flush_old : Forall fresh (arrivals es) → StronglySorted Z.le ((at_time <$> es) ++ [now]) →
  ∃ g, gro_run (es ++ [Flush now flush_old]) = Some g ∧
    if flush_old then Forall (fun p => age p = now) (held g) else held g = [] ∧ g_bitmask g = 0.
Proof using All.
  intros Hf Hs. destruct (run_trace (es ++ [Flush now flush_old])) as (g & Eg & Hg & Ht & Hl); [by rewrite arrivals_snoc, app_nil_r|].
  exists g. split; [done|]. specialize (Hl es _ eq_refl). cbn in Hl.
  assert (Forall (aged now) (views g)) as Ha.
  { apply (trace_aged _ _ _ Ht); rewrite fmap_app; [done|]. apply StronglySorted_app in Hs as (Hle & _). apply Forall_app. split; [|by repeat constructor].
    apply Forall_forall. intros n Hn. apply Hle; [done|set_solver]. }
  assert (∀ b x, g_hash g !! b = Some x → Forall (fun p => flush_old = true ∧ age p = now) (gl_list x)) as Hx.
  { intros b x Hb. apply left_age; [by apply (Hl b)|]. apply (Forall_lookup_1 _ _ b _ Ha). unfold views. by rewrite list_lookup_fmap, Hb. }
  assert (Forall (fun p => flush_old = true ∧ age p = now) (held g)) as Hh.
  { apply Forall_forall. intros p (l & Hp & Hin)%elem_concat. apply list_elem_of_fmap in Hin as (x & -> & [b Hb]%list_elem_of_lookup_1).
    specialize (Hx b x Hb). rewrite Forall_forall in Hx. by apply Hx. }
  destruct flush_old; [by apply (Forall_impl _ _ _ Hh); naive_solver|]. split; [destruct (held g); [done|by apply Forall_cons in Hh as [[]]]|].
  apply Z.bits_inj'. intros i Hi. rewrite Z.testbit_0_l. destruct (Z.lt_ge_cases i 8); [|by apply Hg].
  destruct (lookup_lt_is_Some_2 (g_hash g) (Z.to_nat i)) as [x Hb]; [rewrite (no_len _ Hg); lia|].
  pose proof (no_mask _ Hg _ x Hb) as Hm. rewrite Z2Nat.id in Hm by done. rewrite Hm. specialize (Hx _ _ Hb). by destruct (gl_list x); [|apply Forall_cons in Hx as [[]]].
Qed.
End Run.

(** ** A run

    Datagrams of one flow over an Ethernet device, the last one shorter; headers are
    accessible when they are in one piece, and every port has a socket that wants
    GRO. *)
Module GroExample.
Definition reachable (n : Z) (s : sk_buff) : bool :=
  (0 <=? n) && ((n <=? blen (head s)) ||
    (is_nil (head s) && frag0_frag s && (n <=? frag0_len s) &&
      match frags s with f :: _ => (frag0_len s <=? blen f) && (frag0_len s <=? tailroom s) | [] => false end)).

Lemma reachable_spec n s : reachable n s = true ↔ pullable n s.
Proof.
  unfold reachable, pullable. rewrite andb_true_iff, orb_true_iff, !andb_true_iff, !Z.leb_le. apply and_iff_compat_l, or_iff_compat_l.
  destruct (head s); cbn; [|naive_solver]. destruct (frags s) as [|f l]; cbn; [naive_solver|]. rewrite andb_true_iff, !Z.leb_le. split; [|naive_solver].
  intros [[[_ ?] ?] [? ?]]. split_and!; [done|done|done|]. by exists f, l.
Qed.

Definition fold_csum (x : Z) : Z := Z.land x 65535 + Z.shiftr x 16.
Fixpoint csum_words (n : nat) (h : bytes) : Z := match n with O => 0 | S n => be 0 2 h + csum_words n (drop 2 h) end.
Definition fast_csum (h : bytes) : Z := Z.lxor (fold_csum (fold_csum (csum_words 10 h))) 65535.
Definition socket : sock := mk_sock 51820 true None None.

#[export] Instance ex_env : GroEnv := {|
  hard_header_len := fun _ => 14; netif_elide_gro := fun _ => false; netif_get_gro_max_size := fun _ => 65536;
  skb_metadata_differs := fun _ _ => false; skb_metadata_dst_cmp := fun _ _ => false; psp_skb_coalesce_diff := fun _ _ => false;
  MAX_SKB_FRAGS := 17; SKB_TRUESIZE_HEAD := 768; sizeof_hop_jumbo_hdr := 8 |}.

#[export] Instance ex_inet : GroInet := {|
  skb_gro_header := fun s hlen off => if reachable hlen s then Some (s, slice (Z.to_nat off) (Z.to_nat (hlen - off)) (contents s)) else None;
  pskb_may_pull := fun s n => if n <=? blen (head s) then Some s else None;
  ip_fast_csum := fast_csum;
  csum_replace2 := fun c o n => Z.lxor (fold_csum (fold_csum (Z.lxor c 65535 + Z.lxor o 65535 + n))) 65535;
  iph_totlen := fun n => n;
  udp_v4_check := fun n _ _ => n;
  gro_receive_network_flush := fun _ _ => false;
  checksum_validate := fun s _ => Some (csum_of s);
  checksum_try_convert := csum_of;
  incr_checksum_unnecessary := fun c => mk_csum CHECKSUM_UNNECESSARY (cs_level c) (cs_valid c) (cs_cnt c);
  udp_encap_needed := true;
  udp_tunnel_sk := fun _ => None;
  __udp4_lib_lookup := fun _ _ _ _ _ => Some socket;
  udp4_lib_lookup_skb := fun _ _ _ => Some socket;
  udp_tunnel_gro_rcv := fun _ l s => Some (l, s, NoPP);
  NETIF_F_GRO_FRAGLIST := fun _ => false;
  NETIF_F_GRO_UDP_FWD := fun _ => false;
  GRO_RECURSION_LIMIT := 15 |}.

#[export] Instance ex_inet_ok : GroInetOk.
Proof.
  split; cbn.
  - intros s hlen off s' h W Ho. destruct (reachable hlen s) eqn:E; [|done]. intros [= <- <-]. apply reachable_spec in E. done.
  - intros s hlen off W Ho Hp. apply reachable_spec in Hp. by rewrite Hp.
  - intros s n s' W. destruct (Z.leb_spec n (blen (head s))); [|done]. by intros [= <-].
  - done.
Qed.

#[export] Instance ex_no_tunnel : NoTunnel.
Proof. split; cbn; [done|by intros ? ? ? ? ? ? [= <-]|by intros ? ? ? ? [= <-]]. Qed.

Definition ip_header (n check : Z) : bytes := [69; 0] ++ be_split 2 n ++ [0; 0; 64; 0; 64; 17] ++ be_split 2 check ++ [10; 0; 0; 1; 10; 0; 0; 2].
Definition packet (data : bytes) : bytes :=
  let n := 28 + blen data in
  ip_header n (fast_csum (ip_header n 0)) ++ be_split 2 51820 ++ be_split 2 51820 ++ be_split 2 (8 + blen data) ++ [18; 52] ++ data.

Definition driver : link := mk_link 1 77 0 (zeros 14) ETH_P_IP false None 0 None 64 false true true false.
Definition ex_skb (data : bytes) : sk_buff :=
  let b := packet data in
  mk_skb driver b 0 [] [] (blen b) 0 (768 + blen b) 0 0 0 [] CHECKSUM_UNNECESSARY 0 0 false 0 0 0 0 0 0 false 0 0 0 false false false 0 0 false 0 0 0 0 0 0.

Definition ex_events : list event :=
  [Receive 1 (ex_skb [1; 2; 3]); Receive 1 (ex_skb [4; 5; 6]); Receive 1 (ex_skb [7; 8]); Receive 2 (ex_skb [9; 9]); Flush 3 true; Receive 3 (ex_skb [5; 5; 5])].
Definition ex_flow : bytes * bytes := ([10; 0; 0; 1; 10; 0; 0; 2], [202; 108; 202; 108]).

Lemma ex_fresh : Forall fresh (arrivals ex_events).
Proof. repeat constructor. Qed.

Lemma ex_regular data : data ∈ [[1; 2; 3]; [4; 5; 6]; [7; 8]; [9; 9]; [5; 5; 5]] → mergeable (ex_skb data).
Proof.
  intros Hd. split; [done|]. split; [done|]. split; [done|].
  assert (∀ u, wanted u = true) by (intros u; by unfold wanted; cbn). set_unfold.
  destruct Hd as [-> |[-> |[-> |[-> |[-> |[]]]]]]; (split; [by vm_compute|by vm_compute..|]); (split; [by vm_compute..|done|by auto]).
Qed.

Lemma ex_arrivals : arrivals ex_events = ex_skb <$> [[1; 2; 3]; [4; 5; 6]; [7; 8]; [9; 9]; [5; 5; 5]].
Proof. reflexivity. Qed.

Lemma ex_flow_ok : flow_ok ex_flow (arrivals ex_events).
Proof.
  rewrite ex_arrivals. intros s (d & -> & Hd)%list_elem_of_fmap _. split; [by apply ex_regular|]. by intros s' (d' & -> & _)%list_elem_of_fmap _.
Qed.


Lemma gro_in_order_witness : length (in_flow ex_flow ((one ∘ contents) <$> arrivals ex_events)) = 5%nat ∧
  ∃ g, gro_run ex_events = Some g ∧ in_flow ex_flow (concat (out_segs <$> g_passed g)) ++ in_flow ex_flow (concat (segs <$> held g))
    = in_flow ex_flow ((one ∘ contents) <$> arrivals ex_events).
Proof. split; [by vm_compute|apply gro_in_order; [apply ex_fresh|apply ex_flow_ok]]. Defined.

Lemma gro_flush_spec_witness : ∃ g, gro_run (ex_events ++ [Flush 3 true]) = Some g ∧ Forall (fun p => age p = 3) (held g).
Proof. apply (gro_flush_spec ex_events 3 true); [apply ex_fresh|]. cbn. repeat constructor; lia. Defined.
End GroExample.
