(* ===== verification/PrevQueue.v ===== *)
(** * The per-peer multi-producer single-consumer queue (queueing.c)

    [prev_queue] is the intrusive list threaded through [skb->prev].  The first
    part gives the four C routines as functions on the queue's fields and the
    [NEXT] links.  The second part splits them at every access to shared memory
    and interleaves any number of enqueuers with the one consumer
    ([step]).  The theorems: whatever the interleaving, packets come out in the
    order of the [xchg] on [head], each once ([prev_queue_fifo]); the count
    stays within MAX_QUEUED_PACKETS ([prev_queue_count_bounded]); a NULL from
    the dequeue means that during the call the queue was empty or an enqueue was
    between its [xchg] and its link ([dequeue_null_excused]); and with no
    enqueue in flight the routines are a bounded FIFO ([dequeue_sequential]). *)
From S2P Require Import Prelude Messages.

(** ** Data (queueing.h, peer.h) *)

(** Addresses; [STUB] is the address of [queue->empty].  NULL is [None], and a
    node whose [NEXT] is NULL is absent from [next]. *)
Abbreviation ptr := nat (only parsing).
Definition STUB : ptr := 0%nat.

Record prev_queue := mk_prev_queue {
  head : ptr;
  tail : ptr;
  peeked : option ptr;
  count : Z;
  next : gmap ptr ptr;
}.

#[export] Instance settable_prev_queue : Settable prev_queue := fun q =>
  mk_prev_queue (head q) (tail q) (peeked q) (count q) (next q).

(** ** The routines *)

Definition wg_prev_queue_init (nexts : gmap ptr ptr) : prev_queue :=
  mk_prev_queue STUB STUB None 0 (delete STUB nexts).

Definition __wg_prev_queue_enqueue (q : prev_queue) (skb : ptr) : prev_queue :=
  let q := q <| next ::= delete skb |> in
  let prev := head q in
  let q := q <| head := skb |> in
  q <| next ::= <[prev := skb]> |>.

Definition wg_prev_queue_enqueue (q : prev_queue) (skb : ptr) : prev_queue * bool :=
  if count q =? MAX_QUEUED_PACKETS then (q, false)
  else (__wg_prev_queue_enqueue (q <| count ::= Z.add 1 |>) skb, true).

(** The part of the dequeue after the stub has been skipped: [t] is the
    candidate and [n] the successor that was loaded. *)
Definition dequeue_tail (q : prev_queue) (t : ptr) (n : option ptr) : prev_queue * option ptr :=
  match n with
  | Some n => (q <| tail := n |> <| count ::= Z.pred |>, Some t)
  | None =>
    if negb (bool_decide (t = head q)) then (q, None)
    else
      let q := __wg_prev_queue_enqueue q STUB in
      match next q !! t with
      | Some n => (q <| tail := n |> <| count ::= Z.pred |>, Some t)
      | None => (q, None)
      end
  end.

Definition wg_prev_queue_dequeue (q : prev_queue) : prev_queue * option ptr :=
  let t := tail q in
  let n := next q !! t in
  if bool_decide (t = STUB) then
    match n with
    | None => (q, None)
    | Some n => let q := q <| tail := n |> in dequeue_tail q n (next q !! n)
    end
  else dequeue_tail q t n.

Definition wg_prev_queue_peek (q : prev_queue) : prev_queue * option ptr :=
  match peeked q with
  | Some p => (q, Some p)
  | None => let '(q, r) := wg_prev_queue_dequeue q in (q <| peeked := r |>, r)
  end.

Definition wg_prev_queue_drop_peeked (q : prev_queue) : prev_queue := q <| peeked := None |>.

(** ** Interleaving semantics *)

(** An enqueue that has passed the [atomic_add_unless] is about to clear its
    [NEXT], to exchange [head], or to link itself behind [prev]. *)
Inductive ppc := P_null | P_xchg | P_link (prev : ptr).
#[global] Instance ppc_eq : EqDecision ppc.
Proof. solve_decision. Defined.

(** The dequeue, between two shared accesses; [t] is the C variable [tail]. *)
Inductive cpc :=
  | C_idle
  | C_start
  | C_load2 (t : ptr)
  | C_head (t : ptr)
  | C_stub_null (t : ptr)
  | C_stub_xchg (t : ptr)
  | C_stub_link (t prev : ptr)
  | C_load3 (t : ptr)
  | C_dec (t : ptr).

(** [enqd], [deqd] and [returned] record the packets in the order of their
    [xchg], of their unlinking and of their being returned; [saw_gap] whether, since the running dequeue began, there was
    a moment at which the queue was empty or an enqueue was unlinked. *)
Record qstate := mk_qstate {
  pq : prev_queue;
  inflight : gmap ptr ppc;
  consumer : cpc;
  result : option ptr;
  enqd : list ptr;
  deqd : list ptr;
  returned : list ptr;
  saw_gap : bool;
}.

#[export] Instance settable_qstate : Settable qstate := fun s =>
  mk_qstate (pq s) (inflight s) (consumer s) (result s) (enqd s) (deqd s) (returned s)
    (saw_gap s).

Definition is_link (c : ppc) : bool := match c with P_link _ => true | _ => false end.
Definition queued (s : qstate) : list ptr := drop (length (deqd s)) (enqd s).
Definition unlinked (s : qstate) : Prop := map_Exists (fun _ c => is_link c = true) (inflight s).
#[global] Instance unlinked_dec s : Decision (unlinked s).
Proof. unfold unlinked. apply _. Defined.

Definition gap (s : qstate) : bool := bool_decide (queued s = [] ∨ unlinked s).
Definition observe (s : qstate) : qstate := s <| saw_gap ::= orb (gap s) |>.

(** One shared access of the enqueue of [skb]. *)
Definition pstep (s : qstate) (skb : ptr) : option qstate :=
  match inflight s !! skb with
  | Some P_null =>
    Some (s <| pq := (pq s) <| next ::= delete skb |> |> <| inflight ::= <[skb := P_xchg]> |>)
  | Some P_xchg =>
    Some (s <| pq := (pq s) <| head := skb |> |>
            <| inflight ::= <[skb := P_link (head (pq s))]> |>
            <| enqd ::= fun l => l ++ [skb] |>)
  | Some (P_link prev) =>
    Some (s <| pq := (pq s) <| next ::= <[prev := skb]> |> |> <| inflight ::= delete skb |>)
  | None => None
  end.

(** The dequeue returns [r] (to the peek, which caches it). *)
Definition ret (s : qstate) (r : option ptr) : qstate :=
  s <| pq := (pq s) <| peeked := r |> |> <| consumer := C_idle |> <| result := r |>
    <| returned ::= fun l => l ++ option_list r |>.

(** [queue->tail = next], after which the packet [t] is out. *)
Definition take (s : qstate) (t n : ptr) : qstate :=
  s <| pq := (pq s) <| tail := n |> |> <| consumer := C_dec t |> <| deqd ::= fun l => l ++ [t] |>.

(** One shared access of the dequeue. *)
Definition cstep (s : qstate) : option qstate :=
  match consumer s with
  | C_idle => None
  | C_start =>
    let t := tail (pq s) in
    match bool_decide (t = STUB), next (pq s) !! t with
    | true, None => Some (ret s None)
    | true, Some n => Some (s <| pq := (pq s) <| tail := n |> |> <| consumer := C_load2 n |>)
    | false, Some n => Some (take s t n)
    | false, None => Some (s <| consumer := C_head t |>)
    end
  | C_load2 t =>
    match next (pq s) !! t with
    | Some n => Some (take s t n)
    | None => Some (s <| consumer := C_head t |>)
    end
  | C_head t =>
    if bool_decide (t = head (pq s)) then Some (s <| consumer := C_stub_null t |>)
    else Some (ret s None)
  | C_stub_null t =>
    Some (s <| pq := (pq s) <| next ::= delete STUB |> |> <| consumer := C_stub_xchg t |>)
  | C_stub_xchg t =>
    Some (s <| pq := (pq s) <| head := STUB |> |> <| consumer := C_stub_link t (head (pq s)) |>)
  | C_stub_link t prev =>
    Some (s <| pq := (pq s) <| next ::= <[prev := STUB]> |> |> <| consumer := C_load3 t |>)
  | C_load3 t =>
    match next (pq s) !! t with
    | Some n => Some (take s t n)
    | None => Some (ret s None)
    end
  | C_dec t => Some (ret (s <| pq := (pq s) <| count ::= Z.pred |> |>) (Some t))
  end.

(** A packet may be enqueued when the queue does not hold it. *)
Definition enqueuable (s : qstate) (skb : ptr) : Prop :=
  skb ≠ STUB ∧ inflight s !! skb = None ∧ skb ∉ queued s ∧ consumer s ≠ C_dec skb.

Inductive qstep_raw (s : qstate) : qstate -> Prop :=
  | q_enqueue_begin skb :
      enqueuable s skb → count (pq s) ≠ MAX_QUEUED_PACKETS →
      qstep_raw s (s <| pq := (pq s) <| count ::= Z.add 1 |> |> <| inflight ::= <[skb := P_null]> |>)
  | q_enqueue_step skb s' : pstep s skb = Some s' → qstep_raw s s'
  | q_dequeue_begin :
      consumer s = C_idle → peeked (pq s) = None →
      qstep_raw s (s <| consumer := C_start |> <| saw_gap := false |>)
  | q_dequeue_step s' : cstep s = Some s' → qstep_raw s s'
  | q_drop_peeked :
      consumer s = C_idle → qstep_raw s (s <| pq := wg_prev_queue_drop_peeked (pq s) |>).

Definition qstep (s s' : qstate) : Prop := ∃ s1, qstep_raw s s1 ∧ s' = observe s1.

Definition qinit (nexts : gmap ptr ptr) : qstate :=
  mk_qstate (wg_prev_queue_init nexts) ∅ C_idle None [] [] [] true.

Inductive qreachable : qstate -> Prop :=
  | qr_init nexts : qreachable (qinit nexts)
  | qr_step s s' : qreachable s → qstep s s' → qreachable s'.

(** ** Invariant *)

(** [b] follows [a] in the list of nodes [L]. *)
Definition adj (L : list ptr) (a b : ptr) : Prop := ∃ l1 l2, L = l1 ++ a :: b :: l2.

Definition packets (L : list ptr) : list ptr := filter (fun x => x ≠ STUB) L.

#[local] Arguments packets : simpl never.

(** Somebody has exchanged [head] from [a] to [b] and not linked them yet. *)
Definition linking (s : qstate) (a b : ptr) : Prop :=
  inflight s !! b = Some (P_link a) ∨ (b = STUB ∧ ∃ t, consumer s = C_stub_link t a).

Definition holding (c : cpc) : Z := match c with C_dec _ => 1 | _ => 0 end.
Definition reserved (s : qstate) : nat := size (filter (fun '(_, c) => is_link c = false) (inflight s)).

(** What each point of the dequeue relies on. *)
Definition consumer_inv (s : qstate) (L : list ptr) : Prop :=
  match consumer s with
  | C_idle | C_start => True
  | C_load2 t => t = tail (pq s) ∧ t ≠ STUB
  | C_head t => t = tail (pq s) ∧ t ≠ STUB ∧ (L = [t] ∨ saw_gap s = true)
  | C_stub_null t => t = tail (pq s) ∧ t ≠ STUB ∧ STUB ∉ L ∧ (L = [t] ∨ saw_gap s = true)
  | C_stub_xchg t =>
    t = tail (pq s) ∧ t ≠ STUB ∧ STUB ∉ L ∧ next (pq s) !! STUB = None ∧
    (L = [t] ∨ saw_gap s = true)
  | C_stub_link t prev =>
    t = tail (pq s) ∧ t ≠ STUB ∧ adj L prev STUB ∧ next (pq s) !! prev = None ∧
    (prev = t ∨ saw_gap s = true)
  | C_load3 t => t = tail (pq s) ∧ t ≠ STUB ∧ (is_Some (next (pq s) !! t) ∨ saw_gap s = true)
  | C_dec t => t ≠ STUB ∧ t ∉ L ∧ inflight s !! t = None
  end.

Definition producer_inv (s : qstate) (L : list ptr) (x : ptr) (c : ppc) : Prop :=
  x ≠ STUB ∧
  match c with
  | P_null => x ∉ L
  | P_xchg => x ∉ L ∧ next (pq s) !! x = None
  | P_link a => adj L a x ∧ next (pq s) !! a = None
  end.

(** [L] is the list of nodes from [tail] to [head], the stub included when it is
    in the queue. *)
Record qinv (s : qstate) (L : list ptr) : Prop := {
  qi_tail : list.head L = Some (tail (pq s));
  qi_head : last L = Some (head (pq s));
  qi_nodup : NoDup L;
  qi_hist : enqd s = deqd s ++ packets L;
  qi_next a b : adj L a b →
    next (pq s) !! a = Some b ∨ (next (pq s) !! a = None ∧ linking s a b);
  qi_last : next (pq s) !! head (pq s) = None;
  qi_prod x c : inflight s !! x = Some c → producer_inv s L x c;
  qi_cons : consumer_inv s L;
  qi_count : count (pq s) = Z.of_nat (length (packets L)) + Z.of_nat (reserved s) + holding (consumer s);
  qi_max : count (pq s) <= MAX_QUEUED_PACKETS;
}.

(** ** Adjacency *)

Lemma adj_in_l L a b : adj L a b → a ∈ L.
Proof. intros (l1 & l2 & ->). set_solver. Qed.

Lemma adj_in_r L a b : adj L a b → b ∈ L.
Proof. intros (l1 & l2 & ->). set_solver. Qed.

Lemma adj_cons t L a b : adj (t :: L) a b ↔ (a = t ∧ list.head L = Some b) ∨ adj L a b.
Proof.
  split.
  - intros ([|y l1] & l2 & Heq); simpl in Heq; simplify_eq; [by left|right; by exists l1, l2].
  - intros [[-> Hh]|(l1 & l2 & ->)]; [|by exists (t :: l1), l2].
    destruct L as [|y L]; simplify_eq/=. by exists [], L.
Qed.

Lemma adj_snoc L x a b : adj (L ++ [x]) a b ↔ adj L a b ∨ (last L = Some a ∧ b = x).
Proof.
  split.
  - intros (l1 & l2 & Heq). destruct l2 as [|y l2 _] using rev_ind.
    + right. replace (l1 ++ [a; b]) with ((l1 ++ [a]) ++ [b]) in Heq by by rewrite <- app_assoc.
      apply app_inj_tail in Heq as [-> ->]. by rewrite last_snoc.
    + left. replace (l1 ++ a :: b :: l2 ++ [y]) with ((l1 ++ a :: b :: l2) ++ [y]) in Heq
        by by rewrite <- app_assoc.
      apply app_inj_tail in Heq as [-> ->]. by exists l1, l2.
  - intros [(l1 & l2 & ->)|[[l1 ->]%last_Some ->]].
    + exists l1, (l2 ++ [x]). by rewrite <- app_assoc.
    + exists l1, []. by rewrite <- app_assoc.
Qed.

Lemma adj_fun L a b b' : NoDup L → adj L a b → adj L a b' → b = b'.
Proof.
  intros Hnd. induction L as [|y L IH]; [intros ([]&?&[=])|].
  apply NoDup_cons in Hnd as [Hy Hnd]. rewrite !adj_cons.
  intros [[-> H1]|H1] [[E H2]|H2]; [congruence| | |by apply IH].
  - by apply adj_in_l in H2.
  - subst a. by apply adj_in_l in H1.
Qed.

(** Every node but the last has a successor. *)
Lemma adj_next L a z : a ∈ L → last L = Some z → a ≠ z → ∃ b, adj L a b.
Proof.
  intros Ha Hz Hne. induction L as [|y L IH]; [set_solver|].
  destruct L as [|w L]; simpl in *.
  - apply list_elem_of_singleton in Ha. congruence.
  - apply elem_of_cons in Ha as [->|Ha]; [exists w; by exists [], L|].
    destruct (IH Ha Hz) as [b Hb]. exists b. apply adj_cons. by right.
Qed.

Lemma adj_not_last L a b z : NoDup L → adj L a b → last L = Some z → a ≠ z.
Proof.
  intros Hnd (l1 & l2 & ->) Hl ->.
  replace (l1 ++ z :: b :: l2) with ((l1 ++ [z]) ++ b :: l2) in * by by rewrite <- app_assoc.
  rewrite last_app_cons in Hl. apply last_Some_elem_of in Hl.
  apply NoDup_app in Hnd as (_ & Hnd & _). apply (Hnd z); set_solver.
Qed.

Lemma packets_app L M : packets (L ++ M) = packets L ++ packets M.
Proof. apply filter_app. Qed.

Lemma packets_snoc L x : x ≠ STUB → packets (L ++ [x]) = packets L ++ [x].
Proof. intros Hx. rewrite packets_app. f_equal. unfold packets. by rewrite filter_cons_True. Qed.

Lemma packets_cons t L : t ≠ STUB → packets (t :: L) = t :: packets L.
Proof. intros Hx. unfold packets. by rewrite filter_cons_True. Qed.

Lemma packets_stub L : packets (STUB :: L) = packets L.
Proof. unfold packets. by rewrite filter_cons_False by auto. Qed.

Lemma elem_of_packets x L : x ∈ packets L ↔ x ≠ STUB ∧ x ∈ L.
Proof. unfold packets. by rewrite list_elem_of_filter. Qed.

Lemma queued_packets s L : enqd s = deqd s ++ packets L → queued s = packets L.
Proof. unfold queued. intros ->. apply drop_app_length. Qed.

(** ** Preservation *)

Definition QI (s : qstate) : Prop :=
  (∃ L, qinv s L) ∧ (gap s = true → saw_gap s = true).

Lemma saw_gap_mono s L : qinv s L → ∀ b, qinv (s <| saw_gap ::= orb b |>) L.
Proof.
  intros [] b. split; cbn; try done. unfold consumer_inv in *. cbn.
  destruct (consumer s); destruct b; cbn; naive_solver.
Qed.

Lemma QI_observe s L : qinv s L → QI (observe s).
Proof.
  intros Hs. split.
  - exists L. by apply saw_gap_mono.
  - unfold observe. intros Hg. cbn. by replace (gap s) with true.
Qed.

Lemma observe_gap s : queued s = [] ∨ unlinked s → observe s = s <| saw_gap := true |>.
Proof. intros Hg. unfold observe. replace (gap s) with true; [done|]. symmetry. by apply bool_decide_eq_true. Qed.

Lemma linking_unlinked s a b : inflight s !! b = Some (P_link a) → unlinked s.
Proof. intros Hb. exists b, (P_link a). done. Qed.

Lemma reserved_add s s' skb :
  inflight s !! skb = None → inflight s' = <[skb := P_null]> (inflight s) →
  reserved s' = S (reserved s).
Proof.
  intros Hn Hi. unfold reserved. rewrite Hi.
  rewrite (map_filter_insert_True _ (inflight s) skb P_null) by done.
  apply map_size_insert_None. apply map_lookup_filter_None. by left.
Qed.

Lemma reserved_same s s' skb c c' :
  inflight s !! skb = Some c → inflight s' = <[skb := c']> (inflight s) →
  is_link c = false → is_link c' = false → reserved s' = reserved s.
Proof.
  intros Hc Hi H1 H2. unfold reserved. rewrite Hi.
  rewrite (map_filter_insert_True _ (inflight s) skb c') by done.
  rewrite map_size_insert_Some; [done|]. exists c. by apply map_lookup_filter_Some.
Qed.

Lemma reserved_out s s' skb c (o : option ppc) :
  inflight s !! skb = Some c → is_link c = false →
  inflight s' = partial_alter (fun _ => o) skb (inflight s) →
  (∀ c', o = Some c' → is_link c' = true) → reserved s = S (reserved s').
Proof.
  intros Hc H1 Hi Ho. unfold reserved.
  replace (filter _ (inflight s')) with (delete skb (filter (fun '(_, c) => is_link c = false) (inflight s))).
  - rewrite map_size_delete_Some by (exists c; by apply map_lookup_filter_Some).
    assert (size (filter (fun '(_, c) => is_link c = false) (inflight s)) ≠ 0%nat); [|lia].
    intros E%map_size_empty_inv.
    assert (filter (fun '(_, c) => is_link c = false) (inflight s) !! skb = Some c) as E2
      by by apply map_lookup_filter_Some.
    rewrite E in E2. by rewrite lookup_empty in E2.
  - apply map_eq. intros i. rewrite Hi. destruct (decide (i = skb)) as [->|Hne].
    + rewrite lookup_delete_eq. symmetry. apply map_lookup_filter_None. right.
      rewrite lookup_partial_alter_eq. intros x Hx. rewrite (Ho x Hx). done.
    + rewrite lookup_delete_ne by done. apply option_eq. intros x.
      rewrite !map_lookup_filter_Some, lookup_partial_alter_ne by done. done.
Qed.

Lemma reserved_link s s' skb prev :
  inflight s !! skb = Some (P_link prev) → inflight s' = delete skb (inflight s) →
  reserved s' = reserved s.
Proof.
  intros Hc Hi. unfold reserved. rewrite Hi, map_filter_delete.
  rewrite delete_id; [done|]. apply map_lookup_filter_None. right. intros x Hx. rewrite Hx in Hc. by simplify_eq.
Qed.

(** The successor of a node other than the last, when its link is loaded. *)
Lemma qinv_succ s L t n : qinv s L → t ∈ L → next (pq s) !! t = Some n → adj L t n.
Proof.
  intros Hs Ht Hn. destruct (decide (t = head (pq s))) as [->|Hne].
  { rewrite (qi_last _ _ Hs) in Hn. done. }
  destruct (adj_next L t _ Ht (qi_head _ _ Hs) Hne) as [b Hb].
  destruct (qi_next _ _ Hs _ _ Hb) as [E|[E _]]; congruence.
Qed.

Lemma qinv_tail_in s L : qinv s L → tail (pq s) ∈ L.
Proof. intros Hs. pose proof (qi_tail _ _ Hs). destruct L; simplify_eq/=. left. Qed.

Lemma qinv_single s L : qinv s L → tail (pq s) = head (pq s) → L = [tail (pq s)].
Proof.
  intros Hs E. pose proof (qi_tail _ _ Hs) as Ht. pose proof (qi_head _ _ Hs) as Hh.
  pose proof (qi_nodup _ _ Hs) as Hnd. destruct L as [|x L]; simplify_eq/=.
  destruct L as [|y L]; [congruence|]. apply NoDup_cons in Hnd as [Hnd _].
  destruct Hnd. rewrite E. by apply last_Some_elem_of.
Qed.

(** A node whose link is NULL is the last, or somebody is about to link it. *)
Lemma qinv_null s L t :
  qinv s L → t = tail (pq s) → next (pq s) !! t = None →
  (∀ t' p, consumer s ≠ C_stub_link t' p) → L = [t] ∨ unlinked s.
Proof.
  intros Hs -> Hn Hc. destruct (decide (tail (pq s) = head (pq s))) as [E|Hne].
  - left. by apply qinv_single.
  - right. destruct (adj_next L _ _ (qinv_tail_in _ _ Hs) (qi_head _ _ Hs) Hne) as [b Hb].
    destruct (qi_next _ _ Hs _ _ Hb) as [E|[_ [E|[_ [t' E]]]]]; [congruence| |by apply Hc in E].
    by eapply linking_unlinked.
Qed.

(** *** The enqueuers *)

Lemma qinv_enqueue_begin s L skb :
  qinv s L → enqueuable s skb → count (pq s) ≠ MAX_QUEUED_PACKETS →
  qinv (s <| pq := (pq s) <| count ::= Z.add 1 |> |> <| inflight ::= <[skb := P_null]> |>) L.
Proof.
  intros Hs (Hstub & Hfree & Hq & Hdec) Hmax.
  assert (skb ∉ L) as HL.
  { rewrite (queued_packets _ _ (qi_hist _ _ Hs)), elem_of_packets in Hq. naive_solver. }
  destruct Hs as [Ht Hh Hnd Hhist Hnext Hlast Hprod Hcons Hcount Hm].
  split; cbn; try done.
  - intros a b Hab. destruct (Hnext _ _ Hab) as [?|[? [Hl|Hl]]]; [by left|right; split; [done|left]|
      right; split; [done|by right]].
    cbn. rewrite lookup_insert_ne; [done|]. intros ->. congruence.
  - intros x c. rewrite lookup_insert_Some. intros [[<- <-]|[_ Hx]]; [done|]. exact (Hprod x c Hx).
  - unfold consumer_inv in *. cbn. destruct (consumer s) as [| | | | | | | |t] eqn:Hcs; try done.
    rewrite lookup_insert_ne; [done|congruence].
  - rewrite (reserved_add s _ skb Hfree) by done. lia.
  - lia.
Qed.

Lemma qinv_P_null s L skb :
  qinv s L → inflight s !! skb = Some P_null →
  qinv (s <| pq := (pq s) <| next ::= delete skb |> |> <| inflight ::= <[skb := P_xchg]> |>) L.
Proof.
  intros Hs Hskb. pose proof (qinv_tail_in _ _ Hs) as HtL.
  destruct (qi_prod _ _ Hs _ _ Hskb) as [Hstub HL].
  destruct Hs as [Ht Hh Hnd Hhist Hnext Hlast Hprod Hcons Hcount Hm].
  assert (∀ a, a ∈ L → a ≠ skb) as Hne by congruence.
  split; cbn; try done.
  - intros a b Hab. rewrite lookup_delete_ne by (symmetry; eauto using adj_in_l).
    destruct (Hnext _ _ Hab) as [?|[? [Hl|Hl]]]; [by left|right; split; [done|left]|
      right; split; [done|by right]].
    cbn. rewrite lookup_insert_ne; [done|]. intros ->. congruence.
  - apply lookup_delete_None. by right.
  - intros x c. rewrite lookup_insert_Some. intros [[<- <-]|[Hx1 Hx]].
    + split; [done|]. split; [done|]. apply lookup_delete_eq.
    + destruct (Hprod x c Hx) as [Hx2 Hx3]. split; [done|]. destruct c; cbn; [done| |];
        (destruct Hx3; split; [done|]); apply lookup_delete_None; by right.
  - unfold consumer_inv in *. cbn. destruct (consumer s) eqn:Hcs; try done.
    + destruct_and!. split_and!; try done. apply lookup_delete_None; by right.
    + destruct_and!. split_and!; try done. apply lookup_delete_None; by right.
    + destruct_and!. split_and!; try done. rewrite lookup_delete_ne; [done|]. subst; symmetry; eauto.
    + destruct_and!. split_and!; try done. rewrite lookup_insert_ne; [done|congruence].
  - by erewrite (reserved_same s _ skb P_null P_xchg).
Qed.

Lemma qinv_P_xchg s L skb :
  qinv s L → inflight s !! skb = Some P_xchg →
  qinv (observe (s <| pq := (pq s) <| head := skb |> |>
            <| inflight ::= <[skb := P_link (head (pq s))]> |>
            <| enqd ::= fun l => l ++ [skb] |>)) (L ++ [skb]).
Proof.
  intros Hs Hskb. destruct (qi_prod _ _ Hs _ _ Hskb) as (Hstub & HL & Hnull).
  rewrite observe_gap; cycle 1.
  { right. eapply (linking_unlinked _ _ skb). apply lookup_insert_eq. }
  destruct Hs as [Ht Hh Hnd Hhist Hnext Hlast Hprod Hcons Hcount Hm].
  split; cbn; try done.
  - destruct L; [done|]. done.
  - by rewrite last_snoc.
  - apply NoDup_app. split_and!; [done|set_solver|apply NoDup_singleton].
  - rewrite packets_snoc, Hhist by done. by rewrite app_assoc.
  - intros a b Hab%adj_snoc. destruct Hab as [Hab|[Ha ->]].
    + destruct (Hnext _ _ Hab) as [?|[? [Hl|Hl]]]; [by left|right; split; [done|left]|
        right; split; [done|by right]].
      cbn. rewrite lookup_insert_ne; [done|]. intros ->. congruence.
    + right. assert (a = head (pq s)) as -> by congruence. split; [done|]. left. apply lookup_insert_eq.
  - intros x c. rewrite lookup_insert_Some. intros [[<- <-]|[Hx1 Hx]].
    + split; [done|]. split; [|done]. apply adj_snoc. by right.
    + destruct (Hprod x c Hx) as [Hx2 Hx3]. split; [done|]. destruct c; cbn; [set_solver|set_solver|].
      destruct Hx3; split; [|done]. apply adj_snoc; by left.
  - unfold consumer_inv in *. cbn. destruct (consumer s) eqn:Hcs; try done.
    + naive_solver.
    + destruct_and!. split_and!; try done; [set_solver|by right].
    + destruct_and!. split_and!; try done; [set_solver|by right].
    + destruct_and!. split_and!; try done; [apply adj_snoc; by left|by right].
    + naive_solver.
    + destruct_and!. rewrite lookup_insert_ne by congruence. split_and!; [done|set_solver|done].
  - rewrite packets_snoc, length_app by done. cbn. rewrite Hcount.
    rewrite (reserved_out s (s <| inflight ::= <[skb := P_link (head (pq s))]> |>) skb P_xchg
      (Some (P_link (head (pq s))))) by (done || naive_solver).
    unfold reserved. cbn. lia.
Qed.

Lemma qinv_P_link s L skb prev :
  qinv s L → inflight s !! skb = Some (P_link prev) →
  qinv (s <| pq := (pq s) <| next ::= <[prev := skb]> |> |> <| inflight ::= delete skb |>) L.
Proof.
  intros Hs Hskb. destruct (qi_prod _ _ Hs _ _ Hskb) as (Hstub & Hadj & Hnull).
  pose proof (adj_in_l _ _ _ Hadj) as HpL.
  destruct Hs as [Ht Hh Hnd Hhist Hnext Hlast Hprod Hcons Hcount Hm].
  assert (prev ≠ head (pq s)) as Hph by by eapply adj_not_last.
  split; cbn; try done.
  - intros a b Hab. destruct (decide (a = prev)) as [->|Hne].
    + left. rewrite (adj_fun _ _ _ _ Hnd Hab Hadj). apply lookup_insert_eq.
    + rewrite lookup_insert_ne by done.
      destruct (Hnext _ _ Hab) as [?|[? [Hl|Hl]]]; [by left|right; split; [done|left]|
        right; split; [done|by right]].
      cbn. rewrite lookup_delete_ne; [done|]. intros ->. congruence.
  - by rewrite lookup_insert_ne.
  - intros x c. rewrite lookup_delete_Some. intros [Hx1 Hx].
    destruct (Hprod x c Hx) as [Hx2 Hx3]. split; [done|]. destruct c as [| |a]; cbn; [done| |].
    + rewrite lookup_insert_ne; [done|]. set_solver.
    + rewrite lookup_insert_ne; [done|]. intros ->. destruct Hx3 as [Hx3 _].
      by pose proof (adj_fun _ _ _ _ Hnd Hx3 Hadj).
  - unfold consumer_inv in *. cbn. destruct (consumer s) eqn:Hcs; try done.
    + destruct_and!. split_and!; try done. rewrite lookup_insert_ne; [done|set_solver].
    + destruct_and!. split_and!; try done. rewrite lookup_insert_ne; [done|]. intros ->.
      match goal with H : adj L _ STUB |- _ => by pose proof (adj_fun _ _ _ _ Hnd H Hadj) end.
    + destruct_and!. split_and!; try done. rewrite lookup_insert_is_Some'. naive_solver.
    + destruct_and!. split_and!; try done. apply lookup_delete_None; by right.
  - by erewrite (reserved_link s _ skb prev).
Qed.

(** *** The consumer *)

(** Moving the program counter alone. *)
Lemma qinv_pc s L c :
  qinv s L → (∀ t p, consumer s ≠ C_stub_link t p) → holding c = holding (consumer s) →
  consumer_inv (s <| consumer := c |>) L → qinv (s <| consumer := c |>) L.
Proof.
  intros [Ht Hh Hnd Hhist Hnext Hlast Hprod Hcons Hcount Hm] Hc Hhold Hinv.
  split; cbn; try done.
  - intros a b Hab. destruct (Hnext _ _ Hab) as [?|[? [Hl|[_ [t Hl]]]]];
      [by left|right; split; [done|by left]|by apply Hc in Hl].
  - rewrite Hhold. done.
Qed.

Lemma qinv_ret s L r :
  qinv s L → (∀ t p, consumer s ≠ C_stub_link t p) → holding (consumer s) = 0 → qinv (ret s r) L.
Proof.
  intros Hs Hc Hh. pose proof (qinv_pc s L C_idle Hs Hc (eq_sym Hh) I) as Hs'.
  destruct Hs' as [? ? ? ? Hnext ? Hprod ? ? ?]. split; cbn in *; done.
Qed.

Lemma qinv_dec s L t :
  qinv s L → consumer s = C_dec t →
  qinv (ret (s <| pq := (pq s) <| count ::= Z.pred |> |>) (Some t)) L.
Proof.
  intros [Ht Hh Hnd Hhist Hnext Hlast Hprod Hcons Hcount Hm] Hc. split; cbn; try done.
  - intros a b Hab. destruct (Hnext _ _ Hab) as [?|[? [Hl|[_ [t' Hl]]]]];
      [by left|right; split; [done|by left]|congruence].
  - unfold reserved in *. cbn. rewrite Hc in Hcount. cbn in Hcount. lia.
  - lia.
Qed.

(** Advancing [tail] past the first node, whose link is set. *)
Lemma qinv_advance s L t n c :
  qinv s L → t = tail (pq s) → next (pq s) !! t = Some n →
  (∀ t p, consumer s ≠ C_stub_link t p) → consumer s ≠ C_dec t → inflight s !! t = None →
  holding (consumer s) = 0 →
  ∃ L', L = t :: L' ∧ t ∉ L' ∧
    (c = C_dec t ∧ t ≠ STUB ∨ c = C_load2 n ∧ t = STUB →
     qinv (s <| pq := (pq s) <| tail := n |> |> <| consumer := c |>
             <| deqd ::= fun l => l ++ (if bool_decide (t = STUB) then [] else [t]) |>) L').
Proof.
  intros Hs -> Hn Hc _ Hfl Hhold.
  pose proof (qinv_succ _ _ _ _ Hs (qinv_tail_in _ _ Hs) Hn) as Hadj.
  destruct Hs as [Ht Hh Hnd Hhist Hnext Hlast Hprod Hcons Hcount Hm].
  destruct L as [|t L]; simplify_eq/=. exists L. apply NoDup_cons in Hnd as [Htl Hnd].
  split; [done|]. split; [done|]. intros Hcase.
  apply adj_cons in Hadj as [[_ Hhd]|Hadj]; [|by apply adj_in_l in Hadj].
  assert (n ∈ L) as HnL by (destruct L; simplify_eq/=; left).
  split; cbn; try done.
  - destruct L; [done|]. done.
  - rewrite Hhist, <- app_assoc. f_equal. destruct (bool_decide_reflect (tail (pq s) = STUB)) as [E|E].
    + rewrite E. by rewrite packets_stub.
    + by rewrite packets_cons.
  - intros a b Hab. destruct (Hnext a b) as [?|[? [Hl|[_ [t' Hl]]]]];
      [apply adj_cons; by right|by left|right; split; [done|by left]|by apply Hc in Hl].
  - intros x k Hx. destruct (Hprod x k Hx) as [Hx2 Hx3]. split; [done|].
    destruct k; cbn in *; [set_solver|set_solver|].
    destruct Hx3 as [[[-> _]|Ha]%adj_cons ?]; [congruence|done].
  - unfold consumer_inv; cbn. destruct Hcase as [[-> Hts]|[-> Hts]]; [done|].
    split; [done|]. intros ->. rewrite Hts in Htl. done.
  - unfold reserved in *. cbn. rewrite Hcount, Hhold.
    destruct Hcase as [[-> Hts]|[-> Hts]]; cbn.
    + rewrite packets_cons by done. cbn. lia.
    + rewrite Hts, packets_stub. lia.
Qed.

Lemma qinv_tail_free s L : qinv s L → is_Some (next (pq s) !! tail (pq s)) → inflight s !! tail (pq s) = None.
Proof.
  intros Hs [n Hn]. destruct (inflight s !! tail (pq s)) as [c|] eqn:E; [|done]. exfalso.
  pose proof (qinv_tail_in _ _ Hs) as HtL.
  destruct (qi_prod _ _ Hs _ _ E) as [Hstub Hc]. destruct c as [| |a]; [done|naive_solver|].
  destruct Hc as [(l1 & l2 & HL) _]. pose proof (qi_tail _ _ Hs) as Ht. pose proof (qi_nodup _ _ Hs) as Hnd.
  rewrite HL in Ht, Hnd. destruct l1 as [|y l1]; simplify_eq/=;
    apply NoDup_cons in Hnd as [Hnd _]; set_solver.
Qed.

Lemma qinv_take s L t n :
  qinv s L → t = tail (pq s) → t ≠ STUB → next (pq s) !! t = Some n →
  (∀ t p, consumer s ≠ C_stub_link t p) → holding (consumer s) = 0 → ∃ L', qinv (take s t n) L'.
Proof.
  intros Hs Ht Hstub Hn Hc Hh.
  assert (consumer s ≠ C_dec t) as Hd by (intros E; rewrite E in Hh; done).
  assert (inflight s !! t = None) as Hf by (subst t; eapply qinv_tail_free; eauto).
  destruct (qinv_advance s L t n (C_dec t) Hs Ht Hn Hc Hd Hf Hh) as (L' & -> & _ & H).
  exists L'. specialize (H (or_introl (conj eq_refl Hstub))).
  rewrite bool_decide_eq_false_2 in H by done. exact H.
Qed.

Lemma qinv_skip_stub s L n :
  qinv s L → tail (pq s) = STUB → next (pq s) !! STUB = Some n → consumer s = C_start →
  ∃ L', qinv (s <| pq := (pq s) <| tail := n |> |> <| consumer := C_load2 n |>) L'.
Proof.
  intros Hs Ht Hn Hc.
  assert (inflight s !! STUB = None) as Hf.
  { destruct (inflight s !! STUB) eqn:E; [|done]. by destruct (qi_prod _ _ Hs _ _ E). }
  destruct (qinv_advance s L STUB n (C_load2 n) Hs (eq_sym Ht) Hn) as (L' & -> & _ & H);
    try (rewrite Hc; done); [done|].
  exists L'. specialize (H (or_intror (conj eq_refl eq_refl))).
  rewrite bool_decide_eq_true_2 in H by done.
  destruct H as [? ? ? Hhist ? ? ? ? ? ?]. cbn in Hhist. rewrite app_nil_r in Hhist.
  split; cbn in *; done.
Qed.

Lemma qinv_stub_null s L t :
  qinv s L → consumer s = C_stub_null t →
  qinv (s <| pq := (pq s) <| next ::= delete STUB |> |> <| consumer := C_stub_xchg t |>) L.
Proof.
  intros Hs Hc. pose proof (qi_cons _ _ Hs) as Hci. unfold consumer_inv in Hci. rewrite Hc in Hci.
  destruct Hci as (Ht0 & Hts & HsL & Hgap).
  destruct Hs as [Ht Hh Hnd Hhist Hnext Hlast Hprod Hcons Hcount Hm].
  assert (∀ a, a ∈ L → STUB ≠ a) as Hne by congruence.
  split; cbn; try done.
  - intros a b Hab. rewrite lookup_delete_ne by eauto using adj_in_l.
    destruct (Hnext _ _ Hab) as [?|[? [Hl|[_ [t' Hl]]]]];
      [by left|right; split; [done|by left]|congruence].
  - apply lookup_delete_None. by right.
  - intros x c Hx. destruct (Hprod x c Hx) as [Hx2 Hx3]. split; [done|].
    destruct c; cbn; [done| |]; (destruct Hx3; split; [done|]); apply lookup_delete_None; by right.
  - unfold consumer_inv. cbn. split_and!; try done. apply lookup_delete_eq.
  - rewrite Hc in Hcount. done.
Qed.

Lemma qinv_stub_xchg s L t :
  qinv s L → consumer s = C_stub_xchg t →
  qinv (s <| pq := (pq s) <| head := STUB |> |> <| consumer := C_stub_link t (head (pq s)) |>)
       (L ++ [STUB]).
Proof.
  intros Hs Hc. pose proof (qi_cons _ _ Hs) as Hci. unfold consumer_inv in Hci. rewrite Hc in Hci.
  destruct Hci as (Ht0 & Hts & HsL & Hnull & Hgap).
  destruct Hs as [Ht Hh Hnd Hhist Hnext Hlast Hprod Hcons Hcount Hm].
  split; cbn; try done.
  - destruct L; done.
  - by rewrite last_snoc.
  - apply NoDup_app. split_and!; [done|set_solver|apply NoDup_singleton].
  - rewrite packets_app, packets_stub. by rewrite app_nil_r.
  - intros a b Hab%adj_snoc. destruct Hab as [Hab|[Ha ->]].
    + destruct (Hnext _ _ Hab) as [?|[? [Hl|[_ [t' Hl]]]]];
        [by left|right; split; [done|by left]|congruence].
    + right. assert (a = head (pq s)) as -> by congruence. split; [done|]. right.
      split; [done|]. by exists t.
  - intros x c Hx. destruct (Hprod x c Hx) as [Hx2 Hx3]. split; [done|]. destruct c; cbn;
      [set_solver|set_solver|]. destruct Hx3; split; [|done]. apply adj_snoc; by left.
  - unfold consumer_inv. cbn. split_and!; try done.
    + apply adj_snoc. by right.
    + destruct Hgap as [->|?]; [|by right]. cbn in Hh. left. congruence.
  - rewrite packets_app, packets_stub, app_nil_r. rewrite Hc in Hcount. done.
Qed.

Lemma qinv_stub_link s L t prev :
  qinv s L → consumer s = C_stub_link t prev →
  qinv (s <| pq := (pq s) <| next ::= <[prev := STUB]> |> |> <| consumer := C_load3 t |>) L.
Proof.
  intros Hs Hc. pose proof (qi_cons _ _ Hs) as Hci. unfold consumer_inv in Hci. rewrite Hc in Hci.
  destruct Hci as (Ht0 & Hts & Hadj & Hnull & Hgap). pose proof (adj_in_l _ _ _ Hadj) as HpL.
  destruct Hs as [Ht Hh Hnd Hhist Hnext Hlast Hprod Hcons Hcount Hm].
  assert (prev ≠ head (pq s)) as Hph by by eapply adj_not_last.
  split; cbn; try done.
  - intros a b Hab. destruct (decide (a = prev)) as [->|Hne].
    + left. rewrite (adj_fun _ _ _ _ Hnd Hab Hadj). apply lookup_insert_eq.
    + rewrite lookup_insert_ne by done. destruct (Hnext _ _ Hab) as [?|[? [Hl|[_ [t' Hl]]]]];
        [by left|right; split; [done|by left]|congruence].
  - by rewrite lookup_insert_ne.
  - intros x c Hx. destruct (Hprod x c Hx) as [Hx2 Hx3]. split; [done|].
    destruct c as [| |a]; cbn; [done| |]; rewrite lookup_insert_ne; try done; [set_solver|].
    intros ->. destruct Hx3 as [Hx3 _]. by pose proof (adj_fun _ _ _ _ Hnd Hx3 Hadj).
  - unfold consumer_inv. cbn. split_and!; try done. destruct Hgap as [->|?]; [|by right].
    left. rewrite lookup_insert_eq. eauto.
  - rewrite Hc in Hcount. done.
Qed.

(** A step that loads a NULL link goes on to look at [head]. *)
Lemma qinv_null_pc s L t :
  qinv s L → (unlinked s → saw_gap s = true) → t = tail (pq s) → t ≠ STUB →
  next (pq s) !! t = None → (∀ t p, consumer s ≠ C_stub_link t p) → holding (consumer s) = 0 →
  qinv (s <| consumer := C_head t |>) L.
Proof.
  intros Hs Hun Ht Hts Hn Hc Hh. apply qinv_pc; [done|done|by rewrite Hh|].
  cbn. split_and!; [done|done|].
  destruct (qinv_null s L t Hs Ht Hn Hc) as [?|?]; [by left|right; auto].
Qed.

Lemma cstep_qinv s L s' :
  qinv s L → (unlinked s → saw_gap s = true) → cstep s = Some s' → ∃ L', qinv s' L'.
Proof.
  intros Hs Hun Hc. unfold cstep in Hc.
  pose proof (qi_cons _ _ Hs) as Hci. unfold consumer_inv in Hci.
  destruct (consumer s) as [| |t|t|t|t|t prev|t|t] eqn:Ecs; simplify_eq/=.
  - destruct (bool_decide_reflect (tail (pq s) = STUB)) as [Et|Et];
      destruct (next (pq s) !! tail (pq s)) as [n|] eqn:En; simplify_eq/=.
    + rewrite Et in En. by eapply qinv_skip_stub.
    + exists L. apply qinv_ret; by rewrite ?Ecs.
    + eapply qinv_take; by rewrite ?Ecs.
    + exists L. apply qinv_null_pc; by rewrite ?Ecs.
  - destruct Hci as [-> Hts]. destruct (next (pq s) !! tail (pq s)) as [n|] eqn:En; simplify_eq/=.
    + eapply qinv_take; by rewrite ?Ecs.
    + exists L. apply qinv_null_pc; by rewrite ?Ecs.
  - destruct Hci as (-> & Hts & Hg). exists L. case_bool_decide as Eh; simplify_eq/=.
    + apply qinv_pc; rewrite ?Ecs; try done. cbn. rewrite (qinv_single s L Hs Eh).
      split_and!; try done; [by rewrite list_elem_of_singleton|by left].
    + apply qinv_ret; by rewrite ?Ecs.
  - exists L. by apply qinv_stub_null.
  - exists (L ++ [STUB]). by apply qinv_stub_xchg.
  - exists L. by apply qinv_stub_link.
  - destruct Hci as (-> & Hts & Hg). destruct (next (pq s) !! tail (pq s)) as [n|] eqn:En; simplify_eq/=.
    + eapply qinv_take; by rewrite ?Ecs.
    + exists L. apply qinv_ret; by rewrite ?Ecs.
  - exists L. by apply qinv_dec.
Qed.

Lemma qstep_QI s s' : QI s → qstep s s' → QI s'.
Proof.
  intros [[L Hs] Hgap] (s1 & Hstep & ->).
  assert (unlinked s → saw_gap s = true) as Hun.
  { intros Hu. apply Hgap. apply bool_decide_eq_true. by right. }
  destruct Hstep as [skb He Hc|skb s' Hp|Hc Hp|s' Hc|Hc].
  - by apply (QI_observe _ L), qinv_enqueue_begin.
  - unfold pstep in Hp. destruct (inflight s !! skb) as [[| |prev]|] eqn:E; simplify_eq/=.
    + by apply (QI_observe _ L), qinv_P_null.
    + split; [exists (L ++ [skb]); by apply qinv_P_xchg|].
      intros _. rewrite observe_gap; [done|]. right.
      eapply (linking_unlinked _ _ skb). apply lookup_insert_eq.
    + by apply (QI_observe _ L), qinv_P_link.
  - apply (QI_observe _ L).
    pose proof (qinv_pc s L C_start Hs) as Hs'. rewrite Hc in Hs'.
    destruct Hs' as []; [done|done|done|]. split; cbn in *; done.
  - destruct (cstep_qinv _ _ _ Hs Hun Hc) as [L' ?]. by eapply QI_observe.
  - apply (QI_observe _ L). destruct Hs as []. split; cbn in *; done.
Qed.

Lemma qreachable_QI s : qreachable s → QI s.
Proof.
  induction 1 as [nexts|s s' _ IH Hstep]; [|by eapply qstep_QI].
  split; [exists [STUB]|done]. split; cbn; try done.
  - apply NoDup_singleton.
  - intros a b ([|? []] & l2 & E); simplify_eq/=.
  - apply lookup_delete_eq.
Qed.

(** ** Theorems *)

Definition held (c : cpc) : list ptr := match c with C_dec t => [t] | _ => [] end.

(** What was unlinked is what was returned, plus the packet being returned. *)
Lemma deqd_returned s : qreachable s → deqd s = returned s ++ held (consumer s).
Proof.
  induction 1 as [nexts|s s' _ IH (s1 & Hstep & ->)]; [done|].
  destruct Hstep as [skb He Hc|skb s' Hp|Hc Hp|s' Hc|Hc]; cbn.
  - done.
  - unfold pstep in Hp. by destruct (inflight s !! skb) as [[]|]; simplify_eq/=.
  - by rewrite Hc in *.
  - unfold cstep, take, ret in Hc. destruct (consumer s) eqn:E; simplify_eq/=;
      rewrite ?app_nil_r in IH; repeat case_match; simplify_eq/=; rewrite ?app_nil_r; congruence.
  - by rewrite Hc in *.
Qed.

Lemma qreachable_hist s : qreachable s → enqd s = returned s ++ held (consumer s) ++ queued s.
Proof.
  intros Hr. destruct (qreachable_QI s Hr) as [[L Hs] _].
  rewrite (queued_packets _ _ (qi_hist _ _ Hs)), app_assoc, <- (deqd_returned s Hr).
  apply (qi_hist _ _ Hs).
Qed.

(** C28: whatever the interleaving of enqueuers and the consumer, the packets
    returned are a prefix of the packets in the order of their [xchg] on
    [queue->head]: first in, first out, none lost, none twice, and the packets
    still in the queue are pairwise different. *)
Theorem prev_queue_fifo s :
  qreachable s →
  enqd s = returned s ++ held (consumer s) ++ queued s ∧ NoDup (queued s) ∧ STUB ∉ enqd s.
Proof.
  intros Hr. split; [by apply qreachable_hist|].
  destruct (qreachable_QI s Hr) as [[L Hs] _].
  rewrite (queued_packets _ _ (qi_hist _ _ Hs)). split.
  { apply NoDup_filter, (qi_nodup _ _ Hs). }
  clear L Hs. induction Hr as [nexts|s s' Hr IH (s1 & Hstep & ->)]; [cbn; set_solver|].
  destruct Hstep as [skb He Hc|skb s' Hp|Hc Hp|s' Hc|Hc]; cbn; try done.
  - destruct (qreachable_QI s Hr) as [[L Hs] _]. unfold pstep in Hp.
    destruct (inflight s !! skb) as [[]|] eqn:E; simplify_eq/=; try done.
    destruct (qi_prod _ _ Hs _ _ E) as [? _]. set_solver.
  - unfold cstep, take, ret in Hc. by repeat case_match; simplify_eq/=.
Qed.

(** The count never leaves 0..MAX_QUEUED_PACKETS and, when nothing is in
    flight, it is the length of the queue. *)
Theorem prev_queue_count_bounded s :
  qreachable s →
  0 <= count (pq s) <= MAX_QUEUED_PACKETS ∧
  (inflight s = ∅ → consumer s = C_idle → count (pq s) = Z.of_nat (length (queued s))).
Proof.
  intros Hr. destruct (qreachable_QI s Hr) as [[L Hs] _].
  pose proof (qi_count _ _ Hs) as Hc. pose proof (qi_max _ _ Hs).
  rewrite (queued_packets _ _ (qi_hist _ _ Hs)). split.
  - destruct (consumer s); cbn in Hc; lia.
  - intros Hi Hcs. rewrite Hc, Hcs. unfold reserved. rewrite Hi, map_filter_empty, map_size_empty.
    cbn. lia.
Qed.

(** A dequeue that returns NULL is excused: since it began there was a
    moment at which the queue was empty or some enqueue had exchanged [head] and
    not linked its packet yet. *)
Theorem dequeue_null_excused s s' :
  qreachable s → cstep s = Some s' → consumer s' = C_idle → result s' = None →
  saw_gap s = true.
Proof.
  intros Hr Hc Hi Hres. destruct (qreachable_QI s Hr) as [[L Hs] Hgap].
  pose proof (qi_cons _ _ Hs) as Hci. unfold consumer_inv in Hci.
  unfold cstep in Hc. destruct (consumer s) as [| |t|t|t|t|t prev|t|t] eqn:E; simplify_eq/=.
  - apply Hgap, bool_decide_eq_true.
    destruct (bool_decide_reflect (tail (pq s) = STUB)) as [Et|Et];
      destruct (next (pq s) !! tail (pq s)) eqn:En; simplify_eq/=.
    destruct (qinv_null s L _ Hs eq_refl En ltac:(by rewrite E)) as [EL|Hu]; [|by right].
    left. rewrite (queued_packets _ _ (qi_hist _ _ Hs)), EL, Et. done.
  - by destruct (next (pq s) !! t); simplify_eq/=.
  - destruct Hci as (-> & _ & [EL|?]); [|done]. case_bool_decide as Eh; simplify_eq/=.
    destruct Eh. pose proof (qi_head _ _ Hs) as Hh. simpl in Hh. congruence.
  - destruct Hci as (-> & _ & [[n En]|?]); [|done]. by rewrite En in Hc; simplify_eq/=.
Qed.

(** ** The routines run alone *)

(** The consumer's steps with no other thread in between. *)
Fixpoint solo (n : nat) (s : qstate) : qstate :=
  match n with
  | O => s
  | S n => match cstep s with Some s' => solo n (observe s') | None => s end
  end.

Lemma solo_steps n s : rtc qstep s (solo n s).
Proof.
  revert s. induction n as [|n IH]; intros s; [done|]. cbn.
  destruct (cstep s) as [s'|] eqn:E; [|done].
  eapply rtc_l, IH. eexists. split; [by apply q_dequeue_step|done].
Qed.

(** The same run without the history flag, which the steps do not read. *)
Fixpoint csolo (n : nat) (s : qstate) : qstate :=
  match n with
  | O => s
  | S n => match cstep s with Some s' => csolo n s' | None => s end
  end.

Lemma cstep_saw_gap s b :
  cstep (s <| saw_gap := b |>) = (fun s' => s' <| saw_gap := b |>) <$> cstep s.
Proof.
  unfold cstep. cbn. destruct (consumer s); cbn; try done; repeat case_match; done.
Qed.

Lemma solo_csolo n s b : ∃ b', solo n (s <| saw_gap := b |>) = (csolo n s) <| saw_gap := b' |>.
Proof.
  revert s b. induction n as [|n IH]; intros s b; cbn [solo csolo]; [by exists b|].
  rewrite cstep_saw_gap. destruct (cstep s) as [s'|]; cbn [fmap option_fmap option_map];
    [|by exists b]. exact (IH s' (gap (s' <| saw_gap := b |>) || b)).
Qed.

Lemma csolo_S n s :
  csolo (S n) s = match cstep s with Some s' => csolo n s' | None => s end.
Proof. done. Qed.

Lemma csolo_idle n s : consumer s = C_idle → csolo n s = s.
Proof. intros Hc. destruct n; [done|]. rewrite csolo_S. unfold cstep. by rewrite Hc. Qed.

Ltac csolo_step := rewrite csolo_S; cbn -[csolo].
Ltac csolo_done := rewrite ?csolo_idle by done; cbn; rewrite ?app_nil_r; done.

(** The part after the stub has been skipped. *)
Lemma csolo_tail k1 k2 s t n :
  t = tail (pq s) → next (pq s) !! t = n →
  let '(q, r) := dequeue_tail (pq s) t n in
  let s' := match n with
            | Some n => csolo (S k1) (take s t n)
            | None => csolo (6 + k2) (s <| consumer := C_head t |>)
            end in
  consumer s' = C_idle ∧ pq s' = q <| peeked := r |> ∧ inflight s' = inflight s ∧
  enqd s' = enqd s ∧ deqd s' = deqd s ++ option_list r.
Proof.
  intros -> Hn. destruct s as [[h t p c nx] fl cs res en de re sg]. cbn in Hn.
  unfold dequeue_tail. destruct n as [n|]; cbn -[csolo]; [csolo_step; csolo_done|].
  csolo_step. destruct (bool_decide (t = h)); cbn -[csolo]; [|csolo_done].
  do 4 csolo_step. destruct (<[h:=STUB]> (delete STUB nx) !! t); cbn -[csolo]; [csolo_step|]; csolo_done.
Qed.

(** Eight shared accesses are enough, and they compute the C function. *)
Lemma csolo_dequeue s :
  consumer s = C_start →
  let '(q, r) := wg_prev_queue_dequeue (pq s) in
  let s' := csolo 8 s in
  consumer s' = C_idle ∧ pq s' = q <| peeked := r |> ∧ inflight s' = inflight s ∧
  enqd s' = enqd s ∧ deqd s' = deqd s ++ option_list r.
Proof.
  intros Hc. rewrite csolo_S. unfold cstep at 1. rewrite Hc.
  unfold wg_prev_queue_dequeue. set (t := tail (pq s)).
  destruct (bool_decide_reflect (t = STUB)) as [Et|Et]; destruct (next (pq s) !! t) as [n|] eqn:En.
  - set (s1 := s <| pq := _ |> <| consumer := _ |>). cbn -[csolo s1 dequeue_tail].
    rewrite csolo_S. unfold cstep at 1. cbn [consumer s1 upd].
    pose proof (csolo_tail 5 0 s1 n _ eq_refl eq_refl) as Ht. cbn -[csolo dequeue_tail take] in *.
    destruct (next (pq s) !! n) as [n2|] eqn:En2; cbn -[csolo dequeue_tail take] in *.
    + exact Ht.
    + exact Ht.
  - csolo_done.
  - pose proof (csolo_tail 6 1 s t _ eq_refl En) as Ht. exact Ht.
  - pose proof (csolo_tail 6 1 s t _ eq_refl En) as Ht. exact Ht.
Qed.

Lemma dequeue_tail_result q t :
  (next q !! t = None → t = head q) → (dequeue_tail q t (next q !! t)).2 = Some t.
Proof.
  intros Hh. unfold dequeue_tail. destruct (next q !! t) as [n|]; [done|].
  rewrite (Hh eq_refl), bool_decide_eq_true_2 by done. cbn. by rewrite lookup_insert_eq.
Qed.

(** With nothing in flight the dequeue takes the oldest packet. *)
Lemma dequeue_result s L :
  qinv s L → inflight s = ∅ → consumer s = C_idle →
  (wg_prev_queue_dequeue (pq s)).2 = list.head (packets L).
Proof.
  intros Hs Hi Hc.
  assert (∀ a, a ∈ L → next (pq s) !! a = None → a = head (pq s)) as Hnull.
  { intros a Ha Hn. destruct (decide (a = head (pq s))) as [|Hne]; [done|].
    destruct (adj_next L a _ Ha (qi_head _ _ Hs) Hne) as [b Hb].
    destruct (qi_next _ _ Hs _ _ Hb) as [E|[_ [E|[_ [t' E]]]]]; [congruence| |congruence].
    by rewrite Hi, lookup_empty in E. }
  pose proof (qinv_tail_in _ _ Hs) as HtL. pose proof (qi_tail _ _ Hs) as Ht.
  unfold wg_prev_queue_dequeue. case_bool_decide as Et.
  - destruct (next (pq s) !! tail (pq s)) as [n|] eqn:En.
    + pose proof (qinv_succ _ _ _ _ Hs HtL En) as Hadj. pose proof (adj_in_r _ _ _ Hadj) as HnL.
      rewrite dequeue_tail_result by (cbn; auto).
      pose proof (qi_nodup _ _ Hs) as Hnd. destruct L as [|x L]; simplify_eq/=.
      apply NoDup_cons in Hnd as [Hx _]. apply adj_cons in Hadj as [[_ Hh]|Hadj];
        [|by apply adj_in_l in Hadj]. rewrite Et, packets_stub.
      destruct L as [|y L]; simplify_eq/=. rewrite packets_cons; [done|]. rewrite Et in Hx. set_solver.
    + rewrite (qinv_single s L Hs (Hnull _ HtL En)), Et. done.
  - rewrite dequeue_tail_result by (cbn; auto). destruct L as [|x L]; simplify_eq/=.
    by rewrite packets_cons.
Qed.

(** The enqueue's three accesses with nobody in between. *)
Lemma enqueue_alone s skb :
  enqueuable s skb → count (pq s) ≠ MAX_QUEUED_PACKETS →
  ∃ s', rtc qstep s s' ∧ pq s' = (wg_prev_queue_enqueue (pq s) skb).1 ∧
    inflight s' = inflight s ∧ consumer s' = consumer s ∧ deqd s' = deqd s ∧
    enqd s' = enqd s ++ [skb].
Proof.
  intros He Hc. destruct He as (Hstub & Hfree & Hq & Hd) eqn:Heq. clear Heq.
  eexists. split_and!.
  - eapply rtc_l; [eexists; split; [apply (q_enqueue_begin s skb); [done|done]|reflexivity]|].
    do 3 (eapply rtc_l; [eexists; split; [apply (q_enqueue_step _ skb); unfold pstep;
      cbn -[gap]; rewrite lookup_insert_eq; reflexivity|reflexivity]|]).
    apply rtc_refl.
  - unfold wg_prev_queue_enqueue. rewrite (proj2 (Z.eqb_neq _ _)) by done. done.
  - cbn. rewrite !insert_insert_eq. rewrite delete_insert_id by done. done.
  - done.
  - done.
  - done.
Qed.

Definition quiescent (s : qstate) : Prop :=
  qreachable s ∧ inflight s = ∅ ∧ consumer s = C_idle.

Lemma reachable_steps s s' : qreachable s → rtc qstep s s' → qreachable s'.
Proof. induction 2; eauto using qreachable. Qed.

(** The abstract queue: at most MAX_QUEUED_PACKETS packets, taken from the front. *)
Definition fifo_enqueue (l : list ptr) (x : ptr) : option (list ptr) :=
  if bool_decide (length l = Z.to_nat MAX_QUEUED_PACKETS) then None else Some (l ++ [x]).

(** With no other thread in the queue's code, [wg_prev_queue_enqueue] and
    [wg_prev_queue_peek] are the two operations of a bounded FIFO: the enqueue
    fails exactly when MAX_QUEUED_PACKETS are queued and otherwise appends; the
    peek returns the oldest packet, NULL exactly when there is none. *)
Theorem prev_queue_sequential_refines s :
  quiescent s →
  (∀ skb, enqueuable s skb →
    let '(q', ok) := wg_prev_queue_enqueue (pq s) skb in
    match fifo_enqueue (queued s) skb with
    | None => ok = false ∧ q' = pq s
    | Some l => ok = true ∧ ∃ s', quiescent s' ∧ pq s' = q' ∧ queued s' = l
    end) ∧
  (peeked (pq s) = None →
    let '(q', r) := wg_prev_queue_peek (pq s) in
    r = list.head (queued s) ∧ peeked q' = r ∧
    ∃ s', quiescent s' ∧ pq s' = q' ∧ queued s' = list.tail (queued s)).
Proof.
  intros (Hr & Hi & Hcs). destruct (qreachable_QI s Hr) as [[L Hs] _].
  pose proof (queued_packets _ _ (qi_hist _ _ Hs)) as HqL. split.
  - intros skb He. pose proof (qi_count _ _ Hs) as Hc. rewrite Hcs in Hc. unfold reserved in Hc.
    rewrite Hi, map_filter_empty, map_size_empty in Hc. cbn in Hc. unfold fifo_enqueue.
    unfold wg_prev_queue_enqueue. rewrite HqL. case_bool_decide as Hlen.
    + rewrite (proj2 (Z.eqb_eq _ _)) by (unfold MAX_QUEUED_PACKETS in *; lia). done.
    + assert (count (pq s) ≠ MAX_QUEUED_PACKETS) as Hne by (unfold MAX_QUEUED_PACKETS in *; lia).
      destruct (enqueue_alone s skb He Hne) as (s' & Hst & Hpq & Hi' & Hc' & Hd' & He').
      unfold wg_prev_queue_enqueue in Hpq. rewrite (proj2 (Z.eqb_neq _ _)) in * by done.
      split; [done|]. exists s'. split_and!; [|done|].
      * split_and!; [by eapply reachable_steps|congruence|congruence].
      * unfold queued. rewrite He', Hd', (qi_hist _ _ Hs), <- app_assoc. apply drop_app_length.
  - intros Hp. unfold wg_prev_queue_peek. rewrite Hp.
    pose proof (dequeue_result s L Hs Hi Hcs) as Hres.
    set (s1 := observe (s <| consumer := C_start |> <| saw_gap := false |>)).
    assert (qstep s s1) as Hs1 by (eexists; split; [by apply q_dequeue_begin|done]).
    pose proof (csolo_dequeue s1 eq_refl) as Hsolo. change (pq s1) with (pq s) in Hsolo.
    destruct (wg_prev_queue_dequeue (pq s)) as [q' r]. cbn [snd] in Hres.
    destruct (solo_csolo 8 s1 (saw_gap s1)) as [b Hb].
    revert Hb Hsolo. generalize (csolo 8 s1). intros s2 Hb (H1 & H2 & H3 & H4 & H5).
    split; [congruence|]. split; [done|]. exists (s2 <| saw_gap := b |>).
    split_and!; [split_and!| |].
    + assert (s1 = s1 <| saw_gap := saw_gap s1 |>) as E by done. rewrite <- Hb.
      eapply reachable_steps; [by eapply qr_step|]. rewrite <- E. apply solo_steps.
    + cbn. rewrite H3. done.
    + done.
    + done.
    + unfold queued. cbn. rewrite H4, H5. cbn.
      rewrite length_app, (qi_hist _ _ Hs), drop_app_add, drop_app_length.
      subst r. by destruct (packets L).
Qed.

(** Witnesses: an interleaving in which a packet is enqueued while another is
    being dequeued, and an enqueue preempted between its exchange and its link. *)

Lemma enqueue_begin_reach s skb :
  qreachable s → enqueuable s skb → count (pq s) ≠ MAX_QUEUED_PACKETS →
  qreachable (observe (s <| pq := (pq s) <| count ::= Z.add 1 |> |> <| inflight ::= <[skb := P_null]> |>)).
Proof. intros Hr He Hc. eapply qr_step; [done|]. eexists. split; [by apply q_enqueue_begin|done]. Qed.

Lemma pstep_reach s skb s' : qreachable s → pstep s skb = Some s' → qreachable (observe s').
Proof. intros Hr Hp. eapply qr_step; [done|]. eexists. split; [by eapply q_enqueue_step|done]. Qed.

Lemma cstep_reach s s' : qreachable s → cstep s = Some s' → qreachable (observe s').
Proof. intros Hr Hp. eapply qr_step; [done|]. eexists. split; [by eapply q_dequeue_step|done]. Qed.

Lemma dequeue_begin_reach s :
  qreachable s → consumer s = C_idle → peeked (pq s) = None →
  qreachable (observe (s <| consumer := C_start |> <| saw_gap := false |>)).
Proof. intros Hr Hc Hp. eapply qr_step; [done|]. eexists. split; [by apply q_dequeue_begin|done]. Qed.

(** Packet 7 has exchanged [head] and not linked itself. *)
Definition half_enqueued : qstate :=
  mk_qstate (mk_prev_queue 7 STUB None 1 ∅) {[ 7%nat := P_link STUB ]} C_idle None [7%nat] [] [] true.

Lemma half_enqueued_reachable : qreachable half_enqueued.
Proof.
  pose proof (enqueue_begin_reach (qinit ∅) 7 (qr_init ∅)) as H1.
  specialize (H1 ltac:(split_and!; [done|done|cbn; set_solver|done]) ltac:(done)).
  pose proof (pstep_reach _ 7 _ H1 eq_refl) as H2.
  pose proof (pstep_reach _ 7 _ H2 eq_refl) as H3. exact H3.
Qed.

Definition half_start : qstate :=
  mk_qstate (mk_prev_queue 7 STUB None 1 ∅) {[ 7%nat := P_link STUB ]} C_start None [7%nat] [] [] true.

Lemma half_start_reachable : qreachable half_start.
Proof. exact (dequeue_begin_reach _ half_enqueued_reachable eq_refl eq_refl). Qed.

Lemma prev_queue_fifo_witness :
  qreachable half_enqueued ∧ enqd half_enqueued = [] ++ [] ++ [7%nat].
Proof.
  split; [exact half_enqueued_reachable|].
  exact (proj1 (prev_queue_fifo half_enqueued half_enqueued_reachable)).
Defined.

Lemma prev_queue_count_bounded_witness :
  qreachable half_enqueued ∧ 0 <= count (pq half_enqueued) <= MAX_QUEUED_PACKETS.
Proof.
  split; [exact half_enqueued_reachable|].
  exact (proj1 (prev_queue_count_bounded half_enqueued half_enqueued_reachable)).
Defined.

Lemma dequeue_null_excused_witness :
  cstep half_start = Some (ret half_start None) ∧ saw_gap half_start = true.
Proof.
  split; [reflexivity|].
  exact (dequeue_null_excused half_start (ret half_start None) half_start_reachable
    eq_refl eq_refl eq_refl).
Defined.

Lemma prev_queue_sequential_refines_witness :
  quiescent (qinit ∅) ∧
  (wg_prev_queue_enqueue (pq (qinit ∅)) 7).2 = true ∧
  (wg_prev_queue_peek (pq (qinit ∅))).2 = None.
Proof.
  assert (quiescent (qinit ∅)) as Hq by (split_and!; [apply qr_init|reflexivity|reflexivity]).
  split; [exact Hq|].
  destruct (prev_queue_sequential_refines (qinit ∅) Hq) as [He Hp].
  split.
  - specialize (He 7%nat ltac:(split_and!; [discriminate|reflexivity|cbn; set_solver|discriminate])).
    cbn in He. exact (proj1 He).
  - specialize (Hp eq_refl). cbn in Hp. exact (proj1 Hp).
Defined.
