(* ===== verification/RxWake.v ===== *)
(** * Waking the receive poll (queueing.h, receive.c)

    One peer's receive path as a concurrent system: producers put packets on
    the peer's queue and on the device ring, decrypt workers take them from the
    ring, set their state and decide whether to wake the NAPI poll
    ([wg_queue_enqueue_per_peer_rx]), the coalescing timer wakes it late
    ([wg_rx_coalesce_timer]), and the poll ([wg_packet_rx_poll]) delivers the
    ready prefix, decrypts on its own when [wg_steal] is set, and decides at the
    end whether to sleep, under the knobs [wg_headwake] and [wg_supp].

    Every shared access is one step ([exec]), interleaved in any order.  The
    NAPI is the pair of bits SCHED and MISSED; [napi_bits_schedule] and
    [napi_bits_complete] relate its two operations to the state word of Napi.v.
    The queue is a list whose peek may miss while an enqueue is not linked, the
    behaviour shown in PrevQueue.v.

    [no_lost_wakeup]: in the stock, [wg_supp], [wg_headwake] and combined
    configurations a state in which no thread can move has an empty queue. *)
From S2P Require Import Prelude Messages Napi.

(** ** State *)

(** The module parameters of main.c that the path reads, and the NAPI weight. *)
Record knobs := mk_knobs {
  wg_headwake : bool;
  wg_supp : bool;
  wg_trig_k : Z;
  wg_steal : Z;
  wg_diag : bool;
  budget : Z;
}.

(** A producer inside [wg_queue_enqueue_per_device_and_peer]: the packet is on
    the queue, to be linked, then to be put on the device ring. *)
Inductive prpc := PR_link | PR_ring.
#[global] Instance prpc_eq : EqDecision prpc.
Proof. solve_decision. Defined.

(** A call of [wg_queue_enqueue_per_peer_rx] for [x], before each access. *)
Inductive wpc :=
  | W_store (x : nat) (st : packet_state)
  | W_check (x : nat)
  | W_sched
  | W_inc
  | W_xchg
  | W_cancel
  | W_cmpxchg
  | W_start.

(** The timer callback. *)
Inductive tpc := T_off | T_begin | T_sched.

(** [wg_packet_rx_poll], before each access.  A packet in the counter is the
    value of the C variable [skb] or [head]; [n] is [pulled]. *)
Inductive npc :=
  | N_none
  | N_start
  | N_loop | N_read (h : nat)
  | N_steal (n : Z) | N_steal_read (h : nat) (n : Z) | N_steal_take (n : Z)
  | N_steal_wait (w : nat) (n : Z) | N_steal_peek | N_steal_chk (h : nat)
  | N_diag
  | N_h1 | N_hpub (r : option nat) | N_h2 | N_h2r (h : nat) | N_hset
  | N_s1 | N_s1r (h : nat) | N_s2 | N_s3 | N_s3r (h : nat) | N_sset
  | N_complete.

#[global] Instance wpc_eq : EqDecision wpc.
Proof. solve_decision. Defined.
#[global] Instance npc_eq : EqDecision npc.
Proof. solve_decision. Defined.

(** [q] is the queue with the peeked packet, if any, in front; [arrived] and
    [delivered] record the packets in the order of enqueueing and of delivery. *)
Record rx := mk_rx {
  q : list nat;
  peeked : bool;
  prod : gmap nat prpc;
  ring : list nat;
  pstate : gmap nat packet_state;
  workers : gmap nat wpc;
  sched : bool;
  missed : bool;
  poll : npc;
  work_done : Z;
  blocked_on : option nat;
  rx_ready : Z;
  armed : bool;
  timer_queued : bool;
  timer_run : tpc;
  arrived : list nat;
  delivered : list nat;
}.

#[export] Instance settable_rx : Settable rx := fun s =>
  mk_rx (q s) (peeked s) (prod s) (ring s) (pstate s) (workers s) (sched s) (missed s) (poll s)
    (work_done s) (blocked_on s) (rx_ready s) (armed s) (timer_queued s) (timer_run s)
    (arrived s) (delivered s).

Definition rx_init : rx :=
  mk_rx [] false ∅ [] ∅ ∅ false false N_none 0 None 0 false false T_off [] [].

(** ** Shared operations *)

(** [napi_schedule] of a NAPI that is not disabled. *)
Definition napi_wake (s : rx) : rx := if sched s then s <| missed := true |> else s <| sched := true |>.

(** The packet's state is not UNCRYPTED. *)
Definition ready (s : rx) (x : nat) : bool :=
  match pstate s !! x with
  | Some PACKET_STATE_CRYPTED | Some PACKET_STATE_DEAD => true
  | _ => false
  end.

Definition any_unlinked (s : rx) : Prop := map_Exists (fun _ c => c = PR_link) (prod s).
#[global] Instance any_unlinked_dec s : Decision (any_unlinked s).
Proof. unfold any_unlinked. apply _. Defined.

(** [wg_prev_queue_peek]: with [miss] the NULL a concurrent enqueue excuses. *)
Definition peek (s : rx) (miss : bool) : option (rx * option nat) :=
  match q s with
  | [] => if miss then Some (s, None) else None
  | h :: _ =>
    if miss then (if negb (peeked s) && bool_decide (any_unlinked s) then Some (s, None) else None)
    else if peeked s || bool_decide (prod s !! h ≠ Some PR_link)
    then Some (s <| peeked := true |>, Some h) else None
  end.

(** ** [wg_queue_enqueue_per_peer_rx] *)

Definition set_worker (w : nat) (c : wpc) (s : rx) : rx := s <| workers ::= <[w := c]> |>.
Definition end_worker (w : nat) (s : rx) : rx := s <| workers ::= delete w |>.

Definition wg_queue_enqueue_per_peer_rx (K : knobs) (s : rx) (w : nat) : option rx :=
  match workers s !! w with
  | None => None
  | Some c => Some
    match c with
    | W_store x st =>
      let s := s <| pstate ::= <[x := st]> |> in
      if wg_headwake K && bool_decide (st = PACKET_STATE_CRYPTED) then set_worker w (W_check x) s
      else if (wg_trig_k K =? 0) || negb (bool_decide (st = PACKET_STATE_CRYPTED))
      then set_worker w W_sched s
      else set_worker w W_inc s
    | W_check x =>
      if bool_decide (blocked_on s = None) || bool_decide (blocked_on s = Some x)
      then set_worker w W_sched s else end_worker w s
    | W_sched => end_worker w (napi_wake s)
    | W_inc =>
      let s := s <| rx_ready := sgn 32 (rx_ready s + 1) |> in
      if sgn 32 (wg_trig_k K) <=? rx_ready s then set_worker w W_xchg s
      else set_worker w W_cmpxchg s
    | W_xchg =>
      set_worker w (if armed s then W_cancel else W_sched) (s <| armed := false |>)
    | W_cancel => set_worker w W_sched (s <| timer_queued := false |>)
    | W_cmpxchg =>
      if armed s then end_worker w s else set_worker w W_start (s <| armed := true |>)
    | W_start => end_worker w (s <| timer_queued := true |>)
    end
  end.

(** [wg_packet_decrypt_worker]: take the oldest packet of the ring; [ok] is the
    result of [decrypt_packet]. *)
Definition take_job (s : rx) (w : nat) (ok : bool) : option rx :=
  match ring s with
  | [] => None
  | x :: r =>
    if bool_decide (workers s !! w = None)
    then Some (set_worker w
           (W_store x (if ok then PACKET_STATE_CRYPTED else PACKET_STATE_DEAD)) (s <| ring := r |>))
    else None
  end.

Definition wg_packet_decrypt_worker := take_job.

(** [wg_rx_coalesce_timer], from its expiry. *)
Definition wg_rx_coalesce_timer (s : rx) : option rx :=
  match timer_run s with
  | T_off => if timer_queued s
             then Some (s <| timer_queued := false |> <| timer_run := T_begin |>) else None
  | T_begin => Some (s <| armed := false |> <| timer_run := T_sched |>)
  | T_sched => Some (napi_wake (s <| timer_run := T_off |>))
  end.

(** ** [wg_queue_enqueue_per_device_and_peer] *)

(** The state is set, and the packet is exchanged into the queue. *)
Definition produce (s : rx) (x : nat) : option rx :=
  if bool_decide (x ∈ q s) then None
  else Some (s <| pstate ::= <[x := PACKET_STATE_UNCRYPTED]> |> <| q ::= fun l => l ++ [x] |>
               <| prod ::= <[x := PR_link]> |> <| arrived ::= fun l => l ++ [x] |>).

(** The link, then [ptr_ring_produce_bh]; [full] is its failure, after which
    the caller completes the packet as DEAD, as the worker [w]. *)
Definition produce_step (s : rx) (x : nat) (full : bool) (w : nat) : option rx :=
  match prod s !! x with
  | None => None
  | Some PR_link => Some (s <| prod ::= <[x := PR_ring]> |>)
  | Some PR_ring =>
    if full then
      if bool_decide (workers s !! w = None)
      then Some (set_worker w (W_store x PACKET_STATE_DEAD) (s <| prod ::= delete x |>))
      else None
    else Some (s <| ring ::= fun l => l ++ [x] |> <| prod ::= delete x |>)
  end.

(** ** [wg_packet_rx_poll] *)

Definition after_hw (K : knobs) : npc := if wg_supp K then N_s1 else N_complete.
Definition after_diag (K : knobs) : npc := if wg_headwake K then N_h1 else after_hw K.
Definition after_steal (K : knobs) : npc := if wg_diag K then N_diag else after_diag K.
Definition after_loop (K : knobs) : npc :=
  if negb (wg_steal K =? 0) then N_steal 0 else after_steal K.
Definition steal_end (K : knobs) (n : Z) : npc :=
  if negb (n =? 0) then N_steal_peek else after_steal K.

Definition goto (p : npc) (s : rx) : rx := s <| poll := p |>.

(** Peek, and go on with the packet or without. *)
Definition peek_then (s : rx) (miss : bool) (some : nat -> npc) (none : npc) : option rx :=
  '(s, r) ← peek s miss;
  Some (goto (match r with Some h => some h | None => none end) s).

Definition deliver (K : knobs) (s : rx) (h : nat) : rx :=
  let s := s <| q ::= list.tail |> <| peeked := false |> <| delivered ::= fun l => l ++ [h] |>
             <| work_done ::= Z.add 1 |> in
  goto (if budget K <=? work_done s then N_none else N_loop) s.

Definition wg_packet_rx_poll (K : knobs) (s : rx) (miss : bool) (w : nat) (ok : bool) : option rx :=
  match poll s with
  | N_none => if sched s then Some (goto N_start (s <| work_done := 0 |>)) else None
  | N_start =>
    if budget K <=? 0 then Some (goto N_none s) else Some (goto N_loop (s <| rx_ready := 0 |>))
  | N_loop => peek_then s miss N_read (after_loop K)
  | N_read h => if ready s h then Some (deliver K s h) else Some (goto (after_loop K) s)
  | N_steal n =>
    if n <? wg_steal K then peek_then s miss (fun h => N_steal_read h n) (steal_end K n)
    else Some (goto (steal_end K n) s)
  | N_steal_read h n => Some (goto (if ready s h then steal_end K n else N_steal_take n) s)
  | N_steal_take n =>
    match ring s with
    | [] => Some (goto (steal_end K n) s)
    | _ => s ← take_job s w ok; Some (goto (N_steal_wait w n) s)
    end
  | N_steal_wait w n => if bool_decide (workers s !! w = None) then Some (goto (N_steal (n + 1)) s) else None
  | N_steal_peek => peek_then s miss N_steal_chk (after_steal K)
  | N_steal_chk h => Some (goto (if ready s h then N_loop else after_steal K) s)
  | N_diag => peek_then s miss (fun _ => after_diag K) (after_diag K)
  | N_h1 => '(s, r) ← peek s miss; Some (goto (N_hpub r) s)
  | N_hpub r => Some (goto N_h2 (s <| blocked_on := r |>))
  | N_h2 => peek_then s miss N_h2r (after_hw K)
  | N_h2r h => Some (goto (if ready s h then N_hset else after_hw K) s)
  | N_hset => Some (goto (after_hw K) (s <| missed := true |>))
  | N_s1 => peek_then s miss N_s1r N_complete
  | N_s1r h => Some (goto (if ready s h then N_complete else N_s2) s)
  | N_s2 => Some (goto N_s3 (s <| missed := false |>))
  | N_s3 => peek_then s miss N_s3r N_complete
  | N_s3r h => Some (goto (if ready s h then N_sset else N_complete) s)
  | N_sset => Some (goto N_complete (s <| missed := true |>))
  | N_complete =>
    if missed s then Some (goto N_none (s <| missed := false |>))
    else Some (goto N_none (s <| sched := false |>))
  end.

(** ** The system *)

Inductive label :=
  | L_arrive (x : nat)
  | L_produce (x : nat) (full : bool) (w : nat)
  | L_take (w : nat) (ok : bool)
  | L_worker (w : nat)
  | L_timer
  | L_poll (miss : bool) (w : nat) (ok : bool).

Definition exec (K : knobs) (s : rx) (l : label) : option rx :=
  match l with
  | L_arrive x => produce s x
  | L_produce x full w => produce_step s x full w
  | L_take w ok => wg_packet_decrypt_worker s w ok
  | L_worker w => wg_queue_enqueue_per_peer_rx K s w
  | L_timer => wg_rx_coalesce_timer s
  | L_poll miss w ok => wg_packet_rx_poll K s miss w ok
  end.

Inductive reachable (K : knobs) : rx -> Prop :=
  | reach_init : reachable K rx_init
  | reach_step s l s' : reachable K s → exec K s l = Some s' → reachable K s'.

(** No thread that is running, or has been asked to run, can move. *)
Definition stuck (K : knobs) (s : rx) : Prop :=
  ∀ l, (∀ x, l ≠ L_arrive x) → exec K s l = None.

(** ** Invariant *)

(** Who is responsible for completing a packet: exactly one of a producer, the
    ring and a worker, for exactly the UNCRYPTED packets of the queue. *)
Record holders_ok (s : rx) : Prop := {
  ho_nodup : NoDup (q s);
  ho_prod x c : prod s !! x = Some c → x ∈ q s ∧ ready s x = false;
  ho_ring x : x ∈ ring s → x ∈ q s ∧ ready s x = false ∧ prod s !! x = None;
  ho_ring_nodup : NoDup (ring s);
  ho_store w x st : workers s !! w = Some (W_store x st) →
    x ∈ q s ∧ ready s x = false ∧ prod s !! x = None ∧ x ∉ ring s ∧ st ≠ PACKET_STATE_UNCRYPTED;
  ho_store_inj w w' x st st' :
    workers s !! w = Some (W_store x st) → workers s !! w' = Some (W_store x st') → w = w';
  ho_held x : x ∈ q s → ready s x = false →
    is_Some (prod s !! x) ∨ x ∈ ring s ∨ ∃ w st, workers s !! w = Some (W_store x st);
}.

(** The packet the poll holds is the cached head of the queue. *)
Definition pc_head (p : npc) : option nat :=
  match p with
  | N_read h | N_steal_read h _ | N_steal_chk h | N_h2r h | N_s1r h | N_s3r h => Some h
  | N_hpub r => r
  | _ => None
  end.
Definition pc_peeked (p : npc) : bool :=
  match p with
  | N_hset | N_s2 | N_s3 | N_sset => true
  | _ => bool_decide (is_Some (pc_head p))
  end.

Record pc_ok (s : rx) : Prop := {
  po_peeked : peeked s = true → q s ≠ [];
  po_pc : pc_peeked (poll s) = true → peeked s = true;
  po_head h : pc_head (poll s) = Some h → list.head (q s) = Some h;
  po_sched : poll s ≠ N_none → sched s = true;
}.

(** From its publication to the next wake, [rx_blocked_on] is NULL or the head. *)
Definition published (s : rx) : bool :=
  match poll s with
  | N_h2 | N_h2r _ | N_hset | N_s1 | N_s1r _ | N_s2 | N_s3 | N_s3r _ | N_sset | N_complete => true
  | N_none => negb (sched s)
  | _ => false
  end.

Definition pub_ok (K : knobs) (s : rx) : Prop :=
  wg_headwake K = true → published s = true →
  ∀ b, blocked_on s = Some b → peeked s = true ∧ list.head (q s) = Some b.

(** Points from which the poll is bound to look at the head again. *)
Definition will_look (K : knobs) (p : npc) : bool :=
  match p with
  | N_none | N_start | N_loop | N_read _ | N_hset | N_s2 | N_s3 | N_s3r _ | N_sset => true
  | N_steal _ | N_steal_read _ _ | N_steal_take _ | N_steal_wait _ _ | N_steal_peek | N_steal_chk _
  | N_diag | N_h1 | N_hpub _ | N_h2 | N_h2r _ => wg_headwake K
  | N_s1 | N_s1r _ | N_complete => false
  end.

Definition matches (s : rx) (x : nat) : Prop := blocked_on s = None ∨ blocked_on s = Some x.

(** Why a deliverable head will not be forgotten. *)
Definition covered (K : knobs) (s : rx) : Prop :=
  (sched s = true ∧ (will_look K (poll s) = true ∨ missed s = true)) ∨
  (∃ w, workers s !! w = Some W_sched) ∨
  (∃ w x, workers s !! w = Some (W_check x) ∧ matches s x) ∨
  (∃ x, x ∈ q s ∧ ready s x = false ∧ (wg_headwake K = true → blocked_on s = None)).

Definition head_ready (s : rx) : Prop := ∃ h, list.head (q s) = Some h ∧ ready s h = true.

Definition no_trigger (K : knobs) : Prop := wg_headwake K = true ∨ wg_trig_k K = 0.

Definition worker_ok (s : rx) : Prop :=
  ∀ w c, workers s !! w = Some c →
    match c with W_store _ _ | W_check _ | W_sched => True | _ => False end.

(** The publication is reached with [wg_headwake] only. *)
Definition hw_pc (p : npc) : bool :=
  match p with N_h1 | N_hpub _ | N_h2 | N_h2r _ | N_hset => true | _ => false end.

Record inv (K : knobs) (s : rx) : Prop := {
  in_hw : hw_pc (poll s) = true → wg_headwake K = true;
  in_holders : holders_ok s;
  in_pc : pc_ok s;
  in_pub : pub_ok K s;
  in_worker : worker_ok s;
  in_cov : head_ready s → covered K s;
  in_hist : arrived s = delivered s ++ q s;
}.

(** ** Lemmas on the parts *)

Lemma any_unlinked_uncrypted s :
  holders_ok s → any_unlinked s → ∃ x, x ∈ q s ∧ ready s x = false.
Proof. intros Hh (x & c & Hx & _). exists x. by eapply ho_prod. Qed.

Lemma peek_inv s miss s' r :
  peek s miss = Some (s', r) →
  (r = None ∧ s' = s ∧ (q s = [] ∨ (peeked s = false ∧ any_unlinked s))) ∨
  (∃ h, r = Some h ∧ list.head (q s) = Some h ∧ s' = s <| peeked := true |>).
Proof.
  unfold peek. destruct (q s) as [|h l] eqn:Eq; destruct miss; intros Hp; simplify_eq; [left; auto| |].
  - left. destruct (peeked s) eqn:Ep; simplify_eq/=. case_bool_decide; simplify_eq/=. auto.
  - right. destruct (_ || _); simplify_eq/=. eauto.
Qed.

(** Setting [peeked] when the queue is not empty. *)
Lemma inv_peeked K s h : inv K s → list.head (q s) = Some h → inv K (s <| peeked := true |>).
Proof.
  intros [? [] [] Hpub ? Hcov ?] Hh. split; try done.
  - split; cbn; try done. intros _ E. by rewrite E in Hh.
  - intros Hk Hp b Hb. cbn in *. by destruct (Hpub Hk Hp b Hb).
Qed.

(** A step of the poll that changes its counter only. *)
Lemma inv_goto K s p :
  inv K s → poll s ≠ N_none → (hw_pc p = true → wg_headwake K = true) →
  (pc_peeked p = true → peeked s = true) →
  (∀ h, pc_head p = Some h → list.head (q s) = Some h) →
  (wg_headwake K = true → published (goto p s) = true → published s = true) →
  (head_ready s → covered K (goto p s)) → inv K (goto p s).
Proof.
  intros [Hhw Hh [] Hpub ? Hcov ?] Hpoll Hhw' Hpp Hph Hpubl Hc. split; try done.
  - destruct Hh. split; done.
  - split; cbn; auto.
  - intros Hk Hp b Hb. cbn in *. by apply Hpub; auto.
Qed.

Lemma covered_goto K s p :
  covered K s → sched s = true → (will_look K (poll s) = true → will_look K p = true) →
  covered K (goto p s).
Proof.
  intros [[? [?|?]]|[?|[?|?]]] Hs Hl; [left; auto|left; auto|right; left; done|
    right; right; left; done|right; right; right; done].
Qed.

Lemma look_covered K s p : sched s = true → will_look K p = true → covered K (goto p s).
Proof. intros ? ?. left. auto. Qed.

(** A NULL from the peek leaves the head covered in the stock configuration, and
    with [wg_headwake] when nothing is published. *)
Lemma miss_covered K s :
  holders_ok s → q s = [] ∨ (peeked s = false ∧ any_unlinked s) →
  (wg_headwake K = true → peeked s = false → blocked_on s = None) →
  head_ready s → ∀ p, covered K (goto p s).
Proof.
  intros Hh [Hq|[Hp Hu]] Hb (h & Hhd & _) p; [by rewrite Hq in Hhd|].
  destruct (any_unlinked_uncrypted s Hh Hu) as (x & Hx & Hr).
  right; right; right. exists x. auto.
Qed.

(** ** The producers *)

Lemma inv_produce K s x s' : inv K s → produce s x = Some s' → inv K s'.
Proof.
  intros [Hhw Hh [] Hpub Hw Hcov Hhist] Hp. unfold produce in Hp.
  case_bool_decide as Hx; simplify_eq/=.
  set (s' := s <| pstate ::= _ |> <| q ::= _ |> <| prod ::= _ |> <| arrived ::= _ |>).
  assert (∀ y, y ≠ x → ready s' y = ready s y) as Hry.
  { intros y Hy. unfold ready. cbn. by rewrite lookup_insert_ne. }
  assert (ready s' x = false) as Hrx by (unfold ready; cbn; by rewrite lookup_insert_eq).
  assert (∀ y, y ∈ q s → y ≠ x) as Hne by congruence.
  assert (∀ h, list.head (q s) = Some h → list.head (q s ++ [x]) = Some h) as Hhd.
  { intros h. by destruct (q s). }
  split; try done.
  - destruct Hh as [Hnd Hprod Hring Hrnd Hstore Hinj Hheld]. split; cbn; try done.
    + apply NoDup_app. split_and!; [done|set_solver|apply NoDup_singleton].
    + intros y c. rewrite lookup_insert_Some. intros [[<- _]|[Hy Hyc]]; [split; [set_solver|done]|].
      destruct (Hprod y c Hyc). rewrite Hry by done. set_solver.
    + intros y Hy. destruct (Hring y Hy) as (? & ? & ?).
      rewrite Hry, lookup_insert_ne by (auto || (symmetry; auto)). set_solver.
    + intros w y st Hy. destruct (Hstore w y st Hy) as (? & ? & ? & ? & ?).
      rewrite Hry, lookup_insert_ne by (auto || (symmetry; auto)). set_solver.
    + intros y Hy Hyr. destruct (decide (y = x)) as [->|Hyx].
      { left. rewrite lookup_insert_eq. eauto. }
      rewrite Hry in Hyr by done. rewrite lookup_insert_ne by done. apply Hheld; set_solver.
  - split; cbn; auto. intros Hpk E. apply app_eq_nil in E. naive_solver.
  - intros Hk Hp b Hb. destruct (Hpub Hk Hp b Hb). cbn. auto.
  - intros (h & Hh1 & Hr). cbn in Hh1. destruct (q s) as [|h' l] eqn:Eq; simplify_eq/=; [congruence|].
    destruct Hcov as [?|[?|[?|(y & Hy & Hyr & Hyb)]]].
    { exists h. split; [by rewrite Eq|]. rewrite <- Hry; [done|]. apply Hne. set_solver. }
    + by left.
    + right; by left.
    + right; right; by left.
    + right; right; right. exists y. cbn. rewrite Eq in *. rewrite Hry by (apply Hne; set_solver).
      set_solver.
  - cbn. by rewrite Hhist, app_assoc.
Qed.

(** A held packet moves from one holder to the next: the other parts of the
    invariant do not see it. *)
Lemma inv_holders K s s' prod' ring' w x st (b : bool) :
  inv K s →
  s' = (if b then set_worker w (W_store x st) s else s) <| prod := prod' |> <| ring := ring' |> →
  (b = true → workers s !! w = None) →
  holders_ok s' → inv K s'.
Proof.
  intros [Hhw Hh [] Hpub Hw Hcov Hhist] -> Hfree Hh'. split; try done.
  - by destruct b.
  - split; destruct b; cbn; auto.
  - intros Hk Hp. destruct b; exact (Hpub Hk Hp).
  - destruct b; [|done]. intros v c. cbn. rewrite lookup_insert_Some.
    intros [[<- <-]|[_ Hc]]; [done|by apply Hw in Hc].
  - intros Hr. assert (head_ready s) as Hr0 by (destruct b; exact Hr).
    destruct b; [|exact (Hcov Hr0)]. specialize (Hfree eq_refl).
    destruct (Hcov Hr0) as [?|[[v Hv]|[(v & y & Hv & Hm)|?]]].
    + by left.
    + right; left. exists v. cbn. rewrite lookup_insert_ne by congruence. done.
    + right; right; left. exists v, y. cbn. rewrite lookup_insert_ne by congruence. done.
    + right; right; right. done.
  - destruct b; done.
Qed.

Lemma inv_produce_step K s x full w s' : inv K s → produce_step s x full w = Some s' → inv K s'.
Proof.
  intros Hi Hp. pose proof (in_holders _ _ Hi) as [Hnd Hprod Hring Hrnd Hstore Hinj Hheld].
  unfold produce_step in Hp. destruct (prod s !! x) as [[]|] eqn:Ex; simplify_eq/=.
  - apply (inv_holders K s _ (<[x := PR_ring]> (prod s)) (ring s) 0 0 PACKET_STATE_DEAD false Hi); [by destruct s|done|].
    split; cbn; try done.
    + intros y c. rewrite lookup_insert_Some. intros [[<- _]|[_ Hy]]; eauto.
    + intros y Hy. destruct (Hring y Hy) as (? & ? & ?). rewrite lookup_insert_ne by congruence. done.
    + intros v y st Hy. destruct (Hstore v y st Hy) as (? & ? & ? & ? & ?).
      rewrite lookup_insert_ne by congruence. done.
    + intros y Hy Hyr. destruct (decide (x = y)) as [->|Hne].
      { left. rewrite lookup_insert_eq. eauto. } rewrite lookup_insert_ne by done. auto.
  - destruct (Hprod x _ Ex) as [Hxq Hxr].
    assert (x ∉ ring s) as Hxring by (intros Hx; destruct (Hring x Hx) as (? & ? & ?); congruence).
    destruct full.
    + case_bool_decide as Hw; simplify_eq/=.
      apply (inv_holders K s _ (delete x (prod s)) (ring s) w x PACKET_STATE_DEAD true Hi); [by destruct s|done|].
      split; cbn; try done.
      * intros y c. rewrite lookup_delete_Some. intros [_ Hy]. eauto.
      * intros y Hy. destruct (Hring y Hy) as (? & ? & ?). split_and!; try done.
        apply lookup_delete_None. by right.
      * intros v y st. rewrite lookup_insert_Some. intros [[<- [= <- <-]]|[_ Hy]].
        { split_and!; try done. apply lookup_delete_eq. }
        destruct (Hstore v y st Hy) as (? & ? & ? & ? & ?). split_and!; try done.
        apply lookup_delete_None. by right.
      * intros v v' y st st'. rewrite !lookup_insert_Some.
        intros [[<- [= <- <-]]|[? H1]] [[<- H2]|[? H2]]; try done.
        -- apply Hstore in H2. naive_solver.
        -- simplify_eq. apply Hstore in H1. naive_solver.
        -- eauto.
      * intros y Hy Hyr. destruct (decide (x = y)) as [->|Hne].
        { right; right. exists w, PACKET_STATE_DEAD. apply lookup_insert_eq. }
        rewrite lookup_delete_ne by done. destruct (Hheld y Hy Hyr) as [?|[?|(v & st & Hv)]]; eauto.
        right; right. exists v, st. rewrite lookup_insert_ne by congruence. done.
    + simplify_eq.
      apply (inv_holders K s _ (delete x (prod s)) (ring s ++ [x]) 0 0 PACKET_STATE_DEAD false Hi); [by destruct s|done|].
      split; cbn; try done.
      * intros y c. rewrite lookup_delete_Some. intros [_ Hy]. eauto.
      * intros y [Hy|Hy%list_elem_of_singleton]%elem_of_app.
        { destruct (Hring y Hy) as (? & ? & ?). split_and!; try done. apply lookup_delete_None. by right. }
        subst y. split_and!; try done. apply lookup_delete_eq.
      * apply NoDup_app. split_and!; [done|set_solver|apply NoDup_singleton].
      * intros v y st Hy. destruct (Hstore v y st Hy) as (? & ? & ? & ? & ?). split_and!; try done.
        { apply lookup_delete_None. by right. } set_solver.
      * intros y Hy Hyr. destruct (decide (x = y)) as [->|Hne]; [right; left; set_solver|].
        rewrite lookup_delete_ne by done. destruct (Hheld y Hy Hyr) as [?|[?|?]]; [by left|
          right; left; set_solver|by right; right].
Qed.

Lemma inv_take_job K s w ok s' : inv K s → take_job s w ok = Some s' → inv K s'.
Proof.
  intros Hi Hp. pose proof (in_holders _ _ Hi) as [Hnd Hprod Hring Hrnd Hstore Hinj Hheld].
  unfold take_job in Hp. destruct (ring s) as [|x r] eqn:Er; simplify_eq.
  case_bool_decide as Hw; simplify_eq. apply NoDup_cons in Hrnd as [Hxr Hrnd].
  destruct (Hring x) as (Hxq & Hxrd & Hxp); [left|].
  set (st := if ok then PACKET_STATE_CRYPTED else PACKET_STATE_DEAD).
  apply (inv_holders K s _ (prod s) r w x st true Hi); [by destruct s|done|].
  split; cbn; try done.
  - intros y Hy. apply Hring. by right.
  - intros v y st'. rewrite lookup_insert_Some. intros [[<- [= <- <-]]|[_ Hy]].
    { split_and!; try done. by destruct ok. }
    destruct (Hstore v y st' Hy) as (? & ? & ? & ? & ?). split_and!; try done. set_solver.
  - intros v v' y st' st''. rewrite !lookup_insert_Some.
    intros [[<- [= <- <-]]|[? H1]] [[<- H2]|[? H2]]; try done.
    + apply Hstore in H2. set_solver.
    + simplify_eq. apply Hstore in H1. set_solver.
    + eauto.
  - intros y Hy Hyr. destruct (Hheld y Hy Hyr) as [?|[Hyr2|(v & st' & Hv)]]; [by left| |].
    + apply elem_of_cons in Hyr2 as [->|?]; [|by right; left].
      right; right. exists w, st. apply lookup_insert_eq.
    + right; right. exists v, st'. rewrite lookup_insert_ne by congruence. done.
Qed.

(** ** The workers and the timer *)

Lemma wake_covered K s : pc_ok s → covered K (napi_wake s).
Proof.
  intros Hp. left. unfold napi_wake. destruct (sched s) eqn:E; cbn; [auto|]. split; [done|].
  left. destruct (poll s) eqn:Ep; try done;
    pose proof (po_sched _ Hp) as Hs; rewrite Ep, E in Hs; by discriminate Hs.
Qed.

Lemma inv_wake K s : inv K s → inv K (napi_wake s).
Proof.
  intros [Hhw Hh [] Hpub Hw Hcov Hhist].
  assert (covered K (napi_wake s)) as Hc by by apply wake_covered.
  revert Hc. unfold napi_wake. destruct (sched s) eqn:Es; intros Hc.
  - split; try done. by destruct Hh; split.
  - split; try done; [by destruct Hh; split|].
    intros Hk Hp. apply Hpub; [done|]. revert Hp. unfold published. cbn. by destruct (poll s).
Qed.

(** The worker [w] moves on without touching the packets. *)
Lemma inv_worker_move K s (o : option wpc) w c s' :
  inv K s → workers s !! w = Some c → (∀ x st, c ≠ W_store x st) →
  s' = s <| workers ::= partial_alter (fun _ => o) w |> →
  (∀ c', o = Some c' → c' = W_sched) →
  (head_ready s → covered K s') → inv K s'.
Proof.
  intros [Hhw Hh [] Hpub Hw Hcov Hhist] Hc Hns -> Ho Hcv.
  assert (∀ v x st, partial_alter (fun _ => o) w (workers s) !! v = Some (W_store x st) →
            workers s !! v = Some (W_store x st)) as Hback.
  { intros v x st. destruct (decide (w = v)) as [<-|Hne].
    - rewrite lookup_partial_alter_eq. intros ->. by specialize (Ho _ eq_refl).
    - by rewrite lookup_partial_alter_ne. }
  split; try done.
  - destruct Hh as [Hnd Hprod Hring Hrnd Hstore Hinj Hheld]. split; cbn; try done; eauto.
    intros x Hx Hr. destruct (Hheld x Hx Hr) as [?|[?|(v & st & Hv)]]; [by left|by right; left|].
    right; right. exists v, st. rewrite lookup_partial_alter_ne; [done|]. intros <-. naive_solver.
  - intros v c'. cbn. destruct (decide (w = v)) as [<-|Hne].
    + rewrite lookup_partial_alter_eq. intros ->. by rewrite (Ho _ eq_refl).
    + rewrite lookup_partial_alter_ne by done. apply Hw.
Qed.

Lemma store_holders s w x st c :
  holders_ok s → workers s !! w = Some (W_store x st) → (∀ y st', c ≠ W_store y st') →
  holders_ok (set_worker w c (s <| pstate ::= <[x := st]> |>)) ∧
  (∀ y, ready (set_worker w c (s <| pstate ::= <[x := st]> |>)) y = bool_decide (y = x) || ready s y).
Proof.
  intros [Hnd Hprod Hring Hrnd Hstore Hinj Hheld] Hw Hc.
  destruct (Hstore w x st Hw) as (Hxq & Hxr & Hxp & Hxn & Hst).
  assert (∀ y, ready (set_worker w c (s <| pstate ::= <[x := st]> |>)) y =
            bool_decide (y = x) || ready s y) as Hry.
  { intros y. unfold ready. cbn. case_bool_decide as E; [subst; rewrite lookup_insert_eq; by destruct st|].
    by rewrite lookup_insert_ne. }
  split; [|done].
  assert (∀ y, y ≠ x → ready (set_worker w c (s <| pstate ::= <[x := st]> |>)) y = ready s y) as Hry2.
  { intros y Hy. rewrite Hry. by rewrite bool_decide_eq_false_2. }
  split; cbn; try done.
  - intros y k Hk. destruct (Hprod y k Hk). rewrite Hry2 by congruence. done.
  - intros y Hy. destruct (Hring y Hy) as (? & ? & ?). rewrite Hry2 by congruence. done.
  - intros v y st'. rewrite lookup_insert_Some. intros [[<- ->]|[Hv Hy]]; [by destruct (Hc y st')|].
    destruct (Hstore v y st' Hy) as (? & ? & ? & ? & ?). rewrite Hry2; [done|].
    intros ->. by destruct Hv; apply (Hinj _ _ _ _ _ Hw Hy).
  - intros v v' y st1 st2. rewrite !lookup_insert_Some.
    intros [[<- ->]|[? H1]]; [by destruct (Hc y st1)|]. intros [[<- ->]|[? H2]]; [by destruct (Hc y st2)|].
    eauto.
  - intros y Hy. rewrite Hry. intros [Hne%bool_decide_eq_false Hyr]%orb_false_iff.
    destruct (Hheld y Hy Hyr) as [?|[?|(v & st' & Hv)]]; [by left|by right; left|].
    right; right. exists v, st'. rewrite lookup_insert_ne; [done|]. intros <-. congruence.
Qed.

(** A completion keeps the head covered. *)
Lemma store_covered K s w x st c :
  inv K s → workers s !! w = Some (W_store x st) →
  c = W_sched ∨ (wg_headwake K = true ∧ c = W_check x) →
  let s' := set_worker w c (s <| pstate ::= <[x := st]> |>) in
  head_ready s' → covered K s'.
Proof.
  intros [Hhw Hh Hpc Hpub Hw Hcov Hhist] Hwx Hc s' (h & Hhd & Hr).
  assert (∀ y st', c ≠ W_store y st') as Hns by naive_solver.
  destruct (store_holders s w x st c Hh Hwx Hns) as [_ Hry]. fold s' in Hry.
  destruct Hc as [->|[Hk ->]].
  { right; left. exists w. apply lookup_insert_eq. }
  assert (matches s' x → covered K s') as Hm.
  { intros Hm. right; right; left. exists w, x. split; [apply lookup_insert_eq|done]. }
  rewrite Hry in Hr. apply orb_true_iff in Hr as [->%bool_decide_eq_true|Hr].
  - destruct (published s) eqn:Ep.
    + apply Hm. unfold matches. change (blocked_on s') with (blocked_on s).
      destruct (blocked_on s) as [b|] eqn:Eb; [|by left].
      destruct (Hpub Hk Ep b Eb) as [_ Hb]. right. change (q s') with (q s) in Hhd. congruence.
    + left. unfold published in Ep.
      destruct (poll s) eqn:Epo; try done; cbn in *; rewrite ?Epo, ?Hk; cbn; rewrite ?Hk;
        (split; [|by left]); try (apply Hpc; by rewrite Epo).
      by apply negb_false_iff.
  - destruct Hcov as [?|[[v Hv]|[(v & y & Hv & Hvm)|(y & Hy & Hyr & Hyb)]]]; [by exists h| | | |].
    + by left.
    + right; left. exists v. cbn. rewrite lookup_insert_ne by congruence. done.
    + right; right; left. exists v, y. cbn. rewrite lookup_insert_ne by congruence. done.
    + destruct (decide (y = x)) as [->|Hne]; [apply Hm; left; by apply Hyb|].
      right; right; right. exists y. rewrite Hry, bool_decide_eq_false_2 by done. done.
Qed.

Lemma inv_store K s w x st c :
  inv K s → workers s !! w = Some (W_store x st) →
  c = W_sched ∨ (wg_headwake K = true ∧ c = W_check x) →
  inv K (set_worker w c (s <| pstate ::= <[x := st]> |>)).
Proof.
  intros Hi Hwx Hc. pose proof (store_covered K s w x st c Hi Hwx Hc) as Hcv.
  destruct Hi as [Hhw Hh [] Hpub Hw Hcov Hhist]. split; try done.
  - apply store_holders; [done|done|]. naive_solver.
  - intros v k. cbn. rewrite lookup_insert_Some. intros [[_ <-]|[_ Hk]]; [naive_solver|by apply Hw in Hk].
Qed.

Lemma inv_worker K s w s' :
  no_trigger K → inv K s → wg_queue_enqueue_per_peer_rx K s w = Some s' → inv K s'.
Proof.
  intros HK Hi He. unfold wg_queue_enqueue_per_peer_rx in He.
  destruct (workers s !! w) as [c|] eqn:Ew; [|done]. apply (inj Some) in He.
  pose proof (in_worker _ _ Hi w c Ew) as Hok.
  destruct c as [x st|x| | | | | |]; try done.
  - destruct (wg_headwake K) eqn:Ek; cbn [andb] in He.
    + destruct (bool_decide_reflect (st = PACKET_STATE_CRYPTED)) as [Est|Est].
      * subst s'. apply inv_store; auto.
      * rewrite orb_true_r in He. subst s'. apply inv_store; auto.
    + destruct HK as [HK|HK]; [congruence|]. rewrite HK in He. subst s'. apply inv_store; auto.
  - destruct (bool_decide_reflect (blocked_on s = None)) as [Hb|Hb];
      [|destruct (bool_decide_reflect (blocked_on s = Some x)) as [Hb2|Hb2]]; cbn in He; subst s'.
    1,2: eapply (inv_worker_move K s (Some W_sched) w); [done|done|done|done|naive_solver|];
      intros _; right; left; exists w; apply lookup_insert_eq.
    eapply (inv_worker_move K s None w); [done|done|done|done|done|]. intros Hr.
    destruct (in_cov _ _ Hi Hr) as [?|[[v Hv]|[(v & y & Hv & Hvm)|?]]].
    + by left.
    + right; left. exists v. cbn. rewrite lookup_delete_ne by congruence. done.
    + right; right; left. exists v, y. cbn. split; [|done]. rewrite lookup_delete_ne; [done|].
      intros <-. unfold matches in Hvm. naive_solver.
    + right; right; right. done.
  - subst s'. pose proof (inv_wake K s Hi) as Hi'.
    assert (workers (napi_wake s) = workers s) as Hws by (unfold napi_wake; by destruct (sched s)).
    eapply (inv_worker_move K (napi_wake s) None w W_sched); [done|by rewrite Hws|done|done|done|].
    intros _. left. destruct (wake_covered K s (in_pc _ _ Hi)) as [?|_]; [done|].
    unfold napi_wake. destruct (sched s) eqn:E; cbn; [auto|]. split; [done|].
    left. destruct (poll s) eqn:Ep; try done;
      pose proof (po_sched _ (in_pc _ _ Hi)) as Hs; rewrite Ep, E in Hs; by discriminate Hs.
Qed.

Lemma inv_timer K s s' : inv K s → wg_rx_coalesce_timer s = Some s' → inv K s'.
Proof.
  intros Hi Ht. unfold wg_rx_coalesce_timer in Ht.
  assert (∀ a b c, inv K (s <| armed := a |> <| timer_queued := b |> <| timer_run := c |>)) as Hany.
  { intros a b c. destruct Hi as [Hhw [] [] Hpub Hw Hcov Hhist]. split; try done; split; done. }
  destruct (timer_run s).
  - destruct (timer_queued s); simplify_eq. apply (Hany (armed s) false T_begin).
  - simplify_eq. apply (Hany false (timer_queued s) T_sched).
  - simplify_eq. apply inv_wake. apply (Hany (armed s) (timer_queued s) T_off).
Qed.

(** ** The poll *)

Lemma after_look K :
  (wg_headwake K = true →
    will_look K (after_diag K) = true ∧ will_look K (after_steal K) = true ∧
    will_look K (after_loop K) = true ∧ ∀ n, will_look K (steal_end K n) = true) ∧
  (∀ p, p ∈ [after_diag K; after_steal K; after_loop K] ∨ (∃ n, p = steal_end K n) →
    pc_peeked p = false ∧ pc_head p = None ∧ (hw_pc p = true → wg_headwake K = true) ∧
    ∀ s, wg_headwake K = true → published (goto p s) = false).
Proof.
  unfold after_loop, steal_end, after_steal, after_diag, after_hw. split.
  - intros Hk. rewrite Hk. cbn. destruct (wg_diag K); cbn; rewrite ?Hk; split_and!; try done;
      try (destruct (negb _); cbn; rewrite ?Hk; done);
      intros n; destruct (negb _); cbn; rewrite ?Hk; done.
  - intros p Hp. assert (p = N_steal_peek ∨ p = N_steal 0 ∨ p = N_diag ∨
      p = (if wg_headwake K then N_h1 else if wg_supp K then N_s1 else N_complete)) as Hc.
    { destruct Hp as [Hp|[n ->]].
      - destruct (wg_diag K), (negb (wg_steal K =? 0)); set_solver.
      - destruct (negb _); [by left|]. destruct (wg_diag K); auto. }
    destruct Hc as [->|[->|[->| ->]]]; try done.
    destruct (wg_headwake K); [done|]. by destruct (wg_supp K).
Qed.

Lemma after_hw_ok K : pc_peeked (after_hw K) = false ∧ pc_head (after_hw K) = None ∧ hw_pc (after_hw K) = false.
Proof. unfold after_hw. by destruct (wg_supp K). Qed.

Lemma inv_peek_then K s miss some none s' :
  inv K s → poll s ≠ N_none → peek_then s miss some none = Some s' →
  (∀ h, pc_head (some h) = Some h ∨ pc_head (some h) = None) →
  pc_peeked none = false → pc_head none = None →
  (∀ p, p = none ∨ (∃ h, p = some h) →
     (hw_pc p = true → wg_headwake K = true) ∧
     (wg_headwake K = true → published (goto p s) = true → published s = true)) →
  (∀ h, head_ready s → covered K (goto (some h) s)) →
  (q s = [] ∨ (peeked s = false ∧ any_unlinked s) → head_ready s → covered K (goto none s)) →
  inv K s'.
Proof.
  intros Hi Hp Hpk Hsome Hn1 Hn2 Hall Hhit Hmiss. unfold peek_then in Hpk.
  destruct (peek s miss) as [[s1 r]|] eqn:Ep; [|done]. cbn in Hpk. apply (inj Some) in Hpk. subst s'.
  apply peek_inv in Ep as [(-> & -> & Hm)|(h & -> & Hh & ->)].
  - apply inv_goto; auto; [apply Hall; by left|congruence|congruence|apply Hall; by left].
  - destruct (Hall (some h)) as [H1 H2]; [eauto|].
    apply inv_goto; [by eapply inv_peeked|done|done|done| |done|intros Hr; exact (Hhit h Hr)].
    intros h' Hh'. cbn. destruct (Hsome h); congruence.
Qed.

(** Steps that also touch a field the invariant does not mention. *)
Lemma inv_ext K s a b : inv K s → inv K (s <| work_done := a |> <| rx_ready := b |>).
Proof. intros [? [] [] ? ? ? ?]. split; try done; split; done. Qed.

Lemma not_ready_head s h :
  pc_ok s → pc_head (poll s) = Some h → ready s h = false → ¬ head_ready s.
Proof. intros Hp Hh Hr (h' & Hh' & Hr'). apply (po_head _ Hp) in Hh. congruence. Qed.

Lemma inv_deliver K s h :
  inv K s → poll s = N_read h → ready s h = true → inv K (deliver K s h).
Proof.
  intros [Hhw Hh Hpc Hpub Hw Hcov Hhist] Hp Hr.
  assert (sched s = true) as Hs by (apply Hpc; by rewrite Hp).
  assert (list.head (q s) = Some h) as Hhd by (apply Hpc; by rewrite Hp).
  destruct (q s) as [|h' l] eqn:Eq; simplify_eq/=.
  assert (∀ p, p = N_none ∨ p = N_loop →
    inv K (goto p (s <| q ::= list.tail |> <| peeked := false |> <| delivered ::= fun l => l ++ [h] |>
             <| work_done ::= Z.add 1 |>))) as Hall; [|unfold deliver; destruct (_ <=? _); auto].
  intros p Hpp. split.
  - by destruct Hpp as [-> | ->].
  - destruct Hh as [Hnd Hprod Hring Hrnd Hstore Hinj Hheld]. rewrite Eq in *.
    apply NoDup_cons in Hnd as [Hhl Hnd].
    assert (∀ x, x ∈ h :: l → ready s x = false → x ∈ l) as Hin.
    { intros x [->|?]%elem_of_cons Hx; [congruence|done]. }
    split; cbn; rewrite ?Eq; cbn; try done.
    + intros x c Hx. destruct (Hprod x c Hx). auto.
    + intros x Hx. destruct (Hring x Hx) as (? & ? & ?). auto.
    + intros w x st Hx. destruct (Hstore w x st Hx) as (? & ? & ? & ? & ?). auto.
    + intros x Hx. apply Hheld. by right.
  - split; cbn; try done; destruct Hpp as [-> | ->]; done.
  - intros _ Hpb. exfalso. revert Hpb. unfold published. cbn. rewrite Hs. by destruct Hpp as [-> | ->].
  - done.
  - intros _. left. cbn. split; [done|]. left. by destruct Hpp as [-> | ->].
  - cbn. rewrite Hhist, Eq. cbn. by rewrite <- app_assoc.
Qed.

Section PollSteps.
Context (K : knobs) (s : rx) (Hi : inv K s) (Hb : 0 < budget K).

Lemma poll_sched : poll s ≠ N_none → sched s = true.
Proof. apply (in_pc _ _ Hi). Qed.

(** From any point, going where the head is looked at again. *)
Lemma inv_goto_look p :
  poll s ≠ N_none → (hw_pc p = true → wg_headwake K = true) →
  (pc_peeked p = true → peeked s = true) → (∀ h, pc_head p = Some h → list.head (q s) = Some h) →
  (wg_headwake K = true → published (goto p s) = true → published s = true) →
  will_look K p = true → inv K (goto p s).
Proof. intros. apply inv_goto; auto. intros _. apply look_covered; [by apply poll_sched|done]. Qed.

(** Leaving the delivery loop (or the stealing) when the head is not ready. *)
Lemma inv_leave p h :
  pc_head (poll s) = Some h → ready s h = false →
  p ∈ [after_diag K; after_steal K; after_loop K] ∨ (∃ n, p = steal_end K n) → inv K (goto p s).
Proof.
  intros Hh Hr Hp. destruct (after_look K) as [_ Hok].
  destruct (Hok p Hp) as (H1 & H2 & H3 & H4).
  apply inv_goto; [done| |done|congruence|congruence| |].
  - intros E. by rewrite E in Hh.
  - intros Hk. by rewrite H4.
  - intros Hd. by destruct (not_ready_head s h (in_pc _ _ Hi) Hh Hr).
Qed.

(** Leaving it otherwise, from a point that is not bound to look again unless
    the publication follows. *)
Lemma inv_leave_cov p :
  poll s ≠ N_none → (will_look K (poll s) = true → wg_headwake K = true) →
  p ∈ [after_diag K; after_steal K; after_loop K] ∨ (∃ n, p = steal_end K n) → inv K (goto p s).
Proof.
  intros Hn Hl Hp. destruct (after_look K) as [Hlook Hok].
  destruct (Hok p Hp) as (H1 & H2 & H3 & H4).
  apply inv_goto; [done|done|done|congruence|congruence| |].
  - intros Hk. by rewrite H4.
  - intros Hd. apply covered_goto; [by apply (in_cov _ _ Hi)|by apply poll_sched|].
    intros Hw. apply Hl, Hlook in Hw as (? & ? & ? & ?). destruct Hp as [Hp|[n ->]]; [|done]. set_solver.
Qed.

Lemma inv_poll_loop miss w ok s' :
  poll s ∈ [N_none; N_start; N_loop] ∨ (∃ h, poll s = N_read h) →
  wg_packet_rx_poll K s miss w ok = Some s' → inv K s'.
Proof.
  intros Hp He. unfold wg_packet_rx_poll in He. destruct (after_look K) as [Hlook Hok].
  destruct Hp as [Hp|[h Hp]].
  - rewrite !elem_of_cons in Hp. destruct Hp as [Hp|[Hp|[Hp|Hp]]]; [..|set_solver];
      rewrite Hp in He.
    + destruct (sched s) eqn:Es; simplify_eq.
      pose proof (inv_ext K s 0 (rx_ready s) Hi) as Hi'.
      destruct Hi' as [_ Hho Hpc ? ? ? ?]. split; try done.
      * destruct Hho; split; done.
      * destruct Hpc; split; cbn in *; done.
      * intros _. left. cbn. auto.
    + rewrite (proj2 (Z.leb_gt _ _)) in He by done. simplify_eq.
      pose proof (inv_goto_look N_loop) as Hg.
      assert (inv K (goto N_loop s)) as Hi' by (apply Hg; try done; by rewrite Hp).
      apply (inv_ext K _ (work_done s) 0) in Hi'. exact Hi'.
    + destruct (Hok (after_loop K)) as (H1 & H2 & H3 & H4); [left; set_solver|].
      eapply inv_peek_then; [done|by rewrite Hp|done|by left|done|done| | |].
      * intros p [->|[h ->]]; split; try done. intros Hk. by rewrite H4.
      * intros h _. apply look_covered; [apply poll_sched; by rewrite Hp|done].
      * intros Hm Hd. destruct (wg_headwake K) eqn:Ek.
        -- apply look_covered; [apply poll_sched; by rewrite Hp|]. by apply Hlook.
        -- apply miss_covered; try done; [apply Hi|by rewrite Ek].
  - rewrite Hp in He. destruct (ready s h) eqn:Er; simplify_eq.
    + by apply inv_deliver.
    + apply (inv_leave _ h); [by rewrite Hp|done|]. left. set_solver.
Qed.

Lemma inv_poll_steal miss w ok s' :
  (∃ n, poll s = N_steal n) ∨ (∃ h n, poll s = N_steal_read h n) ∨ (∃ n, poll s = N_steal_take n) ∨
  (∃ v n, poll s = N_steal_wait v n) ∨ poll s = N_steal_peek ∨ (∃ h, poll s = N_steal_chk h) ∨
  poll s = N_diag →
  wg_packet_rx_poll K s miss w ok = Some s' → inv K s'.
Proof.
  intros Hp He. unfold wg_packet_rx_poll in He. destruct (after_look K) as [Hlook Hok].
  assert (poll s ≠ N_none) as Hn by (intros E; rewrite E in Hp; naive_solver).
  assert (will_look K (poll s) = wg_headwake K) as Hwl.
  { destruct Hp as [[n ->]|[(h & n & ->)|[[n ->]|[(v & n & ->)|[->|[[h ->]| ->]]]]]]; done. }
  assert (∀ p, will_look K p = wg_headwake K → head_ready s → covered K (goto p s)) as Hstay.
  { intros p Hpl Hd. apply covered_goto; [by apply (in_cov _ _ Hi)|by apply poll_sched|congruence]. }
  assert (∀ (p : npc), p ∈ [after_diag K; after_steal K; after_loop K] ∨ (∃ n, p = steal_end K n) →
     ∀ some, (∀ h, hw_pc (some h) = false ∨ some h = p) →
     (∀ h, published (goto (some h) s) = false ∨ some h = p) →
     (∀ h, pc_head (some h) = Some h ∨ pc_head (some h) = None) →
     (∀ h, will_look K (some h) = wg_headwake K ∨ some h = p) →
     peek_then s miss some p = Some s' → inv K s') as Hpeek.
  { intros p Hpp some Hs1 Hs2 Hs3 Hs4 Hpk. destruct (Hok p Hpp) as (H1 & H2 & H3 & H4).
    assert (head_ready s → covered K (goto p s)) as Hcp.
    { intros Hd. apply covered_goto; [by apply (in_cov _ _ Hi)|by apply poll_sched|].
      rewrite Hwl. intros Hk. destruct (Hlook Hk) as (? & ? & ? & ?).
      destruct Hpp as [Hpp|[n ->]]; [set_solver|done]. }
    eapply inv_peek_then; [done|done|done|done|done|done| | |auto].
    - intros p' [->|[h ->]]; [split; [done|]; intros Hk; by rewrite H4|].
      destruct (Hs1 h) as [E1|E1], (Hs2 h) as [E2|E2]; rewrite ?E1, ?E2; (split; [done|]); try done;
        intros Hk; by rewrite H4.
    - intros h. destruct (Hs4 h) as [E| ->]; auto. }
  destruct Hp as [[n Hp]|[(h & n & Hp)|[[n Hp]|[(v & n & Hp)|[Hp|[[h Hp]|Hp]]]]]]; rewrite Hp in He.
  - destruct (n <? wg_steal K).
    + eapply (Hpeek (steal_end K n)); [by right; exists n|..|exact He]; intros h; by left.
    + simplify_eq. apply inv_leave_cov; [done|congruence|by right; exists n].
  - simplify_eq. destruct (ready s h).
    + apply inv_leave_cov; [done|congruence|by right; exists n].
    + apply inv_goto; try done. intros Hd. by apply Hstay.
  - destruct (ring s) eqn:Er.
    + simplify_eq. apply inv_leave_cov; [done|congruence|by right; exists n].
    + destruct (take_job s w ok) as [s1|] eqn:Et; [|done]. cbn in He. simplify_eq.
      pose proof (inv_take_job _ _ _ _ _ Hi Et) as Hi1.
      assert (poll s1 = poll s ∧ sched s1 = sched s) as [Hp1 Hs1].
      { unfold take_job in Et. rewrite Er in Et. case_bool_decide; by simplify_eq. }
      apply inv_goto; try done; [congruence|]. intros Hd.
      apply covered_goto; [by apply (in_cov _ _ Hi1)|rewrite Hs1; by apply poll_sched|].
      rewrite Hp1, Hwl. done.
  - case_bool_decide; simplify_eq. apply inv_goto; try done. intros Hd. by apply Hstay.
  - eapply (Hpeek (after_steal K)); [left; set_solver|..|exact He]; intros h; by left.
  - simplify_eq. destruct (ready s h) eqn:Er.
    + by apply inv_goto_look.
    + apply (inv_leave _ h); [by rewrite Hp|done|left; set_solver].
  - eapply (Hpeek (after_diag K)); [left; set_solver|..|exact He]; intros h; try by right.
    right. apply Hok. left. set_solver.
Qed.

(** MISSED is set by the poll itself. *)
Lemma inv_set_missed p :
  poll s ≠ N_none → hw_pc p = false → pc_peeked p = false → pc_head p = None →
  (published s = true) → inv K (goto p (s <| missed := true |>)).
Proof.
  intros Hn Hp1 Hp2 Hp3 Hpub. pose proof (poll_sched Hn) as Hs. destruct Hi as [? [] [] Hpb ? ? ?].
  split; [cbn; congruence|by split| |intros Hk _; exact (Hpb Hk Hpub)|done| |done].
  - split; cbn in *; try done; congruence.
  - intros _. left. cbn. auto.
Qed.

Lemma after_hw_late p : p = after_hw K → p = N_s1 ∨ p = N_complete.
Proof. unfold after_hw. destruct (wg_supp K); auto. Qed.

Lemma inv_poll_hw miss w ok s' :
  hw_pc (poll s) = true → wg_packet_rx_poll K s miss w ok = Some s' → inv K s'.
Proof.
  intros Hp He. pose proof (in_hw _ _ Hi Hp) as Hk. unfold wg_packet_rx_poll in He.
  destruct (after_hw_ok K) as (Ha1 & Ha2 & Ha3).
  assert (poll s ≠ N_none) as Hn by (intros E; by rewrite E in Hp).
  assert (published s = true → ∀ p, p = after_hw K →
    wg_headwake K = true → published (goto p s) = true → published s = true) as Hpa by auto.
  destruct (poll s) as [| | | | | | | | | | | |r| |h| | | | | | | |] eqn:Ep; try done.
  - destruct (peek s miss) as [[s1 r]|] eqn:Epk; [|done]. cbn in He. simplify_eq.
    apply peek_inv in Epk as [(-> & -> & _)|(h & -> & Hh & ->)].
    + apply inv_goto_look; try done; by rewrite ?Ep.
    + apply inv_goto; [by eapply inv_peeked|cbn; by rewrite Ep|done|done|cbn; congruence|done|].
      intros _. left. cbn. split; [apply poll_sched; by rewrite Ep|by left].
  - simplify_eq. pose proof (po_head _ (in_pc _ _ Hi)) as Hhd. pose proof (po_pc _ (in_pc _ _ Hi)) as Hpp.
    rewrite Ep in Hhd, Hpp. cbn in Hhd, Hpp.
    assert (sched s = true) as Hs by (apply poll_sched; by rewrite Ep).
    destruct Hi as [? [] [] Hpb ? ? ?]. split; try done.
    + intros _ _ b Hbl. cbn in *. subst r. split; [|by apply Hhd].
      apply Hpp. by apply bool_decide_eq_true.
    + intros _. left. cbn. auto.
  - eapply inv_peek_then; [done|by rewrite Ep|done|by left|done|done| | |].
    + intros p [->|[h ->]]; (split; [by rewrite ?Ha3|]); intros _ _; unfold published; by rewrite Ep.
    + intros h _. apply look_covered; [apply poll_sched; by rewrite Ep|done].
    + intros Hm Hd. apply miss_covered; try done; [apply Hi|]. intros _ Hpk.
      destruct (blocked_on s) as [b|] eqn:Eb; [|done].
      destruct (in_pub _ _ Hi Hk) with b as [? _]; [unfold published; by rewrite Ep|done|congruence].
  - simplify_eq. pose proof (po_head _ (in_pc _ _ Hi)) as Hhd. pose proof (po_pc _ (in_pc _ _ Hi)) as Hpp.
    rewrite Ep in Hhd, Hpp. cbn in Hhd, Hpp.
    assert (published s = true) as Hps by (unfold published; by rewrite Ep).
    destruct (ready s h) eqn:Er.
    + apply inv_goto_look; [by rewrite Ep|done|auto|done|auto|done].
    + apply inv_goto; [done|by rewrite Ep|by rewrite Ha3|by rewrite Ha1|by rewrite Ha2|auto|].
      intros Hd. destruct (not_ready_head s h (in_pc _ _ Hi)); [by rewrite Ep|done|done].
  - simplify_eq. apply inv_set_missed; try done; [by rewrite Ep|]. unfold published. by rewrite Ep.
Qed.

Lemma inv_poll_end miss w ok s' :
  poll s ∈ [N_s1; N_s2; N_s3; N_sset; N_complete] ∨ (∃ h, poll s = N_s1r h ∨ poll s = N_s3r h) →
  wg_packet_rx_poll K s miss w ok = Some s' → inv K s'.
Proof.
  intros Hp He. unfold wg_packet_rx_poll in He.
  assert (published s = true ∧ poll s ≠ N_none) as [Hpub Hn].
  { unfold published. destruct Hp as [Hp|(h & [-> | ->])]; [|done|done].
    rewrite !elem_of_cons in Hp. destruct Hp as [->|[->|[->|[->|[->|Hp]]]]]; try done. set_solver. }
  pose proof (poll_sched Hn) as Hs.
  pose proof (po_head _ (in_pc _ _ Hi)) as Hhd. pose proof (po_pc _ (in_pc _ _ Hi)) as Hpp.
  pose proof (po_peeked _ (in_pc _ _ Hi)) as Hpq.
  destruct Hp as [Hp|(h & [Hp|Hp])].
  - rewrite !elem_of_cons in Hp. destruct Hp as [Hp|[Hp|[Hp|[Hp|[Hp|Hp]]]]]; [..|set_solver];
      rewrite Hp in He, Hhd, Hpp; cbn in Hhd, Hpp.
    + assert (∀ p, head_ready s → covered K (goto p s)) as Hstay.
      { intros p Hd. apply covered_goto; [by apply (in_cov _ _ Hi)|done|by rewrite Hp]. }
      eapply inv_peek_then; [done|done|done|by left|done|done| |auto|auto].
      intros p [->|[h ->]]; done.
    + simplify_eq. specialize (Hpp eq_refl). destruct Hi as [? [] [] Hpb ? ? ?].
      split; [done|by split|by split|intros Hk _; exact (Hpb Hk Hpub)|done| |done].
      intros _. left. cbn. auto.
    + specialize (Hpp eq_refl). eapply inv_peek_then; [done|done|done|by left|done|done| | |].
      * intros p [->|[h ->]]; done.
      * intros h _. by apply look_covered.
      * intros [E|[E _]]; [by destruct Hpq|congruence].
    + simplify_eq. by apply inv_set_missed.
    + pose proof (in_cov _ _ Hi) as Hcov. destruct (missed s) eqn:Em; simplify_eq.
      * destruct Hi as [? [] [] Hpb ? ? ?]. split; [done|by split|by split| |done| |done].
        -- intros Hk Hpb'. cbn in Hpb'. by rewrite Hs in Hpb'.
        -- intros _. left. cbn. auto.
      * destruct Hi as [? [] [] Hpb ? ? ?]. split; [done|by split|by split| |done| |done].
        -- intros Hk _. exact (Hpb Hk Hpub).
        -- intros Hd. destruct (Hcov Hd) as [[_ [Hl|Hm]]|Hrest]; [by rewrite Hp in Hl|congruence|].
           right. exact Hrest.
  - rewrite Hp in He, Hhd, Hpp. cbn in Hhd, Hpp. specialize (Hpp eq_refl). simplify_eq.
    destruct (ready s h) eqn:Er.
    + apply inv_goto; try done. intros Hd.
      apply covered_goto; [by apply (in_cov _ _ Hi)|done|by rewrite Hp].
    + by apply inv_goto_look.
  - rewrite Hp in He, Hhd, Hpp. cbn in Hhd, Hpp. specialize (Hpp eq_refl). simplify_eq.
    destruct (ready s h) eqn:Er.
    + by apply inv_goto_look.
    + apply inv_goto; try done. intros Hd.
      destruct (not_ready_head s h (in_pc _ _ Hi)); [by rewrite Hp|done|done].
Qed.

End PollSteps.

Lemma inv_poll K s miss w ok s' :
  0 < budget K → inv K s → wg_packet_rx_poll K s miss w ok = Some s' → inv K s'.
Proof.
  intros Hb Hi He. destruct (poll s) eqn:Ep;
    first [solve [eapply inv_poll_hw; [exact Hi|by rewrite Ep|exact He]]
          |solve [apply (inv_poll_loop K s Hi Hb miss w ok); [rewrite Ep|exact He];
                  first [left; set_solver|right; eauto]]
          |solve [apply (inv_poll_end K s Hi Hb miss w ok); [rewrite Ep|exact He];
                  first [left; set_solver|right; eauto]]
          |apply (inv_poll_steal K s Hi Hb miss w ok); [rewrite Ep; eauto 12|exact He]].
Qed.

Lemma reachable_inv K s : no_trigger K → 0 < budget K → reachable K s → inv K s.
Proof.
  intros HK Hb. induction 1 as [|s l s' _ IH He].
  - split; [done| |by split|done|done|by intros (h & [=] & _)|done].
    split; cbn; try done; try apply NoDup_nil_2; intros x Hx; by apply not_elem_of_nil in Hx.
  - destruct l; cbn in He.
    + by eapply inv_produce.
    + by eapply inv_produce_step.
    + by eapply inv_take_job.
    + by eapply inv_worker.
    + by eapply inv_timer.
    + by eapply inv_poll.
Qed.

(** ** A state that cannot move *)

Lemma poll_can_move K s :
  poll s ≠ N_none → (∀ w n, poll s = N_steal_wait w n → workers s !! w = None) →
  ∃ miss w ok s', wg_packet_rx_poll K s miss w ok = Some s'.
Proof.
  intros Hn Hw.
  assert (∃ miss r, peek s miss = Some r) as (miss & [s1 r] & Hpk).
  { unfold peek. destruct (q s) as [|h l]; [by exists true; eauto|].
    destruct (peeked s) eqn:Ep; [exists false; cbn; eauto|].
    destruct (decide (prod s !! h = Some PR_link)) as [E|E].
    - exists true. cbn. rewrite bool_decide_eq_true_2; [eauto|]. by exists h, PR_link.
    - exists false. cbn. rewrite bool_decide_eq_true_2 by done. eauto. }
  assert (∃ w, workers s !! w = None) as [w Hfree].
  { exists (fresh (dom (workers s))). apply not_elem_of_dom. apply is_fresh. }
  exists miss, w, true. unfold wg_packet_rx_poll, peek_then, take_job.
  destruct (poll s) eqn:Ep; try done; rewrite ?Hpk; cbn; eauto;
    repeat match goal with
    | |- context [if ?b then _ else _] => destruct b eqn:?
    | |- context [match ring s with _ => _ end] => destruct (ring s)
    end; eauto.
  - rewrite bool_decide_eq_false in *. congruence.
  - rewrite bool_decide_eq_false in *. destruct Heqb. by eapply Hw.
Qed.

Lemma stuck_idle K s :
  stuck K s → poll s = N_none ∧ sched s = false ∧ workers s = ∅ ∧ ring s = [] ∧ prod s = ∅.
Proof.
  intros Hs.
  assert (workers s = ∅) as Hw.
  { apply map_empty. intros w. destruct (workers s !! w) as [c|] eqn:E; [|done].
    specialize (Hs (L_worker w) ltac:(done)). cbn in Hs. unfold wg_queue_enqueue_per_peer_rx in Hs.
    by rewrite E in Hs. }
  assert (poll s = N_none) as Hp.
  { destruct (decide (poll s = N_none)) as [|Hn]; [done|].
    destruct (poll_can_move K s Hn) as (miss & w & ok & s' & He).
    - intros w n _. by rewrite Hw.
    - specialize (Hs (L_poll miss w ok) ltac:(done)). cbn in Hs. congruence. }
  split_and!; [done| |done| |].
  - specialize (Hs (L_poll false 0 false) ltac:(done)). cbn in Hs. unfold wg_packet_rx_poll in Hs.
    rewrite Hp in Hs. by destruct (sched s).
  - specialize (Hs (L_take 0 true) ltac:(done)). cbn in Hs.
    unfold wg_packet_decrypt_worker, take_job in Hs. rewrite Hw in Hs. by destruct (ring s).
  - apply map_empty. intros x. destruct (prod s !! x) as [c|] eqn:E; [|done].
    specialize (Hs (L_produce x false 0) ltac:(done)). cbn in Hs. unfold produce_step in Hs.
    rewrite E in Hs. by destruct c.
Qed.

Lemma inv_stuck K s : inv K s → stuck K s → q s = [] ∧ delivered s = arrived s.
Proof.
  intros Hi Hst.
  destruct (stuck_idle K s Hst) as (Hp & Hs & Hw & Hring & Hprod).
  assert (q s = []) as Hq.
  { destruct (q s) as [|h l] eqn:Eq; [done|]. exfalso.
    destruct (in_cov _ _ Hi) as [[? _]|[[w Hc]|[(w & x & Hc & _)|(x & Hx & Hxr & _)]]].
    - exists h. rewrite Eq. split; [done|]. destruct (ready s h) eqn:Er; [done|].
      destruct (ho_held _ (in_holders _ _ Hi) h) as [[c Hc]|[Hc|(w & st & Hc)]].
      + rewrite Eq. left.
      + done.
      + by rewrite Hprod, lookup_empty in Hc.
      + rewrite Hring in Hc. set_solver.
      + by rewrite Hw, lookup_empty in Hc.
    - congruence.
    - by rewrite Hw, lookup_empty in Hc.
    - by rewrite Hw, lookup_empty in Hc.
    - destruct (ho_held _ (in_holders _ _ Hi) x Hx Hxr) as [[c Hc]|[Hc|(w & st & Hc)]].
      + by rewrite Hprod, lookup_empty in Hc.
      + rewrite Hring in Hc. set_solver.
      + by rewrite Hw, lookup_empty in Hc. }
  split; [done|]. rewrite (in_hist _ _ Hi), Hq. by rewrite app_nil_r.
Qed.

(** ** Theorems *)

