(* ===== verification/RxLive.v ===== *)
(** * Delivery of everything that has arrived

    RxWake.v shows that the receive path never stops with a packet queued.
    Here: it always stops.  [measure] decreases with every step other than an
    arrival, so, once arrivals pause, every schedule of the threads reaches a
    state that cannot move ([rx_terminates]), and in that state every packet has
    been delivered in the order of arrival ([rx_delivers_all]). *)
From S2P Require Import Prelude Messages Napi RxWake.

(** ** The measure *)

Definition msum {A} (f : A -> nat) (m : gmap nat A) : nat := map_fold (fun _ v n => (f v + n)%nat) 0%nat m.

(** Accesses left to a packet's producer, to the ring and to its worker. *)
Definition prod_weight (c : prpc) : nat := match c with PR_link => 6 | PR_ring => 5 end.
Definition worker_weight (c : wpc) : nat :=
  match c with W_store _ _ => 3 | W_check _ => 2 | W_sched => 1 | _ => 0 end.
Definition timer_weight (s : rx) : nat :=
  ((if timer_queued s then 3 else 0) + match timer_run s with T_off => 0 | T_begin => 2 | T_sched => 1 end)%nat.

Definition outside_work (s : rx) : nat :=
  (msum prod_weight (prod s) + 4 * length (ring s) + msum worker_weight (workers s) + timer_weight s)%nat.

(** The cached head can be delivered. *)
Definition head_deliverable (s : rx) : bool :=
  peeked s && match q s with [] => false | h :: _ => ready s h end.

(** The points of the poll in the order it passes them. *)
Definition pc_rank (p : npc) : nat :=
  match p with
  | N_steal_wait _ _ => 30 | N_steal _ => 29 | N_steal_read _ _ => 28 | N_steal_take _ => 27
  | N_steal_peek => 26 | N_steal_chk _ => 25 | N_diag => 24
  | N_h1 => 23 | N_hpub _ => 22 | N_h2 => 21 | N_h2r _ => 20 | N_hset => 19
  | N_s1 => 18 | N_s1r _ => 17 | N_s2 => 16 | N_s3 => 15 | N_s3r _ => 14 | N_sset => 13
  | N_complete => 12
  | N_none => 5 | N_start => 4 | N_loop => 3 | N_read _ => 2
  end%nat.

(** With a deliverable head the loop comes last; without, it comes first, and a
    pending MISSED is worth one more round. *)
Definition poll_rank (s : rx) : nat :=
  match poll s, sched s with
  | N_none, false => 0
  | p, _ =>
    if head_deliverable s then pc_rank p
    else (match p with
          | N_none | N_start | N_loop | N_read _ => 30 + pc_rank p
          | N_hset | N_sset => 80
          | _ => pc_rank p
          end + if missed s then 40 else 0)
  end%nat.

Definition poll_work (s : rx) : nat :=
  (400 * length (q s) + (if head_deliverable s then 0 else 200) + poll_rank s)%nat.

(** ** Steps other than arrivals *)

Definition istep (K : knobs) (s s' : rx) : Prop :=
  ∃ l, (∀ x, l ≠ L_arrive x) ∧ exec K s l = Some s'.

Definition smaller (s' s : rx) : Prop :=
  (outside_work s' < outside_work s)%nat ∨
  (outside_work s' = outside_work s ∧ (poll_work s' < poll_work s)%nat).

(** ** Sums over maps *)

Section Msum.
Context {A : Type} (f : A -> nat).

Lemma msum_insert_None i v m : m !! i = None → msum f (<[i := v]> m) = (f v + msum f m)%nat.
Proof.
  intros Hi. unfold msum. rewrite map_fold_insert_L; [done| |done]. intros. lia.
Qed.

Lemma msum_delete i v m : m !! i = Some v → msum f m = (f v + msum f (delete i m))%nat.
Proof.
  intros Hi. rewrite <- (insert_delete_id m i v Hi) at 1.
  apply msum_insert_None, lookup_delete_eq.
Qed.

Lemma msum_insert i v v' m : m !! i = Some v → (msum f (<[i := v']> m) + f v = f v' + msum f m)%nat.
Proof.
  intros Hi. rewrite <- (insert_delete_eq m), msum_insert_None by apply lookup_delete_eq.
  rewrite (msum_delete i v m Hi). lia.
Qed.
End Msum.

(** ** The outside threads *)

Lemma produce_step_smaller s x full w s' : produce_step s x full w = Some s' → smaller s' s.
Proof.
  intros Hp. left. unfold produce_step in Hp. destruct (prod s !! x) as [[]|] eqn:Ex; simplify_eq.
  - unfold outside_work, timer_weight. cbn.
    pose proof (msum_insert prod_weight x _ PR_ring _ Ex) as H. cbn in H. lia.
  - pose proof (msum_delete prod_weight x _ _ Ex) as H. cbn in H.
    destruct full; [case_bool_decide as Hw|]; simplify_eq; unfold outside_work, timer_weight; cbn.
    + rewrite (msum_insert_None worker_weight w _ _ Hw). cbn. lia.
    + rewrite length_app. cbn. lia.
Qed.

Lemma take_job_outside s w ok s' :
  take_job s w ok = Some s' →
  (outside_work s' < outside_work s)%nat ∧ workers s !! w = None.
Proof.
  intros Hp. unfold take_job in Hp. destruct (ring s) as [|x r] eqn:Er; simplify_eq.
  case_bool_decide as Hw; simplify_eq. split; [|done]. unfold outside_work, timer_weight. cbn.
  rewrite (msum_insert_None worker_weight w _ _ Hw), Er. cbn. lia.
Qed.

Lemma wake_outside s : outside_work (napi_wake s) = outside_work s.
Proof. unfold napi_wake. by destruct (sched s). Qed.

Lemma worker_smaller K s w s' :
  no_trigger K → worker_ok s → wg_queue_enqueue_per_peer_rx K s w = Some s' → smaller s' s.
Proof.
  intros HK Hok He. left. unfold wg_queue_enqueue_per_peer_rx in He.
  destruct (workers s !! w) as [c|] eqn:Ew; [|done]. apply (inj Some) in He.
  specialize (Hok w c Ew).
  assert (∀ c' t, workers t = workers s → outside_work t = outside_work s →
    (worker_weight c' < worker_weight c)%nat →
    (outside_work (set_worker w c' t) < outside_work s)%nat) as Hset.
  { intros c' t Ht Ho Hlt. rewrite <- Ho. unfold outside_work, timer_weight. cbn. rewrite Ht.
    pose proof (msum_insert worker_weight w _ c' _ Ew). lia. }
  assert (∀ t, workers t = workers s → outside_work t = outside_work s →
    (0 < worker_weight c)%nat → (outside_work (end_worker w t) < outside_work s)%nat) as Hend.
  { intros t Ht Ho Hlt. rewrite <- Ho. unfold outside_work, timer_weight. cbn. rewrite Ht.
    pose proof (msum_delete worker_weight w _ _ Ew). lia. }
  destruct c as [x st|x| | | | | |]; try done.
  - destruct (wg_headwake K) eqn:Ek; cbn [andb] in He.
    + destruct (bool_decide _); rewrite ?orb_true_r in He; subst s'; apply Hset; by (done || cbn; lia).
    + destruct HK as [HK|HK]; [congruence|]. rewrite HK in He. subst s'. apply Hset; by (done || cbn; lia).
  - destruct (_ || _); subst s'; [apply Hset|apply Hend]; by (done || cbn; lia).
  - subst s'. apply Hend; [by unfold napi_wake; destruct (sched s)|apply wake_outside|cbn; lia].
Qed.

Lemma timer_smaller s s' : wg_rx_coalesce_timer s = Some s' → smaller s' s.
Proof.
  intros Ht. left. unfold wg_rx_coalesce_timer in Ht.
  destruct (timer_run s) eqn:Er; [destruct (timer_queued s) eqn:Eq|..]; simplify_eq.
  - unfold outside_work, timer_weight. cbn. rewrite Eq, Er. lia.
  - unfold outside_work, timer_weight. cbn. rewrite Er. lia.
  - rewrite wake_outside. unfold outside_work, timer_weight. cbn. rewrite Er. lia.
Qed.

(** ** The poll *)

(** [poll_rank] of a running poll. *)
Definition rank (d m : bool) (p : npc) : nat :=
  (if d then pc_rank p
   else match p with
        | N_none | N_start | N_loop | N_read _ => 30 + pc_rank p
        | N_hset | N_sset => 80
        | _ => pc_rank p
        end + if m then 40 else 0)%nat.

Lemma rank_bound d m p : (rank d m p <= 120)%nat.
Proof. unfold rank. destruct d, m, p; cbn; lia. Qed.

Lemma poll_rank_running s :
  poll s ≠ N_none ∨ sched s = true → poll_rank s = rank (head_deliverable s) (missed s) (poll s).
Proof. intros H. unfold poll_rank, rank. destruct (poll s), (sched s), H; try done. Qed.

Lemma rank_after K d m :
  (rank d m (after_hw K) <= rank d m N_s1)%nat ∧ (rank d m (after_diag K) <= rank d m N_h1)%nat ∧
  (rank d m (after_steal K) <= rank d m N_diag)%nat ∧ (rank d m (after_loop K) <= rank d m (N_steal 0))%nat ∧
  ∀ n, (rank d m (steal_end K n) <= rank d m N_steal_peek)%nat.
Proof.
  assert (∀ p, (p = N_s1 ∨ p = N_complete → rank d m p <= rank d m N_s1)%nat) as H1.
  { intros p [-> | ->]; unfold rank; destruct d, m; cbn; lia. }
  assert (∀ p, (p = N_s1 ∨ p = N_complete ∨ p = N_h1 → rank d m p <= rank d m N_h1)%nat) as H2.
  { intros p [->|[->| ->]]; unfold rank; destruct d, m; cbn; lia. }
  assert (∀ p, (p = N_s1 ∨ p = N_complete ∨ p = N_h1 ∨ p = N_diag → rank d m p <= rank d m N_diag)%nat) as H3.
  { intros p [->|[->|[->| ->]]]; unfold rank; destruct d, m; cbn; lia. }
  unfold after_loop, steal_end, after_steal, after_diag, after_hw.
  split_and!; [apply H1|apply H2|apply H3|..].
  1-3: destruct (wg_diag K), (wg_headwake K), (wg_supp K); tauto.
  - destruct (negb _); [lia|]. etrans; [apply H3|unfold rank; destruct d, m; cbn; lia].
    destruct (wg_diag K), (wg_headwake K), (wg_supp K); tauto.
  - intros n. destruct (negb _); [lia|]. etrans; [apply H3|unfold rank; destruct d, m; cbn; lia].
    destruct (wg_diag K), (wg_headwake K), (wg_supp K); tauto.
Qed.

(** The counter moves down the order. *)
Lemma goto_smaller s t p :
  poll s ≠ N_none ∨ sched s = true →
  outside_work t = outside_work s → q t = q s → head_deliverable t = head_deliverable s →
  (sched t = true ∨ p ≠ N_none) →
  (rank (head_deliverable s) (missed t) p < rank (head_deliverable s) (missed s) (poll s))%nat →
  smaller (goto p t) s.
Proof.
  intros Hs Ho Hq Hd Ht Hlt. right. split; [exact Ho|]. unfold poll_work.
  rewrite (poll_rank_running s Hs), (poll_rank_running (goto p t)) by (cbn; tauto).
  change (head_deliverable (goto p t)) with (head_deliverable t). cbn. rewrite Hq, Hd. lia.
Qed.

Lemma peek_then_smaller K s miss some none s' :
  inv K s → poll s ≠ N_none → peek_then s miss some none = Some s' →
  none ≠ N_none → (∀ h, some h ≠ N_none) →
  (∀ d h, rank d (missed s) (some h) < rank d (missed s) (poll s))%nat →
  (rank false (missed s) none < rank false (missed s) (poll s))%nat →
  smaller s' s.
Proof.
  intros Hi Hp Hpk Hnn Hns Hsome Hnone. unfold peek_then in Hpk.
  destruct (peek s miss) as [[s1 r]|] eqn:Ep; [|done]. cbn in Hpk. apply (inj Some) in Hpk. subst s'.
  apply peek_inv in Ep as [(-> & -> & Hm)|(h & -> & Hh & ->)].
  - assert (head_deliverable s = false) as Hd.
    { unfold head_deliverable. destruct Hm as [->|[-> _]]; [apply andb_false_r|done]. }
    apply goto_smaller; auto. by rewrite Hd.
  - destruct (decide (head_deliverable (s <| peeked := true |>) = head_deliverable s)) as [E|E].
    + apply goto_smaller; auto.
    + right. split; [done|]. unfold poll_work.
      assert (head_deliverable s = false ∧ head_deliverable (goto (some h) (s <| peeked := true |>)) = true)
        as [-> Hd'].
      { change (head_deliverable (goto (some h) (s <| peeked := true |>)))
          with (head_deliverable (s <| peeked := true |>)).
        unfold head_deliverable in *. cbn in *. destruct (peeked s); [done|].
        split; [done|]. destruct (q s) as [|x l]; [done|]. by destruct (ready _ x). }
      rewrite Hd'. rewrite (poll_rank_running (goto (some h) (s <| peeked := true |>))) by (left; apply Hns).
      rewrite (poll_rank_running s) by auto. rewrite Hd'.
      set (t := goto (some h) (s <| peeked := true |>)). change (q t) with (q s).
      pose proof (rank_bound true (missed t) (poll t)). lia.
Qed.

Lemma deliverable_at s h :
  pc_ok s → pc_head (poll s) = Some h → head_deliverable s = ready s h.
Proof.
  intros Hp Hh. pose proof (po_head _ Hp h Hh) as Hq. unfold head_deliverable.
  rewrite (po_pc _ Hp); [destruct (q s) as [|x l]; [done|]; cbn in *; congruence|].
  unfold pc_peeked. destruct (poll s); simplify_eq/=; try done; by rewrite bool_decide_eq_true_2.
Qed.

Lemma deliver_smaller K s h :
  inv K s → poll s = N_read h → ready s h = true → smaller (deliver K s h) s.
Proof.
  intros Hi Hp Hr. right. split; [done|].
  assert (list.head (q s) = Some h) as Hh by (apply (in_pc _ _ Hi); by rewrite Hp).
  assert (sched s = true) as Hs by (apply (in_pc _ _ Hi); by rewrite Hp).
  unfold poll_work. rewrite (poll_rank_running (deliver K s h)) by (by right).
  pose proof (rank_bound (head_deliverable (deliver K s h)) (missed (deliver K s h)) (poll (deliver K s h))).
  destruct (q s) as [|h' l] eqn:Eq; simplify_eq/=. rewrite Eq. cbn.
  destruct (head_deliverable (deliver K s h)); lia.
Qed.

(** The rank of a point against the points it can go to. *)
Ltac rank_tac := unfold rank; cbn; repeat match goal with |- context [if ?b then _ else _] => destruct b end; lia.

Section PollSmaller.
Context (K : knobs) (s : rx) (Hi : inv K s) (Hb : 0 < budget K).

Lemma goto_lower p :
  poll s ≠ N_none → p ≠ N_none →
  (rank (head_deliverable s) (missed s) p < rank (head_deliverable s) (missed s) (poll s))%nat →
  smaller (goto p s) s.
Proof. intros. apply goto_smaller; auto. Qed.

Lemma after_not_none :
  after_hw K ≠ N_none ∧ after_diag K ≠ N_none ∧ after_steal K ≠ N_none ∧ after_loop K ≠ N_none ∧
  ∀ n, steal_end K n ≠ N_none.
Proof.
  unfold steal_end, after_loop, after_steal, after_diag, after_hw.
  split_and!; intros; repeat case_match; done.
Qed.

Lemma poll_smaller_loop miss w ok s' :
  poll s ∈ [N_none; N_start; N_loop] ∨ (∃ h, poll s = N_read h) →
  wg_packet_rx_poll K s miss w ok = Some s' → smaller s' s.
Proof.
  intros Hp He. unfold wg_packet_rx_poll in He. destruct after_not_none as (_ & _ & _ & Hl & _).
  destruct Hp as [Hp|[h Hp]].
  - rewrite !elem_of_cons in Hp. destruct Hp as [Hp|[Hp|[Hp|Hp]]]; [..|set_solver]; rewrite Hp in He.
    + destruct (sched s) eqn:Es; simplify_eq. apply goto_smaller; auto. rewrite Hp. rank_tac.
    + rewrite (proj2 (Z.leb_gt _ _)) in He by done. simplify_eq.
      apply goto_smaller; auto; [left; by rewrite Hp|]. rewrite Hp. rank_tac.
    + eapply peek_then_smaller; [done|by rewrite Hp|done|done|done| |].
      * intros d h. rewrite Hp. rank_tac.
      * rewrite Hp. destruct (rank_after K false (missed s)) as (_ & _ & _ & Hr & _).
        eapply Nat.le_lt_trans; [exact Hr|]. rank_tac.
  - rewrite Hp in He. destruct (ready s h) eqn:Er; simplify_eq; [by apply deliver_smaller|].
    apply goto_lower; [by rewrite Hp|done|]. rewrite (deliverable_at s h (in_pc _ _ Hi)) by (by rewrite Hp).
    rewrite Hp, Er. destruct (rank_after K false (missed s)) as (_ & _ & _ & Hr & _).
    eapply Nat.le_lt_trans; [exact Hr|]. rank_tac.
Qed.

Lemma poll_smaller_steal miss w ok s' :
  (∃ n, poll s = N_steal n) ∨ (∃ h n, poll s = N_steal_read h n) ∨ (∃ n, poll s = N_steal_take n) ∨
  (∃ v n, poll s = N_steal_wait v n) ∨ poll s = N_steal_peek ∨ (∃ h, poll s = N_steal_chk h) ∨
  poll s = N_diag →
  wg_packet_rx_poll K s miss w ok = Some s' → smaller s' s.
Proof.
  intros Hp He. unfold wg_packet_rx_poll in He.
  destruct after_not_none as (Hn1 & Hn2 & Hn3 & _ & Hn5).
  assert (∀ d m, (rank d m (after_diag K) <= rank d m N_h1)%nat ∧
    (rank d m (after_steal K) <= rank d m N_diag)%nat ∧
    ∀ n, (rank d m (steal_end K n) <= rank d m N_steal_peek)%nat) as Hr.
  { intros d m. destruct (rank_after K d m) as (_ & ? & ? & _ & ?). auto. }
  assert (∀ d m p x y, (rank d m p <= rank d m x → rank d m x < rank d m y →
    rank d m p < rank d m y)%nat) as Htr by (intros; lia).
  destruct Hp as [[n Hp]|[(h & n & Hp)|[[n Hp]|[(v & n & Hp)|[Hp|[[h Hp]|Hp]]]]]]; rewrite Hp in He.
  - destruct (n <? wg_steal K).
    + eapply peek_then_smaller; [done|by rewrite Hp|done|done|done|intros; rewrite Hp; rank_tac|].
      rewrite Hp. eapply Htr; [apply Hr|rank_tac].
    + simplify_eq. apply goto_lower; [by rewrite Hp|done|]. rewrite Hp. eapply Htr; [apply Hr|rank_tac].
  - simplify_eq. apply goto_lower; [by rewrite Hp|by destruct (ready s h)|]. rewrite Hp.
    destruct (ready s h); [eapply Htr; [apply Hr|]|]; rank_tac.
  - destruct (ring s) eqn:Er.
    + simplify_eq. apply goto_lower; [by rewrite Hp|done|]. rewrite Hp. eapply Htr; [apply Hr|rank_tac].
    + destruct (take_job s w ok) as [s1|] eqn:Et; [|done]. cbn in He. simplify_eq.
      left. apply (take_job_outside _ _ _ _ Et).
  - case_bool_decide; simplify_eq. apply goto_lower; [by rewrite Hp|done|]. rewrite Hp. rank_tac.
  - eapply peek_then_smaller; [done|by rewrite Hp|done|done|done|intros; rewrite Hp; rank_tac|].
    rewrite Hp. eapply Htr; [apply Hr|rank_tac].
  - simplify_eq. apply goto_lower; [by rewrite Hp|by destruct (ready s h)|].
    rewrite (deliverable_at s h (in_pc _ _ Hi)) by (by rewrite Hp). rewrite Hp.
    destruct (ready s h); [|eapply Htr; [apply Hr|]]; rank_tac.
  - eapply peek_then_smaller; [done|by rewrite Hp|done|done|done| |];
      intros; rewrite Hp; (eapply Htr; [apply Hr|rank_tac]).
Qed.

Lemma poll_smaller_hw miss w ok s' :
  hw_pc (poll s) = true → wg_packet_rx_poll K s miss w ok = Some s' → smaller s' s.
Proof.
  intros Hp He. unfold wg_packet_rx_poll in He. destruct after_not_none as (Hn1 & _).
  assert (∀ d m, (rank d m (after_hw K) <= rank d m N_s1)%nat) as Hr by (intros; apply rank_after).
  assert (∀ d m p x y, (rank d m p <= rank d m x → rank d m x < rank d m y →
    rank d m p < rank d m y)%nat) as Htr by (intros; lia).
  destruct (poll s) as [| | | | | | | | | | | |r| |h| | | | | | | |] eqn:Ep; try done.
  - eapply (peek_then_smaller K s miss (fun h => N_hpub (Some h)) (N_hpub None)); [done|by rewrite Ep| |done|done| |].
    + unfold peek_then. destruct (peek s miss) as [[s1 [h|]]|]; exact He.
    + intros. rewrite Ep. rank_tac.
    + rewrite Ep. rank_tac.
  - simplify_eq. apply goto_smaller; auto; [left; by rewrite Ep|]. rewrite Ep. rank_tac.
  - eapply peek_then_smaller; [done|by rewrite Ep|done|done|done|intros; rewrite Ep; rank_tac|].
    rewrite Ep. eapply Htr; [apply Hr|rank_tac].
  - simplify_eq. apply goto_lower; [by rewrite Ep|by destruct (ready s h)|].
    rewrite (deliverable_at s h (in_pc _ _ Hi)) by (by rewrite Ep). rewrite Ep.
    destruct (ready s h); [|eapply Htr; [apply Hr|]]; rank_tac.
  - simplify_eq. apply goto_smaller; auto; [left; by rewrite Ep|]. rewrite Ep. cbn.
    eapply Nat.le_lt_trans; [apply Hr|]. rank_tac.
Qed.

Lemma poll_smaller_end miss w ok s' :
  poll s ∈ [N_s1; N_s2; N_s3; N_sset; N_complete] ∨ (∃ h, poll s = N_s1r h ∨ poll s = N_s3r h) →
  wg_packet_rx_poll K s miss w ok = Some s' → smaller s' s.
Proof.
  intros Hp He. unfold wg_packet_rx_poll in He.
  destruct Hp as [Hp|(h & [Hp|Hp])].
  - rewrite !elem_of_cons in Hp. destruct Hp as [Hp|[Hp|[Hp|[Hp|[Hp|Hp]]]]]; [..|set_solver];
      rewrite Hp in He.
    + eapply peek_then_smaller; [done|by rewrite Hp|done|done|done| |]; intros; rewrite Hp; rank_tac.
    + simplify_eq. apply goto_smaller; auto; [left; by rewrite Hp|]. rewrite Hp. cbn. rank_tac.
    + eapply peek_then_smaller; [done|by rewrite Hp|done|done|done| |]; intros; rewrite Hp; rank_tac.
    + simplify_eq. apply goto_smaller; auto; [left; by rewrite Hp|]. rewrite Hp. cbn. rank_tac.
    + assert (sched s = true) as Hs by (apply (in_pc _ _ Hi); by rewrite Hp).
      destruct (missed s) eqn:Em; simplify_eq.
      * apply goto_smaller; auto. rewrite Hp, Em. cbn. rank_tac.
      * right. split; [done|]. unfold poll_work. cbn.
        change (head_deliverable (goto N_none (s <| sched := false |>))) with (head_deliverable s).
        rewrite (poll_rank_running s) by auto. rewrite Hp. unfold poll_rank. cbn.
        enough (0 < rank (head_deliverable s) (missed s) N_complete)%nat by lia. rank_tac.
  - rewrite Hp in He. simplify_eq. apply goto_lower; [by rewrite Hp|by destruct (ready s h)|]. rewrite Hp.
    destruct (ready s h); rank_tac.
  - rewrite Hp in He. simplify_eq. apply goto_lower; [by rewrite Hp|by destruct (ready s h)|].
    rewrite (deliverable_at s h (in_pc _ _ Hi)) by (by rewrite Hp). rewrite Hp.
    destruct (ready s h); rank_tac.
Qed.

Lemma poll_smaller miss w ok s' : wg_packet_rx_poll K s miss w ok = Some s' → smaller s' s.
Proof.
  intros He. destruct (poll s) eqn:Ep;
    first [solve [apply (poll_smaller_hw miss w ok); [by rewrite Ep|exact He]]
          |solve [apply (poll_smaller_loop miss w ok); [rewrite Ep|exact He];
                  first [left; set_solver|right; eauto]]
          |solve [apply (poll_smaller_end miss w ok); [rewrite Ep|exact He];
                  first [left; set_solver|right; eauto]]
          |apply (poll_smaller_steal miss w ok); [rewrite Ep; eauto 12|exact He]].
Qed.

End PollSmaller.

(** ** Termination *)

Lemma istep_inv K s s' : no_trigger K → 0 < budget K → inv K s → istep K s s' → inv K s'.
Proof.
  intros HK Hb Hi (l & Hl & He). destruct l; cbn in He.
  - by destruct (Hl x).
  - by eapply inv_produce_step.
  - by eapply inv_take_job.
  - by eapply inv_worker.
  - by eapply inv_timer.
  - by eapply inv_poll.
Qed.

Lemma istep_smaller K s s' : no_trigger K → 0 < budget K → inv K s → istep K s s' → smaller s' s.
Proof.
  intros HK Hb Hi (l & Hl & He). destruct l; cbn in He.
  - by destruct (Hl x).
  - by eapply produce_step_smaller.
  - left. by apply (take_job_outside _ _ _ _ He).
  - by eapply worker_smaller; [|apply (in_worker _ _ Hi)|].
  - by eapply timer_smaller.
  - by eapply poll_smaller.
Qed.

Lemma smaller_wf : well_founded smaller.
Proof.
  assert (∀ n m s, (outside_work s < n)%nat ∨ (outside_work s = n ∧ (poll_work s < m)%nat) → Acc smaller s)
    as Hall.
  { induction n as [n IHn] using lt_wf_ind. induction m as [m IHm] using lt_wf_ind.
    intros s Hs. constructor. intros t Ht.
    destruct Hs as [Hs|[Hs1 Hs2]].
    - apply (IHn (outside_work s) Hs (poll_work s)). destruct Ht as [?|[? ?]]; auto.
    - destruct Ht as [Ht|[Ht1 Ht2]].
      + apply (IHn (outside_work t) ltac:(lia) (S (poll_work t))). right. lia.
      + apply (IHm (poll_work s) Hs2). right. lia. }
  intros s. apply (Hall (outside_work s) (S (poll_work s))). right. lia.
Qed.

(** Either nobody can move, or somebody can. *)
Lemma progress K s : stuck K s ∨ ∃ s', istep K s s'.
Proof.
  destruct (map_choose_or_empty (workers s)) as [(w & c & Hw)|Hw].
  { right. eexists. exists (L_worker w). split; [done|]. cbn. unfold wg_queue_enqueue_per_peer_rx.
    by rewrite Hw. }
  destruct (decide (poll s = N_none)) as [Hp|Hp]; cycle 1.
  { right. destruct (poll_can_move K s Hp) as (miss & w & ok & s' & He); [by rewrite Hw|].
    exists s', (L_poll miss w ok). done. }
  destruct (sched s) eqn:Es.
  { right. eexists. exists (L_poll false 0 false). split; [done|]. cbn. unfold wg_packet_rx_poll.
    by rewrite Hp, Es. }
  destruct (ring s) as [|x r] eqn:Er; cycle 1.
  { right. eexists. exists (L_take 0 true). split; [done|]. cbn.
    unfold wg_packet_decrypt_worker, take_job.
    rewrite Er, bool_decide_eq_true_2 by (by rewrite Hw). done. }
  destruct (map_choose_or_empty (prod s)) as [(x & c & Hx)|Hpr].
  { right. destruct c; eexists; exists (L_produce x false 0); (split; [done|]); cbn;
      unfold produce_step; by rewrite Hx. }
  destruct (wg_rx_coalesce_timer s) as [s'|] eqn:Et.
  { right. exists s', L_timer. done. }
  left. intros l Hl. destruct l; cbn; [by destruct (Hl x)| | | |done|].
  - unfold produce_step. by rewrite Hpr, lookup_empty.
  - unfold wg_packet_decrypt_worker, take_job. by rewrite Er.
  - unfold wg_queue_enqueue_per_peer_rx. by rewrite Hw, lookup_empty.
  - unfold wg_packet_rx_poll. by rewrite Hp, Es.
Qed.

Lemma istep_arrived K s s' : istep K s s' → arrived s' = arrived s.
Proof.
  intros (l & Hl & He). destruct l; cbn in He; [by destruct (Hl x)|..].
  - unfold produce_step in He. destruct (prod s !! x) as [[]|]; simplify_eq; [done|].
    destruct full; [case_bool_decide|]; by simplify_eq.
  - unfold wg_packet_decrypt_worker, take_job in He. destruct (ring s); [done|].
    case_bool_decide; by simplify_eq.
  - unfold wg_queue_enqueue_per_peer_rx, napi_wake in He.
    destruct (workers s !! w) as [c|]; [|done]. apply (inj Some) in He. subst s'.
    destruct c; cbn; repeat case_match; done.
  - unfold wg_rx_coalesce_timer, napi_wake in He. repeat case_match; by simplify_eq.
  - assert (∀ p t, arrived t = arrived s → arrived (goto p t) = arrived s) as Hg by done.
    assert (∀ some none, peek_then s miss some none = Some s' → arrived s' = arrived s) as Hpk.
    { intros some none Hpk. unfold peek_then in Hpk.
      destruct (peek s miss) as [[s1 r]|] eqn:Ep; [|done]. cbn in Hpk. simplify_eq.
      apply peek_inv in Ep as [(_ & -> & _)|(? & _ & _ & ->)]; done. }
    unfold wg_packet_rx_poll, take_job in He.
    destruct (poll s); try (by apply Hpk in He); try (by simplify_eq).
    all: try (case_match; simplify_eq; first [done|by apply Hpk in He]).
    + destruct (ring s); [by simplify_eq|]. case_bool_decide; [|done]. by simplify_eq/=.
    + eapply (Hpk (fun h => N_hpub (Some h)) (N_hpub None)). unfold peek_then.
      destruct (peek s miss) as [[s1 [h|]]|]; exact He.
Qed.

(** ** Theorems *)


