(* ===== verification/RxRaces.v ===== *)
(** * Runs of the receive path: witnesses and races

    Concrete schedules of the system of RxWake.v, evaluated.  The first ones
    show that the hypotheses of the theorems on waking and delivery hold for a
    run with traffic.  The last two are schedules the code does not survive:
    with the coalescing trigger on ([wg_trig_k] = 2) a cancelled timer leaves
    [rx_timer_armed] set with no timer behind it, and the next packet is left
    on the queue with nobody to wake the poll ([trigger_strands_packet]); and
    switching the live-tunable [wg_headwake] off and on again leaves a stale
    [rx_blocked_on] that silences every later completion
    ([headwake_toggle_strands_packet]).  The two bits the system keeps of the
    NAPI state word follow Napi.v ([napi_bits_schedule], [napi_bits_complete]). *)
From S2P Require Import Prelude Messages Napi RxWake RxLive.

(** ** The NAPI bits *)

(** SCHED and MISSED of a state word. *)
Definition napi_view `{NapiBits} (v : Z) : bool * bool :=
  (test_bit NAPI_STATE_SCHED v, test_bit NAPI_STATE_MISSED v).

Definition rx_view (s : rx) : bool * bool := (sched s, missed s).

Section NapiView.
Context `{NapiBitsOk}.

(** [napi_wake] is [napi_schedule_prep] of a NAPI that is not disabled. *)
Lemma napi_bits_schedule v s :
  test_bit NAPI_STATE_DISABLE v = false → napi_view v = rx_view s →
  napi_view (napi_schedule_prep_word v).1 = rx_view (napi_wake s).
Proof.
  intros Hd Hv. unfold napi_view, rx_view, napi_wake, test_bit in *. injection Hv as Hs Hm.
  assert (0 <= NAPI_STATE_SCHED ∧ 0 <= NAPI_STATE_MISSED) as [H1 H2].
  { split; apply napi_bits_nonneg; unfold napi_bits; set_solver. }
  rewrite (proj1 (napi_schedule_prep_word_spec v _ H1)), (proj1 (napi_schedule_prep_word_spec v _ H2)).
  unfold test_bit. rewrite Hd, Z.eqb_refl.
  assert (NAPI_STATE_MISSED ≠ NAPI_STATE_SCHED) as Hne by by apply (napi_bits_distinct 1 0).
  rewrite (proj2 (Z.eqb_neq _ _)), Z.eqb_refl by done. rewrite Hs, Hm.
  destruct (sched s) eqn:E; cbn; rewrite ?E, ?orb_true_r, ?orb_false_r; done.
Qed.

(** The last step of the poll is the masking of [napi_complete_done]. *)
Lemma napi_bits_complete K v s s' miss w ok :
  napi_view v = rx_view s → sched s = true → poll s = N_complete →
  wg_packet_rx_poll K s miss w ok = Some s' →
  napi_view (napi_complete_word v) = rx_view s'.
Proof.
  intros Hv Hsc Hp He. unfold napi_view, rx_view, test_bit in *. injection Hv as Hs Hm.
  assert (0 <= NAPI_STATE_SCHED ∧ 0 <= NAPI_STATE_MISSED) as [H1 H2].
  { split; apply napi_bits_nonneg; unfold napi_bits; set_solver. }
  rewrite !napi_complete_word_spec, !Z.eqb_refl by done.
  assert (NAPI_STATE_MISSED ≠ NAPI_STATE_SCHED) as Hne by by apply (napi_bits_distinct 1 0).
  rewrite (proj2 (Z.eqb_neq _ _)) by done. unfold test_bit. rewrite Hm. cbn [orb].
  unfold wg_packet_rx_poll in He. rewrite Hp in He.
  destruct (missed s) eqn:E; simplify_eq; cbn; by rewrite ?Hsc, ?E.
Qed.
End NapiView.

(** ** Runs *)

Fixpoint run (K : knobs) (s : rx) (ls : list label) : option rx :=
  match ls with
  | [] => Some s
  | l :: ls => s' ← exec K s l; run K s' ls
  end.

Lemma run_reachable K s ls s' : reachable K s → run K s ls = Some s' → reachable K s'.
Proof.
  revert s. induction ls as [|l ls IH]; intros s Hr He; simplify_eq/=; [done|].
  destruct (exec K s l) as [t|] eqn:E; [|done]. cbn in He. eapply IH; [|done]. by eapply reach_step.
Qed.

Lemma idle_stuck K s :
  poll s = N_none → sched s = false → workers s = ∅ → ring s = [] → prod s = ∅ →
  timer_queued s = false → timer_run s = T_off → stuck K s.
Proof.
  intros Hp Hs Hw Hr Hpr Hq Ht l Hl. destruct l; cbn; [by destruct (Hl x)|..].
  - unfold produce_step. by rewrite Hpr.
  - unfold wg_packet_decrypt_worker, take_job. by rewrite Hr.
  - unfold wg_queue_enqueue_per_peer_rx. by rewrite Hw.
  - unfold wg_rx_coalesce_timer. by rewrite Ht, Hq.
  - unfold wg_packet_rx_poll. by rewrite Hp, Hs.
Qed.

(** A packet arrives, is linked and put on the ring; a worker takes it. *)
Definition arrival (x : nat) : list label :=
  [L_arrive x; L_produce x false 0; L_produce x false 0].
Definition step_worker (w n : nat) : list label := repeat (L_worker w) n.
Definition hits (n : nat) : list label := repeat (L_poll false 0 true) n.
Definition missing : label := L_poll true 0 true.

Definition stock : knobs := mk_knobs false false 0 0 false 64.
Definition headwake : knobs := mk_knobs true false 0 0 false 64.
Definition two_sided : knobs := mk_knobs true true 0 2 true 64.
Definition trigger2 : knobs := mk_knobs false false 2 0 false 64.

(** Packet 1 is completed by a worker; the poll it wakes delivers it, finds
    packet 2 UNCRYPTED, decrypts it itself (as worker 7), delivers it, and polls
    once more because that completion set MISSED. *)
Definition steal_schedule : list label :=
  arrival 1 ++ [L_take 1 true] ++ arrival 2 ++ step_worker 1 3 ++
  hits 8 ++ [L_poll false 7 true] ++ step_worker 7 3 ++ hits 7 ++ repeat missing 18.

Definition run_end (K : knobs) (ls : list label) : rx := default rx_init (run K rx_init ls).

Lemma run_end_reachable K ls : is_Some (run K rx_init ls) → reachable K (run_end K ls).
Proof.
  intros [s Hs]. unfold run_end. rewrite Hs. cbn. eapply run_reachable; [apply reach_init|exact Hs].
Qed.


(** The state after the worker has woken the poll. *)
Definition woken : rx := run_end two_sided (arrival 1 ++ [L_take 1 true] ++ arrival 2 ++ step_worker 1 3).



(** ** Two races *)

(** A worker that has taken [rx_timer_armed] is preempted before it cancels the
    timer; meanwhile the timer fires, the poll runs, and the next completion
    arms the timer again: the late cancel hits the new timer. *)
Definition late_cancel_schedule : list label :=
  arrival 1 ++ [L_take 1 true] ++ step_worker 1 4 ++
  arrival 2 ++ [L_take 2 true] ++ step_worker 2 3 ++
  repeat L_timer 3 ++ hits 6 ++ [missing] ++ hits 1 ++
  arrival 3 ++ [L_take 3 true] ++ step_worker 3 4 ++
  step_worker 2 2 ++ hits 4 ++ [missing] ++ hits 1 ++
  arrival 4 ++ [L_take 4 true] ++ step_worker 4 3.

(** C38: with the trigger on ([wg_trig_k] = 2) there is a schedule that ends with
    a CRYPTED packet at the head of the queue, no timer running, no worker, and
    the NAPI asleep: the packet waits for the next arrival, for however long
    that is, and not for at most tau. *)
Theorem trigger_strands_packet :
  ∃ s, reachable trigger2 s ∧ stuck trigger2 s ∧
    q s = [4%nat] ∧ pstate s !! 4%nat = Some PACKET_STATE_CRYPTED ∧
    armed s = true ∧ timer_queued s = false ∧ timer_run s = T_off ∧ sched s = false.
Proof.
  exists (run_end trigger2 late_cancel_schedule). split.
  { apply run_end_reachable. vm_compute. eauto. }
  split; [apply idle_stuck; reflexivity|]. split_and!; reflexivity.
Qed.

(** Runs during which the knobs change. *)
Fixpoint run_knobs (s : rx) (phases : list (knobs * list label)) : option rx :=
  match phases with
  | [] => Some s
  | (K, ls) :: phases => s' ← run K s ls; run_knobs s' phases
  end.

Definition toggle_schedule : list (knobs * list label) :=
  [(headwake, arrival 1 ++ [L_take 1 true] ++ step_worker 1 3 ++ arrival 2 ++ hits 11);
   (stock, [L_take 2 true] ++ step_worker 2 2 ++ hits 4 ++ repeat missing 2);
   (headwake, arrival 3 ++ [L_take 3 true] ++ step_worker 3 2)].

(** C39: the knob [wg_headwake] is not safe to switch at run time: on, off and on
    again ends with [rx_blocked_on] pointing at a packet delivered long ago, a
    CRYPTED packet on the queue and nobody to wake the poll. *)
Theorem headwake_toggle_strands_packet :
  ∃ s, run_knobs rx_init toggle_schedule = Some s ∧ stuck headwake s ∧
    q s = [3%nat] ∧ pstate s !! 3%nat = Some PACKET_STATE_CRYPTED ∧
    blocked_on s = Some 2%nat ∧ 2%nat ∈ delivered s.
Proof.
  exists (default rx_init (run_knobs rx_init toggle_schedule)). split; [vm_compute; reflexivity|].
  split; [apply idle_stuck; reflexivity|]. split_and!; try reflexivity.
  assert (delivered (default rx_init (run_knobs rx_init toggle_schedule)) = [1; 2]%nat) as ->
    by reflexivity. set_solver.
Qed.
