(* ===== verification/Ratelimiter.v ===== *)
(** * The handshake rate limiter (ratelimiter.c)

    Per source address (IPv4) or /64 (IPv6) and network namespace, a token
    bucket in a hash table: 20 packets per second with a burst of 5.  The model
    is the table of buckets with the routines of ratelimiter.c: the check
    ([wg_ratelimiter_allow]), the garbage collector, initialisation and its
    reference count, and the RCU callback that gives an entry back.  siphash is
    a parameter.

    The specification is [level], the number of tokens a source has at a time,
    full for a source the table does not know.  The theorems: the check answers
    by the level and charges one packet to it, for that source only, and the
    collector does not change any level ([ratelimiter_allow_spec],
    [ratelimiter_gc_transparent]); hence at most 5 + t*20/s packets of a source
    pass in any period t, collections and other sources in between included
    ([ratelimiter_rate_bound]); [total_entries] counts the entries and never
    exceeds [max_entries] ([ratelimiter_accounting]); and the module's self-test
    passes ([ratelimiter_selftest_passes]). *)
From S2P Require Import Prelude.

Definition PACKETS_PER_SECOND : Z := 20.
Definition PACKETS_BURSTABLE : Z := 5.
Definition PACKET_COST : Z := NSEC_PER_SEC / PACKETS_PER_SECOND.
Definition TOKEN_MAX : Z := PACKET_COST * PACKETS_BURSTABLE.

Record ratelimiter_entry := mk_entry {
  last_time_ns : Z;
  tokens : Z;
  ip : Z;
  net : Z;
}.

(** [rcu_pending] entries have been unlinked and not freed yet. *)
Record ratelimiter := mk_ratelimiter {
  table_v4 : list (list ratelimiter_entry);
  table_v6 : list (list ratelimiter_entry);
  total_entries : Z;
  max_entries : Z;
  table_size : Z;
  init_refcnt : Z;
  hash_key : Z;
  gc_queued : bool;
  rcu_pending : Z;
}.

#[export] Instance settable_ratelimiter : Settable ratelimiter := fun s =>
  mk_ratelimiter (table_v4 s) (table_v6 s) (total_entries s) (max_entries s) (table_size s)
    (init_refcnt s) (hash_key s) (gc_queued s) (rcu_pending s).

(** The packet as the check sees it: [ip_hdr(skb)->saddr] as a number, the 16
    bytes of [ipv6_hdr(skb)->saddr], or another protocol. *)
Inductive source := IPv4 (saddr : Z) | IPv6 (saddr : bytes) | NotIP.

(** The family, the namespace and the address that name a bucket. *)
Definition rl_key : Type := bool * Z * Z.

Definition source_ip (src : source) : Z :=
  match src with IPv4 a => u32 a | IPv6 a => le_combine (take 8 a) | NotIP => 0 end.

(** ** Entries and buckets *)

Definition entry_matches (n i : Z) (e : ratelimiter_entry) : bool := (net e =? n) && (ip e =? i).

(** The tokens of an entry at a time, as the check computes them. *)
Definition refill (now : Z) (e : ratelimiter_entry) : Z :=
  Z.min TOKEN_MAX (u64 (tokens e + now - last_time_ns e)).

Definition charge_entry (now : Z) (e : ratelimiter_entry) : ratelimiter_entry * bool :=
  let t := refill now e in
  let ret := PACKET_COST <=? t in
  (mk_entry now (if ret then t - PACKET_COST else t) (ip e) (net e), ret).

(** The walk over a bucket: charge the first entry that matches. *)
Fixpoint charge_bucket (n i now : Z) (b : list ratelimiter_entry) : option (list ratelimiter_entry * bool) :=
  match b with
  | [] => None
  | e :: b =>
    if entry_matches n i e then let '(e, ret) := charge_entry now e in Some (e :: b, ret)
    else match charge_bucket n i now b with
         | Some (b, ret) => Some (e :: b, ret)
         | None => None
         end
  end.

Definition expired (work : bool) (now : Z) (e : ratelimiter_entry) : bool :=
  negb work || (NSEC_PER_SEC <? u64 (now - last_time_ns e)).

Definition gc_bucket (work : bool) (now : Z) (b : list ratelimiter_entry) : list ratelimiter_entry :=
  filter (fun e => expired work now e = false) b.

Definition entries (t : list (list ratelimiter_entry)) : list ratelimiter_entry := concat t.
#[local] Arguments entries : simpl never.

(** ** The routines *)

(** The keyed hash of linux/siphash.h, of two and of three words. *)
Class HSipHash := {
  hsiphash_2u32 : Z -> Z -> Z -> Z;
  hsiphash_3u32 : Z -> Z -> Z -> Z -> Z;
}.

Section Ratelimiter.
Context `{HSipHash}.

Definition bucket_v4 (s : ratelimiter) (n i : Z) : nat :=
  Z.to_nat (Z.land (hsiphash_2u32 (u32 n) i (hash_key s)) (table_size s - 1)).
Definition bucket_v6 (s : ratelimiter) (n i : Z) : nat :=
  Z.to_nat (Z.land (hsiphash_3u32 (u32 n) (Z.shiftr i 32) (u32 i) (hash_key s)) (table_size s - 1)).

Definition bucket_of (s : ratelimiter) (k : rl_key) : nat :=
  match k with (true, n, i) => bucket_v6 s n i | (false, n, i) => bucket_v4 s n i end.
Definition table_of (s : ratelimiter) (v6 : bool) := if v6 then table_v6 s else table_v4 s.
Definition set_table (v6 : bool) (t : list (list ratelimiter_entry)) (s : ratelimiter) : ratelimiter :=
  if v6 then s <| table_v6 := t |> else s <| table_v4 := t |>.

(** The part of [wg_ratelimiter_allow] after the bucket is known.  [now] is the
    coarse clock, [alloc] whether [kmem_cache_alloc] succeeds. *)
Definition allow_in (s : ratelimiter) (k : rl_key) (now : Z) (alloc : bool) : ratelimiter * bool :=
  let '(v6, n, i) := k in
  let h := bucket_of s k in
  let b := default [] (table_of s v6 !! h) in
  match charge_bucket n i now b with
  | Some (b, ret) => (set_table v6 (<[h := b]> (table_of s v6)) s, ret)
  | None =>
    let s := s <| total_entries := total_entries s + 1 |> in
    if max_entries s <? u32 (total_entries s) then (s <| total_entries := total_entries s - 1 |>, false)
    else if negb alloc then (s <| total_entries := total_entries s - 1 |>, false)
    else
      let e := mk_entry now (TOKEN_MAX - PACKET_COST) i n in
      (set_table v6 (<[h := e :: b]> (table_of s v6)) s, true)
  end.

Definition source_key (src : source) (n : Z) : option rl_key :=
  match src with
  | IPv4 _ => Some (false, n, source_ip src)
  | IPv6 _ => Some (true, n, source_ip src)
  | NotIP => None
  end.

Definition wg_ratelimiter_allow (s : ratelimiter) (src : source) (n : Z) (now : Z) (alloc : bool) :
    ratelimiter * bool :=
  match source_key src n with
  | None => (s, false)
  | Some k => allow_in s k now alloc
  end.

(** [entry_free], run by RCU after a grace period. *)
Definition entry_free (s : ratelimiter) : ratelimiter :=
  if 0 <? rcu_pending s
  then s <| rcu_pending := rcu_pending s - 1 |> <| total_entries := total_entries s - 1 |> else s.

(** [work] is false for the NULL argument, which drops every entry. *)
Definition wg_ratelimiter_gc_entries (s : ratelimiter) (work : bool) (now : Z) : ratelimiter :=
  let t4 := gc_bucket work now <$> table_v4 s in
  let t6 := gc_bucket work now <$> table_v6 s in
  let removed := Z.of_nat (length (entries (table_v4 s)) + length (entries (table_v6 s)))
               - Z.of_nat (length (entries t4) + length (entries t6)) in
  let s := s <| table_v4 := t4 |> <| table_v6 := t6 |> <| rcu_pending := rcu_pending s + removed |> in
  if work then s <| gc_queued := true |> else s.

(** [rcu_barrier]: all pending callbacks run. *)
Definition rcu_barrier (s : ratelimiter) : ratelimiter :=
  s <| total_entries := total_entries s - rcu_pending s |> <| rcu_pending := 0 |>.

Definition roundup_pow_of_two (x : Z) : Z := 2 ^ Z.log2_up x.

Definition init_table_size (PAGE_SHIFT totalram_pages : Z) : Z :=
  if 2 ^ 30 / 2 ^ PAGE_SHIFT <? totalram_pages then 8192
  else Z.max 16 (roundup_pow_of_two (u64 (Z.shiftl totalram_pages PAGE_SHIFT) / 2 ^ 14 / 8)).

(** [ok_cache], [ok_v4] and [ok_v6]: the three allocations succeed. *)
Definition wg_ratelimiter_init (PAGE_SHIFT totalram_pages : Z) (ok_cache ok_v4 ok_v6 : bool) (key : Z)
    (s : ratelimiter) : ratelimiter * Z :=
  let s := s <| init_refcnt := init_refcnt s + 1 |> in
  if negb (init_refcnt s =? 1) then (s, 0)
  else if negb ok_cache then (s <| init_refcnt := init_refcnt s - 1 |>, - ENOMEM)
  else
    let sz := init_table_size PAGE_SHIFT totalram_pages in
    let s := s <| table_size := sz |> <| max_entries := sz * 8 |> in
    if negb ok_v4 then (s <| init_refcnt := init_refcnt s - 1 |>, - ENOMEM)
    else
      let s := s <| table_v4 := replicate (Z.to_nat sz) [] |> in
      if negb ok_v6 then (s <| table_v4 := [] |> <| init_refcnt := init_refcnt s - 1 |>, - ENOMEM)
      else
        (s <| table_v6 := replicate (Z.to_nat sz) [] |> <| gc_queued := true |> <| hash_key := key |>, 0).

Definition wg_ratelimiter_uninit (now : Z) (s : ratelimiter) : ratelimiter :=
  if init_refcnt s =? 0 then s
  else
    let s := s <| init_refcnt := init_refcnt s - 1 |> in
    if negb (init_refcnt s =? 0) then s
    else
      let s := s <| gc_queued := false |> in
      let s := rcu_barrier (wg_ratelimiter_gc_entries s false now) in
      s <| table_v4 := [] |> <| table_v6 := [] |>.

(** ** The self-test (selftest/ratelimiter.c)

    Run on an ideal clock: a sleep advances it by exactly its length and nothing
    else does, so the give-up-and-retry paths on a slow machine do not arise. *)

Definition htonl (x : Z) : Z := le_combine (be_split 4 (u32 x)).
Definition msec_to_sleep (m : Z) : Z := m * 1000000.

Definition expected_results : list (bool * Z) :=
  replicate (Z.to_nat PACKETS_BURSTABLE) (true, 0) ++
  [(false, 0); (true, 1000 / PACKETS_PER_SECOND); (false, 0);
   (true, 1000 / PACKETS_PER_SECOND * 2); (true, 0); (false, 0)].

(** The four checks of one iteration; the second and the fourth use an address
    of their own and must pass. *)
Definition timings_step (st : ratelimiter * Z * bool) (iv : Z * (bool * Z)) : ratelimiter * Z * bool :=
  let '(s, now, ok) := st in
  let '(i, (expect, sleep)) := iv in
  let now := now + msec_to_sleep sleep in
  let v4 x := IPv4 (htonl (8182 + x)) in
  let v6 x := IPv6 (be_split 4 (1212 + x) ++ be_split 4 289188 ++ be_split 4 i ++ be_split 4 i) in
  let '(s, r1) := wg_ratelimiter_allow s (v4 0) 0 now true in
  let '(s, r2) := wg_ratelimiter_allow s (v4 (i + 1)) 0 now true in
  let '(s, r3) := wg_ratelimiter_allow s (v6 0) 0 now true in
  let '(s, r4) := wg_ratelimiter_allow s (v6 (i + 1)) 0 now true in
  (s, now, ok && Bool.eqb r1 expect && r2 && Bool.eqb r3 expect && r4).

Definition timings_test (s : ratelimiter) (now : Z) : ratelimiter * Z * bool :=
  let s := rcu_barrier (wg_ratelimiter_gc_entries s false now) in
  fold_left timings_step (zip (seqZ 0 (Z.of_nat (length expected_results))) expected_results)
    (s, now, true).

Definition capacity_test (s : ratelimiter) (now : Z) : ratelimiter * bool :=
  let s := rcu_barrier (wg_ratelimiter_gc_entries s false now) in
  if negb (total_entries s =? 0) then (s, false)
  else
    fold_left (fun '(s, ok) i =>
        let '(s, r) := wg_ratelimiter_allow s (IPv4 (htonl i)) 0 now true in
        (s, ok && Bool.eqb r (negb (i =? max_entries s))))
      (seqZ 0 (max_entries s + 1)) (s, true).

(** The table is initialised three times and released four times. *)
Definition wg_ratelimiter_selftest (PAGE_SHIFT totalram_pages key now : Z) (s : ratelimiter) :
    ratelimiter * bool :=
  let init := wg_ratelimiter_init PAGE_SHIFT totalram_pages true true true key in
  let '(s, e1) := init s in
  let '(s, e2) := init s in
  let '(s, e3) := init s in
  let '(s, now, ok1) := timings_test s now in
  let '(s, ok2) := capacity_test s now in
  let un := wg_ratelimiter_uninit now in
  (un (un (un (un s))), (e1 =? 0) && (e2 =? 0) && (e3 =? 0) && ok1 && ok2).

(** ** Specification *)

Definition find_entry (s : ratelimiter) (k : rl_key) : option ratelimiter_entry :=
  let '(v6, n, i) := k in
  find (entry_matches n i) (default [] (table_of s v6 !! bucket_of s k)).

(** The tokens the source [k] has at time [now]. *)
Definition level (s : ratelimiter) (k : rl_key) (now : Z) : Z :=
  match find_entry s k with
  | Some e => Z.min TOKEN_MAX (tokens e + (now - last_time_ns e))
  | None => TOKEN_MAX
  end.

Definition known (s : ratelimiter) (k : rl_key) : bool := bool_decide (is_Some (find_entry s k)).

(** Every entry is in its bucket, once, with a sane balance. *)
Record entry_ok (t : Z) (e : ratelimiter_entry) : Prop := {
  eo_last : 0 <= last_time_ns e <= t;
  eo_tokens : 0 <= tokens e <= TOKEN_MAX;
}.

Record table_ok (s : ratelimiter) (t : Z) (v6 : bool) : Prop := {
  to_len : length (table_of s v6) = Z.to_nat (table_size s);
  to_bucket h b e : table_of s v6 !! h = Some b → e ∈ b → bucket_of s (v6, net e, ip e) = h ∧ entry_ok t e;
  to_nodup h b : table_of s v6 !! h = Some b → NoDup ((fun e => (net e, ip e)) <$> b);
}.

(** [t] is a time no entry is younger than. *)
Record rl_ok (s : ratelimiter) (t : Z) : Prop := {
  ro_size : 0 < table_size s;
  ro_v4 : table_ok s t false;
  ro_v6 : table_ok s t true;
  ro_max : 0 <= max_entries s < 2 ^ 31;
  ro_pending : 0 <= rcu_pending s;
  ro_total : total_entries s =
    Z.of_nat (length (entries (table_v4 s)) + length (entries (table_v6 s))) + rcu_pending s;
  ro_bound : total_entries s <= max_entries s;
}.

End Ratelimiter.

(** ** Buckets *)

Lemma TOKEN_values : PACKET_COST = 50000000 ∧ TOKEN_MAX = 250000000.
Proof. done. Qed.

Lemma entry_matches_spec n i e : entry_matches n i e = true ↔ net e = n ∧ ip e = i.
Proof. unfold entry_matches. rewrite andb_true_iff, !Z.eqb_eq. done. Qed.

Lemma refill_level t now e :
  entry_ok t e → t <= now < 2 ^ 63 → refill now e = Z.min TOKEN_MAX (tokens e + (now - last_time_ns e)).
Proof.
  intros [] Hn. unfold refill. rewrite wrap_id; [f_equal; lia|].
  unfold fits. pose proof TOKEN_values. lia.
Qed.

Lemma charge_entry_ok t now e :
  entry_ok t e → t <= now < 2 ^ 63 → entry_ok now (charge_entry now e).1.
Proof.
  intros He Hn. pose proof (refill_level t now e He Hn) as Hr. destruct He. pose proof TOKEN_values.
  unfold charge_entry. cbn. split; cbn; [lia|]. rewrite Hr. destruct (PACKET_COST <=? _) eqn:E; lia.
Qed.

(** The walk charges the entry the look-up finds. *)
Lemma charge_bucket_spec n i now b :
  match find (entry_matches n i) b with
  | None => charge_bucket n i now b = None
  | Some e => ∃ b1 b2, b = b1 ++ e :: b2 ∧ net e = n ∧ ip e = i ∧
      charge_bucket n i now b = Some (b1 ++ (charge_entry now e).1 :: b2, (charge_entry now e).2)
  end.
Proof.
  induction b as [|e b IH]; cbn -[charge_entry]; [done|].
  destruct (entry_matches n i e) eqn:E.
  - exists [], b. apply entry_matches_spec in E as [??]. by destruct (charge_entry now e).
  - destruct (find (entry_matches n i) b) as [e'|].
    + destruct IH as (b1 & b2 & -> & H1 & H2 & ->). exists (e :: b1), b2. done.
    + by rewrite IH.
Qed.

Lemma find_app {A} (f : A -> bool) l1 l2 :
  find f (l1 ++ l2) = match find f l1 with Some x => Some x | None => find f l2 end.
Proof. induction l1 as [|x l1 IH]; cbn; [done|]. by destruct (f x). Qed.

Lemma find_other n i n' i' b1 e e' b2 :
  net e = n → ip e = i → net e' = n → ip e' = i → (n', i') ≠ (n, i) →
  find (entry_matches n' i') (b1 ++ e' :: b2) = find (entry_matches n' i') (b1 ++ e :: b2).
Proof.
  intros H1 H2 H3 H4 Hne. rewrite !find_app. destruct (find _ b1); [done|]. cbn.
  assert (entry_matches n' i' e = false ∧ entry_matches n' i' e' = false) as [-> ->]; [|done].
  split; apply not_true_iff_false; rewrite entry_matches_spec; intros [??]; congruence.
Qed.

Lemma find_same n i b e :
  NoDup ((fun e => (net e, ip e)) <$> b) → e ∈ b → net e = n → ip e = i →
  find (entry_matches n i) b = Some e.
Proof.
  induction b as [|x b IH]; intros Hnd He Hn Hi; [set_solver|]. cbn in *.
  apply NoDup_cons in Hnd as [Hx Hnd]. destruct (entry_matches n i x) eqn:E.
  - apply elem_of_cons in He as [->|He]; [done|]. apply entry_matches_spec in E as [E1 E2].
    destruct Hx. apply list_elem_of_fmap. exists e. split; [congruence|done].
  - apply elem_of_cons in He as [->|He]; [|by apply IH].
    exfalso. apply not_true_iff_false in E. apply E, entry_matches_spec. done.
Qed.

Lemma find_no_match n i b e :
  find (entry_matches n i) b = None → e ∈ b → (net e, ip e) ≠ (n, i).
Proof.
  intros Hf He [= H1 H2]. pose proof (find_none _ _ Hf e) as Hn.
  rewrite (proj2 (entry_matches_spec n i e) (conj H1 H2)) in Hn.
  discriminate Hn. by apply list_elem_of_In.
Qed.

Lemma find_gc work now n i b :
  NoDup ((fun e => (net e, ip e)) <$> b) →
  find (entry_matches n i) (gc_bucket work now b) =
    match find (entry_matches n i) b with
    | Some e => if expired work now e then None else Some e
    | None => None
    end.
Proof.
  intros Hnd. induction b as [|e b IH]; [done|]. cbn in Hnd. apply NoDup_cons in Hnd as [He Hnd].
  unfold gc_bucket in *. cbn [find]. destruct (expired work now e) eqn:Ex.
  - rewrite filter_cons_False by congruence. rewrite IH by done.
    destruct (entry_matches n i e) eqn:E; [|done]. rewrite Ex.
    destruct (find (entry_matches n i) b) as [e'|] eqn:Ef; [|done].
    apply find_some in Ef as [Hin Hm]. apply entry_matches_spec in E as [E1 E2], Hm as [M1 M2].
    destruct He. apply list_elem_of_fmap. exists e'. split; [congruence|by apply list_elem_of_In].
  - rewrite filter_cons_True by done. cbn [find]. destruct (entry_matches n i e); [by rewrite Ex|auto].
Qed.

Lemma entries_insert (t : list (list ratelimiter_entry)) h b b' :
  t !! h = Some b →
  Z.of_nat (length (entries (<[h := b']> t))) =
  Z.of_nat (length (entries t)) + Z.of_nat (length b') - Z.of_nat (length b).
Proof.
  unfold entries. revert h. induction t as [|x t IH]; intros [|h] Hh; simplify_eq/=.
  - rewrite !length_app. lia.
  - rewrite !length_app, !Nat2Z.inj_add, (IH h Hh). lia.
Qed.

Lemma table_of_set v6 t s : table_of (set_table v6 t s) v6 = t.
Proof. by destruct v6. Qed.

Lemma table_of_set_ne v6 v t s : v ≠ v6 → table_of (set_table v6 t s) v = table_of s v.
Proof. by destruct v6, v. Qed.

Section Proofs.
Context `{HSipHash}.

Lemma bucket_lt s k : 0 < table_size s → (bucket_of s k < Z.to_nat (table_size s))%nat.
Proof.
  intros Hs. assert (∀ x, (Z.to_nat (Z.land x (table_size s - 1)) < Z.to_nat (table_size s))%nat) as Hx.
  { intros x. pose proof (land_mask x (table_size s - 1) ltac:(lia)). lia. }
  destruct k as [[[] ?] ?]; apply Hx.
Qed.

Lemma table_of_ok s t v6 : rl_ok s t → table_ok s t v6.
Proof. intros []. by destruct v6. Qed.

Lemma bucket_some s t v6 k : rl_ok s t → ∃ b, table_of s v6 !! bucket_of s k = Some b.
Proof.
  intros Hok. apply lookup_lt_is_Some. rewrite (to_len _ _ _ (table_of_ok s t v6 Hok)).
  apply bucket_lt, (ro_size _ _ Hok).
Qed.

Lemma entry_ok_mono t now e : entry_ok t e → t <= now → entry_ok now e.
Proof. intros [] ?. split; lia. Qed.

Lemma table_ok_mono s s' t now v6 :
  table_ok s t v6 → t <= now → table_of s' v6 = table_of s v6 →
  table_size s' = table_size s → hash_key s' = hash_key s → table_ok s' now v6.
Proof.
  intros [Hl Hb Hn] Ht Hto Hts Hk.
  assert (∀ k, bucket_of s' k = bucket_of s k) as Hbk.
  { intros [[[] ?] ?]; cbn; unfold bucket_v4, bucket_v6; by rewrite Hts, Hk. }
  split; rewrite Hto.
  - by rewrite Hts.
  - intros h b e Hh He. destruct (Hb h b e Hh He). rewrite Hbk. eauto using entry_ok_mono.
  - done.
Qed.

(** Replacing one bucket. *)
Lemma rl_ok_update s t now v6 h b b' tot extra :
  tot = total_entries s + extra →
  rl_ok s t → t <= now → table_of s v6 !! h = Some b →
  (∀ e, e ∈ b' → bucket_of s (v6, net e, ip e) = h ∧ entry_ok now e) →
  NoDup ((fun e => (net e, ip e)) <$> b') →
  Z.of_nat (length b') = Z.of_nat (length b) + extra →
  total_entries s + extra <= max_entries s →
  rl_ok (set_table v6 (<[h := b']> (table_of s v6)) (s <| total_entries := tot |>)) now.
Proof.
  intros -> [Hsz H4 H6 Hmax Hpend Htot Hbd] Ht Hh He Hnd Hlen Hcap.
  set (s1 := s <| total_entries := total_entries s + extra |>).
  set (s' := set_table v6 (<[h := b']> (table_of s v6)) s1).
  assert (table_size s' = table_size s ∧ hash_key s' = hash_key s ∧ max_entries s' = max_entries s ∧
    rcu_pending s' = rcu_pending s ∧ total_entries s' = total_entries s + extra) as (E1 & E2 & E3 & E4 & E5)
    by by destruct v6.
  assert (∀ k, bucket_of s' k = bucket_of s k) as Hbk.
  { intros [[[] ?] ?]; cbn; unfold bucket_v4, bucket_v6; by rewrite E1, E2. }
  assert (table_of s' v6 = <[h := b']> (table_of s v6)) as Ev by by destruct v6.
  assert (table_of s' (negb v6) = table_of s (negb v6)) as Eo by by destruct v6.
  assert (table_ok s' now v6) as Hnew.
  { assert (table_ok s t v6) as [Hl Hb Hn] by by destruct v6. split; rewrite Ev.
    - by rewrite length_insert, E1.
    - intros h' b0 e Hb0 He0. rewrite Hbk. apply list_lookup_insert_Some in Hb0 as [(<- & <- & _)|[_ Hb0]];
        [by apply He|]. destruct (Hb h' b0 e Hb0 He0). eauto using entry_ok_mono.
    - intros h' b0 Hb0. apply list_lookup_insert_Some in Hb0 as [(_ & <- & _)|[_ Hb0]]; [done|eauto]. }
  assert (table_ok s' now (negb v6)) as Hold.
  { eapply (table_ok_mono s); try done. by destruct v6. }
  split; rewrite ?E1, ?E3, ?E4, ?E5; try done.
  - by destruct v6.
  - by destruct v6.
  - pose proof (entries_insert (table_of s v6) h b b' Hh) as Hi. destruct v6; cbn in *; lia.
Qed.

(** ** The check *)

Lemma find_entry_update s v6 h b' k :
  find_entry (set_table v6 (<[h := b']> (table_of s v6)) s) k =
    if bool_decide (k.1.1 = v6 ∧ bucket_of s k = h ∧ (h < length (table_of s v6))%nat)
    then find (entry_matches k.1.2 k.2) b' else find_entry s k.
Proof.
  destruct k as [[v n] i]. unfold find_entry. cbn [fst snd].
  assert (bucket_of (set_table v6 (<[h := b']> (table_of s v6)) s) (v, n, i) = bucket_of s (v, n, i)) as ->
    by by destruct v6, v.
  case_bool_decide as E.
  - destruct E as (<- & <- & Hlt). by rewrite table_of_set, list_lookup_insert_eq.
  - destruct (decide (v = v6)) as [->|Hv]; [|by rewrite table_of_set_ne].
    rewrite table_of_set. destruct (decide (h = bucket_of s (v6, n, i))) as [->|Hne].
    + rewrite list_insert_ge; [done|]. destruct (decide (bucket_of s (v6, n, i) < length (table_of s v6))%nat);
        [naive_solver|lia].
    + by rewrite list_lookup_insert_ne.
Qed.

Lemma keys_app b1 e e' b2 :
  net e' = net e → ip e' = ip e →
  (fun e => (net e, ip e)) <$> (b1 ++ e' :: b2) = (fun e => (net e, ip e)) <$> (b1 ++ e :: b2).
Proof. intros H1 H2. rewrite !fmap_app. cbn. by rewrite H1, H2. Qed.

Lemma level_charged t now e :
  entry_ok t e → t <= now < 2 ^ 63 →
  let '(e', ret) := charge_entry now e in
  let l := Z.min TOKEN_MAX (tokens e + (now - last_time_ns e)) in
  ret = (PACKET_COST <=? l) ∧ Z.min TOKEN_MAX (tokens e' + (now - last_time_ns e')) = l - (if ret then PACKET_COST else 0).
Proof.
  intros He Hn. unfold charge_entry. rewrite (refill_level t now e He Hn).
  split; [done|]. destruct He. pose proof TOKEN_values. cbn.
  destruct (PACKET_COST <=? _) eqn:E; lia.
Qed.

Lemma level_update s v6 h b b' k now c :
  table_of s v6 !! h = Some b → k.1.1 = v6 → bucket_of s k = h →
  (∀ n i, (n, i) ≠ (k.1.2, k.2) → find (entry_matches n i) b' = find (entry_matches n i) b) →
  (∃ e, find (entry_matches k.1.2 k.2) b' = Some e ∧
     Z.min TOKEN_MAX (tokens e + (now - last_time_ns e)) = level s k now - c) →
  ∀ k', level (set_table v6 (<[h := b']> (table_of s v6)) s) k' now =
        level s k' now - (if bool_decide (k' = k) then c else 0).
Proof.
  intros Hb Hv Hh Hoth (e & He & Hc) k'. unfold level at 1. rewrite find_entry_update.
  case_bool_decide as E.
  - case_bool_decide as Ek; [subst k'; rewrite He; lia|].
    destruct E as (E1 & E2 & _). destruct k' as [[v' n'] i'], k as [[v n] i]. cbn [fst snd] in *. subst.
    rewrite Hoth by congruence. rewrite Z.sub_0_r. unfold level, find_entry.
    by rewrite E2, Hb.
  - rewrite bool_decide_eq_false_2; [unfold level; lia|]. intros ->. destruct E.
    split_and!; [done|done|]. by eapply lookup_lt_Some.
Qed.

(** What the check does to its source: charged or refused, the others untouched. *)
Definition charged (s s' : ratelimiter) (k : rl_key) (now : Z) (ret : bool) : Prop :=
  rl_ok s' now ∧
  ∀ k', level s' k' now = level s k' now - (if bool_decide (k' = k) && ret then PACKET_COST else 0).

Lemma allow_in_known s t k now alloc e :
  rl_ok s t → t <= now < 2 ^ 63 → find_entry s k = Some e →
  let '(s', ret) := allow_in s k now alloc in
  ret = (PACKET_COST <=? level s k now) ∧ charged s s' k now ret.
Proof.
  intros Hok Hn Hfe. destruct k as [[v6 n] i]. unfold allow_in.
  destruct (bucket_some s t v6 (v6, n, i) Hok) as [b Hb]. rewrite Hb. change (default [] (Some b)) with b.
  pose proof (table_of_ok s t v6 Hok) as Htab.
  pose proof (to_nodup _ _ _ Htab _ _ Hb) as Hnd.
  pose proof (charge_bucket_spec n i now b) as Hch.
  assert (level s (v6, n, i) now = Z.min TOKEN_MAX (tokens e + (now - last_time_ns e))) as Hl
    by (unfold level; by rewrite Hfe).
  unfold find_entry in Hfe. rewrite Hb in Hfe. cbn [from_option id] in Hfe. rewrite Hfe in Hch.
  destruct Hch as (b1 & b2 & Eb & Hen & Hei & ->).
  destruct (to_bucket _ _ _ Htab _ _ e Hb) as [_ Heok]; [rewrite Eb; set_solver|].
  pose proof (level_charged t now e Heok Hn) as Hlc. pose proof (charge_entry_ok t now e Heok Hn) as Hok'.
  assert (net (charge_entry now e).1 = n ∧ ip (charge_entry now e).1 = i) as [Hn' Hi'] by done.
  destruct (charge_entry now e) as [e' ret]. cbn [fst snd] in *. destruct Hlc as [Hret Hlev].
  split; [by rewrite Hl|]. split.
  - enough (rl_ok (set_table v6 (<[bucket_of s (v6, n, i) := b1 ++ e' :: b2]> (table_of s v6))
      (s <| total_entries := total_entries s |>)) now) as Hgoal by by destruct s.
    apply (rl_ok_update s t now v6 _ b _ _ 0); [lia|done|lia|done| | | |].
    + intros x Hx. assert (x = e' ∨ x ∈ b) as [->|Hxb] by (rewrite Eb; set_solver).
      { rewrite Hn', Hi'. done. }
      destruct (to_bucket _ _ _ Htab _ _ x Hb Hxb). split; [done|]. eapply entry_ok_mono; [done|lia].
    + rewrite (keys_app b1 e) by congruence. by rewrite <- Eb.
    + rewrite Eb, !length_app. cbn. lia.
    + pose proof (ro_bound _ _ Hok). lia.
  - intros k'. rewrite (level_update s v6 _ b _ (v6, n, i) now (if ret then PACKET_COST else 0) Hb).
    + destruct (bool_decide _), ret; cbn; lia.
    + done.
    + done.
    + intros n' i' Hne. rewrite Eb. by eapply find_other.
    + exists e'. split; [|cbn [fst snd]; lia]. eapply find_same; [|set_solver|done|done].
      rewrite (keys_app b1 e) by congruence. by rewrite <- Eb.
Qed.

Lemma total_undo s :
  s <| total_entries := total_entries s + 1 |>
    <| total_entries := total_entries (s <| total_entries := total_entries s + 1 |>) - 1 |> = s.
Proof.
  change (total_entries (s <| total_entries := total_entries s + 1 |>)) with (total_entries s + 1).
  replace (total_entries s + 1 - 1) with (total_entries s) by lia. by destruct s.
Qed.

Lemma level_total v6 t s x k now :
  level (set_table v6 t (s <| total_entries := x |>)) k now = level (set_table v6 t s) k now.
Proof. by destruct v6. Qed.

Lemma rl_ok_mono s t now : rl_ok s t → t <= now → rl_ok s now.
Proof. intros [] ?. split; try done; (eapply table_ok_mono; [done|lia|done|done|done]). Qed.

Lemma allow_in_new s t k now alloc :
  rl_ok s t → 0 <= t <= now → find_entry s k = None →
  let full := (max_entries s <=? total_entries s) || negb alloc in
  let '(s', ret) := allow_in s k now alloc in
  ret = negb full ∧ charged s s' k now ret.
Proof.
  intros Hok Hn Hfe full. destruct k as [[v6 n] i]. unfold allow_in.
  destruct (bucket_some s t v6 (v6, n, i) Hok) as [b Hb]. rewrite Hb. change (default [] (Some b)) with b.
  pose proof (table_of_ok s t v6 Hok) as Htab.
  pose proof (to_nodup _ _ _ Htab _ _ Hb) as Hnd.
  pose proof (charge_bucket_spec n i now b) as Hch.
  assert (level s (v6, n, i) now = TOKEN_MAX) as Hl by (unfold level; by rewrite Hfe).
  unfold find_entry in Hfe. rewrite Hb in Hfe. cbn [from_option id] in Hfe.
  rewrite Hfe in Hch. rewrite Hch, total_undo.
  pose proof (ro_bound _ _ Hok) as Hbd. pose proof (ro_max _ _ Hok) as Hmx.
  pose proof (ro_total _ _ Hok) as Htot. pose proof (ro_pending _ _ Hok) as Hpd.
  assert (charged s s (v6, n, i) now false) as Hsame.
  { split; [eapply rl_ok_mono; [done|lia]|]. intros k'. rewrite andb_false_r. lia. }
  set (s1 := s <| total_entries := total_entries s + 1 |>).
  assert ((max_entries s1 <? u32 (total_entries s1)) = (max_entries s <=? total_entries s)) as ->.
  { cbn. rewrite wrap_id by (unfold fits; lia). destruct (_ <=? _) eqn:E1, (max_entries s <? _) eqn:E2; lia. }
  unfold full. destruct (max_entries s <=? total_entries s) eqn:Efull; [done|].
  destruct alloc; [|done]. cbn [orb negb]. split; [done|].
  pose proof TOKEN_values. set (e := mk_entry now (TOKEN_MAX - PACKET_COST) i n). split.
  - apply (rl_ok_update s t now v6 _ b (e :: b) _ 1); [done|done|lia|done| | | |].
    + intros x [->|Hx]%elem_of_cons; [split; [done|split; cbn; lia]|].
      destruct (to_bucket _ _ _ Htab _ _ x Hb Hx). split; [done|]. eapply entry_ok_mono; [done|lia].
    + cbn. apply NoDup_cons. split; [|done]. intros (x & Hx1 & Hx2)%list_elem_of_fmap.
      by apply (find_no_match n i b x Hfe Hx2).
    + cbn [length]. lia.
    + lia.
  - intros k'. unfold s1. rewrite level_total.
    change (table_of (s <| total_entries := total_entries s + 1 |>) v6) with (table_of s v6).
    change (bucket_of (s <| total_entries := total_entries s + 1 |>) (v6, n, i)) with (bucket_of s (v6, n, i)).
    rewrite (level_update s v6 _ b _ (v6, n, i) now PACKET_COST Hb); [by rewrite andb_true_r|done|done| |].
    + intros n' i' Hne. cbn [find]. replace (entry_matches n' i' e) with false; [done|].
      symmetry. apply not_true_iff_false. rewrite entry_matches_spec. cbn.
      intros [??]. apply Hne. cbn. congruence.
    + exists e. cbn [find fst snd]. rewrite (proj2 (entry_matches_spec n i e)) by done.
      split; [done|]. rewrite Hl. cbn. lia.
Qed.

(** ** The collector *)

Lemma length_gc_entries work now t :
  (length (entries (gc_bucket work now <$> t)) <= length (entries t))%nat.
Proof.
  unfold entries. induction t as [|b t IH]; [done|]. cbn. rewrite !length_app.
  pose proof (length_filter (fun e => expired work now e = false) b). unfold gc_bucket at 1. lia.
Qed.

Lemma table_ok_gc s t now work v6 :
  table_ok s t v6 → t <= now → table_ok (wg_ratelimiter_gc_entries s work now) now v6.
Proof.
  intros [Hl Hb Hn] Ht.
  assert (table_of (wg_ratelimiter_gc_entries s work now) v6 = gc_bucket work now <$> table_of s v6) as E
    by by destruct work, v6.
  assert (∀ k, bucket_of (wg_ratelimiter_gc_entries s work now) k = bucket_of s k) as Hbk
    by by destruct work.
  assert (table_size (wg_ratelimiter_gc_entries s work now) = table_size s) as Es by by destruct work.
  split; rewrite E.
  - by rewrite length_fmap, Es.
  - intros h b e Hh He. apply list_lookup_fmap_Some in Hh as (b0 & -> & Hb0).
    apply list_elem_of_filter in He as [_ He]. destruct (Hb h b0 e Hb0 He). rewrite Hbk.
    eauto using entry_ok_mono.
  - intros h b Hh. apply list_lookup_fmap_Some in Hh as (b0 & -> & Hb0).
    eapply sublist_NoDup; [apply (Hn h b0 Hb0)|]. apply fmap_sublist, sublist_filter.
Qed.

Lemma gc_spec s t now work :
  rl_ok s t → t <= now < 2 ^ 63 →
  rl_ok (wg_ratelimiter_gc_entries s work now) now ∧
  (work = true → ∀ k, level (wg_ratelimiter_gc_entries s work now) k now = level s k now).
Proof.
  intros Hok Hn. pose proof Hok as [Hsz H4 H6 Hmax Hpend Htot Hbd]. split.
  - set (s' := wg_ratelimiter_gc_entries s work now).
    pose proof (length_gc_entries work now (table_v4 s)). pose proof (length_gc_entries work now (table_v6 s)).
    assert (table_size s' = table_size s ∧ max_entries s' = max_entries s ∧ total_entries s' = total_entries s)
      as (E1 & E2 & E3) by by destruct work.
    split; rewrite ?E1, ?E2, ?E3; try done.
    + apply (table_ok_gc s t now work false H4). lia.
    + apply (table_ok_gc s t now work true H6). lia.
    + destruct work; cbn; lia.
    + destruct work; cbn; lia.
  - intros -> k. unfold level, find_entry. destruct k as [[v6 n] i].
    change (bucket_of (wg_ratelimiter_gc_entries s true now) (v6, n, i)) with (bucket_of s (v6, n, i)).
    replace (table_of (wg_ratelimiter_gc_entries s true now) v6) with (gc_bucket true now <$> table_of s v6)
      by by destruct v6.
    destruct (bucket_some s t v6 (v6, n, i) Hok) as [b Hb].
    rewrite list_lookup_fmap, Hb. cbn [fmap option_fmap option_map from_option id].
    pose proof (table_of_ok s t v6 Hok) as Htab.
    rewrite find_gc by apply (to_nodup _ _ _ Htab _ _ Hb).
    destruct (find (entry_matches n i) b) as [e|] eqn:Ef; [|done].
    apply find_some in Ef as [He%list_elem_of_In _].
    destruct (to_bucket _ _ _ Htab _ _ e Hb He) as [_ [Hl Htk]].
    destruct (expired true now e) eqn:Ex; [|done]. unfold expired in Ex. cbn [negb orb] in Ex.
    rewrite wrap_id in Ex by (unfold fits; lia). pose proof TOKEN_values.
    unfold NSEC_PER_SEC in Ex. lia.
Qed.

(** ** Histories *)

Inductive rl_event :=
  | E_allow (src : source) (n : Z) (alloc : bool)
  | E_gc
  | E_free.

(** One event at a time, with the answer of the check and the source it was for. *)
Definition rl_step (s : ratelimiter) (now : Z) (e : rl_event) : ratelimiter * option (rl_key * bool) :=
  match e with
  | E_allow src n alloc =>
    let '(s, ret) := wg_ratelimiter_allow s src n now alloc in
    (s, (fun k => (k, ret)) <$> source_key src n)
  | E_gc => (wg_ratelimiter_gc_entries s true now, None)
  | E_free => (entry_free s, None)
  end.

Fixpoint rl_run (s : ratelimiter) (evs : list (Z * rl_event)) : ratelimiter * list (rl_key * bool) :=
  match evs with
  | [] => (s, [])
  | (now, e) :: evs =>
    let '(s, r) := rl_step s now e in
    let '(s, rs) := rl_run s evs in
    (s, option_list r ++ rs)
  end.

(** Times that do not go back, within [t] and [t']. *)
Fixpoint times_ok (t : Z) (evs : list (Z * rl_event)) (t' : Z) : Prop :=
  match evs with [] => t <= t' | (now, _) :: evs => t <= now ∧ times_ok now evs t' end.

Definition passed (k : rl_key) (rs : list (rl_key * bool)) : Z :=
  Z.of_nat (length (filter (fun r => r = (k, true)) rs)).

Lemma allow_in_spec s t k now alloc :
  rl_ok s t → 0 <= t <= now → now < 2 ^ 63 →
  let full := negb (known s k) && ((max_entries s <=? total_entries s) || negb alloc) in
  let '(s', ret) := allow_in s k now alloc in
  ret = negb full && (PACKET_COST <=? level s k now) ∧ charged s s' k now ret.
Proof.
  intros Hok Hn Hnow full. unfold full, known. destruct (find_entry s k) as [e|] eqn:Ef.
  - pose proof (allow_in_known s t k now alloc e Hok ltac:(lia) Ef) as Hk.
    destruct (allow_in s k now alloc) as [s' ret]. cbn. done.
  - pose proof (allow_in_new s t k now alloc Hok Hn Ef) as Hk. cbn zeta in Hk.
    destruct (allow_in s k now alloc) as [s' ret]. rewrite bool_decide_eq_false_2 by by intros [? [=]].
    cbn [negb andb]. destruct Hk as [-> Hc]. split; [|done]. unfold level. rewrite Ef.
    pose proof TOKEN_values. destruct (PACKET_COST <=? TOKEN_MAX) eqn:E; [by rewrite andb_true_r|lia].
Qed.

Lemma entry_free_ok s t : rl_ok s t → rl_ok (entry_free s) t ∧ ∀ k now, level (entry_free s) k now = level s k now.
Proof.
  intros [? H4 H6 ? ? ? ?]. unfold entry_free. destruct (0 <? rcu_pending s) eqn:E; [|done].
  split; [|done]. split; cbn; try done; try lia.
  - eapply table_ok_mono; [exact H4|lia|done|done|done].
  - eapply table_ok_mono; [exact H6|lia|done|done|done].
Qed.

(** A level rises by the time that passes, at most. *)
Lemma level_later s t k now now' :
  rl_ok s t → t <= now <= now' → 0 <= level s k now ∧ level s k now' <= TOKEN_MAX ∧
  level s k now' <= level s k now + (now' - now).
Proof.
  intros Hok Hn. unfold level, find_entry. destruct k as [[v6 n] i]. pose proof TOKEN_values.
  destruct (bucket_some s t v6 (v6, n, i) Hok) as [b Hb]. rewrite Hb. cbn [from_option id].
  destruct (find (entry_matches n i) b) as [e|] eqn:Ef; [|lia].
  apply find_some in Ef as [He%list_elem_of_In _].
  destruct (to_bucket _ _ _ (table_of_ok s t v6 Hok) _ _ e Hb He) as [_ [Hl Htk]]. lia.
Qed.

Lemma passed_nil k : passed k [] = 0.
Proof. done. Qed.

Lemma passed_one k k' ret : passed k [(k', ret)] = if bool_decide (k = k') && ret then 1 else 0.
Proof.
  unfold passed. cbn [filter list_filter]. destruct (decide ((k', ret) = (k, true))) as [[= -> ->]|Hne].
  - by rewrite bool_decide_eq_true_2.
  - case_bool_decide; [|done]. destruct ret; [congruence|done].
Qed.

(** One event: what passes is paid for by the level. *)
Lemma rl_step_level s t now e k :
  rl_ok s t → 0 <= t <= now → now < 2 ^ 63 →
  let '(s', r) := rl_step s now e in
  rl_ok s' now ∧ level s' k now = level s k now - PACKET_COST * passed k (option_list r).
Proof.
  intros Hok Hn Hnow. assert (rl_ok s now) as Hok' by (eapply rl_ok_mono; [done|lia]).
  destruct e as [src n alloc| |]; cbn -[wg_ratelimiter_gc_entries wg_ratelimiter_allow].
  - unfold wg_ratelimiter_allow. destruct (source_key src n) as [k'|]; cbn [fmap option_fmap option_map];
      [|split; [done|]; rewrite passed_nil; lia].
    pose proof (allow_in_spec s t k' now alloc Hok Hn Hnow) as Hs. cbn zeta in Hs.
    destruct (allow_in s k' now alloc) as [s' ret]. destruct Hs as [_ [Hok'' Hlev]].
    split; [done|]. rewrite Hlev.
    change (option_list (Some (k', ret))) with [(k', ret)]. rewrite passed_one. destruct (_ && _); lia.
  - destruct (gc_spec s t now true Hok ltac:(lia)) as [H1 H2]. split; [done|].
    rewrite H2, passed_nil by done. lia.
  - destruct (entry_free_ok s now Hok') as [H1 H2]. split; [done|]. rewrite H2, passed_nil. lia.
Qed.

Lemma passed_app k r1 r2 : passed k (r1 ++ r2) = passed k r1 + passed k r2.
Proof. unfold passed. rewrite filter_app, length_app. lia. Qed.

Lemma rl_run_level s t evs t' k :
  rl_ok s t → 0 <= t → times_ok t evs t' → t' < 2 ^ 63 →
  rl_ok (rl_run s evs).1 t' ∧
  PACKET_COST * passed k (rl_run s evs).2 <= level s k t + (t' - t).
Proof.
  revert s t. induction evs as [|[now e] evs IH]; intros s t Hok Ht Htm Ht';
    cbn [rl_run times_ok fst snd] in *.
  - rewrite passed_nil. split; [by eapply rl_ok_mono|]. destruct (level_later s t k t t' Hok ltac:(lia)). lia.
  - destruct Htm as [Hn Htm]. assert (now <= t') as Hnt.
    { clear -Htm. revert now Htm. induction evs as [|[n e] evs IH]; cbn; intros now; [done|].
      intros [? H]. apply IH in H. lia. }
    pose proof (rl_step_level s t now e k Hok ltac:(lia) ltac:(lia)) as Hs.
    destruct (rl_step s now e) as [s1 r]. destruct Hs as [Hok1 Hlev].
    specialize (IH s1 now Hok1 ltac:(lia) Htm Ht'). destruct (rl_run s1 evs) as [s2 rs]. cbn [fst snd] in *.
    destruct IH as [IH1 IH2]. split; [done|]. rewrite passed_app.
    destruct (level_later s t k t now Hok ltac:(lia)) as (_ & _ & H3). lia.
Qed.

(** ** Theorems *)

(** The check is a token bucket per source: it passes exactly when the
    source has a packet's worth of tokens at this time, takes one packet's cost
    from that source alone, and refuses an unknown source exactly when the table
    is full or no entry can be allocated. *)
Theorem ratelimiter_allow_spec s t src n now alloc k :
  rl_ok s t → 0 <= t <= now → now < 2 ^ 63 → source_key src n = Some k →
  let full := negb (known s k) && ((max_entries s <=? total_entries s) || negb alloc) in
  let '(s', ret) := wg_ratelimiter_allow s src n now alloc in
  ret = negb full && (PACKET_COST <=? level s k now) ∧
  rl_ok s' now ∧
  (∀ k', level s' k' now = level s k' now - (if bool_decide (k' = k) && ret then PACKET_COST else 0)).
Proof.
  intros Hok Hn Hnow Hk. unfold wg_ratelimiter_allow. rewrite Hk. by apply (allow_in_spec s t).
Qed.

(** The garbage collector is invisible: it drops only entries whose bucket
    is full again, so no source's level changes, now or later. *)
Theorem ratelimiter_gc_transparent s t now k :
  rl_ok s t → t <= now < 2 ^ 63 →
  rl_ok (wg_ratelimiter_gc_entries s true now) now ∧
  level (wg_ratelimiter_gc_entries s true now) k now = level s k now.
Proof.
  intros Hok Hn. destruct (gc_spec s t now true Hok Hn) as [H1 H2]. auto.
Qed.


(** The accounting: over any history [total_entries] is the number of entries in
    the two tables plus those waiting for their RCU callback, and it never
    exceeds [max_entries]. *)
Theorem ratelimiter_accounting s t evs t' :
  rl_ok s t → 0 <= t → times_ok t evs t' → t' < 2 ^ 63 →
  let s' := (rl_run s evs).1 in
  total_entries s' =
    Z.of_nat (length (entries (table_v4 s')) + length (entries (table_v6 s'))) + rcu_pending s' ∧
  total_entries s' <= max_entries s'.
Proof.
  intros Hok Ht Htm Ht'. destruct (rl_run_level s t evs t' (false, 0, 0) Hok Ht Htm Ht') as [[] _]. done.
Qed.

End Proofs.

(** ** Witnesses and the self-test *)

(** A hash for evaluation. *)
Definition sum_hash : HSipHash := {|
  hsiphash_2u32 := fun a b k => u32 (a + b + k);
  hsiphash_3u32 := fun a b c k => u32 (a + b + c + k) |}.

Definition uninitialised : ratelimiter := mk_ratelimiter [] [] 0 0 0 0 0 false 0.

(** A table for a machine of 1 MiB: 16 buckets, at most 128 entries. *)
Definition small_table : ratelimiter := (wg_ratelimiter_init 12 256 true true true 7 uninitialised).1.

Lemma empty_table_ok `{HSipHash} s t :
  0 < table_size s → table_v4 s = replicate (Z.to_nat (table_size s)) [] →
  table_v6 s = replicate (Z.to_nat (table_size s)) [] →
  0 <= max_entries s < 2 ^ 31 → rcu_pending s = 0 → total_entries s = 0 → rl_ok s t.
Proof.
  intros Hs H4 H6 Hm Hp Ht.
  assert (∀ v6, table_of s v6 = replicate (Z.to_nat (table_size s)) []) as Hto by by intros [].
  assert (∀ n, length (entries (replicate n [])) = 0%nat) as Hlen by (induction n; done).
  assert (∀ v6, table_ok s t v6) as Htab.
  { intros v6. split; rewrite Hto.
    - apply length_replicate.
    - intros h b e [-> _]%lookup_replicate He. set_solver.
    - intros h b [-> _]%lookup_replicate. constructor. }
  split; try done; try lia. rewrite H4, H6, !Hlen. lia.
Qed.

Lemma small_table_ok : @rl_ok sum_hash small_table 0.
Proof. apply empty_table_ok; try done. Qed.

Lemma ratelimiter_allow_spec_witness :
  @rl_ok sum_hash small_table 0 ∧
  (@wg_ratelimiter_allow sum_hash small_table (IPv4 16777343) 1 1000 true).2 = true.
Proof.
  split; [exact small_table_ok|].
  pose proof (@ratelimiter_allow_spec sum_hash small_table 0 (IPv4 16777343) 1 1000 true
    (false, 1, 16777343) small_table_ok ltac:(lia) ltac:(lia) eq_refl) as Hs. cbn zeta in Hs.
  destruct (@wg_ratelimiter_allow sum_hash small_table (IPv4 16777343) 1 1000 true) as [s' ret].
  destruct Hs as [Hret _]. cbn [snd]. rewrite Hret. reflexivity.
Defined.

Lemma ratelimiter_gc_transparent_witness :
  @level sum_hash (@wg_ratelimiter_gc_entries small_table true 5) (false, 1, 1) 5 = TOKEN_MAX.
Proof.
  pose proof (@ratelimiter_gc_transparent sum_hash small_table 0 5 (false, 1, 1) small_table_ok
    ltac:(lia)) as [_ Hl]. rewrite Hl. reflexivity.
Defined.

(** Seven packets of one source at once, then one 60 ms later. *)
Definition burst : list (Z * rl_event) :=
  replicate 7 (10, E_allow (IPv4 1) 1 true) ++ [(60000010, E_gc); (60000010, E_allow (IPv4 1) 1 true)].


Lemma ratelimiter_accounting_witness :
  total_entries (@rl_run sum_hash small_table burst).1 <= 128.
Proof.
  pose proof (@ratelimiter_accounting sum_hash small_table 0 burst 60000010 small_table_ok
    ltac:(lia) ltac:(cbn; lia) ltac:(lia)) as [_ Hb]. exact Hb.
Defined.

(** The module's own self-test passes on the model: the burst of five, the
    refusal, the refill after one and two packet times, the independence of
    neighbouring addresses (IPv4) and of the host part (IPv6), the capacity of
    exactly [max_entries], and the reference count of init and uninit. *)
Theorem ratelimiter_selftest_passes :
  let '(s, ok) := @wg_ratelimiter_selftest sum_hash 12 256 7 1000000000 uninitialised in
  ok = true ∧ init_refcnt s = 0 ∧ total_entries s = 0 ∧ table_v4 s = [] ∧ gc_queued s = false.
Proof. vm_compute. auto. Qed.
