(* ===== verification/PeerLookup.v ===== *)
(** * The two lookup tables (peerlookup.c)

    [index_hashtable] finds a handshake or a keypair by the 32-bit index a
    packet carries; [pubkey_hashtable] finds a peer by its static public key.
    Both are arrays of hlists; the model keeps, per bucket, the list of node
    addresses, and the nodes' fields apart, since a node is reached through its
    owner as well.  Peers are addresses with a reference count; a lookup takes a
    reference unless the count is zero.

    A locked region of the C code is one step.  [index_ok] (every hashed node is
    in the bucket of its index, once, and no two hashed nodes have the same
    index) is kept by every region, for any interleaving: the insertion's
    unlocked search may be outdated when the lock is taken, and the second
    search under the lock makes up for it ([index_table_invariant]).  The lookup
    then returns exactly the node hashed under the index ([index_lookup_spec]);
    insertion, replacement and removal act on the table as on a finite map
    ([index_insert_spec], [index_replace_spec]); the public-key table is a
    finite map from keys to peers ([pubkey_lookup_spec]). *)
From S2P Require Import Prelude Messages.

(** ** hlists *)

(** Bucket number to nodes, first to last; an absent bucket is empty. *)
Abbreviation hlists := (gmap Z (list nat)).
Definition bucket (T : hlists) (b : Z) : list nat := default [] (T !! b).

Definition hlist_add_head_rcu (b : Z) (p : nat) (T : hlists) : hlists := <[b := p :: bucket T b]> T.
Definition hlist_del_init_rcu (p : nat) (T : hlists) : hlists := (fun l : list nat => filter (fun x => x ≠ p) l) <$> T.
Definition hlist_replace_rcu (old new : nat) (T : hlists) : hlists :=
  (fun l : list nat => (fun x => if bool_decide (x = old) then new else x) <$> l) <$> T.
#[global] Arguments hlist_add_head_rcu : simpl never.
#[global] Arguments hlist_del_init_rcu : simpl never.
#[global] Arguments hlist_replace_rcu : simpl never.
#[global] Arguments bucket : simpl never.

Definition hashed (T : hlists) (p : nat) : Prop := ∃ b, p ∈ bucket T b.
#[global] Instance hashed_dec T p : Decision (hashed T p).
Proof.
  refine (cast_if (decide (map_Exists (fun _ l => p ∈ l) T))).
  - abstract (match goal with H : map_Exists _ _ |- _ => destruct H as (b & l & Hb & Hp); exists b; unfold bucket; by rewrite Hb end).
  - abstract (intros [b Hb]; match goal with H : ¬ map_Exists _ _ |- _ => apply H end; unfold bucket in Hb;
      destruct (T !! b) as [l|] eqn:E; [by exists b, l|cbn in Hb; set_solver]).
Defined.

(** ** Peers' reference counts *)

(** [kref_get_unless_zero] through [wg_peer_get_maybe_zero]: NULL stays NULL. *)
Abbreviation peer_refs := (gmap nat Z).
Definition wg_peer_get_maybe_zero (refs : peer_refs) (peer : option nat) : peer_refs * option nat :=
  match peer with
  | None => (refs, None)
  | Some p =>
    if default 0 (refs !! p) =? 0 then (refs, None)
    else (<[p := default 0 (refs !! p) + 1]> refs, Some p)
  end.

(** ** The index table *)

Definition INDEX_HASHTABLE_HANDSHAKE : Z := 1.
Definition INDEX_HASHTABLE_KEYPAIR : Z := 2.

Record index_hashtable_entry := mk_index_entry {
  ie_peer : option nat;
  ie_type : Z;
  ie_index : Z;
}.

#[export] Instance settable_index_entry : Settable index_hashtable_entry := fun e =>
  mk_index_entry (ie_peer e) (ie_type e) (ie_index e).

Record index_hashtable := mk_index_hashtable {
  ih_lists : hlists;
  ih_nodes : gmap nat index_hashtable_entry;
}.

#[export] Instance settable_index_hashtable : Settable index_hashtable := fun t =>
  mk_index_hashtable (ih_lists t) (ih_nodes t).

Definition index_bucket (index : Z) : Z := Z.land (u32 index) (2 ^ 13 - 1).
Definition wg_index_hashtable_alloc : index_hashtable := mk_index_hashtable ∅ ∅.

Definition node_index (T : index_hashtable) (e : nat) : option Z := ie_index <$> ih_nodes T !! e.

(** The walk over a bucket for a node with this index. *)
Definition find_index (T : index_hashtable) (index : Z) : option nat :=
  find (fun e => bool_decide (node_index T e = Some index)) (bucket (ih_lists T) (index_bucket index)).

(** First locked region of the insertion: the entry is taken out. *)
Definition insert_unhash (T : index_hashtable) (e : nat) : index_hashtable :=
  T <| ih_lists ::= hlist_del_init_rcu e |>.

Definition set_index (T : index_hashtable) (e : nat) (index : Z) : index_hashtable :=
  T <| ih_nodes ::= alter (fun n => n <| ie_index := index |>) e |>.

(** Second locked region, for the index already written to the entry: search
    again and hash, or report that the index was taken meanwhile. *)
Definition insert_commit (T : index_hashtable) (e : nat) : index_hashtable * bool :=
  match node_index T e with
  | None => (T, false)
  | Some index =>
    if bool_decide (is_Some (find_index T index)) then (T, false)
    else (T <| ih_lists ::= hlist_add_head_rcu (index_bucket index) e |>, true)
  end.

(** The whole insertion with nobody else at the table; [rnd] are the values of
    [get_random_u32]. *)
Fixpoint insert_search (T : index_hashtable) (e : nat) (rnd : list Z) : option (index_hashtable * Z * list Z) :=
  match rnd with
  | [] => None
  | r :: rnd =>
    let index := u32 r in
    let T := set_index T e index in
    if bool_decide (is_Some (find_index T index)) then insert_search T e rnd
    else let '(T, ok) := insert_commit T e in
         if ok : bool then Some (T, index, rnd) else insert_search T e rnd
  end.

Definition wg_index_hashtable_insert (T : index_hashtable) (e : nat) (rnd : list Z) :
    option (index_hashtable * Z * list Z) :=
  insert_search (insert_unhash T e) e rnd.

Definition wg_index_hashtable_replace (T : index_hashtable) (old new : nat) : index_hashtable * bool :=
  if bool_decide (hashed (ih_lists T) old) then
    let T := set_index T new (default 0 (node_index T old)) in
    (T <| ih_lists ::= hlist_replace_rcu old new |>, true)
  else (T, false).

Definition wg_index_hashtable_remove (T : index_hashtable) (e : nat) : index_hashtable :=
  T <| ih_lists ::= hlist_del_init_rcu e |>.

(** The node, the peer with a reference taken, and [entry->peer] updated. *)
Definition wg_index_hashtable_lookup (T : index_hashtable) (refs : peer_refs) (type_mask index : Z) :
    index_hashtable * peer_refs * option (nat * nat) :=
  match find_index T index with
  | None => (T, refs, None)
  | Some e =>
    match ih_nodes T !! e with
    | None => (T, refs, None)
    | Some n =>
      if Z.land (ie_type n) type_mask =? 0 then (T, refs, None)
      else
        let '(refs, p) := wg_peer_get_maybe_zero refs (ie_peer n) in
        let T := T <| ih_nodes ::= <[e := n <| ie_peer := p |>]> |> in
        (T, refs, (fun p => (e, p)) <$> p)
    end
  end.

(** ** The public-key table *)

Class SipHash := siphash : bytes -> Z -> Z.

Record pubkey_hashtable := mk_pubkey_hashtable {
  ph_lists : hlists;
  ph_key : Z;
}.

Section Pubkey.
Context `{SipHash}.
(** The static public key of each peer ([peer->handshake.remote_static]). *)
Context (remote_static : nat -> option bytes).

Definition wg_pubkey_hashtable_alloc (key : Z) : pubkey_hashtable := mk_pubkey_hashtable ∅ key.

Definition pubkey_bucket (T : pubkey_hashtable) (pubkey : bytes) : Z :=
  Z.land (siphash pubkey (ph_key T)) (2 ^ 11 - 1).

Definition wg_pubkey_hashtable_add (T : pubkey_hashtable) (p : nat) : pubkey_hashtable :=
  match remote_static p with
  | Some k => mk_pubkey_hashtable (hlist_add_head_rcu (pubkey_bucket T k) p (ph_lists T)) (ph_key T)
  | None => T
  end.

Definition wg_pubkey_hashtable_remove (T : pubkey_hashtable) (p : nat) : pubkey_hashtable :=
  mk_pubkey_hashtable (hlist_del_init_rcu p (ph_lists T)) (ph_key T).

Definition find_pubkey (T : pubkey_hashtable) (pubkey : bytes) : option nat :=
  find (fun p => bool_decide (remote_static p = Some pubkey)) (bucket (ph_lists T) (pubkey_bucket T pubkey)).

Definition wg_pubkey_hashtable_lookup (T : pubkey_hashtable) (refs : peer_refs) (pubkey : bytes) :
    peer_refs * option nat :=
  wg_peer_get_maybe_zero refs (find_pubkey T pubkey).

End Pubkey.

(** ** Invariants *)

Record index_ok (T : index_hashtable) : Prop := {
  io_bucket b e : e ∈ bucket (ih_lists T) b → ∃ i, node_index T e = Some i ∧ b = index_bucket i ∧ fits 32 i;
  io_nodup b : NoDup (bucket (ih_lists T) b);
  io_unique e e' i : hashed (ih_lists T) e → hashed (ih_lists T) e' →
    node_index T e = Some i → node_index T e' = Some i → e = e';
}.

(** The table as a finite map from indices to nodes. *)
Definition index_maps (T : index_hashtable) (i : Z) (e : nat) : Prop :=
  hashed (ih_lists T) e ∧ node_index T e = Some i.

(** ** hlist lemmas *)

Lemma bucket_add b p T b' : bucket (hlist_add_head_rcu b p T) b' = if bool_decide (b' = b) then p :: bucket T b else bucket T b'.
Proof.
  unfold bucket at 1, hlist_add_head_rcu. case_bool_decide as E.
  - subst. by rewrite lookup_insert_eq.
  - by rewrite lookup_insert_ne.
Qed.

Lemma bucket_del p T b : bucket (hlist_del_init_rcu p T) b = filter (fun x => x ≠ p) (bucket T b).
Proof. unfold bucket, hlist_del_init_rcu. rewrite lookup_fmap. by destruct (T !! b). Qed.

Lemma bucket_replace old new T b :
  bucket (hlist_replace_rcu old new T) b = (fun x => if bool_decide (x = old) then new else x) <$> bucket T b.
Proof. unfold bucket, hlist_replace_rcu. rewrite lookup_fmap. by destruct (T !! b). Qed.

Lemma hashed_add b p T x : hashed (hlist_add_head_rcu b p T) x ↔ x = p ∨ hashed T x.
Proof.
  unfold hashed. setoid_rewrite bucket_add. split.
  - intros [b' Hx]. case_bool_decide; [subst; apply elem_of_cons in Hx as [->|Hx]|]; eauto.
  - intros [->|[b' Hx]]; [exists b; rewrite bool_decide_eq_true_2 by done; left|].
    exists b'. case_bool_decide; [subst; by right|done].
Qed.

Lemma hashed_del p T x : hashed (hlist_del_init_rcu p T) x ↔ x ≠ p ∧ hashed T x.
Proof.
  unfold hashed. setoid_rewrite bucket_del. setoid_rewrite list_elem_of_filter. naive_solver.
Qed.

Lemma hashed_replace old new T x :
  hashed T old → hashed (hlist_replace_rcu old new T) x ↔ x = new ∨ (x ≠ old ∧ hashed T x).
Proof.
  intros [bo Ho]. unfold hashed. setoid_rewrite bucket_replace. setoid_rewrite list_elem_of_fmap. split.
  - intros (b & y & -> & Hy). case_bool_decide; [by left|]. right. eauto.
  - intros [->|[Hne [b Hx]]].
    + exists bo, old. by rewrite bool_decide_eq_true_2.
    + exists b, x. by rewrite bool_decide_eq_false_2.
Qed.

(** ** The index table: what the walk finds *)

Lemma find_index_spec T i e :
  index_ok T → fits 32 i → find_index T i = Some e ↔ index_maps T i e.
Proof.
  intros [Hb Hn Hu] Hi. unfold find_index. split.
  - intros [Hin%list_elem_of_In Hd%bool_decide_eq_true]%find_some. split; [by exists (index_bucket i)|done].
  - intros [[b Hin] Hd]. destruct (Hb b e Hin) as (i' & Hi' & -> & _). simplify_eq.
    destruct (find _ (bucket _ _)) as [e'|] eqn:Ef.
    + apply find_some in Ef as [Hin'%list_elem_of_In Hd'%bool_decide_eq_true].
      f_equal. eapply Hu; [by eexists|by eexists|done|done].
    + pose proof (find_none _ _ Ef e (proj1 (list_elem_of_In _ _) Hin)) as Hno.
      cbn beta in Hno. by rewrite bool_decide_eq_true_2 in Hno.
Qed.

Lemma find_index_None T i :
  index_ok T → fits 32 i → find_index T i = None ↔ ∀ e, ¬ index_maps T i e.
Proof.
  intros Hok Hi. split.
  - intros Hn e He. apply find_index_spec in He; [congruence|done|done].
  - intros Hn. destruct (find_index T i) as [e|] eqn:E; [|done].
    apply find_index_spec in E; [by apply Hn in E|done|done].
Qed.

(** ** Preservation *)

Lemma index_ok_del T e : index_ok T → index_ok (T <| ih_lists ::= hlist_del_init_rcu e |>).
Proof.
  intros [Hb Hn Hu]. split; cbn.
  - intros b x. rewrite bucket_del, list_elem_of_filter. intros [_ Hx]. exact (Hb b x Hx).
  - intros b. rewrite bucket_del. apply NoDup_filter, Hn.
  - intros x y i Hx%hashed_del Hy%hashed_del. destruct Hx, Hy. by apply Hu.
Qed.

Lemma node_index_set T e i x :
  node_index (set_index T e i) x =
    if bool_decide (x = e) then (fun _ => i) <$> node_index T e else node_index T x.
Proof.
  unfold node_index, set_index. cbn. case_bool_decide as E.
  - subst. rewrite lookup_alter_eq. by destruct (ih_nodes T !! e).
  - by rewrite lookup_alter_ne.
Qed.

(** Writing the index of a node that is not hashed. *)
Lemma index_ok_set T e i : index_ok T → ¬ hashed (ih_lists T) e → index_ok (set_index T e i).
Proof.
  intros [Hb Hn Hu] He.
  assert (∀ x, hashed (ih_lists T) x → node_index (set_index T e i) x = node_index T x) as Hsame.
  { intros x Hx. rewrite node_index_set, bool_decide_eq_false_2; [done|]. by intros ->. }
  split; cbn.
  - intros b x Hx. rewrite Hsame by (by exists b). exact (Hb b x Hx).
  - done.
  - intros x y j Hx Hy. rewrite !Hsame by done. by apply Hu.
Qed.

Lemma insert_commit_ok T e :
  index_ok T → ¬ hashed (ih_lists T) e → (∀ i, node_index T e = Some i → fits 32 i) →
  index_ok (insert_commit T e).1 ∧
  ((insert_commit T e).2 = true → ∃ i, node_index T e = Some i ∧ index_maps (insert_commit T e).1 i e).
Proof.
  intros Hok He Hf. unfold insert_commit. destruct (node_index T e) as [i|] eqn:Ei; [|done].
  specialize (Hf i eq_refl). case_bool_decide as Efound; [done|].
  assert (∀ x, ¬ index_maps T i x) as Hfree.
  { apply find_index_None; [done|done|]. destruct (find_index T i); [|done]. destruct Efound. eauto. }
  destruct Hok as [Hb Hn Hu]. cbn. split; [split; cbn|].
  - intros b x. rewrite bucket_add. case_bool_decide; [|apply Hb]. subst b.
    intros [->|Hx]%elem_of_cons; [by exists i|by apply Hb].
  - intros b. rewrite bucket_add. case_bool_decide; [|apply Hn]. subst b. apply NoDup_cons.
    split; [|apply Hn]. intros Hx. apply He. by exists (index_bucket i).
  - intros x y j Hx%hashed_add Hy%hashed_add Hxj Hyj.
    change (node_index T x = Some j) in Hxj. change (node_index T y = Some j) in Hyj.
    destruct Hx as [->|Hx], Hy as [->|Hy]; [done| | |by eapply Hu].
    + destruct (Hfree y). split; [done|congruence].
    + destruct (Hfree x). split; [done|congruence].
  - intros _. exists i. split; [done|]. split; [|done]. cbn. apply hashed_add. by left.
Qed.

Lemma index_ok_replace T old new :
  index_ok T → ¬ hashed (ih_lists T) new → is_Some (ih_nodes T !! new) →
  index_ok (wg_index_hashtable_replace T old new).1.
Proof.
  intros Hok Hnew [n Hnn]. unfold wg_index_hashtable_replace. case_bool_decide as Hold; [|done]. cbn.
  destruct Hok as [Hb Hn Hu]. destruct Hold as [bo Hbo]. destruct (Hb bo old Hbo) as (io & Hio & Ebo & Hfo).
  assert (hashed (ih_lists T) old) as Hold by by exists bo.
  rewrite Hio. cbn [default from_option id].
  assert (node_index T new = Some (ie_index n)) as Hni by (unfold node_index; by rewrite Hnn).
  assert (∀ x, node_index (set_index T new io) x = if bool_decide (x = new) then Some io else node_index T x) as Hx.
  { intros x. rewrite node_index_set, Hni. done. }
  split; cbn.
  - intros b x. rewrite bucket_replace. intros (y & -> & Hy)%list_elem_of_fmap.
    change (∃ i, node_index (set_index T new io) (if bool_decide (y = old) then new else y) = Some i ∧
      b = index_bucket i ∧ fits 32 i).
    destruct (decide (y = old)) as [->|Ey].
    + rewrite bool_decide_eq_true_2, Hx, bool_decide_eq_true_2 by done.
      destruct (Hb b old Hy) as (j & Hj & -> & ?). exists io. split; [done|]. split; [congruence|done].
    + rewrite (bool_decide_eq_false_2 (y = old)), Hx by done.
      rewrite bool_decide_eq_false_2; [by apply Hb|]. intros ->. apply Hnew. by exists b.
  - intros b. rewrite bucket_replace. apply NoDup_fmap_2_strong; [|apply Hn].
    intros x y Hx1 Hy1. do 2 case_bool_decide; try congruence.
    + intros ->. destruct Hnew. by exists b.
    + intros ->. destruct Hnew. by exists b.
  - intros x y j. rewrite !hashed_replace by done.
    intros Hhx Hhy. change (node_index (set_index T new io) x = Some j → node_index (set_index T new io) y = Some j → x = y).
    rewrite !Hx. destruct Hhx as [->|[Hxo Hhx]], Hhy as [->|[Hyo Hhy]]; try done.
    + rewrite bool_decide_eq_true_2 by done. case_bool_decide; [done|]. intros [= <-] Hyj.
      destruct Hyo. by eapply Hu.
    + rewrite (bool_decide_eq_true_2 (new = new)) by done. case_bool_decide; [done|]. intros Hxj [= <-].
      destruct Hxo. by eapply Hu.
    + rewrite !bool_decide_eq_false_2 by (by intros ->). by apply Hu.
Qed.

(** ** Interleaved regions *)

(** The steps of any number of threads: allocation and freeing of nodes, and the
    locked regions; between the two regions of an insertion the index is written
    to the node, which its owner has unhashed. *)
Inductive index_step (T : index_hashtable) : index_hashtable -> Prop :=
  | is_alloc e n : ih_nodes T !! e = None → fits 32 (ie_index n) →
      index_step T (T <| ih_nodes ::= <[e := n]> |>)
  | is_free e : ¬ hashed (ih_lists T) e → index_step T (T <| ih_nodes ::= delete e |>)
  | is_unhash e : index_step T (insert_unhash T e)
  | is_pick e r : ¬ hashed (ih_lists T) e → index_step T (set_index T e (u32 r))
  | is_commit e : ¬ hashed (ih_lists T) e → index_step T (insert_commit T e).1
  | is_replace old new : ¬ hashed (ih_lists T) new → is_Some (ih_nodes T !! new) →
      index_step T (wg_index_hashtable_replace T old new).1
  | is_remove e : index_step T (wg_index_hashtable_remove T e)
  | is_lookup refs mask i : index_step T (wg_index_hashtable_lookup T refs mask i).1.1.

Inductive index_reachable : index_hashtable -> Prop :=
  | ir_alloc : index_reachable wg_index_hashtable_alloc
  | ir_step T T' : index_reachable T → index_step T T' → index_reachable T'.

Definition nodes_fit (T : index_hashtable) : Prop :=
  ∀ e i, node_index T e = Some i → fits 32 i.

(** Changing nodes without changing the index of a hashed one. *)
Lemma index_ok_nodes T T' :
  index_ok T → ih_lists T' = ih_lists T →
  (∀ e, hashed (ih_lists T) e → node_index T' e = node_index T e) → index_ok T'.
Proof.
  intros [Hb Hn Hu] Hl Hs. split; rewrite Hl; [|done|].
  - intros b e He. rewrite Hs by (by exists b). by apply Hb.
  - intros e e' i He He'. rewrite !Hs by done. by apply Hu.
Qed.

Lemma index_ok_node T e : index_ok T → hashed (ih_lists T) e → is_Some (ih_nodes T !! e).
Proof.
  intros Hok [b He]. destruct (io_bucket _ Hok b e He) as (i & Hi & _). unfold node_index in Hi.
  destruct (ih_nodes T !! e); [eauto|done].
Qed.

Lemma lookup_nodes T refs mask i x :
  node_index (wg_index_hashtable_lookup T refs mask i).1.1 x = node_index T x.
Proof.
  unfold wg_index_hashtable_lookup. destruct (find_index T i) as [e|]; [|done].
  destruct (ih_nodes T !! e) as [n|] eqn:En; [|done]. destruct (_ =? 0); [done|].
  destruct (wg_peer_get_maybe_zero refs (ie_peer n)) as [refs' p]. cbn. unfold node_index. cbn.
  destruct (decide (e = x)) as [->|Hne]; [rewrite lookup_insert_eq, En; done|by rewrite lookup_insert_ne].
Qed.

Lemma lookup_lists T refs mask i :
  ih_lists (wg_index_hashtable_lookup T refs mask i).1.1 = ih_lists T.
Proof.
  unfold wg_index_hashtable_lookup. repeat case_match; simplify_eq; done.
Qed.

Lemma index_step_ok T T' : index_ok T ∧ nodes_fit T → index_step T T' → index_ok T' ∧ nodes_fit T'.
Proof.
  intros [Hok Hf] Hs. destruct Hs as [e n Hn Hi|e He|e|e r He|e He|old new Hnew Hsome|e|refs mask i].
  - split.
    + eapply index_ok_nodes; [exact Hok|done|]. intros x Hx. unfold node_index. cbn.
      rewrite lookup_insert_ne; [done|]. intros <-. destruct (index_ok_node T e Hok Hx). congruence.
    + intros x i. unfold node_index. cbn. destruct (decide (e = x)) as [->|Hne].
      * rewrite lookup_insert_eq. by intros [= <-].
      * rewrite lookup_insert_ne by done. apply Hf.
  - split.
    + eapply index_ok_nodes; [exact Hok|done|]. intros x Hx. unfold node_index. cbn.
      rewrite lookup_delete_ne; [done|congruence].
    + intros x i. unfold node_index. cbn. destruct (decide (e = x)) as [->|Hne].
      * by rewrite lookup_delete_eq.
      * rewrite lookup_delete_ne by done. apply Hf.
  - split; [by apply index_ok_del|exact Hf].
  - split; [by apply index_ok_set|]. intros x i. rewrite node_index_set. case_bool_decide; [|apply Hf].
    destruct (node_index T e); [|done]. intros [= <-]. apply wrap_fits. lia.
  - split; [by apply insert_commit_ok; [| |apply Hf]|]. unfold insert_commit.
    destruct (node_index T e) as [i|]; [|done]. by case_match.
  - split; [by apply index_ok_replace|]. unfold wg_index_hashtable_replace. case_bool_decide; [|done].
    intros x i. change (node_index (set_index T new (default 0 (node_index T old))) x = Some i → fits 32 i).
    rewrite node_index_set. case_bool_decide; [|apply Hf].
    destruct (node_index T new); [|done]. intros [= <-].
    destruct (node_index T old) as [j|] eqn:Ej; [by apply (Hf old)|]. unfold fits. cbn. lia.
  - split; [by apply index_ok_del|exact Hf].
  - split.
    + eapply index_ok_nodes; [exact Hok|apply lookup_lists|]. intros x _. apply lookup_nodes.
    + intros x j. rewrite lookup_nodes. apply Hf.
Qed.

Lemma index_reachable_ok T : index_reachable T → index_ok T ∧ nodes_fit T.
Proof.
  induction 1 as [|T T' _ IH Hs]; [|by eapply index_step_ok].
  split; [|intros e i; unfold node_index; by cbn].
  assert (∀ b, bucket ∅ b = []) as Hb by done.
  split; cbn.
  - intros b e He. rewrite Hb in He. by apply not_elem_of_nil in He.
  - intros b. rewrite Hb. constructor.
  - intros e e' i [b He]. rewrite Hb in He. by apply not_elem_of_nil in He.
Qed.

(** ** Theorems *)

(** Whatever threads insert, replace, remove, look up, allocate and free in
    whatever order of their locked regions, no two hashed entries carry the same
    index and every hashed entry is in the bucket of its index. *)
Theorem index_table_invariant T :
  index_reachable T →
  (∀ e e' i, index_maps T i e → index_maps T i e' → e = e') ∧
  (∀ b e, e ∈ bucket (ih_lists T) b → ∃ i, node_index T e = Some i ∧ b = index_bucket i) ∧
  (∀ b, NoDup (bucket (ih_lists T) b)).
Proof.
  intros Hr. destruct (index_reachable_ok T Hr) as [[Hb Hn Hu] _]. split_and!; [|naive_solver|done].
  intros e e' i [H1 H2] [H3 H4]. by eapply Hu.
Qed.

(** The lookup returns exactly the entry hashed under the index, if its type
    is asked for and its peer is alive, with one reference taken on the peer,
    and otherwise NULL with no count changed. *)
Theorem index_lookup_spec T refs mask i :
  index_reachable T → fits 32 i →
  let '(_, refs', r) := wg_index_hashtable_lookup T refs mask i in
  let hit e p := ∃ n, index_maps T i e ∧ ih_nodes T !! e = Some n ∧ Z.land (ie_type n) mask ≠ 0 ∧
                      ie_peer n = Some p ∧ default 0 (refs !! p) ≠ 0 in
  match r with
  | Some (e, p) => hit e p ∧ refs' = <[p := default 0 (refs !! p) + 1]> refs
  | None => (∀ e p, ¬ hit e p) ∧ refs' = refs
  end.
Proof.
  intros Hr Hi. destruct (index_reachable_ok T Hr) as [Hok _]. unfold wg_index_hashtable_lookup.
  destruct (find_index T i) as [e|] eqn:Ef.
  - pose proof (proj1 (find_index_spec T i e Hok Hi) Ef) as Hm.
    destruct (index_ok_node T e Hok (proj1 Hm)) as [n Hn]. rewrite Hn.
    assert (∀ e' p', (∃ n', index_maps T i e' ∧ ih_nodes T !! e' = Some n' ∧ Z.land (ie_type n') mask ≠ 0 ∧
      ie_peer n' = Some p' ∧ default 0 (refs !! p') ≠ 0) → e' = e ∧ Z.land (ie_type n) mask ≠ 0 ∧
      ie_peer n = Some p' ∧ default 0 (refs !! p') ≠ 0) as Hhit.
    { intros e' p' (n' & Hm' & Hn' & ? & ? & ?). destruct Hm as [Hm1 Hm2], Hm' as [Hm1' Hm2'].
      assert (e' = e) as -> by by eapply (io_unique _ Hok). simplify_eq. done. }
    destruct (Z.eqb_spec (Z.land (ie_type n) mask) 0) as [Et|Et]; [naive_solver|].
    unfold wg_peer_get_maybe_zero. destruct (ie_peer n) as [p|] eqn:Ep; [|cbn; naive_solver].
    destruct (Z.eqb_spec (default 0 (refs !! p)) 0) as [Er|Er]; cbn; [naive_solver|].
    split; [|done]. exists n. done.
  - split; [|done]. intros e p (n & Hm & _). by apply (proj1 (find_index_None T i Hok Hi) Ef e).
Qed.

(** An index is in use by an entry other than [e]. *)
Definition in_use (T : index_hashtable) (e : nat) (i : Z) : Prop := ∃ x, x ≠ e ∧ index_maps T i x.

Lemma index_maps_del T e i x :
  index_maps (insert_unhash T e) i x ↔ x ≠ e ∧ index_maps T i x.
Proof. unfold index_maps. cbn. rewrite hashed_del. change (node_index (insert_unhash T e) x) with (node_index T x). tauto. Qed.

(** The search over a table that does not hold the entry. *)
Lemma insert_search_spec T e rnd :
  index_ok T → is_Some (ih_nodes T !! e) → ¬ hashed (ih_lists T) e →
  match insert_search T e rnd with
  | None => Forall (fun r => ∃ x, index_maps T (u32 r) x) rnd
  | Some (T', i, rest) =>
    ∃ used r, rnd = used ++ r :: rest ∧ i = u32 r ∧
      Forall (fun r => ∃ x, index_maps T (u32 r) x) used ∧ (∀ x, ¬ index_maps T i x) ∧
      index_ok T' ∧ ∀ j x, index_maps T' j x ↔ (x = e ∧ j = i) ∨ (x ≠ e ∧ index_maps T j x)
  end.
Proof.
  revert T. induction rnd as [|r rnd IH]; intros T Hok [n Hn] He; cbn; [by constructor|].
  set (T1 := set_index T e (u32 r)).
  assert (fits 32 (u32 r)) as Hf by (apply wrap_fits; lia).
  assert (index_ok T1) as Hok1 by by apply index_ok_set.
  assert (∀ j x, x ≠ e → index_maps T1 j x ↔ index_maps T j x) as Hsame.
  { intros j x Hx. unfold index_maps. change (ih_lists T1) with (ih_lists T). unfold T1.
    by rewrite node_index_set, bool_decide_eq_false_2. }
  assert (∀ j x, index_maps T1 j x ↔ index_maps T j x) as Hmaps.
  { intros j x. destruct (decide (x = e)) as [->|Hx]; [|by apply Hsame].
    split; intros [Hh _]; by destruct He. }
  assert (node_index T1 e = Some (u32 r)) as Hne.
  { unfold T1. rewrite node_index_set, bool_decide_eq_true_2 by done. unfold node_index. by rewrite Hn. }
  case_bool_decide as Efound.
  - destruct Efound as [x Hx%find_index_spec]; [|done|done]. apply Hmaps in Hx.
    specialize (IH T1 Hok1). destruct (insert_search T1 e rnd) as [[[T' i] rest]|].
    + destruct IH as (used & r' & -> & -> & Hu & Hfree & Hok' & Hm').
      { unfold T1, set_index. cbn. rewrite lookup_alter_eq, Hn. eauto. } { exact He. }
      exists (r :: used), r'. split_and!; try done.
      * constructor; [eauto|]. eapply Forall_impl; [exact Hu|]. intros z [y Hy%Hmaps]. eauto.
      * intros y Hy%Hmaps. by apply (Hfree y).
      * intros j y. rewrite Hm', Hmaps. done.
    + constructor; [eauto|]. eapply Forall_impl; [apply IH|].
      { unfold T1, set_index. cbn. rewrite lookup_alter_eq, Hn. eauto. } { exact He. }
      intros z [y Hy%Hmaps]. eauto.
  - assert (∀ x, ¬ index_maps T (u32 r) x) as Hfree.
    { intros x Hx%Hmaps. apply Efound. apply find_index_spec in Hx; [|done|done]. eauto. }
    pose proof (insert_commit_ok T1 e Hok1 He ltac:(intros i Hi; congruence)) as [Hc _].
    unfold insert_commit in *. rewrite Hne in *. rewrite bool_decide_eq_false_2 in * by done.
    exists [], r. split_and!; try done. intros j x.
    change (hashed (hlist_add_head_rcu (index_bucket (u32 r)) e (ih_lists T1)) x ∧ node_index T1 x = Some j ↔
      x = e ∧ j = u32 r ∨ x ≠ e ∧ index_maps T j x).
    rewrite hashed_add. destruct (decide (x = e)) as [->|Hx].
    + rewrite Hne. split; [intros [_ [= <-]]; by left|]. intros [[_ ->]|[? _]]; [auto|done].
    + rewrite <- (Hsame j x Hx). unfold index_maps. tauto.
Qed.

(** An insertion takes the first random value that is not in use and gives the
    entry that index and no other; entries other than it keep theirs; it goes on
    exactly as long as the values drawn are in use. *)
Theorem index_insert_spec T e rnd :
  index_reachable T → is_Some (ih_nodes T !! e) →
  match wg_index_hashtable_insert T e rnd with
  | None => Forall (fun r => in_use T e (u32 r)) rnd
  | Some (T', i, rest) =>
    ∃ used r, rnd = used ++ r :: rest ∧ i = u32 r ∧
      Forall (fun r => in_use T e (u32 r)) used ∧ ¬ in_use T e i ∧
      ∀ j x, index_maps T' j x ↔ (x = e ∧ j = i) ∨ (x ≠ e ∧ index_maps T j x)
  end.
Proof.
  intros Hr Hn. destruct (index_reachable_ok T Hr) as [Hok _]. unfold wg_index_hashtable_insert.
  pose proof (insert_search_spec (insert_unhash T e) e rnd (index_ok_del _ _ Hok) Hn) as Hs.
  assert (¬ hashed (ih_lists (insert_unhash T e)) e) as He by (cbn; rewrite hashed_del; naive_solver).
  specialize (Hs He).
  assert (∀ i, (∃ x, index_maps (insert_unhash T e) i x) ↔ in_use T e i) as Hu.
  { intros i. unfold in_use. setoid_rewrite index_maps_del. done. }
  destruct (insert_search (insert_unhash T e) e rnd) as [[[T' i] rest]|].
  - destruct Hs as (used & r & -> & -> & Hused & Hfree & _ & Hm). exists used, r. split_and!; try done.
    + eapply Forall_impl; [exact Hused|]. intros z. apply Hu.
    + intros [x Hx]%Hu. by apply (Hfree x).
    + intros j x. rewrite Hm, index_maps_del. naive_solver.
  - eapply Forall_impl; [exact Hs|]. intros z. apply Hu.
Qed.

Lemma replace_maps T old new :
  index_ok T → is_Some (ih_nodes T !! new) → ¬ hashed (ih_lists T) new →
  let '(T', ret) := wg_index_hashtable_replace T old new in
  (ret = true ↔ hashed (ih_lists T) old) ∧
  (∀ j x, index_maps T' j x ↔
     if ret then (x = new ∧ index_maps T j old) ∨ (x ≠ old ∧ index_maps T j x) else index_maps T j x).
Proof.
  intros Hok Hn Hnew. unfold wg_index_hashtable_replace.
  case_bool_decide as Hold; [|split; [split; [done|by intros ?%Hold]|done]].
  split; [done|]. intros j x. destruct (index_ok_node T old Hok Hold) as [no Hno].
  assert (node_index T old = Some (ie_index no)) as Eold by (unfold node_index; by rewrite Hno).
  rewrite Eold. cbn [default from_option id].
  change (hashed (hlist_replace_rcu old new (ih_lists T)) x ∧
    node_index (set_index T new (ie_index no)) x = Some j ↔
    x = new ∧ index_maps T j old ∨ x ≠ old ∧ index_maps T j x).
  rewrite hashed_replace, node_index_set by done. unfold index_maps. rewrite Eold.
  assert (is_Some (node_index T new)) as [y Hy] by (destruct Hn as [n Hn]; unfold node_index; rewrite Hn; eauto).
  case_bool_decide as Ex.
  - subst x. rewrite Hy. cbn. split; [intros [_ [= <-]]; by left|].
    intros [(_ & _ & [= <-])|[_ [? _]]]; [auto|done].
  - naive_solver.
Qed.

(** The replacement moves the index of a hashed entry to the new entry in one
    step and unhashes the old one; of an unhashed entry it does nothing. *)
Theorem index_replace_spec T old new :
  index_reachable T → is_Some (ih_nodes T !! new) → ¬ hashed (ih_lists T) new →
  let '(T', ret) := wg_index_hashtable_replace T old new in
  (ret = true ↔ hashed (ih_lists T) old) ∧
  (∀ j x, index_maps T' j x ↔
     if ret then (x = new ∧ index_maps T j old) ∨ (x ≠ old ∧ index_maps T j x) else index_maps T j x).
Proof. intros Hr. apply replace_maps. by apply index_reachable_ok. Qed.

(** ** The public-key table *)

Section PubkeyProofs.
Context `{SipHash} (remote_static : nat -> option bytes).

(** Adding a peer whose key is new and removing a peer, as the device does under
    its update lock. *)
Inductive pubkey_reachable : pubkey_hashtable -> (bytes -> option nat) -> Prop :=
  | pr_alloc key : pubkey_reachable (wg_pubkey_hashtable_alloc key) (fun _ => None)
  | pr_add T m p k : pubkey_reachable T m → remote_static p = Some k → m k = None →
      pubkey_reachable (wg_pubkey_hashtable_add remote_static T p)
        (fun k' => if bool_decide (k' = k) then Some p else m k')
  | pr_remove T m p k : pubkey_reachable T m → remote_static p = Some k →
      pubkey_reachable (wg_pubkey_hashtable_remove T p)
        (fun k' => if bool_decide (m k' = Some p) then None else m k').

Definition pubkey_ok (T : pubkey_hashtable) (m : bytes -> option nat) : Prop :=
  (∀ p, hashed (ph_lists T) p ↔ ∃ k, m k = Some p) ∧
  (∀ b p, p ∈ bucket (ph_lists T) b → ∃ k, remote_static p = Some k ∧ b = pubkey_bucket T k ∧ m k = Some p) ∧
  (∀ k p, m k = Some p → remote_static p = Some k).

Lemma pubkey_reachable_ok T m : pubkey_reachable T m → pubkey_ok T m.
Proof.
  induction 1 as [key|T m p k _ (Hh & Hb & Hm) Hk Hnew|T m p k _ (Hh & Hb & Hm) Hk].
  - assert (∀ b, bucket (∅ : hlists) b = []) as He by done. split_and!; cbn.
    + intros p. split; [intros [b Hb]; rewrite He in Hb; by apply not_elem_of_nil in Hb|by intros [k ?]].
    + intros b p Hb. rewrite He in Hb. by apply not_elem_of_nil in Hb.
    + done.
  - unfold wg_pubkey_hashtable_add. rewrite Hk. split_and!; cbn.
    + intros x. rewrite hashed_add, Hh. split.
      * intros [->|[k' Hk']]; [exists k; by rewrite bool_decide_eq_true_2|].
        exists k'. rewrite bool_decide_eq_false_2 by congruence. done.
      * intros [k' Hk']. case_bool_decide; [left; congruence|right; eauto].
    + intros b x. rewrite bucket_add. case_bool_decide as Eb.
      * intros [->|Hx]%elem_of_cons; [exists k; subst b; by rewrite bool_decide_eq_true_2|].
        destruct (Hb _ _ Hx) as (k' & H1 & H2 & H3). exists k'.
        rewrite bool_decide_eq_false_2 by congruence. subst b. done.
      * intros Hx. destruct (Hb _ _ Hx) as (k' & H1 & H2 & H3). exists k'.
        rewrite bool_decide_eq_false_2 by congruence. done.
    + intros k' x. case_bool_decide; [congruence|apply Hm].
  - split_and!; cbn.
    + intros x. rewrite hashed_del, Hh. split.
      * intros [Hne [k' Hk']]. exists k'. rewrite bool_decide_eq_false_2 by congruence. done.
      * intros [k' Hk']. case_bool_decide; [done|]. split; [congruence|eauto].
    + intros b x. rewrite bucket_del, list_elem_of_filter. intros [Hne Hx].
      destruct (Hb _ _ Hx) as (k' & H1 & H2 & H3). exists k'.
      rewrite bool_decide_eq_false_2 by congruence. done.
    + intros k' x. case_bool_decide; [done|apply Hm].
Qed.

(** The public-key table is a finite map: after any additions and removals a
    lookup finds the peer last added under the key and takes a reference on it,
    or returns NULL when there is none or its count has reached zero. *)
Theorem pubkey_lookup_spec T m refs k :
  pubkey_reachable T m →
  wg_pubkey_hashtable_lookup remote_static T refs k = wg_peer_get_maybe_zero refs (m k).
Proof.
  intros Hr. destruct (pubkey_reachable_ok T m Hr) as (Hh & Hb & Hm).
  unfold wg_pubkey_hashtable_lookup. f_equal. unfold find_pubkey.
  destruct (find _ _) as [p|] eqn:Ef.
  - apply find_some in Ef as [Hin%list_elem_of_In Hd%bool_decide_eq_true].
    destruct (Hb _ _ Hin) as (k' & H1 & _ & H3). congruence.
  - destruct (m k) as [p|] eqn:Ek; [|done]. exfalso.
    destruct (proj2 (Hh p) (ex_intro _ k Ek)) as [b Hp]. destruct (Hb _ _ Hp) as (k' & H1 & -> & H3).
    rewrite (Hm _ _ Ek) in H1. simplify_eq.
    pose proof (find_none _ _ Ef p (proj1 (list_elem_of_In _ _) Hp)) as Hno. cbn beta in Hno.
    rewrite bool_decide_eq_true_2 in Hno; [done|]. by apply Hm.
Qed.

End PubkeyProofs.

(** ** Witnesses *)

(** Nodes 5 (hashed under 77, keypair of peer 1) and 6 (not hashed). *)
Definition two_nodes : index_hashtable :=
  wg_index_hashtable_alloc <| ih_nodes ::= <[5%nat := mk_index_entry (Some 1%nat) 2 0]> |>
    <| ih_nodes ::= <[6%nat := mk_index_entry (Some 1%nat) 2 0]> |>.
Definition one_hashed : index_hashtable := (insert_commit (set_index two_nodes 5 (u32 77)) 5).1.

Lemma two_nodes_unhashed e : ¬ hashed (ih_lists two_nodes) e.
Proof. intros [b Hb]. by apply not_elem_of_nil in Hb. Qed.

Lemma one_hashed_reachable : index_reachable one_hashed.
Proof.
  assert (index_reachable two_nodes) as H2.
  { eapply ir_step; [eapply ir_step; [apply ir_alloc|]|].
    - apply (is_alloc _ 5 (mk_index_entry (Some 1%nat) 2 0)); [done|unfold fits; cbn; lia].
    - apply (is_alloc _ 6 (mk_index_entry (Some 1%nat) 2 0)); [done|unfold fits; cbn; lia]. }
  eapply ir_step; [eapply ir_step; [exact H2|apply (is_pick _ 5 77), two_nodes_unhashed]|].
  apply (is_commit _ 5). apply two_nodes_unhashed.
Qed.

Lemma one_hashed_6 : ¬ hashed (ih_lists one_hashed) 6.
Proof.
  change (ih_lists one_hashed) with (hlist_add_head_rcu (index_bucket (u32 77)) 5 (ih_lists two_nodes)).
  rewrite hashed_add. intros [?|Hx]; [done|by apply two_nodes_unhashed in Hx].
Qed.

Lemma index_table_invariant_witness :
  index_reachable one_hashed ∧ NoDup (bucket (ih_lists one_hashed) 77).
Proof.
  split; [exact one_hashed_reachable|].
  destruct (index_table_invariant one_hashed one_hashed_reachable) as (_ & _ & Hn). apply Hn.
Defined.

Lemma index_lookup_spec_witness :
  wg_index_hashtable_lookup one_hashed {[1%nat := 1]} INDEX_HASHTABLE_KEYPAIR 77 =
    (one_hashed <| ih_nodes ::= <[5%nat := mk_index_entry (Some 1%nat) 2 77]> |>,
     <[1%nat := 2]> {[1%nat := 1]}, Some (5, 1)%nat) ∧
  index_maps one_hashed 77 5.
Proof.
  split; [vm_compute; reflexivity|].
  pose proof (index_lookup_spec one_hashed {[1%nat := 1]} INDEX_HASHTABLE_KEYPAIR 77
    one_hashed_reachable ltac:(unfold fits; lia)) as Hs.
  assert ((wg_index_hashtable_lookup one_hashed {[1%nat := 1]} INDEX_HASHTABLE_KEYPAIR 77).2 =
    Some (5, 1)%nat) as E by (vm_compute; reflexivity).
  destruct (wg_index_hashtable_lookup one_hashed {[1%nat := 1]} INDEX_HASHTABLE_KEYPAIR 77) as [[T' r'] r].
  cbn [snd] in E. subst r. destruct Hs as [(n & Hm & _) _]. exact Hm.
Defined.

(** The first value drawn is in use by node 5, the second is free. *)
Lemma index_insert_spec_witness :
  ∃ T' rest, wg_index_hashtable_insert one_hashed 6 [77; 78] = Some (T', 78, rest) ∧ index_maps T' 78 6.
Proof.
  assert (is_Some (ih_nodes one_hashed !! 6%nat)) as Hn by (vm_compute; eauto).
  pose proof (index_insert_spec one_hashed 6 [77; 78] one_hashed_reachable Hn) as Hs.
  assert ((fun x => x.1.2) <$> wg_index_hashtable_insert one_hashed 6 [77; 78] = Some 78) as E
    by (vm_compute; reflexivity).
  destruct (wg_index_hashtable_insert one_hashed 6 [77; 78]) as [[[T' i] rest]|]; [|discriminate E].
  cbn in E. injection E as ->. exists T', rest. split; [reflexivity|].
  destruct Hs as (used & r & _ & _ & _ & _ & Hm). apply Hm. left. split; reflexivity.
Defined.

Lemma index_replace_spec_witness :
  (wg_index_hashtable_replace one_hashed 5 6).2 = true ∧
  index_maps (wg_index_hashtable_replace one_hashed 5 6).1 77 6.
Proof.
  assert (is_Some (ih_nodes one_hashed !! 6%nat)) as Hn by (vm_compute; eauto).
  pose proof (index_replace_spec one_hashed 5 6 one_hashed_reachable Hn one_hashed_6) as Hs.
  assert (index_maps one_hashed 77 5) as Hm.
  { split; [|vm_compute; reflexivity]. exists (index_bucket (u32 77)). vm_compute. left. }
  destruct (wg_index_hashtable_replace one_hashed 5 6) as [T' ret]. destruct Hs as [Hret Hs].
  assert (ret = true) as -> by (apply Hret; exact (proj1 Hm)).
  split; [reflexivity|]. apply Hs. left. split; [reflexivity|exact Hm].
Defined.

Lemma pubkey_lookup_spec_witness :
  let H : SipHash := fun k key => le_combine k + key in
  let keys := fun p : nat => match p with 3%nat => Some [1; 2] | 4%nat => Some [9; 9] | _ => None end in
  let T := wg_pubkey_hashtable_add keys (wg_pubkey_hashtable_add keys (wg_pubkey_hashtable_alloc 0) 3) 4 in
  (wg_pubkey_hashtable_lookup keys T {[3%nat := 1]} [1; 2]).2 = Some 3%nat.
Proof.
  intros H keys T.
  rewrite (pubkey_lookup_spec keys T _ {[3%nat := 1]} [1; 2]
    (pr_add keys _ _ 4 [9; 9] (pr_add keys _ _ 3 [1; 2] (pr_alloc keys 0) eq_refl eq_refl) eq_refl eq_refl)).
  vm_compute. reflexivity.
Defined.
