(* ===== verification/AllowedIPs.v ===== *)
(** * The allowed-IPs trie: data and operations (allowedips.c)

    Cryptokey routing: a radix trie per address family maps prefixes to peers.
    The model is the C heap: nodes by address, each with two child pointers and
    the packed address of the slot that points at it, the two roots, and each
    peer's list of nodes.  A function returns [None] where the C code would
    follow a dangling pointer, read outside a key or not return; the theorems of
    AllowedIPsProofs.v show that this does not happen and that the trie is a map
    from prefixes to peers with longest-prefix lookup.

    Keys are the 4 or 16 bytes the C code keeps after [swap_endian] on a
    little-endian machine. *)
From S2P Require Import Prelude PeerLookup.

Definition MAX_ALLOWEDIPS_DEPTH : nat := 129.

(** The address of a pointer to a node: a root, or a child pointer of a node. *)
Inductive slot := S_root (v6 : bool) | S_bit (p : nat) (b : bool).
#[global] Instance slot_eq : EqDecision slot.
Proof. solve_decision. Defined.

(** [parent_bit_packed] is the slot with, in its two low bits, the child's side
    or 2 for a root. *)
Record allowedips_node := mk_node {
  peer : option nat;
  bit0 : option nat;
  bit1 : option nat;
  cidr : Z;
  bit_at_a : Z;
  bit_at_b : Z;
  bitlen : Z;
  bits : bytes;
  parent_slot : slot;
  parent_low : Z;
}.

#[export] Instance settable_node : Settable allowedips_node := fun n =>
  mk_node (peer n) (bit0 n) (bit1 n) (cidr n) (bit_at_a n) (bit_at_b n) (bitlen n) (bits n)
    (parent_slot n) (parent_low n).

(** [peer_lists] are the peers' [allowedips_list]s of nodes. *)
Record allowedips := mk_allowedips {
  root4 : option nat;
  root6 : option nat;
  seq : Z;
  nodes : gmap nat allowedips_node;
  peer_lists : gmap nat (list nat);
}.

#[export] Instance settable_allowedips : Settable allowedips := fun t =>
  mk_allowedips (root4 t) (root6 t) (seq t) (nodes t) (peer_lists t).

Definition width (v6 : bool) : Z := if v6 then 128 else 32.

(** ** Keys *)

(** [src] is an address in network byte order. *)
Definition swap_endian (src : bytes) (bits : Z) : bytes :=
  if bits =? 32 then reverse (take 4 src)
  else if bits =? 128 then reverse (slice 0 8 src) ++ reverse (slice 8 8 src)
  else [].

Definition fls (x : Z) : Z := if x =? 0 then 0 else Z.log2 x + 1.
Definition fls64 (x : Z) : Z := fls x.
Definition fls128 (a b : Z) : Z := if negb (a =? 0) then fls64 a + 64 else fls64 b.

Definition read_u32 (key : bytes) (off : nat) : Z := le_combine (slice off 4 key).
Definition read_u64 (key : bytes) (off : nat) : Z := le_combine (slice off 8 key).

Definition copy_and_assign_cidr (n : allowedips_node) (src : bytes) (c bits' : Z) : allowedips_node :=
  n <| cidr := c |> <| bit_at_a := Z.lxor (c / 8) ((bits' / 8 - 1) mod 8) |>
    <| bit_at_b := 7 - c mod 8 |> <| bitlen := bits' |>
    <| bits := take (Z.to_nat (bits' / 8)) src |>.

(** [None]: the byte is outside the key. *)
Definition choose (n : allowedips_node) (key : bytes) : option bool :=
  b ← key !! Z.to_nat (bit_at_a n);
  Some (negb (Z.land (Z.shiftr b (bit_at_b n)) 1 =? 0)).

Definition common_bits (n : allowedips_node) (key : bytes) (bits' : Z) : Z :=
  if bits' =? 32 then u8 (32 - fls (Z.lxor (read_u32 (bits n) 0) (read_u32 key 0)))
  else if bits' =? 128 then
    u8 (128 - fls128 (Z.lxor (read_u64 (bits n) 0) (read_u64 key 0))
                     (Z.lxor (read_u64 (bits n) 8) (read_u64 key 8)))
  else 0.

Definition prefix_matches (n : allowedips_node) (key : bytes) (bits' : Z) : bool :=
  cidr n <=? common_bits n key bits'.

(** ** The heap *)

Definition get_node (t : allowedips) (p : nat) : option allowedips_node := nodes t !! p.
Definition set_node (p : nat) (f : allowedips_node -> allowedips_node) (t : allowedips) : allowedips :=
  t <| nodes ::= alter f p |>.

Definition child (n : allowedips_node) (b : bool) : option nat := if b then bit1 n else bit0 n.
Definition set_child (b : bool) (o : option nat) (n : allowedips_node) : allowedips_node :=
  if b then n <| bit1 := o |> else n <| bit0 := o |>.

Definition read_slot (t : allowedips) (s : slot) : option (option nat) :=
  match s with
  | S_root v6 => Some (if v6 then root6 t else root4 t)
  | S_bit p b => n ← get_node t p; Some (child n b)
  end.

Definition write_slot (s : slot) (o : option nat) (t : allowedips) : allowedips :=
  match s with
  | S_root true => t <| root6 := o |>
  | S_root false => t <| root4 := o |>
  | S_bit p b => set_node p (set_child b o) t
  end.

(** A peer's list: [list_add_tail], [list_del]. *)
Definition list_add_peer (pr p : nat) (t : allowedips) : allowedips :=
  t <| peer_lists ::= fun m => <[pr := default [] (m !! pr) ++ [p]]> m |>.
Definition list_del_node (p : nat) (t : allowedips) : allowedips :=
  t <| peer_lists ::= fmap (fun l : list nat => filter (fun x => x ≠ p) l) |>.

Definition kmem_cache_free (p : nat) (t : allowedips) : allowedips := t <| nodes ::= delete p |>.

Definition zeroed : allowedips_node := mk_node None None None 0 0 0 0 [] (S_root false) 0.
Definition kmem_cache_zalloc (p : nat) (t : allowedips) : allowedips := t <| nodes ::= <[p := zeroed]> |>.

(** ** Looking up *)

(** One round of the loop per unit of fuel; a path has at most 129 nodes. *)
Fixpoint find_node (fuel : nat) (t : allowedips) (node found : option nat) (bits' : Z) (key : bytes) :
    option (option nat) :=
  match fuel with
  | O => None
  | S fuel =>
    match node with
    | None => Some found
    | Some p =>
      n ← get_node t p;
      if prefix_matches n key bits' then
        let found := if bool_decide (is_Some (peer n)) then Some p else found in
        if cidr n =? bits' then Some found
        else b ← choose n key; find_node fuel t (child n b) found bits' key
      else Some found
    end
  end.

Definition lookup_fuel : nat := 130.

(** [lookup]: the retry loop finds the same node again as long as nobody changes
    the trie, so a peer whose count is zero makes it spin ([None]). *)
Definition lookup (t : allowedips) (refs : peer_refs) (v6 : bool) (be_ip : bytes) :
    option (peer_refs * option nat) :=
  let ip := swap_endian be_ip (width v6) in
  root ← read_slot t (S_root v6);
  node ← find_node lookup_fuel t root None (width v6) ip;
  match node with
  | None => Some (refs, None)
  | Some p =>
    n ← get_node t p;
    match wg_peer_get_maybe_zero refs (peer n) with
    | (refs, Some pr) => Some (refs, Some pr)
    | (_, None) => None
    end
  end.

(** ** Placement *)

Fixpoint placement_loop (fuel : nat) (t : allowedips) (node parent : option nat) (bits' : Z) (key : bytes)
    (c : Z) : option (option nat * bool) :=
  match fuel with
  | O => None
  | S fuel =>
    match node with
    | None => Some (parent, false)
    | Some p =>
      n ← get_node t p;
      if (cidr n <=? c) && prefix_matches n key bits' then
        if cidr n =? c then Some (Some p, true)
        else b ← choose n key; placement_loop fuel t (child n b) (Some p) bits' key c
      else Some (parent, false)
    end
  end.

Definition node_placement (t : allowedips) (trie : option nat) (key : bytes) (c bits' : Z) :
    option (option nat * bool) :=
  placement_loop lookup_fuel t trie None bits' key c.

Definition connect_node (s : slot) (low : Z) (p : nat) (t : allowedips) : allowedips :=
  write_slot s (Some p) (set_node p (fun n => n <| parent_slot := s |> <| parent_low := low |>) t).

Definition choose_and_connect_node (parent p : nat) (t : allowedips) : option allowedips :=
  pn ← get_node t parent; n ← get_node t p; b ← choose pn (bits n);
  Some (connect_node (S_bit parent b) (Z.b2z b) p t).

(** ** Adding *)

(** The node [add] makes for the prefix. *)
Definition new_node (v6 : bool) (key : bytes) (c : Z) (pr p : nat) (t : allowedips) : allowedips :=
  let t := kmem_cache_zalloc p t in
  let t := set_node p (fun n => n <| peer := Some pr |>) t in
  let t := list_add_peer pr p t in
  set_node p (fun n => copy_and_assign_cidr n key c (width v6)) t.

(** Connecting to [trie] when there is no parent. *)
Definition attach (v6 : bool) (parent : option nat) (p : nat) (t : allowedips) : option allowedips :=
  match parent with
  | None => Some (connect_node (S_root v6) 2 p t)
  | Some pp => choose_and_connect_node pp p t
  end.

(** The end of [add], with [cidr] lowered to the common prefix: [down] goes under
    the new node, or both go under an intermediate node. *)
Definition add_split (t : allowedips) (v6 : bool) (c : Z) (parent : option nat) (down newnode : nat)
    (alloc2 : option nat) : option (allowedips * Z) :=
  nn ← get_node t newnode;
  if cidr nn =? c then
    t ← choose_and_connect_node newnode down t;
    t ← attach v6 parent newnode t; Some (t, 0)
  else
    match alloc2 with
    | None => Some (kmem_cache_free newnode (list_del_node newnode t), - ENOMEM)
    | Some node =>
      let t := kmem_cache_zalloc node t in
      let t := set_node node (fun n => copy_and_assign_cidr n (bits nn) c (width v6)) t in
      t ← choose_and_connect_node node down t;
      t ← choose_and_connect_node node newnode t;
      t ← attach v6 parent node t; Some (t, 0)
    end.

(** [alloc1] and [alloc2] are what the two allocations return. *)
Definition add (t : allowedips) (v6 : bool) (key : bytes) (c : Z) (pr : option nat)
    (alloc1 alloc2 : option nat) : option (allowedips * Z) :=
  let bits' := width v6 in
  match pr with
  | None => Some (t, - EINVAL)
  | Some pr =>
    if bits' <? c then Some (t, - EINVAL)
    else
      trie ← read_slot t (S_root v6);
      match trie with
      | None =>
        match alloc1 with
        | None => Some (t, - ENOMEM)
        | Some p => Some (connect_node (S_root v6) 2 p (new_node v6 key c pr p t), 0)
        end
      | Some _ =>
        '(node, exact) ← node_placement t trie key c bits';
        if exact : bool then
          p ← node;
          let t := set_node p (fun n => n <| peer := Some pr |>) t in
          Some (list_add_peer pr p (list_del_node p t), 0)
        else
          match alloc1 with
          | None => Some (t, - ENOMEM)
          | Some p =>
            let t := new_node v6 key c pr p t in
            match node with
            | None =>
              d ← trie; dn ← get_node t d;
              add_split t v6 (Z.min c (common_bits dn key bits')) None d p alloc2
            | Some pp =>
              pn ← get_node t pp; b ← choose pn key;
              match child pn b with
              | None => Some (connect_node (S_bit pp b) (Z.b2z b) p t, 0)
              | Some d =>
                dn ← get_node t d;
                add_split t v6 (Z.min c (common_bits dn key bits')) (Some pp) d p alloc2
              end
            end
          end
      end
  end.

(** ** Removing *)

Definition remove_node (t : allowedips) (node : nat) : option allowedips :=
  n ← get_node t node;
  let t := list_del_node node t in
  let t := set_node node (fun n => n <| peer := None |>) t in
  if bool_decide (is_Some (bit0 n)) && bool_decide (is_Some (bit1 n)) then Some t
  else
    let ch := child n (bool_decide (bit0 n = None)) in
    let t := match ch with
             | None => t
             | Some d => set_node d (fun m => m <| parent_slot := parent_slot n |>
                                               <| parent_low := parent_low n |>) t
             end in
    let t := write_slot (parent_slot n) ch t in
    let leaf := bool_decide (bit0 n = None) && bool_decide (bit1 n = None) in
    match parent_slot n with
    | S_bit pp _ =>
      pn ← get_node t pp;
      if leaf && (parent_low n <=? 1) && bool_decide (peer pn = None) then
        let ch := child pn (Z.even (parent_low n)) in
        let t := kmem_cache_free node t in
        let t := match ch with
                 | None => t
                 | Some d => set_node d (fun m => m <| parent_slot := parent_slot pn |>
                                                   <| parent_low := parent_low pn |>) t
                 end in
        Some (kmem_cache_free pp (write_slot (parent_slot pn) ch t))
      else Some (kmem_cache_free node t)
    | S_root _ => Some (kmem_cache_free node t)
    end.

Definition remove (t : allowedips) (v6 : bool) (key : bytes) (c : Z) (pr : option nat) :
    option (allowedips * Z) :=
  let bits' := width v6 in
  if bits' <? c then Some (t, - EINVAL)
  else
    trie ← read_slot t (S_root v6);
    if bool_decide (trie = None) then Some (t, 0)
    else
      '(node, exact) ← node_placement t trie key c bits';
      if negb exact then Some (t, 0)
      else
        p ← node; n ← get_node t p;
        if bool_decide (pr = peer n) then t ← remove_node t p; Some (t, 0) else Some (t, 0).

(** ** The whole table *)

Definition wg_allowedips_init : allowedips := mk_allowedips None None 1 ∅ ∅.

Definition bump_seq (t : allowedips) : allowedips := t <| seq := u64 (seq t + 1) |>.

(** The depth-first walks of [root_free_rcu] and [root_remove_peer_lists]: a
    stack of at most MAX_ALLOWEDIPS_DEPTH entries, [visit] applied to each node. *)
Definition push_rcu (stack : list nat) (o : option nat) : option (list nat) :=
  match o with
  | None => Some stack
  | Some p => if Nat.ltb (length stack) MAX_ALLOWEDIPS_DEPTH then Some (p :: stack) else None
  end.

Fixpoint walk (fuel : nat) (visit : nat -> allowedips_node -> allowedips -> allowedips)
    (stack : list nat) (t : allowedips) : option allowedips :=
  match stack with
  | [] => Some t
  | p :: stack =>
    match fuel with
    | O => None
    | S fuel =>
      n ← get_node t p;
      stack ← push_rcu stack (bit0 n); stack ← push_rcu stack (bit1 n);
      walk fuel visit stack (visit p n t)
    end
  end.

Definition root_remove_peer_lists (fuel : nat) (root : nat) (t : allowedips) : option allowedips :=
  walk fuel (fun p n t => if bool_decide (is_Some (peer n)) then list_del_node p t else t) [root] t.
Definition root_free_rcu (fuel : nat) (root : nat) (t : allowedips) : option allowedips :=
  walk fuel (fun p _ t => kmem_cache_free p t) [root] t.

Definition on_root (f : nat -> allowedips -> option allowedips) (root : option nat) (t : allowedips) :
    option allowedips :=
  match root with None => Some t | Some r => f r t end.

(** The [call_rcu] callbacks run after the function, in order. *)
Definition wg_allowedips_free (t : allowedips) : option allowedips :=
  let old4 := root4 t in
  let old6 := root6 t in
  let fuel := size (nodes t) in
  let t := (bump_seq t) <| root4 := None |> <| root6 := None |> in
  t ← on_root (root_remove_peer_lists fuel) old4 t;
  t ← on_root (root_remove_peer_lists fuel) old6 t;
  t ← on_root (root_free_rcu fuel) old4 t;
  on_root (root_free_rcu fuel) old6 t.

Definition wg_allowedips_insert (v6 : bool) (t : allowedips) (ip : bytes) (c : Z) (pr : option nat)
    (alloc1 alloc2 : option nat) : option (allowedips * Z) :=
  add (bump_seq t) v6 (swap_endian ip (width v6)) c pr alloc1 alloc2.
Definition wg_allowedips_insert_v4 := wg_allowedips_insert false.
Definition wg_allowedips_insert_v6 := wg_allowedips_insert true.

Definition wg_allowedips_remove (v6 : bool) (t : allowedips) (ip : bytes) (c : Z) (pr : option nat) :
    option (allowedips * Z) :=
  remove (bump_seq t) v6 (swap_endian ip (width v6)) c pr.
Definition wg_allowedips_remove_v4 := wg_allowedips_remove false.
Definition wg_allowedips_remove_v6 := wg_allowedips_remove true.

(** The list is read node by node, the successor before the node is removed. *)
Fixpoint remove_nodes (l : list nat) (t : allowedips) : option allowedips :=
  match l with
  | [] => Some t
  | p :: l => t ← remove_node t p; remove_nodes l t
  end.

Definition wg_allowedips_remove_by_peer (t : allowedips) (pr : nat) : option allowedips :=
  match default [] (peer_lists t !! pr) with
  | [] => Some t
  | l => remove_nodes l (bump_seq t)
  end.

(** [wg_allowedips_read_node]: the prefix in network order with its host bits
    cleared, its length, and whether it is IPv4. *)
Definition wg_allowedips_read_node (n : allowedips_node) : bytes * Z * bool :=
  let cidr_bytes := Z.to_nat ((cidr n + 7) / 8) in
  let ip := swap_endian (bits n) (bitlen n) in
  let ip := take cidr_bytes ip ++ zeros (Z.to_nat (bitlen n / 8) - cidr_bytes) in
  let ip := if cidr n =? 0 then ip
            else alter (fun b => u8 (Z.land b (Z.shiftl (-1) (- cidr n mod 8)))) (cidr_bytes - 1)%nat ip in
  (ip, cidr n, bitlen n =? 32).

(** A packet's source or destination address. *)
Inductive packet_addr := Addr_v4 (ip : bytes) | Addr_v6 (ip : bytes) | Addr_none.

Definition wg_allowedips_lookup (t : allowedips) (refs : peer_refs) (a : packet_addr) :
    option (peer_refs * option nat) :=
  match a with
  | Addr_v4 ip => lookup t refs false ip
  | Addr_v6 ip => lookup t refs true ip
  | Addr_none => Some (refs, None)
  end.
Definition wg_allowedips_lookup_dst := wg_allowedips_lookup.
Definition wg_allowedips_lookup_src := wg_allowedips_lookup.
