(* ===== verification/AllowedIPsKeys.v ===== *)
(** * The allowed-IPs trie: keys

    The bytes of a key as a number: the bit [choose] reads, the prefix length
    [common_bits] computes and the test [prefix_matches] makes, each in terms of
    [pre], the leading bits of the address. *)
From S2P Require Import Prelude PeerLookup AllowedIPs.

(** ** Keys as numbers *)

Definition wf_key (v6 : bool) (key : bytes) : Prop :=
  length key = Z.to_nat (width v6 / 8) ∧ Forall is_byte key.

Definition keyval (v6 : bool) (key : bytes) : Z :=
  if v6 then read_u64 key 0 * 2 ^ 64 + read_u64 key 8 else read_u32 key 0.

Lemma cons_testbit b x i : is_byte b → Z.testbit (b + 256 * x) i = if i <? 8 then Z.testbit b i else Z.testbit x (i - 8).
Proof.
  unfold is_byte. intros Hb. replace (b + 256 * x) with (x * 2 ^ 8 + b) by lia. destruct (Z.ltb_spec i 8) as [Hi|Hi].
  - destruct (Z.ltb_spec i 0) as [Hn|Hn]; [by rewrite !Z.testbit_neg_r|].
    rewrite <- (Z.mod_pow2_bits_low _ 8) by lia. rewrite <- (Z.mod_pow2_bits_low b 8) by lia.
    f_equal. rewrite Z.add_comm, Z_mod_plus_full. done.
  - replace i with (i - 8 + 8) at 1 by lia. rewrite <- Z.div_pow2_bits by lia. f_equal.
    rewrite Z.div_add_l by lia. rewrite (Z.div_small b) by lia. lia.
Qed.

Lemma le_combine_testbit l j r :
  Forall is_byte l → (j < length l)%nat → 0 <= r < 8 →
  Z.testbit (le_combine l) (8 * Z.of_nat j + r) = Z.testbit (l !!! j) r.
Proof.
  intros Hl. revert j. induction Hl as [|b l Hb Hl IH]; intros j Hj Hr; cbn in Hj; [lia|].
  cbn [le_combine].
  rewrite cons_testbit by done. destruct j as [|j]; cbn [lookup_total list_lookup_total].
  - replace (8 * Z.of_nat 0 + r) with r by lia. destruct (Z.ltb_spec r 8); [done|lia].
  - destruct (Z.ltb_spec (8 * Z.of_nat (S j) + r) 8); [lia|].
    replace (8 * Z.of_nat (S j) + r - 8) with (8 * Z.of_nat j + r) by lia. apply IH; lia.
Qed.

Lemma slice_byte off n key j :
  (j < n)%nat → (off + n <= length key)%nat → slice off n key !!! j = key !!! (off + j)%nat.
Proof.
  intros Hj Hn. unfold slice. rewrite !list_lookup_total_alt. rewrite lookup_take, lookup_drop by lia.
  by destruct (decide (j < n)%nat).
Qed.

Lemma slice_bytes off n key :
  Forall is_byte key → Forall is_byte (slice off n key).
Proof. intros H. unfold slice. by apply Forall_take, Forall_drop. Qed.

Lemma length_slice off n key : (off + n <= length key)%nat → length (slice off n key) = n.
Proof. intros H. unfold slice. rewrite length_take, length_drop. lia. Qed.

Lemma read_bound off n key :
  Forall is_byte key → (off + n <= length key)%nat →
  0 <= le_combine (slice off n key) < 2 ^ (8 * Z.of_nat n).
Proof.
  intros Hb Hl. pose proof (le_combine_bound (slice off n key) (slice_bytes off n key Hb)) as H.
  by rewrite length_slice in H.
Qed.

Lemma key_length v6 key : wf_key v6 key → length key = if v6 then 16%nat else 4%nat.
Proof. intros [Hl _]. by destruct v6. Qed.

Lemma keyval_bound v6 key : wf_key v6 key → 0 <= keyval v6 key < 2 ^ width v6.
Proof.
  intros Hk. pose proof (key_length v6 key Hk) as Hl. destruct Hk as [_ Hb].
  unfold keyval, read_u64, read_u32. destruct v6.
  - pose proof (read_bound 0 8 key Hb ltac:(lia)). pose proof (read_bound 8 8 key Hb ltac:(lia)).
    change (8 * Z.of_nat 8) with 64 in *. change (2 ^ width true) with (2 ^ 64 * 2 ^ 64). nia.
  - pose proof (read_bound 0 4 key Hb ltac:(lia)). done.
Qed.

(** Bit [8*j + r] of a key, counted from the top byte. *)
Lemma keyval_testbit v6 key j r :
  wf_key v6 key → (j < length key)%nat → 0 <= r < 8 →
  Z.testbit (key !!! j) r =
  Z.testbit (keyval v6 key)
    (if v6 then (if decide (j < 8)%nat then 64 + (8 * Z.of_nat j + r) else 8 * Z.of_nat (j - 8) + r)
     else 8 * Z.of_nat j + r).
Proof.
  intros Hk Hj Hr. pose proof (key_length v6 key Hk) as Hl. destruct Hk as [_ Hb].
  unfold keyval, read_u64, read_u32. destruct v6.
  - pose proof (read_bound 8 8 key Hb ltac:(lia)) as Hlo. destruct (decide (j < 8)%nat) as [H8|H8].
    + replace (64 + (8 * Z.of_nat j + r)) with (8 * Z.of_nat j + r + 64) by lia.
      rewrite <- Z.div_pow2_bits by lia. rewrite Z.div_add_l by lia. rewrite Z.div_small, Z.add_0_r by (change (8 * Z.of_nat 8) with 64 in Hlo; lia).
      rewrite le_combine_testbit; [by rewrite slice_byte by lia|by apply slice_bytes|rewrite length_slice; lia|lia].
    + rewrite <- (Z.mod_pow2_bits_low (_ * _ + _) 64) by lia.
      rewrite (Z.add_comm (le_combine (slice 0 8 key) * 2 ^ 64)), Z_mod_plus_full.
      rewrite Z.mod_small by (change (8 * Z.of_nat 8) with 64 in Hlo; lia).
      rewrite le_combine_testbit; [|by apply slice_bytes|rewrite length_slice; lia|lia].
      rewrite slice_byte by lia. f_equal. f_equal. lia.
  - rewrite le_combine_testbit; [by rewrite slice_byte by lia|by apply slice_bytes|rewrite length_slice; lia|lia].
Qed.

(** ** [fls] and common prefixes *)

Lemma fls_le x k : 0 <= x → 0 <= k → fls x <= k ↔ x < 2 ^ k.
Proof.
  intros Hx Hk. unfold fls. destruct (Z.eqb_spec x 0) as [->|Hne].
  - split; [intros _; by apply Z.pow_pos_nonneg|lia].
  - rewrite Z.log2_lt_pow2 by lia. lia.
Qed.

Lemma fls_nonneg x : 0 <= fls x.
Proof. unfold fls. destruct (x =? 0); [lia|]. pose proof (Z.log2_nonneg x). lia. Qed.

Lemma lt_pow2_shiftr x k : 0 <= x → 0 <= k → x < 2 ^ k ↔ Z.shiftr x k = 0.
Proof.
  intros Hx Hk. rewrite Z.shiftr_div_pow2 by lia.
  assert (0 < 2 ^ k) by (apply Z.pow_pos_nonneg; lia). split; intros H'.
  - by apply Z.div_small.
  - pose proof (Z.mod_pos_bound x (2 ^ k) ltac:(lia)). pose proof (Z.div_mod x (2 ^ k) ltac:(lia)). lia.
Qed.

Lemma lxor_bound w a b : 0 <= w → 0 <= a < 2 ^ w → 0 <= b < 2 ^ w → 0 <= Z.lxor a b < 2 ^ w.
Proof.
  intros Hw Ha Hb. assert (0 <= Z.lxor a b) as Hn by (apply Z.lxor_nonneg; lia). split; [done|].
  apply lt_pow2_shiftr; [done|done|]. rewrite Z.shiftr_lxor.
  rewrite (proj1 (lt_pow2_shiftr a w ltac:(lia) Hw)), (proj1 (lt_pow2_shiftr b w ltac:(lia) Hw)) by lia. done.
Qed.

Definition pre (w x c : Z) : Z := Z.shiftr x (w - c).

Lemma common_prefix w a b c :
  0 <= w → 0 <= a < 2 ^ w → 0 <= b < 2 ^ w → 0 <= c <= w →
  c <= w - fls (Z.lxor a b) ↔ pre w a c = pre w b c.
Proof.
  intros Hw Ha Hb Hc. pose proof (lxor_bound w a b Hw Ha Hb) as Hx.
  assert (c <= w - fls (Z.lxor a b) ↔ fls (Z.lxor a b) <= w - c) as -> by lia.
  rewrite fls_le by lia. unfold pre.
  rewrite lt_pow2_shiftr by lia.
  rewrite Z.shiftr_lxor. split; [apply Z.lxor_eq|]. intros ->. apply Z.lxor_nilpotent.
Qed.

(** ** Nodes *)

(** The fields [copy_and_assign_cidr] sets. *)
Record node_ok (v6 : bool) (n : allowedips_node) : Prop := {
  no_cidr : 0 <= cidr n <= width v6;
  no_a : bit_at_a n = Z.lxor (cidr n / 8) ((width v6 / 8 - 1) mod 8);
  no_b : bit_at_b n = 7 - cidr n mod 8;
  no_len : bitlen n = width v6;
  no_bits : wf_key v6 (bits n);
}.

Definition nval (v6 : bool) (n : allowedips_node) : Z := keyval v6 (bits n).

Lemma width_pos v6 : 0 < width v6.
Proof. by destruct v6. Qed.

Lemma lxor_3 x : 0 <= x < 4 → Z.lxor x 3 = 3 - x.
Proof. intros H. assert (x = 0 ∨ x = 1 ∨ x = 2 ∨ x = 3) as [->|[->|[->| ->]]] by lia; done. Qed.

Lemma lxor_7 x : 0 <= x < 16 → Z.lxor x 7 = if x <? 8 then 7 - x else 23 - x.
Proof.
  intros H. assert (x = 0 ∨ x = 1 ∨ x = 2 ∨ x = 3 ∨ x = 4 ∨ x = 5 ∨ x = 6 ∨ x = 7 ∨
    x = 8 ∨ x = 9 ∨ x = 10 ∨ x = 11 ∨ x = 12 ∨ x = 13 ∨ x = 14 ∨ x = 15) as Hx by lia.
  repeat (destruct Hx as [->|Hx]; [done|]). by subst.
Qed.

(** [choose] reads, inside the key, the bit after the node's prefix. *)
Lemma choose_spec v6 n key :
  node_ok v6 n → wf_key v6 key → cidr n < width v6 →
  choose n key = Some (Z.testbit (keyval v6 key) (width v6 - 1 - cidr n)).
Proof.
  intros [Hc Ha Hb _ _] Hk Hlt. pose proof (key_length v6 key Hk) as Hl.
  pose proof (Z.mod_pos_bound (cidr n) 8 ltac:(lia)) as Hm.
  pose proof (Z.div_mod (cidr n) 8 ltac:(lia)) as Hdm.
  assert (0 <= bit_at_a n ∧ (Z.to_nat (bit_at_a n) < length key)%nat ∧
    (if v6 then (if decide (Z.to_nat (bit_at_a n) < 8)%nat then 64 + (8 * bit_at_a n + bit_at_b n)
                 else 8 * Z.of_nat (Z.to_nat (bit_at_a n) - 8) + bit_at_b n)
     else 8 * bit_at_a n + bit_at_b n) = width v6 - 1 - cidr n) as (H0 & Hin & Hpos).
  { destruct v6; cbn in Hc, Hlt, Ha; rewrite Hl.
    - rewrite lxor_7 in Ha by lia. destruct (Z.ltb_spec (cidr n / 8) 8); rewrite Ha, Hb;
        (split_and!; [lia|lia|]); destruct (decide _); unfold width; lia.
    - rewrite lxor_3 in Ha by lia. rewrite Ha, Hb. unfold width. lia. }
  unfold choose. rewrite (list_lookup_lookup_total_lt _ _ Hin). cbn [mbind option_bind].
  f_equal. change 1 with (Z.ones 1) at 1. rewrite Z.land_ones, Z.pow_1_r, Zmod_odd, <- Z.testbit_odd by lia.
  rewrite (keyval_testbit v6 key _ _ Hk Hin) by lia.
  rewrite Z2Nat.id by lia. rewrite Hpos. by destruct (Z.testbit _ _).
Qed.

Lemma fls128_spec a b : 0 <= b < 2 ^ 64 → 0 <= a → fls128 a b = fls (a * 2 ^ 64 + b).
Proof.
  intros Hb Ha. unfold fls128, fls64, fls. destruct (Z.eqb_spec a 0) as [->|Hne]; [done|].
  cbn [negb]. destruct (Z.eqb_spec (a * 2 ^ 64 + b) 0) as [E|E]; [lia|].
  assert (Z.log2 (a * 2 ^ 64 + b) = Z.log2 a + 64); [|lia].
  apply Z.log2_unique; [pose proof (Z.log2_nonneg a); lia|].
  pose proof (Z.log2_spec a ltac:(lia)) as [H1 H2]. pose proof (Z.log2_nonneg a).
  rewrite Z.pow_add_r, (Z.pow_succ_r 2 (_ + 64)), Z.pow_add_r by lia.
  rewrite Z.pow_succ_r in H2 by lia. nia.
Qed.

Lemma combine_bits a b i :
  0 <= b < 2 ^ 64 → 0 <= i →
  Z.testbit (a * 2 ^ 64 + b) i = if i <? 64 then Z.testbit b i else Z.testbit a (i - 64).
Proof.
  intros Hb Hi. destruct (Z.ltb_spec i 64) as [H|H].
  - rewrite <- (Z.mod_pow2_bits_low (a * 2 ^ 64 + b) 64) by lia.
    rewrite (Z.add_comm (a * 2 ^ 64)), Z_mod_plus_full, Z.mod_small by lia. done.
  - replace i with (i - 64 + 64) at 1 by lia. rewrite <- Z.div_pow2_bits by lia. f_equal.
    rewrite Z.div_add_l by lia. rewrite (Z.div_small b) by lia. lia.
Qed.

Lemma lxor_combine a b c d :
  0 <= b < 2 ^ 64 → 0 <= d < 2 ^ 64 →
  Z.lxor (a * 2 ^ 64 + b) (c * 2 ^ 64 + d) = Z.lxor a c * 2 ^ 64 + Z.lxor b d.
Proof.
  intros Hb Hd. apply Z.bits_inj'. intros i Hi. rewrite Z.lxor_spec, !combine_bits; try done.
  - rewrite !Z.lxor_spec. by destruct (i <? 64).
  - by apply (lxor_bound 64).
Qed.

Lemma common_bits_spec v6 n key :
  node_ok v6 n → wf_key v6 key →
  common_bits n key (width v6) = width v6 - fls (Z.lxor (nval v6 n) (keyval v6 key)).
Proof.
  intros [_ _ _ _ Hn] Hk. unfold nval. pose proof (keyval_bound v6 _ Hn) as B1.
  pose proof (keyval_bound v6 _ Hk) as B2.
  pose proof (lxor_bound (width v6) _ _ ltac:(pose proof (width_pos v6); lia) B1 B2) as Bx.
  assert (0 <= fls (Z.lxor (keyval v6 (bits n)) (keyval v6 key)) <= width v6) as Hf.
  { split; [apply fls_nonneg|]. apply fls_le; [lia|pose proof (width_pos v6); lia|lia]. }
  pose proof (key_length _ _ Hn) as L1. pose proof (key_length _ _ Hk) as L2.
  destruct Hn as [_ Hn], Hk as [_ Hk]. unfold common_bits. destruct v6; cbn [width Z.eqb Pos.eqb].
  - assert (∀ k off, Forall is_byte k → length k = 16%nat → (off + 8 <= 16)%nat → 0 <= read_u64 k off < 2 ^ 64) as Hr.
    { intros k off Hb Hl Ho. apply (read_bound off 8 k Hb). lia. }
    rewrite fls128_spec.
    + unfold keyval in *. rewrite lxor_combine in * by (apply Hr; [done|done|lia]).
      apply wrap_id. unfold fits, width in *. lia.
    + apply (lxor_bound 64); [lia|apply Hr; [done|done|lia]|apply Hr; [done|done|lia]].
    + apply Z.lxor_nonneg. assert (0 <= read_u64 (bits n) 0 < 2 ^ 64) by (apply Hr; [done|done|lia]).
      assert (0 <= read_u64 key 0 < 2 ^ 64) by (apply Hr; [done|done|lia]). lia.
  - apply wrap_id. unfold fits, width, keyval in *. lia.
Qed.

Lemma prefix_matches_spec v6 n key :
  node_ok v6 n → wf_key v6 key →
  prefix_matches n key (width v6) =
  bool_decide (pre (width v6) (nval v6 n) (cidr n) = pre (width v6) (keyval v6 key) (cidr n)).
Proof.
  intros Hn Hk. unfold prefix_matches. rewrite (common_bits_spec v6 n key Hn Hk).
  pose proof (common_prefix (width v6) (nval v6 n) (keyval v6 key) (cidr n)) as Hc.
  specialize (Hc ltac:(pose proof (width_pos v6); lia) (keyval_bound _ _ (no_bits _ _ Hn)) (keyval_bound _ _ Hk)
    (no_cidr _ _ Hn)).
  apply eq_true_iff_eq. rewrite Z.leb_le, bool_decide_eq_true. exact Hc.
Qed.

(** ** Prefixes *)

Lemma pre_step w x c :
  0 <= c < w → pre w x (c + 1) = 2 * pre w x c + Z.b2z (Z.testbit x (w - 1 - c)).
Proof.
  intros Hc. unfold pre. replace (w - c) with (w - (c + 1) + 1) by lia.
  rewrite <- Z.shiftr_shiftr by lia. rewrite <- Z.div2_spec.
  rewrite (Z.div2_odd (Z.shiftr x (w - (c + 1)))) at 1. f_equal. rewrite Z.testbit_odd.
  by replace (w - 1 - c) with (w - (c + 1)) by lia.
Qed.

Lemma pre_pre w x c c0 : 0 <= c0 <= c → c <= w → Z.shiftr (pre w x c) (c - c0) = pre w x c0.
Proof. intros H1 H2. unfold pre. rewrite Z.shiftr_shiftr by lia. f_equal. lia. Qed.

Lemma pre_0 w x : 0 <= w → 0 <= x < 2 ^ w → pre w x 0 = 0.
Proof. intros Hw Hx. unfold pre. rewrite Z.sub_0_r. apply lt_pow2_shiftr; lia. Qed.

Lemma pre_eq_le w x y c c0 : 0 <= c0 <= c → c <= w → pre w x c = pre w y c → pre w x c0 = pre w y c0.
Proof. intros H1 H2 H. rewrite <- (pre_pre w x c c0), <- (pre_pre w y c c0) by lia. by rewrite H. Qed.

(** An address in network order and the key made from it denote one number. *)
Definition wf_addr (v6 : bool) (ip : bytes) : Prop :=
  length ip = Z.to_nat (width v6 / 8) ∧ Forall is_byte ip.

Lemma swap_endian_key v6 ip : wf_addr v6 ip → wf_key v6 (swap_endian ip (width v6)).
Proof.
  intros [Hl Hb]. unfold wf_key, swap_endian. destruct v6; cbn [width Z.eqb Pos.eqb] in *.
  - change (Z.to_nat (128 / 8)) with 16%nat in *. rewrite length_app, !length_reverse, !length_slice by lia. split; [done|].
    apply Forall_app. split; apply Forall_reverse, slice_bytes, Hb.
  - rewrite length_reverse, length_take, Hl. split; [done|]. by apply Forall_reverse, Forall_take.
Qed.

Lemma swap_endian_val v6 ip : wf_addr v6 ip → keyval v6 (swap_endian ip (width v6)) = be_combine ip.
Proof.
  intros [Hl Hb]. unfold keyval, swap_endian, be_combine, read_u64, read_u32. destruct v6; cbn [width Z.eqb Pos.eqb] in *.
  - change (Z.to_nat (128 / 8)) with 16%nat in Hl.
    assert (ip = slice 0 8 ip ++ slice 8 8 ip) as Hs.
    { unfold slice. rewrite drop_0, (take_ge (drop 8 ip)) by (rewrite length_drop; lia). by rewrite take_drop. }
    rewrite Hs at 5. rewrite reverse_app, le_combine_app, length_reverse, length_slice by lia.
    change (8 * Z.of_nat 8) with 64.
    assert (∀ a b : bytes, length a = 8%nat → length b = 8%nat → slice 0 8 (a ++ b) = a ∧ slice 8 8 (a ++ b) = b) as Hab.
    { intros a b Ha Hb'. unfold slice. rewrite drop_0, take_app_length', drop_app_length', take_ge by lia. done. }
    destruct (Hab (reverse (slice 0 8 ip)) (reverse (slice 8 8 ip))) as [-> ->];
      [rewrite length_reverse; apply length_slice; lia..|]. lia.
  - change (Z.to_nat (32 / 8)) with 4%nat in Hl. rewrite (take_ge ip) by lia.
    unfold slice. by rewrite drop_0, take_ge by (rewrite length_reverse; lia).
Qed.
