(* ===== verification/AllowedIPsTree.v ===== *)
(** * The allowed-IPs trie as a tree of prefixes

    The tree a heap of AllowedIPs.v represents, without its pointers' storage:
    the invariant that makes it a compressed prefix trie ([wf]), the finite map
    of its prefixes ([entries]), the paths to its nodes ([ctx]) and what the
    edits of [add] and [remove_node] do to the map. *)
From S2P Require Import Prelude AllowedIPs AllowedIPsKeys.

Inductive tree := E | N (p : nat) (c : Z) (k : bytes) (pr : option nat) (l r : tree).

Definition ptr (T : tree) : option nat := match T with E => None | N p _ _ _ _ _ => Some p end.

(** A prefix is its length and its leading bits. *)
Abbreviation prefix := (Z * Z)%type.

(** A path to a subtree, the innermost frame first. *)
Record frame := mk_frame {
  f_side : bool; f_p : nat; f_c : Z; f_k : bytes; f_pr : option nat; f_sib : tree }.
Abbreviation ctx := (list frame).

Definition plug (f : frame) (T : tree) : tree :=
  if f_side f then N (f_p f) (f_c f) (f_k f) (f_pr f) (f_sib f) T
  else N (f_p f) (f_c f) (f_k f) (f_pr f) T (f_sib f).

Fixpoint fill (C : ctx) (T : tree) : tree :=
  match C with [] => T | f :: C => fill C (plug f T) end.

Fixpoint height (T : tree) : nat :=
  match T with E => 0 | N _ _ _ _ l r => S (height l `max` height r) end.

Section tree.
Context (v : bool).
Let w := width v.

Definition kpre (k : bytes) (c : Z) : Z := pre w (keyval v k) c.
Definition kbit (k : bytes) (c : Z) : bool := Z.testbit (keyval v k) (w - 1 - c).

(** All prefixes below a slot extend [x0], of length [c0]; a node without a peer
    has two children. *)
Fixpoint wf (c0 x0 : Z) (T : tree) : Prop :=
  match T with
  | E => True
  | N p c k pr l r =>
    wf_key v k ∧ 0 <= c0 <= c ∧ c <= w ∧ kpre k c0 = x0 ∧
    wf (c + 1) (2 * kpre k c) l ∧ wf (c + 1) (2 * kpre k c + 1) r ∧
    (pr = None → l ≠ E ∧ r ≠ E)
  end.

Definition put (q : prefix) (o : option nat) (m : gmap prefix nat) : gmap prefix nat :=
  match o with Some pr => <[q := pr]> m | None => m end.

Fixpoint entries (T : tree) : gmap prefix nat :=
  match T with
  | E => ∅
  | N p c k pr l r => put (c, kpre k c) pr (entries l ∪ entries r)
  end.

Definition extends (c0 x0 : Z) (q : prefix) : Prop :=
  c0 <= q.1 ∧ q.1 <= w ∧ Z.shiftr q.2 (q.1 - c0) = x0.

Lemma extends_le c0 x0 c1 x1 q :
  0 <= c0 <= c1 → Z.shiftr x1 (c1 - c0) = x0 → extends c1 x1 q → extends c0 x0 q.
Proof.
  intros H1 H2 (H3 & H4 & H5). unfold extends. split_and!; [lia|lia|].
  rewrite <- H2, <- H5, Z.shiftr_shiftr by lia. f_equal. lia.
Qed.

Lemma kpre_extends k c c0 : 0 <= c0 <= c → c <= w → extends c0 (kpre k c0) (c, kpre k c).
Proof. intros H1 H2. unfold extends, kpre. cbn [fst snd]. split_and!; [lia|lia|]. by apply pre_pre. Qed.

Lemma kpre_step k c : 0 <= c < w → kpre k (c + 1) = 2 * kpre k c + Z.b2z (kbit k c).
Proof. intros H. by apply pre_step. Qed.

Lemma double_div2 (x : Z) (b : bool) : Z.shiftr (2 * x + Z.b2z b) 1 = x.
Proof. rewrite <- Z.div2_spec, Z.div2_div. rewrite (Z.mul_comm 2), Z.div_add_l by lia. destruct b; [change (Z.b2z true / 2) with 0|change (Z.b2z false / 2) with 0]; lia. Qed.

(** The region below a child slot lies in the node's region and not in the other
    child's. *)
Lemma extends_child c0 k c (b : bool) q :
  0 <= c0 <= c → c <= w →
  extends (c + 1) (2 * kpre k c + Z.b2z b) q → extends c0 (kpre k c0) q.
Proof.
  intros H1 H2 H3. eapply (extends_le _ _ c (kpre k c)); [lia|by apply pre_pre|].
  eapply (extends_le c _ (c + 1)); [lia| |exact H3].
  replace (c + 1 - c) with 1 by lia. apply double_div2.
Qed.

Lemma extends_sides c x (b b' : bool) q :
  extends c (2 * x + Z.b2z b) q → extends c (2 * x + Z.b2z b') q → b = b'.
Proof. intros (_ & _ & H1) (_ & _ & H2). destruct b, b'; cbn [Z.b2z] in *; lia || done. Qed.

Lemma wf_children c0 x0 p c k pr l r (b : bool) :
  wf c0 x0 (N p c k pr l r) → wf (c + 1) (2 * kpre k c + Z.b2z b) (if b then r else l).
Proof. intros (_ & _ & _ & _ & Hl & Hr & _). destruct b; cbn [Z.b2z]; [done|by rewrite Z.add_0_r]. Qed.

Lemma put_lookup q o m q' : put q o m !! q' = if decide (q = q' ∧ is_Some o) then o else m !! q'.
Proof.
  destruct o as [pr|]; cbn [put].
  - destruct (decide (q = q')) as [->|Hne].
    + rewrite lookup_insert_eq, decide_True; [done|]. split; [done|by eexists].
    + rewrite lookup_insert_ne by done. by rewrite decide_False by (by intros [? _]).
  - by rewrite decide_False by (by intros [_ [? ?]]).
Qed.

Lemma entries_extend c0 x0 T q pr : wf c0 x0 T → entries T !! q = Some pr → extends c0 x0 q.
Proof.
  revert c0 x0. induction T as [|p c k o l IHl r IHr]; intros c0 x0 Hwf Hq; [done|].
  cbn [entries] in Hq. rewrite put_lookup in Hq.
  pose proof (wf_children _ _ _ _ _ _ _ _ false Hwf) as Hl. pose proof (wf_children _ _ _ _ _ _ _ _ true Hwf) as Hr.
  destruct Hwf as (_ & H0 & Hw & <- & _). destruct (decide _) as [[<- _]|_]; [by apply kpre_extends|].
  apply lookup_union_Some_raw in Hq as [Hq|[_ Hq]].
  - apply (extends_child c0 k c false); eauto.
  - apply (extends_child c0 k c true); eauto.
Qed.

(** ** Paths *)

Definition hole (C : ctx) : Z * Z :=
  match C with [] => (0, 0) | f :: _ => (f_c f + 1, 2 * kpre (f_k f) (f_c f) + Z.b2z (f_side f)) end.

Fixpoint wf_ctx (C : ctx) : Prop :=
  match C with
  | [] => True
  | f :: C =>
    wf_ctx C ∧ wf_key v (f_k f) ∧ 0 <= (hole C).1 <= f_c f ∧ f_c f < w ∧ kpre (f_k f) (hole C).1 = (hole C).2 ∧
    wf (f_c f + 1) (2 * kpre (f_k f) (f_c f) + Z.b2z (negb (f_side f))) (f_sib f) ∧
    (f_pr f = None → f_sib f ≠ E)
  end.

(** The frame above the hole has a peer or needs the hole filled. *)
Definition needs (C : ctx) (T : tree) : Prop :=
  match C with [] => True | f :: _ => f_pr f = None → T ≠ E end.

Definition wf_hole (C : ctx) (T : tree) : Prop := wf (hole C).1 (hole C).2 T.

Lemma wf_plug C f T : wf_ctx (f :: C) → wf_hole (f :: C) T → needs (f :: C) T → wf_hole C (plug f T).
Proof.
  intros (_ & Hk & H0 & Hw & Hx & Hs & Hn) HT HN. unfold wf_hole, needs in *. cbn [hole fst snd] in HT.
  unfold plug. destruct (f_side f); cbn [wf negb Z.b2z] in *; rewrite ?Z.add_0_r in *;
    (split_and!; [done|lia|lia|lia|done|done|done|auto]).
Qed.

Lemma needs_plug C f T : needs C (plug f T).
Proof. destruct C as [|g C]; [done|]. intros _. unfold plug. by destruct (f_side f). Qed.

Lemma wf_fill C T : wf_ctx C → wf_hole C T → needs C T → wf 0 0 (fill C T).
Proof.
  revert T. induction C as [|f C IH]; intros T HC HT HN; [exact HT|].
  cbn [fill]. apply IH; [apply HC|by apply wf_plug|apply needs_plug].
Qed.

Definition frame_entries (f : frame) : gmap prefix nat :=
  put (f_c f, kpre (f_k f) (f_c f)) (f_pr f) (entries (f_sib f)).

Fixpoint ctx_entries (C : ctx) : gmap prefix nat :=
  match C with [] => ∅ | f :: C => frame_entries f ∪ ctx_entries C end.

Lemma frame_entries_hole C f q : wf_ctx (f :: C) → extends (hole (f :: C)).1 (hole (f :: C)).2 q → frame_entries f !! q = None.
Proof.
  intros (_ & _ & _ & _ & _ & Hs & _) Hq. cbn [hole fst snd] in Hq. unfold frame_entries. rewrite put_lookup.
  rewrite decide_False by (intros [<- _]; destruct Hq as [Hq _]; cbn in Hq; lia).
  destruct (entries (f_sib f) !! q) as [pr|] eqn:Eq; [|done].
  pose proof (entries_extend _ _ _ _ _ Hs Eq) as Hq'.
  pose proof (extends_sides _ _ _ _ _ Hq Hq'). by destruct (f_side f).
Qed.

Lemma hole_extends C f q :
  wf_ctx (f :: C) → extends (hole (f :: C)).1 (hole (f :: C)).2 q → extends (hole C).1 (hole C).2 q.
Proof.
  intros (_ & _ & H0 & Hw & <- & _) Hq. cbn [hole fst snd] in Hq. eapply extends_child; [| |exact Hq]; lia.
Qed.

Lemma ctx_entries_hole C q : wf_ctx C → extends (hole C).1 (hole C).2 q → ctx_entries C !! q = None.
Proof.
  induction C as [|f C IH]; intros HC Hq; [done|]. cbn [ctx_entries]. apply lookup_union_None. split.
  - by eapply frame_entries_hole.
  - apply IH; [apply HC|by eapply hole_extends].
Qed.

Lemma entries_plug C f T :
  wf_ctx (f :: C) → wf_hole (f :: C) T → entries (plug f T) = entries T ∪ frame_entries f.
Proof.
  intros HC HT. apply map_eq. intros q. rewrite lookup_union.
  destruct (entries T !! q) as [pr|] eqn:Eq.
  - pose proof (frame_entries_hole C f q HC (entries_extend _ _ _ _ _ HT Eq)) as Hf. rewrite Hf. cbn.
    unfold frame_entries in Hf. rewrite put_lookup in Hf. destruct (decide _) as [[_ [? Hs]]|Hd]; [congruence|].
    unfold plug. destruct (f_side f); cbn [entries]; rewrite put_lookup, decide_False, lookup_union, Eq, Hf by done; done.
  - rewrite option_union_left_id. unfold plug, frame_entries. destruct (f_side f); cbn [entries];
      rewrite !put_lookup; (destruct (decide _); [done|]); rewrite lookup_union, Eq;
      [by rewrite option_union_right_id|by rewrite option_union_left_id].
Qed.

Lemma entries_fill C T :
  wf_ctx C → wf_hole C T → needs C T → entries (fill C T) = entries T ∪ ctx_entries C.
Proof.
  revert T. induction C as [|f C IH]; intros T HC HT HN; cbn [fill ctx_entries]; [by rewrite map_union_empty|].
  rewrite IH; [|apply HC|by apply wf_plug|apply needs_plug].
  rewrite (entries_plug C f T HC HT). by rewrite map_union_assoc.
Qed.

(** ** Adding *)

Lemma hole_nonneg C : wf_ctx C → 0 <= (hole C).1.
Proof. destruct C as [|f C]; [done|]. intros (_ & _ & H & _). cbn. lia. Qed.

Lemma wf_deeper c0 x0 c1 p c k o l r :
  wf c0 x0 (N p c k o l r) → 0 <= c1 <= c → wf c1 (kpre k c1) (N p c k o l r).
Proof. intros (? & ? & ? & ? & ? & ? & ?) Hc. cbn [wf]. split_and!; (done || lia). Qed.

(** Replacing what is in the hole by a tree with one more prefix. *)
Lemma fill_insert C T T' q pr :
  wf_ctx C → wf_hole C T → needs C T → wf_hole C T' → T' ≠ E →
  entries T' = <[q := pr]> (entries T) →
  wf 0 0 (fill C T') ∧ entries (fill C T') = <[q := pr]> (entries (fill C T)).
Proof.
  intros HC HT HN HT' HE Hq. assert (needs C T') as HN' by (destruct C; [done|by intros _]).
  split; [by apply wf_fill|]. rewrite !entries_fill by done. by rewrite Hq, insert_union_l.
Qed.

(** A key belongs in the hole when it extends the hole's prefix. *)
Definition belongs (C : ctx) (k : bytes) (c : Z) : Prop :=
  wf_key v k ∧ (hole C).1 <= c <= w ∧ kpre k (hole C).1 = (hole C).2.

Lemma insert_exact C p c k k0 o pr l r :
  wf_hole C (N p c k0 o l r) → kpre k0 c = kpre k c →
  wf_hole C (N p c k0 (Some pr) l r) ∧
  entries (N p c k0 (Some pr) l r) = <[(c, kpre k c) := pr]> (entries (N p c k0 o l r)).
Proof.
  intros (? & ? & ? & ? & ? & ? & ?) Hp. split; [split_and!; (done || lia)|]. cbn [entries put]. rewrite Hp.
  destruct o; cbn [put]; [by rewrite insert_insert_eq|done].
Qed.

Lemma wf_leaf C p c k pr : wf_ctx C → belongs C k c → wf_hole C (N p c k (Some pr) E E).
Proof. intros HC (Hk & Hc & Hx). pose proof (hole_nonneg C HC). unfold wf_hole. cbn [wf]. split_and!; (done || lia). Qed.

Lemma entries_leaf p c k pr : entries (N p c k (Some pr) E E) = {[(c, kpre k c) := pr]}.
Proof. cbn [entries put]. by rewrite map_union_empty. Qed.

Lemma insert_leaf C p c k pr :
  wf_ctx C → belongs C k c →
  wf_hole C (N p c k (Some pr) E E) ∧
  entries (N p c k (Some pr) E E) = <[(c, kpre k c) := pr]> (entries E).
Proof. intros HC Hb. split; [by apply wf_leaf|]. by rewrite entries_leaf. Qed.

Lemma kpre_fork k1 k2 m :
  0 <= m < w → kpre k1 m = kpre k2 m → kpre k1 (m + 1) ≠ kpre k2 (m + 1) → kbit k1 m = negb (kbit k2 m).
Proof.
  intros Hm Hp Hne. rewrite !kpre_step, Hp in Hne by done. destruct (kbit k1 m), (kbit k2 m); done.
Qed.

(** The frame that [add] puts above [T] when [T]'s prefix is longer. *)
Lemma wf_over C p c k o sib d cd kd od l r :
  wf_ctx C → belongs C k c → c < cd → kpre kd c = kpre k c → wf_hole C (N d cd kd od l r) →
  wf (c + 1) (2 * kpre k c + Z.b2z (negb (kbit kd c))) sib → (o = None → sib ≠ E) →
  let f := mk_frame (kbit kd c) p c k o sib in
  wf_ctx (f :: C) ∧ wf_hole (f :: C) (N d cd kd od l r) ∧ needs (f :: C) (N d cd kd od l r).
Proof.
  intros HC (Hk & Hc & Hx) Hlt Hp HT Hs Ho f. pose proof (hole_nonneg C HC).
  assert (cd <= w) by (destruct HT as (_ & _ & ? & _); done). split_and!.
  - cbn [wf_ctx f f_k f_c f_side f_sib f_pr]. split_and!; (done || lia).
  - unfold wf_hole. cbn [hole f f_k f_c f_side fst snd]. rewrite <- Hp, <- kpre_step by lia.
    eapply wf_deeper; [exact HT|lia].
  - by intros _.
Qed.

Lemma insert_over C p c k pr d cd kd od l r :
  wf_ctx C → belongs C k c → c < cd → kpre kd c = kpre k c → wf_hole C (N d cd kd od l r) →
  let T' := plug (mk_frame (kbit kd c) p c k (Some pr) E) (N d cd kd od l r) in
  wf_hole C T' ∧ entries T' = <[(c, kpre k c) := pr]> (entries (N d cd kd od l r)).
Proof.
  intros HC Hb Hlt Hp HT T'.
  destruct (wf_over C p c k (Some pr) E d cd kd od l r HC Hb Hlt Hp HT I ltac:(done)) as (H1 & H2 & H3).
  split; [by apply wf_plug|]. unfold T'. rewrite (entries_plug C) by done.
  set (T := N d cd kd od l r) in *. unfold frame_entries. cbn [f_c f_k f_pr f_sib put].
  assert (entries T !! (c, kpre k c) = None) as Hn.
  { destruct (entries T !! _) eqn:Eq; [|done]. pose proof (entries_extend _ _ _ _ _ H2 Eq) as [Hx _].
    cbn in Hx. lia. }
  rewrite <- insert_union_r by done. cbn [entries]. by rewrite map_union_empty.
Qed.

Lemma insert_split C q p m c k pr d cd kd od l r :
  wf_ctx C → belongs C k c → (hole C).1 <= m → m < c → m < cd →
  kpre kd m = kpre k m → kpre kd (m + 1) ≠ kpre k (m + 1) → wf_hole C (N d cd kd od l r) →
  let leaf := N p c k (Some pr) E E in
  let T' := plug (mk_frame (kbit kd m) q m k None leaf) (N d cd kd od l r) in
  wf_hole C T' ∧ entries T' = <[(c, kpre k c) := pr]> (entries (N d cd kd od l r)).
Proof.
  intros HC Hb Hm Hmc Hmd Hp Hne HT leaf T'. pose proof (hole_nonneg C HC). destruct Hb as (Hk & Hc & Hx).
  pose proof (kpre_fork kd k m ltac:(lia) Hp Hne) as Hbit.
  assert (wf (m + 1) (2 * kpre k m + Z.b2z (negb (kbit kd m))) leaf) as Hleaf.
  { rewrite Hbit, negb_involutive, <- kpre_step by lia. cbn [wf]. split_and!; (done || lia). }
  destruct (wf_over C q m k None leaf d cd kd od l r HC ltac:(split_and!; (done || lia)) Hmd Hp HT Hleaf ltac:(done))
    as (H1 & H2 & H3).
  split; [by apply wf_plug|]. unfold T'. rewrite (entries_plug C) by done.
  set (T := N d cd kd od l r) in *. unfold frame_entries. cbn [f_c f_k f_pr f_sib put]. unfold leaf in *.
  rewrite entries_leaf in *. apply map_eq. intros q'. rewrite lookup_union.
  destruct (decide (q' = (c, kpre k c))) as [->|Hq].
  - rewrite lookup_singleton_eq, lookup_insert_eq.
    destruct (entries T !! _) as [x|] eqn:Eq; [|done].
    pose proof (entries_extend _ _ _ _ _ H2 Eq) as Hq1.
    assert (entries (N p c k (Some pr) E E) !! (c, kpre k c) = Some pr) as Hq2
      by (rewrite entries_leaf; apply lookup_singleton_eq).
    apply (entries_extend _ _ _ _ _ Hleaf) in Hq2. pose proof (extends_sides _ _ _ _ _ Hq1 Hq2) as Hs.
    cbn [f_side] in Hs. by destruct (kbit kd m).
  - rewrite lookup_singleton_ne, lookup_insert_ne by done. by rewrite option_union_right_id.
Qed.

(** ** Removing *)

Lemma fill_delete C T T' q :
  wf_ctx C → wf_hole C T → needs C T → wf_hole C T' → needs C T' →
  extends (hole C).1 (hole C).2 q → entries T' = delete q (entries T) →
  wf 0 0 (fill C T') ∧ entries (fill C T') = delete q (entries (fill C T)).
Proof.
  intros HC HT HN HT' HN' Hx Hq. split; [by apply wf_fill|]. rewrite !entries_fill by done.
  rewrite Hq, delete_union. by rewrite (delete_id (ctx_entries C)) by by apply ctx_entries_hole.
Qed.

Lemma node_extends C p c k o l r : wf_hole C (N p c k o l r) → extends (hole C).1 (hole C).2 (c, kpre k c).
Proof. intros (_ & H0 & Hw & <- & _). by apply kpre_extends. Qed.

Lemma delete_own c0 x0 p c k o l r :
  wf c0 x0 (N p c k o l r) → delete (c, kpre k c) (entries (N p c k o l r)) = entries l ∪ entries r.
Proof.
  intros Hwf. assert ((entries l ∪ entries r) !! (c, kpre k c) = None) as Hn.
  { assert (∀ b : bool, entries (if b then r else l) !! (c, kpre k c) = None) as Hb.
    { intros b. destruct (entries _ !! _) eqn:Eq; [|done].
      apply (entries_extend _ _ _ _ _ (wf_children _ _ _ _ _ _ _ _ b Hwf)) in Eq as [Hx _]. cbn in Hx. lia. }
    apply lookup_union_None. split; [apply (Hb false)|apply (Hb true)]. }
  cbn [entries]. destruct o; cbn [put]; [by rewrite delete_insert_id|by rewrite delete_id].
Qed.

Lemma wf_lift c0 p c k o l r (b : bool) :
  wf c0 (kpre k c0) (N p c k o l r) → wf c0 (kpre k c0) (if b then r else l).
Proof.
  intros Hwf. pose proof (wf_children _ _ _ _ _ _ _ _ b Hwf) as Hb.
  destruct Hwf as (_ & H0 & Hw & _). destruct (if b then r else l) as [|d cd kd od ld rd]; [done|].
  assert (kpre kd (c + 1) = 2 * kpre k c + Z.b2z b) as Hp by (by destruct Hb as (_ & _ & _ & ? & _)).
  assert (c + 1 <= cd ∧ cd <= w) as [Hc1 Hc2] by (destruct Hb as (_ & ? & ? & _); lia).
  assert (kpre kd c0 = kpre k c0) as <-; [|eapply wf_deeper; [exact Hb|lia]].
  assert (kpre kd c = kpre k c) as Hc.
  { rewrite kpre_step in Hp by lia. destruct (kbit kd c), b; cbn [Z.b2z] in Hp; lia. }
  apply (pre_eq_le w _ _ c); [lia|lia|exact Hc].
Qed.

Lemma remove_keep C p c k o l r :
  wf_hole C (N p c k o l r) → l ≠ E → r ≠ E →
  wf_hole C (N p c k None l r) ∧
  entries (N p c k None l r) = delete (c, kpre k c) (entries (N p c k o l r)).
Proof.
  intros Hwf Hl Hr. rewrite (delete_own _ _ _ _ _ _ _ _ Hwf). split; [|done].
  destruct Hwf as (? & ? & ? & ? & ? & ? & ?). split_and!; (done || lia).
Qed.

Lemma remove_lift C p c k o l r (b : bool) :
  wf_hole C (N p c k o l r) → (if b then l else r) = E →
  wf_hole C (if b then r else l) ∧
  entries (if b then r else l) = delete (c, kpre k c) (entries (N p c k o l r)).
Proof.
  intros Hwf He. rewrite (delete_own _ _ _ _ _ _ _ _ Hwf). split.
  - assert (kpre k (hole C).1 = (hole C).2) as Hx by (by destruct Hwf as (_ & _ & _ & ? & _)).
    unfold wf_hole in *. rewrite <- Hx in *. by eapply (wf_lift _ _ _ _ _ _ _ b).
  - destruct b; subst; cbn [entries]; [by rewrite map_empty_union|by rewrite map_union_empty].
Qed.

(** Removing a leaf under a node without a peer removes that node too. *)
Lemma remove_collapse C f p c k o :
  wf_ctx (f :: C) → f_pr f = None → wf_hole (f :: C) (N p c k o E E) →
  wf 0 0 (fill C (f_sib f)) ∧
  entries (fill C (f_sib f)) = delete (c, kpre k c) (entries (fill (f :: C) (N p c k o E E))).
Proof.
  intros HC Hn Hwf. set (T := N p c k o E E). pose proof HC as (HC' & Hk & H0 & Hw & Hx & Hs & Hsib).
  pose proof (wf_plug C f T HC Hwf ltac:(by intros _)) as HP. specialize (Hsib Hn).
  assert (wf_hole C (f_sib f)) as HS.
  { unfold wf_hole in *. rewrite <- Hx in *. unfold plug in HP.
    destruct (f_side f); [exact (wf_lift _ _ _ _ _ _ _ false HP)|exact (wf_lift _ _ _ _ _ _ _ true HP)]. }
  cbn [fill]. apply fill_delete; [done|done|apply needs_plug|done|destruct C; [done|by intros _]|..].
  - eapply hole_extends; [exact HC|]. by eapply node_extends.
  - rewrite (entries_plug C f T HC Hwf), delete_union. unfold T at 1.
    rewrite (delete_own _ _ p c k o E E Hwf). cbn [entries]. rewrite !map_empty_union.
    rewrite delete_id; [unfold frame_entries; by rewrite Hn|].
    eapply frame_entries_hole; [exact HC|]. by eapply node_extends.
Qed.

(** ** Looking up *)

Fixpoint t_find (key : bytes) (T : tree) (found : option (nat * nat)) : option (nat * nat) :=
  match T with
  | E => found
  | N p c k o l r =>
    if bool_decide (kpre k c = kpre key c) then
      let found := match o with Some pr => Some (p, pr) | None => found end in
      if c =? w then found else t_find key (if kbit key c then r else l) found
    else found
  end.

(** The longest prefix of [x] in the map. *)
Definition longest (m : gmap prefix nat) (x : Z) (o : option nat) : Prop :=
  match o with
  | Some pr => ∃ c, 0 <= c <= w ∧ m !! (c, pre w x c) = Some pr ∧ ∀ c', c < c' <= w → m !! (c', pre w x c') = None
  | None => ∀ c, 0 <= c <= w → m !! (c, pre w x c) = None
  end.

Lemma child_lookup c0 x0 p c k o l r key c' :
  wf c0 x0 (N p c k o l r) → kpre k c = kpre key c → c < c' <= w →
  entries (N p c k o l r) !! (c', kpre key c') = entries (if kbit key c then r else l) !! (c', kpre key c').
Proof.
  intros Hwf Hp Hc. assert (0 <= c) by (destruct Hwf as (_ & ? & _); lia). cbn [entries]. rewrite put_lookup.
  rewrite decide_False by (intros [? _]; simplify_eq; lia). rewrite lookup_union.
  assert (∀ b, b ≠ kbit key c → entries (if b then r else l) !! (c', kpre key c') = None) as Hno.
  { intros b Hb. destruct (entries _ !! _) eqn:Eq; [|done].
    apply (entries_extend _ _ _ _ _ (wf_children _ _ _ _ _ _ _ _ b Hwf)) in Eq.
    pose proof (kpre_extends key c' (c + 1) ltac:(lia) ltac:(lia)) as Hk.
    rewrite kpre_step, <- Hp in Hk by lia. by destruct Hb, (extends_sides _ _ _ _ _ Eq Hk). }
  destruct (kbit key c).
  - rewrite (Hno false) by done. by rewrite option_union_left_id.
  - rewrite (Hno true) by done. by rewrite option_union_right_id.
Qed.

Lemma mismatch_lookup c0 x0 p c k o l r key c' :
  wf c0 x0 (N p c k o l r) → kpre k c ≠ kpre key c ∨ c' < c →
  entries (N p c k o l r) !! (c', kpre key c') = None.
Proof.
  intros Hwf Hp. destruct (entries _ !! _) eqn:Eq; [|done].
  assert (0 <= c) by (destruct Hwf as (_ & ? & _); lia).
  apply (entries_extend _ _ _ _ _ (wf_deeper _ _ c _ _ _ _ _ _ Hwf ltac:(lia))) in Eq.
  destruct Eq as (H1 & H2 & H3). cbn [fst snd] in *. unfold kpre in *. rewrite pre_pre in H3 by lia.
  destruct Hp as [Hp|Hp]; [congruence|lia].
Qed.

Lemma t_find_spec c0 x0 key T found :
  wf c0 x0 T →
  (∃ p pr c, t_find key T found = Some (p, pr) ∧ 0 <= c <= w ∧ entries T !! (c, kpre key c) = Some pr ∧
     ∀ c', c < c' <= w → entries T !! (c', kpre key c') = None) ∨
  (t_find key T found = found ∧ ∀ c, 0 <= c <= w → entries T !! (c, kpre key c) = None).
Proof.
  revert c0 x0 found. induction T as [|p c k o l IHl r IHr]; intros c0 x0 found Hwf; [by right|].
  cbn [t_find]. assert (0 <= c <= w) as Hc by (destruct Hwf as (_ & ? & ? & _); lia).
  case_bool_decide as Hp; [|right; split; [done|intros; eapply mismatch_lookup; eauto]].
  set (found' := match o with Some pr => Some (p, pr) | None => found end).
  assert (entries (N p c k o l r) !! (c, kpre key c) = o) as Hown.
  { cbn [entries]. rewrite put_lookup, Hp. destruct (decide _) as [[_ ?]|Hd]; [done|].
    destruct o; [destruct Hd; by split|]. rewrite <- Hp. rewrite <- (delete_own _ _ _ _ _ _ _ _ Hwf).
    apply lookup_delete_eq. }
  assert ((∀ c', c < c' <= w → entries (N p c k o l r) !! (c', kpre key c') = None) →
    (∃ p0 pr c1, found' = Some (p0, pr) ∧ 0 <= c1 <= w ∧ entries (N p c k o l r) !! (c1, kpre key c1) = Some pr ∧
       ∀ c', c1 < c' <= w → entries (N p c k o l r) !! (c', kpre key c') = None) ∨
    (found' = found ∧ ∀ c1, 0 <= c1 <= w → entries (N p c k o l r) !! (c1, kpre key c1) = None)) as Hstop.
  { intros Hab. destruct o as [pr|]; [left; by exists p, pr, c|]. right. split; [done|]. intros c1 Hc1.
    destruct (Z.lt_trichotomy c1 c) as [?|[->|?]]; [eapply mismatch_lookup; eauto|done|apply Hab; lia]. }
  destruct (Z.eqb_spec c w) as [->|Hne]; [apply Hstop; lia|].
  assert (∀ c', c < c' <= w → entries (N p c k o l r) !! (c', kpre key c') =
    entries (if kbit key c then r else l) !! (c', kpre key c')) as Hch by (intros; by eapply child_lookup).
  assert ((∃ p0 pr c1, t_find key (if kbit key c then r else l) found' = Some (p0, pr) ∧ 0 <= c1 <= w ∧
      entries (if kbit key c then r else l) !! (c1, kpre key c1) = Some pr ∧
      ∀ c', c1 < c' <= w → entries (if kbit key c then r else l) !! (c', kpre key c') = None) ∨
    (t_find key (if kbit key c then r else l) found' = found' ∧
     ∀ c1, 0 <= c1 <= w → entries (if kbit key c then r else l) !! (c1, kpre key c1) = None)) as IH.
  { pose proof (wf_children _ _ _ _ _ _ _ _ (kbit key c) Hwf) as Hw. destruct (kbit key c); eauto. }
  destruct IH as [(p1 & pr1 & c1 & Hf & Hc1 & He & Hab)|[Hf Hab]].
  - left. exists p1, pr1, c1. assert (c < c1).
    { pose proof (entries_extend _ _ _ _ _ (wf_children _ _ _ _ _ _ _ _ (kbit key c) Hwf) He) as [Hx _]. cbn in Hx. lia. }
    split_and!; [done|lia|lia|by rewrite Hch by lia|]. intros c' Hc'. rewrite Hch by lia. by apply Hab.
  - rewrite Hf. apply Hstop. intros c' Hc'. rewrite Hch by done. apply Hab. lia.
Qed.

(** ** Size and height *)

Fixpoint count (T : tree) : nat :=
  match T with E => 0 | N _ _ _ _ l r => S (count l + count r) end.

Lemma size_put q o m : m !! q = None → size (put q o m) = (size m + (if o then 1 else 0))%nat.
Proof. intros Hq. destruct o; cbn [put]; [rewrite map_size_insert_None by done|]; lia. Qed.

Lemma entries_disj c0 x0 p c k o l r : wf c0 x0 (N p c k o l r) → entries l ##ₘ entries r.
Proof.
  intros Hwf. apply map_disjoint_spec. intros q a b Ha Hb.
  apply (entries_extend _ _ _ _ _ (wf_children _ _ _ _ _ _ _ _ false Hwf)) in Ha.
  apply (entries_extend _ _ _ _ _ (wf_children _ _ _ _ _ _ _ _ true Hwf)) in Hb.
  by pose proof (extends_sides _ _ _ _ _ Ha Hb).
Qed.

Lemma count_bound c0 x0 T : wf c0 x0 T → T ≠ E → (S (count T) <= 2 * size (entries T))%nat.
Proof.
  revert c0 x0. induction T as [|p c k o l IHl r IHr]; intros c0 x0 Hwf HE; [done|].
  pose proof (entries_disj _ _ _ _ _ _ _ _ Hwf) as Hd.
  assert (size (entries (N p c k o l r)) = size (entries l) + size (entries r) + (if o then 1 else 0))%nat as ->.
  { cbn [entries]. rewrite size_put; [by rewrite map_size_disj_union|].
    rewrite <- (delete_own _ _ _ _ _ _ _ _ Hwf). apply lookup_delete_eq. }
  destruct Hwf as (_ & _ & _ & _ & Hl & Hr & Hn).
  assert (∀ T : tree, T = E ∨ T ≠ E) as HD by (intros [|]; [by left|by right]).
  assert (count l <= 2 * size (entries l) ∧ count r <= 2 * size (entries r))%nat as [H1 H2].
  { split; [destruct (HD l) as [->|HE']|destruct (HD r) as [->|HE']]; [cbn; lia| |cbn; lia|].
    - specialize (IHl _ _ Hl HE'). lia.
    - specialize (IHr _ _ Hr HE'). lia. }
  cbn [count]. destruct o; [lia|]. destruct (Hn eq_refl) as [HEl HEr].
  specialize (IHl _ _ Hl HEl). specialize (IHr _ _ Hr HEr). lia.
Qed.

Lemma height_bound c0 x0 T : wf c0 x0 T → c0 <= w + 1 → Z.of_nat (height T) <= w + 1 - c0.
Proof.
  revert c0 x0. induction T as [|p c k o l IHl r IHr]; intros c0 x0 Hwf Hc; cbn [height]; [lia|].
  destruct Hwf as (_ & H0 & Hw & _ & Hl & Hr & _). specialize (IHl _ _ Hl ltac:(lia)). specialize (IHr _ _ Hr ltac:(lia)). lia.
Qed.
End tree.
