(* ===== verification/AllowedIPsHeap.v ===== *)
(** * The allowed-IPs trie: the heap represents a tree

    [cells] are the heap cells of a tree of AllowedIPsTree.v at a slot; [repr]
    says that a state consists of exactly the cells of its two trees and that the
    peers' lists hold exactly the nodes with that peer.  [focus] is the state
    seen from a path with a hole, where each heap write of [add] and
    [remove_node] is one rewrite of the cells. *)
From S2P Require Import Prelude AllowedIPs AllowedIPsKeys AllowedIPsTree.

Abbreviation cell := (nat * allowedips_node)%type.

Definition low (s : slot) : Z := match s with S_root _ => 2 | S_bit _ b => Z.b2z b end.

Definition raw_node (v : bool) (s : slot) (lo c : Z) (k : bytes) (pr l r : option nat) : allowedips_node :=
  mk_node pr l r c (Z.lxor (c / 8) ((width v / 8 - 1) mod 8)) (7 - c mod 8) (width v) k s lo.
Definition tree_node (v : bool) (s : slot) := raw_node v s (low s).

Fixpoint cells (v : bool) (s : slot) (T : tree) : list cell :=
  match T with
  | E => []
  | N p c k pr l r =>
    (p, tree_node v s c k pr (ptr l) (ptr r)) :: cells v (S_bit p false) l ++ cells v (S_bit p true) r
  end.

Definition slot_of (v : bool) (C : ctx) : slot :=
  match C with [] => S_root v | f :: _ => S_bit (f_p f) (f_side f) end.

Definition frame_node (v : bool) (s : slot) (f : frame) (o : option nat) : allowedips_node :=
  tree_node v s (f_c f) (f_k f) (f_pr f)
    (if f_side f then ptr (f_sib f) else o) (if f_side f then o else ptr (f_sib f)).

(** The cells of a path whose hole holds the pointer [o]. *)
Fixpoint ctx_cells (v : bool) (C : ctx) (o : option nat) : list cell :=
  match C with
  | [] => []
  | f :: C =>
    (f_p f, frame_node v (slot_of v C) f o) :: cells v (S_bit (f_p f) (negb (f_side f))) (f_sib f) ++
    ctx_cells v C (Some (f_p f))
  end.

Fixpoint ctx_root (C : ctx) (o : option nat) : option nat :=
  match C with [] => o | f :: C => ctx_root C (Some (f_p f)) end.

Fixpoint owners (T : tree) : list (nat * nat) :=
  match T with
  | E => []
  | N p _ _ o l r => (match o with Some pr => [(p, pr)] | None => [] end) ++ owners l ++ owners r
  end.

Fixpoint ctx_owners (C : ctx) : list (nat * nat) :=
  match C with
  | [] => []
  | f :: C => (match f_pr f with Some pr => [(f_p f, pr)] | None => [] end) ++ owners (f_sib f) ++ ctx_owners C
  end.

Definition cells_of (m : gmap nat allowedips_node) (l : list cell) : Prop :=
  NoDup l.*1 ∧ m = list_to_map l.

Definition rootp (t : allowedips) (v : bool) : option nat := if v then root6 t else root4 t.

Definition plist (pl : gmap nat (list nat)) (pr : nat) : list nat := default [] (pl !! pr).

Definition lists_ok (pl : gmap nat (list nat)) (O : list (nat * nat)) : Prop :=
  ∀ pr, NoDup (plist pl pr) ∧ ∀ p, p ∈ plist pl pr ↔ (p, pr) ∈ O.

(** [T] is the tree of family [v], [T'] that of the other family. *)
Record repr (t : allowedips) (v : bool) (T T' : tree) : Prop := {
  r_root : rootp t v = ptr T;
  r_other : rootp t (negb v) = ptr T';
  r_cells : cells_of (nodes t) (cells v (S_root v) T ++ cells (negb v) (S_root (negb v)) T');
  r_lists : lists_ok (peer_lists t) (owners T ++ owners T');
}.

Record focus (t : allowedips) (v : bool) (C : ctx) (o R : option nat) (l : list cell) : Prop := {
  fo_root : rootp t v = ctx_root C o;
  fo_other : rootp t (negb v) = R;
  fo_cells : cells_of (nodes t) (ctx_cells v C o ++ l);
}.

(** ** Cells *)

Lemma cells_of_perm m l l' : l ≡ₚ l' → cells_of m l → cells_of m l'.
Proof.
  intros Hp [Hn ->]. split; [by rewrite <- Hp|]. by apply list_to_map_proper.
Qed.

Lemma cells_of_lookup m l p n : cells_of m l → (p, n) ∈ l → m !! p = Some n.
Proof. intros [Hn ->] Hin. by apply elem_of_list_to_map_1. Qed.

Lemma cells_of_lookup_inv m l p n : cells_of m l → m !! p = Some n → (p, n) ∈ l.
Proof. intros [Hn ->] Hin. by apply elem_of_list_to_map_2. Qed.

Lemma cells_of_None m l p : cells_of m l → m !! p = None → p ∉ l.*1.
Proof. intros [Hn ->]. apply not_elem_of_list_to_map. Qed.

Lemma cells_of_alter m l p n f : cells_of m ((p, n) :: l) → cells_of (alter f p m) ((p, f n) :: l).
Proof. intros [Hn ->]. split; [done|]. cbn. by rewrite alter_insert_eq. Qed.

Lemma cells_of_delete m l p n : cells_of m ((p, n) :: l) → cells_of (delete p m) l.
Proof.
  intros [Hn ->]. apply NoDup_cons in Hn as [Hp Hn]. split; [done|]. cbn.
  apply delete_insert_id. by apply not_elem_of_list_to_map.
Qed.

Lemma cells_of_insert m l p n : cells_of m l → m !! p = None → cells_of (<[p := n]> m) ((p, n) :: l).
Proof.
  intros Hm Hp. pose proof (cells_of_None _ _ _ Hm Hp) as Hni. destruct Hm as [Hn ->].
  split; [|done]. by apply NoDup_cons.
Qed.

Lemma cells_plug v s f T :
  cells v s (plug f T) ≡ₚ
  (f_p f, frame_node v s f (ptr T)) :: cells v (S_bit (f_p f) (negb (f_side f))) (f_sib f) ++
  cells v (S_bit (f_p f) (f_side f)) T.
Proof. unfold plug, frame_node. destruct (f_side f); cbn [cells negb]; [done|]. by rewrite (Permutation_app_comm (cells _ _ T)). Qed.

Lemma cells_fill v C T :
  cells v (S_root v) (fill C T) ≡ₚ ctx_cells v C (ptr T) ++ cells v (slot_of v C) T.
Proof.
  revert T. induction C as [|f C IH]; intros T; cbn [fill ctx_cells slot_of]; [done|].
  rewrite IH, cells_plug. assert (ptr (plug f T) = Some (f_p f)) as -> by (unfold plug; by destruct (f_side f)).
  solve_Permutation.
Qed.

Lemma ctx_root_fill C T : ctx_root C (ptr T) = ptr (fill C T).
Proof.
  revert T. induction C as [|f C IH]; intros T; cbn [fill ctx_root]; [done|]. rewrite <- IH.
  f_equal. unfold plug. by destruct (f_side f).
Qed.

Lemma owners_fill C T : owners (fill C T) ≡ₚ owners T ++ ctx_owners C.
Proof.
  revert T. induction C as [|f C IH]; intros T; cbn [fill ctx_owners]; [by rewrite app_nil_r|].
  rewrite IH. unfold plug. destruct (f_side f); cbn [owners]; solve_Permutation.
Qed.

Lemma owners_cells v s T p pr : (p, pr) ∈ owners T → ∃ n, (p, n) ∈ cells v s T ∧ peer n = Some pr.
Proof.
  revert s. induction T as [|q c k o l IHl r IHr]; intros s; cbn [owners cells]; [by intros ?%not_elem_of_nil|].
  rewrite !elem_of_app. intros [H|[H|H]].
  - destruct o as [o|]; [|by apply not_elem_of_nil in H]. apply list_elem_of_singleton in H. simplify_eq.
    eexists. split; [by left|done].
  - destruct (IHl (S_bit q false) H) as (n & Hn & Hp). exists n. split; [|done]. right. apply elem_of_app. by left.
  - destruct (IHr (S_bit q true) H) as (n & Hn & Hp). exists n. split; [|done]. right. apply elem_of_app. by right.
Qed.

(** ** Writes seen from a hole *)

Lemma focus_perm t v C o R l l' : l ≡ₚ l' → focus t v C o R l → focus t v C o R l'.
Proof. intros Hp [H1 H2 H3]. split; [done..|]. eapply cells_of_perm; [|exact H3]. by rewrite Hp. Qed.

Lemma focus_swap t v C o x l : cells_of (nodes t) (ctx_cells v C o ++ x :: l) → cells_of (nodes t) (x :: ctx_cells v C o ++ l).
Proof. apply cells_of_perm. solve_Permutation. Qed.

Lemma focus_get t v C o R p n l : focus t v C o R ((p, n) :: l) → get_node t p = Some n.
Proof.
  intros [_ _ H]. eapply cells_of_lookup; [exact H|]. apply elem_of_app. right. by left.
Qed.

Lemma focus_set t v C o R p n l f :
  focus t v C o R ((p, n) :: l) → focus (set_node p f t) v C o R ((p, f n) :: l).
Proof.
  intros [H1 H2 H3]. split; [done..|]. cbn. eapply cells_of_perm; [|apply cells_of_alter, focus_swap, H3].
  solve_Permutation.
Qed.

Lemma focus_free t v C o R p n l :
  focus t v C o R ((p, n) :: l) → focus (kmem_cache_free p t) v C o R l.
Proof. intros [H1 H2 H3]. split; [done..|]. eapply cells_of_delete, focus_swap, H3. Qed.

Lemma focus_zalloc t v C o R p l :
  focus t v C o R l → nodes t !! p = None → focus (kmem_cache_zalloc p t) v C o R ((p, zeroed) :: l).
Proof.
  intros [H1 H2 H3] Hp. split; [done..|]. eapply cells_of_perm; [|apply cells_of_insert; [exact H3|exact Hp]].
  solve_Permutation.
Qed.

Lemma focus_list_add t v C o R l pr p : focus t v C o R l → focus (list_add_peer pr p t) v C o R l.
Proof. by intros [H1 H2 H3]. Qed.
Lemma focus_list_del t v C o R l p : focus t v C o R l → focus (list_del_node p t) v C o R l.
Proof. by intros [H1 H2 H3]. Qed.

Lemma frame_write v s f o o' : set_child (f_side f) o' (frame_node v s f o) = frame_node v s f o'.
Proof. unfold frame_node, set_child. by destruct (f_side f). Qed.

Lemma focus_write t v C o R l o' :
  focus t v C o R l → focus (write_slot (slot_of v C) o' t) v C o' R l.
Proof.
  intros [H1 H2 H3]. destruct C as [|f C]; cbn [slot_of].
  - destruct v; split; done.
  - split; [done..|]. cbn. rewrite <- (frame_write v _ f o o'). by apply cells_of_alter.
Qed.

Lemma focus_frame t v f C o R l :
  focus t v (f :: C) o R l →
  focus t v C (Some (f_p f)) R
    ((f_p f, frame_node v (slot_of v C) f o) :: cells v (S_bit (f_p f) (negb (f_side f))) (f_sib f) ++ l).
Proof. intros [H1 H2 H3]. split; [done..|]. eapply cells_of_perm; [|exact H3]. cbn [ctx_cells]. solve_Permutation. Qed.

Lemma repr_focus t v C T T' :
  repr t v (fill C T) T' →
  focus t v C (ptr T) (ptr T') (cells v (slot_of v C) T ++ cells (negb v) (S_root (negb v)) T').
Proof.
  intros [H1 H2 H3 _]. split; [by rewrite ctx_root_fill|done|].
  eapply cells_of_perm; [|exact H3]. rewrite cells_fill. solve_Permutation.
Qed.

Lemma focus_repr t v C T T' :
  focus t v C (ptr T) (ptr T') (cells v (slot_of v C) T ++ cells (negb v) (S_root (negb v)) T') →
  lists_ok (peer_lists t) (owners (fill C T) ++ owners T') → repr t v (fill C T) T'.
Proof.
  intros [H1 H2 H3] Hl. split; [by rewrite <- ctx_root_fill|done| |done].
  eapply cells_of_perm; [|exact H3]. rewrite cells_fill. solve_Permutation.
Qed.

Lemma repr_flip t v T T' : repr t v T T' → repr t (negb v) T' T.
Proof.
  intros [H1 H2 H3 H4]. split; [done|by rewrite negb_involutive| |].
  - rewrite negb_involutive. eapply cells_of_perm; [|exact H3]. solve_Permutation.
  - intros pr. destruct (H4 pr) as [Hn Hp]. split; [done|]. intros p. rewrite Hp, !elem_of_app. tauto.
Qed.

(** ** The peers' lists *)

Lemma lists_ok_ext pl O O' : (∀ x, x ∈ O ↔ x ∈ O') → lists_ok pl O → lists_ok pl O'.
Proof. intros He H pr. destruct (H pr) as [Hn Hp]. split; [done|]. intros p. by rewrite Hp, He. Qed.

Lemma lists_add pl O p pr :
  lists_ok pl O → (∀ pr', (p, pr') ∉ O) →
  lists_ok (<[pr := plist pl pr ++ [p]]> pl) ((p, pr) :: O).
Proof.
  intros H Hni pr'. destruct (H pr') as [Hn Hp]. unfold plist at 1 3. destruct (decide (pr = pr')) as [->|Hne].
  - rewrite lookup_insert_eq. cbn [default from_option id]. split.
    + apply NoDup_app. split_and!; [done| |apply NoDup_singleton]. intros x Hx ->%list_elem_of_singleton.
      apply Hp in Hx. by apply (Hni pr').
    + intros x. rewrite elem_of_app, list_elem_of_singleton, elem_of_cons, Hp. split; [intros [?| ->]; auto|].
      intros [?|?]; [right; by simplify_eq|by left].
  - rewrite lookup_insert_ne by done. split; [done|]. intros x. rewrite elem_of_cons. unfold plist in Hp. rewrite Hp.
    split; [auto|]. intros [?|?]; [by simplify_eq|done].
Qed.

Lemma lists_del pl O O' p :
  lists_ok pl O → (∀ x, x ∈ O' ↔ x ∈ O ∧ x.1 ≠ p) →
  lists_ok (fmap (fun l : list nat => filter (fun x => x ≠ p) l) pl) O'.
Proof.
  intros H HO pr. destruct (H pr) as [Hn Hp]. unfold plist in *. rewrite lookup_fmap.
  destruct (pl !! pr) as [l|]; cbn in *.
  - split; [by apply NoDup_filter|]. intros x. rewrite list_elem_of_filter, Hp, HO. cbn. tauto.
  - split; [done|]. intros x. rewrite HO, <- Hp. cbn. split; [by intros ?%not_elem_of_nil|].
    intros [?%not_elem_of_nil _]. done.
Qed.
