(* ===== verification/AllowedIPsProofs.v ===== *)
(** * The allowed-IPs trie: the operations on a represented heap

    On a state that represents a pair of trees ([repr] of AllowedIPsHeap.v),
    [find_node] and [node_placement] run to their end and agree with the tree,
    [add] gives a state for the tree with the prefix inserted or, when an
    allocation fails, for the same tree ([add_spec]), and [remove_node] one for
    the tree with the node's prefix deleted ([remove_node_spec]). *)
From S2P Require Import Prelude PeerLookup AllowedIPs AllowedIPsKeys AllowedIPsTree AllowedIPsHeap.

(** ** The tests of the code on a represented node *)

Lemma raw_node_ok v s lo c k pr a b :
  wf_key v k → 0 <= c <= width v → node_ok v (raw_node v s lo c k pr a b).
Proof. intros Hk Hc. by split. Qed.

Lemma raw_matches v s lo c k pr a b key :
  wf_key v k → 0 <= c <= width v → wf_key v key →
  prefix_matches (raw_node v s lo c k pr a b) key (width v) = bool_decide (kpre v k c = kpre v key c).
Proof. intros Hk Hc Hkey. apply (prefix_matches_spec v); [by apply raw_node_ok|done]. Qed.

Lemma raw_choose v s lo c k pr a b key :
  wf_key v k → 0 <= c < width v → wf_key v key →
  choose (raw_node v s lo c k pr a b) key = Some (kbit v key c).
Proof. intros Hk Hc Hkey. apply (choose_spec v); [apply raw_node_ok; [done|lia]|done|cbn; lia]. Qed.

Lemma tree_matches v s c k pr a b key :
  wf_key v k → 0 <= c <= width v → wf_key v key →
  prefix_matches (tree_node v s c k pr a b) key (width v) = bool_decide (kpre v k c = kpre v key c).
Proof. apply raw_matches. Qed.

Lemma tree_choose v s c k pr a b key :
  wf_key v k → 0 <= c < width v → wf_key v key →
  choose (tree_node v s c k pr a b) key = Some (kbit v key c).
Proof. apply raw_choose. Qed.

Lemma raw_common v s lo c k pr a b key m :
  wf_key v k → 0 <= c <= width v → wf_key v key → 0 <= m <= width v →
  m <= common_bits (raw_node v s lo c k pr a b) key (width v) ↔ kpre v k m = kpre v key m.
Proof.
  intros Hk Hc Hkey Hm. rewrite (common_bits_spec v) by (done || by apply raw_node_ok).
  apply common_prefix; [lia|by apply keyval_bound|by apply keyval_bound|done].
Qed.

Lemma raw_common_bound v s lo c k pr a b key :
  wf_key v k → 0 <= c <= width v → wf_key v key →
  0 <= common_bits (raw_node v s lo c k pr a b) key (width v) <= width v.
Proof.
  intros Hk Hc Hkey. rewrite (common_bits_spec v) by (done || by apply raw_node_ok).
  pose proof (keyval_bound v _ Hk) as B1. pose proof (keyval_bound v _ Hkey) as B2.
  pose proof (width_pos v). pose proof (lxor_bound (width v) _ _ ltac:(lia) B1 B2) as Bx.
  unfold nval. cbn [bits raw_node]. pose proof (fls_nonneg (Z.lxor (keyval v k) (keyval v key))).
  pose proof (proj2 (fls_le _ (width v) (proj1 Bx) ltac:(lia)) (proj2 Bx)). lia.
Qed.

(** ** Looking up *)

Definition reads (t : allowedips) (l : list cell) : Prop := ∀ p n, (p, n) ∈ l → get_node t p = Some n.

Lemma reads_node t v s p c k o l r :
  reads t (cells v s (N p c k o l r)) →
  get_node t p = Some (tree_node v s c k o (ptr l) (ptr r)) ∧
  ∀ b : bool, reads t (cells v (S_bit p b) (if b then r else l)).
Proof.
  intros H. split; [apply H; by left|]. intros b q n Hn. apply H. right. apply elem_of_app.
  destruct b; [by right|by left].
Qed.

Lemma wf_node v c0 x0 p c k o l r : wf v c0 x0 (N p c k o l r) → wf_key v k ∧ 0 <= c <= width v.
Proof. intros (? & ? & ? & _). split; [done|lia]. Qed.

Lemma child_tree v s p c k o l r b :
  child (tree_node v s c k o (ptr l) (ptr r)) b = ptr (if b then r else l) ∧
  (height (if b then r else l) < height (N p c k o l r))%nat.
Proof. destruct b; cbn; split; (done || lia). Qed.

Lemma find_node_spec t v key fuel s T c0 x0 found :
  reads t (cells v s T) → wf v c0 x0 T → wf_key v key → (height T < fuel)%nat →
  find_node fuel t (ptr T) (fst <$> found) (width v) key = Some (fst <$> t_find v key T found).
Proof.
  revert s T c0 x0 found. induction fuel as [|fuel IH]; intros s T c0 x0 found Hr Hwf Hkey Hf; [lia|].
  destruct T as [|p c k o l r]; [done|]. destruct (reads_node _ _ _ _ _ _ _ _ _ Hr) as [Hg Hrc].
  destruct (wf_node _ _ _ _ _ _ _ _ _ Hwf) as [Hk Hc]. cbn [find_node ptr t_find]. rewrite Hg. cbn [mbind option_bind].
  rewrite tree_matches by done. case_bool_decide as Hp; [|done].
  change (peer (tree_node v s c k o (ptr l) (ptr r))) with o. change (cidr (tree_node v s c k o (ptr l) (ptr r))) with c.
  assert ((if bool_decide (is_Some o) then Some p else fst <$> found) =
    fst <$> match o with Some pr => Some (p, pr) | None => found end) as ->.
  { destruct o; [by rewrite bool_decide_true|]. by rewrite bool_decide_false by (by intros [? ?]). }
  destruct (Z.eqb_spec c (width v)) as [_|Hne]; [done|].
  rewrite tree_choose by (done || lia). cbn [mbind option_bind].
  destruct (child_tree v s p c k o l r (kbit v key c)) as [-> Hh].
  pose proof (wf_children _ _ _ _ _ _ _ _ _ (kbit v key c) Hwf) as Hw. pose proof (Hrc (kbit v key c)) as Hrb.
  apply (IH (S_bit p (kbit v key c)) _ _ _ _ Hrb Hw Hkey). lia.
Qed.

Lemma t_find_owner v key T found p pr :
  t_find v key T found = Some (p, pr) → found = Some (p, pr) ∨ (p, pr) ∈ owners T.
Proof.
  revert found. induction T as [|q c k o l IHl r IHr]; intros found; cbn [t_find owners]; [by left|].
  case_bool_decide as Hp; [|by left]. rewrite !elem_of_app. intros H.
  assert (match o with Some pr => Some (q, pr) | None => found end = Some (p, pr) ∨
    (p, pr) ∈ owners l ∨ (p, pr) ∈ owners r) as [Ho|Ho]; [|destruct o as [pr'|]|by right; right].
  - destruct (c =? width v); [by left|]. destruct (kbit v key c); [destruct (IHr _ H)|destruct (IHl _ H)]; auto.
  - simplify_eq. right. left. by left.
  - by left.
Qed.

(** ** Placement *)

Definition path (v : bool) (C : ctx) (T : tree) : Prop := wf_ctx v C ∧ wf_hole v C T ∧ needs C T.

Definition bottom (C : ctx) : option nat := match C with [] => None | f :: _ => Some (f_p f) end.

Lemma path_step v C p c k o l r (b : bool) :
  path v C (N p c k o l r) → c < width v →
  path v (mk_frame b p c k o (if b then l else r) :: C) (if b then r else l).
Proof.
  intros (HC & HT & HN) Hc. pose proof HT as (Hk & H0 & Hw & Hx & Hl & Hr & Hn). split_and!.
  - cbn [wf_ctx f_c f_k f_side f_sib f_pr]. split_and!; try (done || lia).
    + pose proof (wf_children _ _ _ p _ _ o _ _ (negb b) HT) as Hb. by destruct b.
    + intros Ho. destruct (Hn Ho). by destruct b.
  - exact (wf_children _ _ _ p _ _ o _ _ b HT).
  - cbn [needs f_pr]. intros Ho. destruct (Hn Ho). by destruct b.
Qed.

Lemma fill_step C p c k o l r (b : bool) :
  fill (mk_frame b p c k o (if b then l else r) :: C) (if b then r else l) = fill C (N p c k o l r).
Proof. by destruct b. Qed.

Inductive placed (v : bool) (key : bytes) (c : Z) (C : ctx) : tree -> option nat * bool -> Prop :=
| placed_exact p k o l r : kpre v k c = kpre v key c → placed v key c C (N p c k o l r) (Some p, true)
| placed_empty : placed v key c C E (bottom C, false)
| placed_above p c1 k o l r :
    ¬ (c1 <= c ∧ kpre v k c1 = kpre v key c1) → placed v key c C (N p c1 k o l r) (bottom C, false).

Lemma placement_loop_spec t v key c fuel s C T :
  reads t (cells v s T) → path v C T → belongs v C key c → (height T < fuel)%nat →
  ∃ C' T' res, placement_loop fuel t (ptr T) (bottom C) (width v) key c = Some res ∧
    fill C' T' = fill C T ∧ path v C' T' ∧ belongs v C' key c ∧ placed v key c C' T' res.
Proof.
  revert s C T. induction fuel as [|fuel IH]; intros s C T Hr HP Hb Hf; [lia|].
  destruct T as [|p c1 k o l r]; cbn [placement_loop ptr].
  { exists C, E, (bottom C, false). split; [done|]. split; [done|]. split; [done|]. split; [done|constructor]. }
  destruct (reads_node _ _ _ _ _ _ _ _ _ Hr) as [Hg Hrc]. pose proof HP as (HC & HT & HN).
  destruct (wf_node _ _ _ p _ _ o _ _ HT) as [Hk Hc]. pose proof Hb as (Hkey & Hcc & Hx).
  rewrite Hg. cbn [mbind option_bind]. rewrite tree_matches by done.
  change (cidr (tree_node v s c1 k o (ptr l) (ptr r))) with c1.
  destruct (Z.leb_spec c1 c) as [Hle|Hgt]; cbn [andb]; [case_bool_decide as Hp|].
  - destruct (Z.eqb_spec c1 c) as [->|Hne].
    { exists C, (N p c k o l r), (Some p, true). split_and!; try done. by constructor. }
    rewrite tree_choose by (done || lia). cbn [mbind option_bind].
    set (b := kbit v key c1) in *. destruct (child_tree v s p c1 k o l r b) as [-> Hh].
    pose proof (path_step v C p c1 k o l r b HP ltac:(lia)) as HP'.
    assert (belongs v (mk_frame b p c1 k o (if b then l else r) :: C) key c) as Hb'.
    { split_and!; [done|cbn; lia|lia|]. cbn [hole f_c f_k f_side fst snd].
      rewrite kpre_step by lia. by rewrite Hp. }
    destruct (IH (S_bit p b) _ _ (Hrc b) HP' Hb' ltac:(lia)) as (C' & T' & res & He & Hfill & Hrest).
    exists C', T', res. split; [exact He|]. split; [|exact Hrest]. by rewrite Hfill, fill_step.
  - exists C, (N p c1 k o l r), (bottom C, false). split_and!; try done. constructor. tauto.
  - exists C, (N p c1 k o l r), (bottom C, false). split_and!; try done. constructor. lia.
Qed.

(** ** Connecting nodes *)

Lemma write_slot_lists s o t : peer_lists (write_slot s o t) = peer_lists t.
Proof. by destruct s as [[]|]. Qed.

Lemma connect_spec t v C o R l p s lo c k pr a b :
  focus t v C o R ((p, raw_node v s lo c k pr a b) :: l) →
  let t' := connect_node (slot_of v C) (low (slot_of v C)) p t in
  focus t' v C (Some p) R ((p, tree_node v (slot_of v C) c k pr a b) :: l) ∧ peer_lists t' = peer_lists t.
Proof.
  intros H t'. split; [|by unfold t', connect_node; rewrite write_slot_lists].
  eapply focus_write. exact (focus_set _ _ _ _ _ _ _ _ _ H).
Qed.

(** [down] or the new node under a node that is not in the trie yet. *)
Lemma link_spec t v C o R l p s lo c k pr a b d s' lo' c' k' pr' a' b' :
  focus t v C o R ((p, raw_node v s lo c k pr a b) :: (d, raw_node v s' lo' c' k' pr' a' b') :: l) →
  wf_key v k → wf_key v k' → 0 <= c < width v →
  let e := kbit v k' c in
  ∃ t', choose_and_connect_node p d t = Some t' ∧ peer_lists t' = peer_lists t ∧
    focus t' v C o R ((p, raw_node v s lo c k pr (if e then a else Some d) (if e then Some d else b)) ::
                      (d, tree_node v (S_bit p e) c' k' pr' a' b') :: l).
Proof.
  intros H Hk Hk' Hc e. pose proof (focus_get _ _ _ _ _ _ _ _ H) as Hp.
  pose proof (focus_perm _ _ _ _ _ _ _ (Permutation_swap _ _ _) H) as H'.
  pose proof (focus_get _ _ _ _ _ _ _ _ H') as Hd. unfold choose_and_connect_node. rewrite Hp, Hd. cbn [mbind option_bind].
  change (bits (raw_node v s' lo' c' k' pr' a' b')) with k'. rewrite raw_choose by done. cbn [mbind option_bind].
  eexists. split; [done|]. split; [by unfold connect_node; rewrite write_slot_lists|].
  apply (focus_set _ _ _ _ _ d _ _ (fun n => n <| parent_slot := S_bit p e |> <| parent_low := Z.b2z e |>)) in H'.
  pose proof (focus_perm _ _ _ _ _ _ _ (Permutation_swap _ _ _) H') as H2.
  pose proof (focus_set _ _ _ _ _ p _ _ (set_child e (Some d)) H2) as H3. fold e. by destruct e.
Qed.

Lemma belongs_side v f C key c : wf_ctx v (f :: C) → belongs v (f :: C) key c → kbit v key (f_c f) = f_side f.
Proof.
  intros (HC & Hk & H0 & Hw & Hx & _) (Hkey & Hc & Hp). cbn [hole fst snd] in *.
  rewrite kpre_step in Hp by lia. destruct (kbit v key (f_c f)), (f_side f); cbn [Z.b2z] in Hp; lia || done.
Qed.

(** What [add] reads through the parent that placement found. *)
Lemma parent_reads t v f C o R l key c :
  focus t v (f :: C) o R l → wf_ctx v (f :: C) → belongs v (f :: C) key c →
  ∃ pn, get_node t (f_p f) = Some pn ∧ choose pn key = Some (f_side f) ∧ child pn (f_side f) = o.
Proof.
  intros [_ _ H] HC Hb. exists (frame_node v (slot_of v C) f o). split_and!.
  - eapply cells_of_lookup; [exact H|]. by left.
  - unfold frame_node. rewrite tree_choose; [by rewrite (belongs_side v f C key c)|by apply HC| |by apply Hb].
    destruct HC as (_ & _ & ? & ? & _). lia.
  - unfold frame_node. by destruct (f_side f).
Qed.

Lemma attach_spec t v C o R l p s lo c k pr a b :
  focus t v C o R ((p, raw_node v s lo c k pr a b) :: l) → wf_ctx v C → belongs v C k c →
  ∃ t', attach v (bottom C) p t = Some t' ∧ peer_lists t' = peer_lists t ∧
    focus t' v C (Some p) R ((p, tree_node v (slot_of v C) c k pr a b) :: l).
Proof.
  intros H HC Hb. destruct (connect_spec _ _ _ _ _ _ _ _ _ _ _ _ _ _ H) as [H1 H2].
  destruct C as [|f C]; cbn [attach bottom]; [by eexists|].
  destruct (parent_reads _ _ _ _ _ _ _ k c H HC Hb) as (pn & Hg & Hch & _).
  unfold choose_and_connect_node. rewrite Hg. cbn [mbind option_bind]. rewrite (focus_get _ _ _ _ _ _ _ _ H).
  cbn [mbind option_bind]. change (bits (raw_node v s lo c k pr a b)) with k. rewrite Hch. cbn [mbind option_bind].
  by eexists.
Qed.

Lemma new_node_spec t v C o R l key c pr p :
  focus t v C o R l → nodes t !! p = None → wf_key v key →
  focus (new_node v key c pr p t) v C o R ((p, raw_node v (S_root false) 0 c key (Some pr) None None) :: l) ∧
  peer_lists (new_node v key c pr p t) = <[pr := plist (peer_lists t) pr ++ [p]]> (peer_lists t).
Proof.
  intros H Hp Hk. split; [|done]. unfold new_node.
  pose proof (focus_zalloc _ _ _ _ _ _ _ H Hp) as H1.
  apply (focus_set _ _ _ _ _ p _ _ (fun n => n <| peer := Some pr |>)) in H1.
  apply (focus_list_add _ _ _ _ _ _ pr p) in H1.
  apply (focus_set _ _ _ _ _ p _ _ (fun n => copy_and_assign_cidr n key c (width v))) in H1.
  replace (raw_node v (S_root false) 0 c key (Some pr) None None)
    with (copy_and_assign_cidr (zeroed <| peer := Some pr |>) key c (width v)); [exact H1|].
  unfold copy_and_assign_cidr, raw_node. cbn. rewrite take_ge; [done|]. by rewrite (proj1 Hk).
Qed.

(** ** Owners of fresh and of unique pointers *)

Lemma ctx_owners_cells v C o p pr : (p, pr) ∈ ctx_owners C → ∃ n, (p, n) ∈ ctx_cells v C o.
Proof.
  revert o. induction C as [|f C IH]; intros o; cbn [ctx_owners ctx_cells]; [by intros ?%not_elem_of_nil|].
  rewrite !elem_of_app. intros [H|[H|H]].
  - destruct (f_pr f); [|by apply not_elem_of_nil in H]. apply list_elem_of_singleton in H. simplify_eq.
    eexists. by left.
  - destruct (owners_cells v (S_bit (f_p f) (negb (f_side f))) _ _ _ H) as (n & Hn & _). exists n. right. apply elem_of_app. by left.
  - destruct (IH (Some (f_p f)) H) as (n & Hn). exists n. right. apply elem_of_app. by right.
Qed.

Lemma repr_fresh t v T T' p pr : repr t v T T' → nodes t !! p = None → (p, pr) ∉ owners T ++ owners T'.
Proof.
  intros [_ _ Hc _] Hp. rewrite elem_of_app. intros Hin.
  assert (∃ n, (p, n) ∈ cells v (S_root v) T ++ cells (negb v) (S_root (negb v)) T') as [n Hn].
  { destruct Hin as [Hin|Hin]; [destruct (owners_cells v (S_root v) _ _ _ Hin) as (n & Hn & _)|
      destruct (owners_cells (negb v) (S_root (negb v)) _ _ _ Hin) as (n & Hn & _)];
      exists n; apply elem_of_app; auto. }
  rewrite (cells_of_lookup _ _ _ _ Hc Hn) in Hp. done.
Qed.

Definition other_owners (C : ctx) (l r T' : tree) : list (nat * nat) :=
  owners l ++ owners r ++ ctx_owners C ++ owners T'.

Lemma repr_unique t v C T' p c k o l r pr :
  repr t v (fill C (N p c k o l r)) T' → (p, pr) ∉ other_owners C l r T'.
Proof.
  intros H Hin. destruct (repr_focus _ _ _ _ _ H) as [_ _ [Hnd _]]. cbn [cells] in Hnd.
  assert (∃ n, (p, n) ∈ ctx_cells v C (Some p) ++ cells v (S_bit p false) l ++ cells v (S_bit p true) r ++
    cells (negb v) (S_root (negb v)) T') as [n Hn].
  { unfold other_owners in Hin. rewrite !elem_of_app in Hin. destruct Hin as [Hin|[Hin|[Hin|Hin]]].
    - destruct (owners_cells v (S_bit p false) _ _ _ Hin) as (n & Hn & _). exists n. set_solver.
    - destruct (owners_cells v (S_bit p true) _ _ _ Hin) as (n & Hn & _). exists n. set_solver.
    - destruct (ctx_owners_cells v _ (Some p) _ _ Hin) as (n & Hn). exists n. set_solver.
    - destruct (owners_cells (negb v) (S_root (negb v)) _ _ _ Hin) as (n & Hn & _). exists n. set_solver. }
  cbn [ptr] in Hnd.
  match type of Hnd with NoDup (fst <$> (?a ++ (?x :: ?b ++ ?c') ++ ?d)) =>
    assert (a ++ (x :: b ++ c') ++ d ≡ₚ x :: a ++ b ++ c' ++ d) as Hperm by solve_Permutation end.
  rewrite Hperm in Hnd. apply NoDup_cons in Hnd as [Hni _]. apply Hni. cbn [fst].
  apply list_elem_of_fmap. by exists (p, n).
Qed.

Lemma node_owners C T' p c k o l r x :
  x ∈ owners (fill C (N p c k o l r)) ++ owners T' ↔
  x ∈ (match o with Some pr => [(p, pr)] | None => [] end) ∨ x ∈ other_owners C l r T'.
Proof. unfold other_owners. rewrite owners_fill. cbn [owners]. rewrite !elem_of_app. tauto. Qed.

Lemma repr_lists_del t v C T' p c k o l r :
  repr t v (fill C (N p c k o l r)) T' →
  lists_ok (peer_lists (list_del_node p t)) (other_owners C l r T').
Proof.
  intros H. apply (lists_del _ _ _ _ (r_lists _ _ _ _ H)). intros [q pr]. cbn [fst].
  pose proof (repr_unique _ _ _ _ _ _ _ _ _ _ pr H) as Hu. rewrite node_owners. split.
  - intros Hin. split; [by right|]. intros ->. done.
  - intros [[Hin|Hin] Hne]; [|done]. destruct o; [|by apply not_elem_of_nil in Hin].
    apply list_elem_of_singleton in Hin. by simplify_eq.
Qed.

(** ** Adding *)

Definition added (t' : allowedips) (v : bool) (T T' : tree) (q : prefix) (pr : nat) : Prop :=
  ∃ T1, repr t' v T1 T' ∧ wf v 0 0 T1 ∧ entries v T1 = <[q := pr]> (entries v T).

Section add.
Context (t : allowedips) (v : bool) (C : ctx) (T T' : tree) (key : bytes) (c : Z) (pr p : nat).
Hypothesis Hrepr : repr t v (fill C T) T'.
Hypothesis Hpath : path v C T.
Hypothesis Hkey : belongs v C key c.
Hypothesis Hfresh : nodes t !! p = None.

Let q : prefix := (c, kpre v key c).
Let others := cells (negb v) (S_root (negb v)) T'.

Lemma fresh_lists :
  lists_ok (<[pr := plist (peer_lists t) pr ++ [p]]> (peer_lists t)) ((p, pr) :: owners (fill C T) ++ owners T').
Proof using Hrepr Hfresh.
  apply lists_add; [apply Hrepr|]. intros pr'. by eapply repr_fresh.
Qed.

Lemma added_new t' T1 :
  focus t' v C (ptr T1) (ptr T') (cells v (slot_of v C) T1 ++ others) →
  peer_lists t' = <[pr := plist (peer_lists t) pr ++ [p]]> (peer_lists t) →
  owners T1 ≡ₚ (p, pr) :: owners T → T1 ≠ E →
  wf_hole v C T1 ∧ entries v T1 = <[q := pr]> (entries v T) → added t' v (fill C T) T' q pr.
Proof using Hrepr Hpath Hfresh.
  intros Hf Hl Ho HE [Hw He]. destruct Hpath as (HC & HT & HN). exists (fill C T1).
  destruct (fill_insert v C T T1 q pr HC HT HN Hw HE He) as [Hwf Hent]. split; [|done].
  apply focus_repr; [done|]. rewrite Hl. eapply lists_ok_ext; [|exact fresh_lists].
  intros x. rewrite !owners_fill, Ho, !elem_of_app, !elem_of_cons, !elem_of_app. tauto.
Qed.

(** The cells after the new node has been made. *)
Let leaf := raw_node v (S_root false) 0 c key (Some pr) None None.
Let t1 := new_node v key c pr p t.

Lemma focus_new : focus t1 v C (ptr T) (ptr T') ((p, leaf) :: cells v (slot_of v C) T ++ others).
Proof using Hrepr Hkey Hfresh.
  apply new_node_spec; [by apply repr_focus|done|apply Hkey].
Qed.

Lemma add_leaf_spec : T = E → added (connect_node (slot_of v C) (low (slot_of v C)) p t1) v (fill C T) T' q pr.
Proof using All.
  intros HE. destruct (connect_spec _ _ _ _ _ _ _ _ _ _ _ _ _ _ focus_new) as [H1 H2].
  apply (added_new _ (N p c key (Some pr) E E)); [|by rewrite H2|by rewrite HE|done|].
  - by rewrite HE in H1.
  - rewrite HE. apply insert_leaf; [apply Hpath|done].
Qed.

Lemma add_undo : repr (kmem_cache_free p (list_del_node p t1)) v (fill C T) T'.
Proof using All.
  apply focus_repr.
  - eapply focus_free, focus_list_del, focus_new.
  - change (peer_lists (kmem_cache_free p (list_del_node p t1))) with
      (fmap (fun l : list nat => filter (fun x => x ≠ p) l) (peer_lists t1)).
    eapply lists_del; [exact fresh_lists|]. intros [x y]. rewrite elem_of_cons. cbn [fst].
    pose proof (repr_fresh _ _ _ _ _ y Hrepr Hfresh) as Hn. split; [|by intros [[?|?] ?]; [simplify_eq|]].
    intros Hx. split; [by right|]. intros ->. done.
Qed.

Context (d : nat) (cd : Z) (kd : bytes) (od : option nat) (l r : tree).
Hypothesis HT : T = N d cd kd od l r.
Hypothesis Hnot : ¬ (cd <= c ∧ kpre v kd cd = kpre v key cd).

Let dn := tree_node v (slot_of v C) cd kd od (ptr l) (ptr r).

Lemma down_cells : ∃ rest, cells v (slot_of v C) T = (d, dn) :: rest ∧
  ∀ s, cells v s T = (d, tree_node v s cd kd od (ptr l) (ptr r)) :: rest.
Proof using HT. rewrite HT. by eexists. Qed.

Lemma down_facts : wf_key v kd ∧ 0 <= cd <= width v ∧ (hole v C).1 <= cd ∧ 0 <= (hole v C).1 ∧
  kpre v kd (hole v C).1 = (hole v C).2.
Proof using Hpath HT.
  destruct Hpath as (HC & Hw & _). rewrite HT in Hw. destruct Hw as (? & ? & ? & ? & _). split_and!; (done || lia).
Qed.

Lemma common_facts :
  let m := common_bits dn key (width v) in
  (hole v C).1 <= m <= width v ∧ kpre v kd m = kpre v key m ∧ (m < width v → kpre v kd (m + 1) ≠ kpre v key (m + 1)) ∧
  (m < cd ∨ c < cd).
Proof using Hpath Hkey HT Hnot.
  intros m. destruct down_facts as (Hkd & Hcd & Hh & H0 & Hx). destruct Hkey as (Hk & Hc & Hkx).
  pose proof (raw_common_bound v (slot_of v C) (low (slot_of v C)) cd kd od (ptr l) (ptr r) key Hkd Hcd Hk) as Hb.
  pose proof (raw_common v (slot_of v C) (low (slot_of v C)) cd kd od (ptr l) (ptr r) key) as Hm.
  fold (tree_node v (slot_of v C) cd kd od (ptr l) (ptr r)) in Hb, Hm. fold dn m in Hb, Hm. split_and!.
  - apply (Hm _ Hkd Hcd Hk); [lia|congruence].
  - lia.
  - by apply (Hm _ Hkd Hcd Hk).
  - intros Hlt He. apply (Hm _ Hkd Hcd Hk) in He; lia.
  - destruct (Z.lt_ge_cases m cd); [by left|]. right. destruct (Z.lt_ge_cases c cd); [done|]. destruct Hnot.
    split; [done|]. by apply (Hm _ Hkd Hcd Hk).
Qed.

(** [down] goes under the new node. *)
Lemma add_over_spec :
  c < cd → kpre v kd c = kpre v key c →
  ∃ t2 t3, choose_and_connect_node p d t1 = Some t2 ∧ attach v (bottom C) p t2 = Some t3 ∧
    added t3 v (fill C T) T' q pr.
Proof using All.
  intros Hlt Hpc. destruct down_facts as (Hkd & Hcd & Hh & H0 & Hx). pose proof Hkey as (Hk & Hc & Hkx).
  pose proof Hpath as (HC & Hw & HN). destruct down_cells as (rest & Hcells & Hcells').
  pose proof focus_new as Hf. rewrite Hcells in Hf. cbn [app] in Hf.
  destruct (link_spec _ _ _ _ _ _ _ _ _ _ _ _ _ _ _ _ _ _ _ _ _ _ Hf Hk Hkd ltac:(lia)) as (t2 & E2 & Hl2 & Hf2).
  destruct (attach_spec _ _ _ _ _ _ _ _ _ _ _ _ _ _ Hf2 HC Hkey) as (t3 & E3 & Hl3 & Hf3).
  exists t2, t3. split; [done|]. split; [done|].
  pose proof (insert_over v C p c key pr d cd kd od l r HC Hkey Hlt Hpc ltac:(by rewrite <- HT)) as Hins.
  rewrite <- HT in Hins. eapply added_new; [| | | |exact Hins].
  - unfold plug. cbn [f_side f_p f_c f_k f_pr f_sib]. rewrite HT in Hcells'.
    destruct (kbit v kd c); cbn [ptr cells app]; rewrite HT, Hcells', ?app_nil_r; exact Hf3.
  - rewrite Hl3, Hl2. done.
  - rewrite HT. unfold plug. cbn [f_side f_p f_c f_k f_pr f_sib]. destruct (kbit v kd c); cbn [owners app]; [done|].
    by rewrite app_nil_r.
  - unfold plug. cbn. by destruct (kbit v kd c).
Qed.

(** The intermediate node of [add]. *)
Lemma focus_mid x m rest :
  nodes t !! x = None → x ≠ p → cells v (slot_of v C) T = (d, dn) :: rest →
  focus (set_node x (fun n => copy_and_assign_cidr n key m (width v)) (kmem_cache_zalloc x t1)) v C (ptr T) (ptr T')
    ((x, raw_node v (S_root false) 0 m key None None None) :: (d, dn) :: (p, leaf) :: rest ++ others).
Proof using Hrepr Hkey Hfresh.
  intros Hx Hxp Hcells. pose proof focus_new as Hf. rewrite Hcells in Hf. cbn [app] in Hf.
  apply (focus_perm _ _ _ _ _ _ _ (Permutation_swap _ _ _)) in Hf.
  assert (nodes t1 !! x = None) as Hx1.
  { unfold t1, new_node. cbn. by rewrite !lookup_alter_ne, lookup_insert_ne by done. }
  apply (focus_zalloc _ _ _ _ _ x) in Hf; [|done].
  apply (focus_set _ _ _ _ _ x _ _ (fun n => copy_and_assign_cidr n key m (width v))) in Hf.
  replace (raw_node v (S_root false) 0 m key None None None) with (copy_and_assign_cidr zeroed key m (width v)); [exact Hf|].
  unfold copy_and_assign_cidr, raw_node. cbn. rewrite take_ge; [done|]. destruct Hkey as ([Hl _] & _). by rewrite Hl.
Qed.

(** [down] and the new node go under an intermediate node. *)
Lemma add_fork_spec x m :
  nodes t !! x = None → x ≠ p → (hole v C).1 <= m → m < c → m < cd →
  kpre v kd m = kpre v key m → kpre v kd (m + 1) ≠ kpre v key (m + 1) →
  let t2 := set_node x (fun n => copy_and_assign_cidr n key m (width v)) (kmem_cache_zalloc x t1) in
  ∃ t3 t4 t5, choose_and_connect_node x d t2 = Some t3 ∧ choose_and_connect_node x p t3 = Some t4 ∧
    attach v (bottom C) x t4 = Some t5 ∧ added t5 v (fill C T) T' q pr.
Proof using All.
  intros Hx Hxp Hhm Hmc Hmd Hpm Hdiff t2. destruct down_facts as (Hkd & Hcd & Hh & H0 & Hxx).
  pose proof Hkey as (Hk & Hc & Hkx). pose proof Hpath as (HC & Hw & HN). destruct down_cells as (rest & Hcells & Hcells').
  pose proof (focus_mid x m rest Hx Hxp Hcells) as Hf. fold t2 in Hf.
  destruct (link_spec _ _ _ _ _ _ _ _ _ _ _ _ _ _ _ _ _ _ _ _ _ _ Hf Hk Hkd ltac:(lia)) as (t3 & E3 & Hl3 & Hf3).
  pose proof (focus_perm _ _ _ _ _ _ _ (perm_skip _ (perm_swap _ _ _)) Hf3) as Hf3'.
  destruct (link_spec _ _ _ _ _ _ _ _ _ _ _ _ _ _ _ _ _ _ _ _ _ _ Hf3' Hk Hk ltac:(lia)) as (t4 & E4 & Hl4 & Hf4).
  destruct (attach_spec _ _ _ _ _ _ _ _ _ _ _ _ _ _ Hf4 HC ltac:(split_and!; (done || lia))) as (t5 & E5 & Hl5 & Hf5).
  exists t3, t4, t5. split; [done|]. split; [done|]. split; [done|].
  pose proof (insert_split v C x p m c key pr d cd kd od l r HC Hkey Hhm Hmc Hmd Hpm Hdiff ltac:(by rewrite <- HT)) as Hins.
  rewrite <- HT in Hins. pose proof (kpre_fork v kd key m ltac:(lia) Hpm Hdiff) as Hbit.
  eapply added_new; [| | | |exact Hins].
  - unfold plug. cbn [f_side f_p f_c f_k f_pr f_sib]. rewrite Hbit in Hf5 |- *.
    assert (rest = cells v (S_bit d false) l ++ cells v (S_bit d true) r) as Hrest
      by (rewrite HT in Hcells; by injection Hcells).
    rewrite HT. rewrite Hrest in Hf5.
    destruct (kbit v key m); cbn [ptr cells app negb] in *; (eapply focus_perm; [|exact Hf5]); solve_Permutation.
  - rewrite Hl5, Hl4, Hl3. done.
  - rewrite HT. unfold plug. cbn [f_side f_p f_c f_k f_pr f_sib]. destruct (kbit v kd m); cbn [owners app]; [done|].
    solve_Permutation.
  - unfold plug. cbn. by destruct (kbit v kd m).
Qed.

Lemma add_split_spec alloc2 :
  (∀ x, alloc2 = Some x → nodes t !! x = None ∧ x ≠ p) →
  ∃ t' res, add_split t1 v (Z.min c (common_bits dn key (width v))) (bottom C) d p alloc2 = Some (t', res) ∧
    (res = 0 ∧ added t' v (fill C T) T' q pr ∨ res = - ENOMEM ∧ alloc2 = None ∧ repr t' v (fill C T) T').
Proof using All.
  intros Ha2. destruct common_facts as (Hmb & Hpm & Hdiff & Hor). set (m := common_bits dn key (width v)) in *.
  pose proof Hkey as (Hk & Hc & Hkx). destruct down_facts as (_ & _ & _ & H0 & _).
  unfold add_split. rewrite (focus_get _ _ _ _ _ _ _ _ focus_new). cbn [mbind option_bind]. change (cidr leaf) with c.
  destruct (Z.eqb_spec c (Z.min c m)) as [Hcm|Hcm].
  - assert (kpre v kd c = kpre v key c) as Hpc by (apply (pre_eq_le _ _ _ m); [lia|lia|done]).
    destruct (add_over_spec ltac:(lia) Hpc) as (t2 & t3 & -> & E3 & Hadd). cbn [mbind option_bind].
    rewrite E3. cbn [mbind option_bind]. exists t3, 0. split; [done|]. by left.
  - destruct alloc2 as [x|]; [|by eexists _, _; split; [done|right; split_and!; [done|done|apply add_undo]]].
    destruct (Ha2 x eq_refl) as [Hfx Hxp]. assert (Z.min c m = m) as -> by lia.
    destruct (add_fork_spec x m Hfx Hxp ltac:(lia) ltac:(lia) ltac:(lia) Hpm ltac:(apply Hdiff; lia))
      as (t3 & t4 & t5 & E3 & E4 & E5 & Hadd).
    cbv zeta. change (bits leaf) with key. rewrite E3. cbn [mbind option_bind]. rewrite E4. cbn [mbind option_bind].
    rewrite E5. cbn [mbind option_bind]. exists t5, 0. split; [done|]. by left.
Qed.
End add.

Lemma add_exact_spec t v C p c k0 key o pr l r T' :
  repr t v (fill C (N p c k0 o l r)) T' → path v C (N p c k0 o l r) → kpre v k0 c = kpre v key c →
  added (list_add_peer pr p (list_del_node p (set_node p (fun n => n <| peer := Some pr |>) t))) v
    (fill C (N p c k0 o l r)) T' (c, kpre v key c) pr.
Proof.
  intros Hr (HC & HT & HN) Hp. exists (fill C (N p c k0 (Some pr) l r)).
  destruct (insert_exact v C p c key k0 o pr l r HT Hp) as [Hw He].
  destruct (fill_insert v C _ _ _ _ HC HT HN Hw ltac:(done) He) as [Hwf Hent]. split; [|done].
  apply focus_repr.
  - apply focus_list_add, focus_list_del. cbn [ptr cells app].
    pose proof (focus_set _ _ _ _ _ p _ _ (fun n => n <| peer := Some pr |>) (repr_focus _ _ _ _ _ Hr)) as Hf.
    exact Hf.
  - eapply lists_ok_ext; [|apply (lists_add _ (other_owners C l r T') p pr)].
    + intros x. rewrite (node_owners C T' p c k0 (Some pr)), elem_of_cons, list_elem_of_singleton. tauto.
    + exact (repr_lists_del _ _ _ _ _ _ _ _ _ _ Hr).
    + intros pr'. by eapply repr_unique.
Qed.

Lemma repr_reads t v T T' : repr t v T T' → reads t (cells v (S_root v) T).
Proof. intros [_ _ Hc _] p n Hn. eapply cells_of_lookup; [exact Hc|]. apply elem_of_app. by left. Qed.

Lemma wf_fuel v T : wf v 0 0 T → (height T < lookup_fuel)%nat.
Proof. intros Hw. pose proof (height_bound v 0 0 T Hw). destruct v; cbn [width] in *; unfold lookup_fuel; lia. Qed.

Lemma top_belongs v key c : wf_key v key → 0 <= c <= width v → belongs v [] key c.
Proof. intros Hk Hc. split_and!; [done|cbn; lia|lia|]. apply pre_0; [lia|by apply keyval_bound]. Qed.

Lemma node_placement_spec t v T T' key c :
  repr t v T T' → wf v 0 0 T → wf_key v key → 0 <= c <= width v →
  ∃ C T1 res, node_placement t (ptr T) key c (width v) = Some res ∧ T = fill C T1 ∧ path v C T1 ∧
    belongs v C key c ∧ placed v key c C T1 res.
Proof.
  intros Hr Hw Hk Hc.
  destruct (placement_loop_spec t v key c lookup_fuel (S_root v) [] T (repr_reads _ _ _ _ Hr)) as
    (C & T1 & res & He & Hfill & Hrest); [by split_and!|by apply top_belongs|by eapply wf_fuel|].
  exists C, T1, res. split; [exact He|]. split; [by rewrite Hfill|exact Hrest].
Qed.

Lemma fill_E_inv C T : fill C T = E → C = [] ∧ T = E.
Proof.
  revert T. induction C as [|f C IH]; intros T H; [done|]. cbn in H. apply IH in H as [_ H].
  unfold plug in H. by destruct (f_side f).
Qed.

Definition fresh_allocs (t : allowedips) (alloc1 alloc2 : option nat) : Prop :=
  (∀ p, alloc1 = Some p → nodes t !! p = None) ∧
  (∀ p, alloc2 = Some p → nodes t !! p = None ∧ alloc1 ≠ Some p).

Lemma add_spec t v T T' key c pr alloc1 alloc2 :
  repr t v T T' → wf v 0 0 T → wf_key v key → 0 <= c <= width v → fresh_allocs t alloc1 alloc2 →
  ∃ t' res, add t v key c (Some pr) alloc1 alloc2 = Some (t', res) ∧
    (res = 0 ∧ added t' v T T' (c, kpre v key c) pr ∨
     res = - ENOMEM ∧ (alloc1 = None ∨ alloc2 = None) ∧ repr t' v T T').
Proof.
  intros Hr Hw Hk Hc [Ha1 Ha2]. unfold add. destruct (Z.ltb_spec (width v) c); [lia|]. cbn [read_slot].
  change (if v then root6 t else root4 t) with (rootp t v). rewrite (r_root _ _ _ _ Hr). cbn [mbind option_bind].
  destruct (ptr T) as [d0|] eqn:ET.
  2:{ destruct T; [|done]. destruct alloc1 as [p|]; [|eexists _, _; split; [done|right; auto]].
      eexists _, _. split; [done|]. left. split; [done|].
      apply (add_leaf_spec t v [] E T' key c pr p Hr); [by split_and!|by apply top_belongs|by apply Ha1|done]. }
  rewrite <- ET. destruct (node_placement_spec t v T T' key c Hr Hw Hk Hc) as (C & T1 & res & -> & -> & HP & Hb & Hpl).
  cbn [mbind option_bind]. destruct Hpl as [p k o l r Hp| |d cd k o l r Hno].
  - eexists _, _. split; [done|]. left. split; [done|]. by apply add_exact_spec.
  - destruct alloc1 as [p|]; [|eexists _, _; split; [done|right; auto]].
    destruct C as [|f C]; [done|]. cbn [bottom].
    pose proof (focus_new t v (f :: C) E T' key c pr p Hr Hb (Ha1 p eq_refl)) as Hf. cbn [ptr] in Hf.
    destruct (parent_reads _ _ _ _ _ _ _ key c Hf (proj1 HP) Hb) as (pn & Hg & Hch & Hcp).
    cbv zeta. rewrite Hg. cbn [mbind option_bind]. rewrite Hch. cbn [mbind option_bind]. rewrite Hcp.
    eexists _, _. split; [done|]. left. split; [done|].
    exact (add_leaf_spec t v (f :: C) E T' key c pr p Hr HP Hb (Ha1 p eq_refl) eq_refl).
  - destruct alloc1 as [p|]; [|eexists _, _; split; [done|right; auto]].
    destruct (add_split_spec t v C _ T' key c pr p Hr HP Hb (Ha1 p eq_refl) d cd k o l r eq_refl Hno alloc2) as
      (t' & res & He & Hres).
    { intros x Hx. destruct (Ha2 x Hx) as [? Hne]. split; [done|]. congruence. }
    pose proof (focus_new t v C _ T' key c pr p Hr Hb (Ha1 p eq_refl)) as Hf.
    pose proof (focus_perm _ _ _ _ _ _ _ (Permutation_swap _ _ _) Hf) as Hf'.
    pose proof (focus_get _ _ _ _ _ _ _ _ Hf') as Hd. cbn [ptr] in Hf. cbv zeta.
    exists t', res. split; [|destruct Hres as [?|(? & ? & ?)]; auto].
    destruct C as [|f C]; cbn [bottom] in *.
    + cbn [fill ptr mbind option_bind]. rewrite Hd. cbn [mbind option_bind]. exact He.
    + destruct (parent_reads _ _ _ _ _ _ _ key c Hf (proj1 HP) Hb) as (pn & Hg & Hch & Hcp).
      rewrite Hg. cbn [mbind option_bind]. rewrite Hch. cbn [mbind option_bind]. rewrite Hcp, Hd. cbn [mbind option_bind]. exact He.
Qed.

(** ** Removing *)

Definition removed (t t' : allowedips) (v : bool) (T T' : tree) (q : prefix) (p : nat) : Prop :=
  peer_lists t' = peer_lists (list_del_node p t) ∧
  ∃ T1, repr t' v T1 T' ∧ wf v 0 0 T1 ∧ entries v T1 = delete q (entries v T).

(** A tree moved to another slot. *)
Definition move_root (T : tree) (s : slot) (lo : Z) (t : allowedips) : allowedips :=
  match ptr T with
  | None => t
  | Some d => set_node d (fun m => m <| parent_slot := s |> <| parent_low := lo |>) t
  end.

Lemma focus_move t v C o R T s s' l :
  focus t v C o R (cells v s T ++ l) → focus (move_root T s' (low s') t) v C o R (cells v s' T ++ l).
Proof.
  intros H. destruct T as [|d c k pr a b]; [exact H|]. cbn [cells app move_root ptr] in *.
  exact (focus_set _ _ _ _ _ d _ _ (fun m => m <| parent_slot := s' |> <| parent_low := low s' |>) H).
Qed.

Lemma move_root_lists T s lo t : peer_lists (move_root T s lo t) = peer_lists t.
Proof. by destruct T. Qed.

Section remove.
Context (t : allowedips) (v : bool) (C : ctx) (T' : tree) (p : nat) (c : Z) (k : bytes) (o : option nat) (l r : tree).
Hypothesis Hrepr : repr t v (fill C (N p c k o l r)) T'.
Hypothesis Hpath : path v C (N p c k o l r).

Let q : prefix := (c, kpre v k c).
Let others := cells (negb v) (S_root (negb v)) T'.
Let t1 := set_node p (fun n => n <| peer := None |>) (list_del_node p t).

Lemma removed_lists t' T1 :
  peer_lists t' = peer_lists t1 → (∀ x, x ∈ owners T1 ++ owners T' ↔ x ∈ other_owners C l r T') →
  lists_ok (peer_lists t') (owners T1 ++ owners T').
Proof using Hrepr.
  intros Hl Ho. rewrite Hl. eapply lists_ok_ext; [|exact (repr_lists_del _ _ _ _ _ _ _ _ _ _ Hrepr)].
  intros x. by rewrite Ho.
Qed.

Lemma focus_cleared :
  focus t1 v C (Some p) (ptr T')
    ((p, tree_node v (slot_of v C) c k None (ptr l) (ptr r)) ::
     (cells v (S_bit p false) l ++ cells v (S_bit p true) r) ++ others).
Proof using Hrepr.
  pose proof (repr_focus _ _ _ _ _ Hrepr) as Hf. cbn [cells app ptr] in Hf.
  apply (focus_list_del _ _ _ _ _ _ p) in Hf.
  exact (focus_set _ _ _ _ _ p _ _ (fun n => n <| peer := None |>) Hf).
Qed.

Lemma remove_keep_spec : l ≠ E → r ≠ E → removed t t1 v (fill C (N p c k o l r)) T' q p.
Proof using Hrepr Hpath.
  intros Hl Hr. split; [done|]. exists (fill C (N p c k None l r)). destruct Hpath as (HC & HT & HN).
  destruct (remove_keep v C p c k o l r HT Hl Hr) as [Hw He].
  destruct (fill_delete v C _ _ q HC HT HN Hw) as [Hwf Hent];
    [by destruct C; [|intros _]|by eapply node_extends|done|].
  split; [|done]. apply focus_repr; [exact focus_cleared|]. apply removed_lists; [done|].
  intros x. rewrite (node_owners C T' p c k None). split; [intros [?%not_elem_of_nil|?]; done|by right].
Qed.

(** The child takes the node's place. *)
Context (b : bool).
Hypothesis Hempty : (if b then l else r) = E.
Let ch := if b then r else l.
Let t2 := write_slot (slot_of v C) (ptr ch) (move_root ch (slot_of v C) (low (slot_of v C)) t1).

Lemma focus_lifted :
  focus t2 v C (ptr ch) (ptr T')
    (cells v (slot_of v C) ch ++ (p, tree_node v (slot_of v C) c k None (ptr l) (ptr r)) :: others).
Proof using Hrepr Hempty.
  eapply focus_write, focus_move. eapply focus_perm; [|exact focus_cleared]. unfold ch.
  destruct b; rewrite Hempty; cbn [cells app]; rewrite ?app_nil_r; solve_Permutation.
Qed.

Lemma lifted_lists : peer_lists t2 = peer_lists t1.
Proof using. unfold t2. by rewrite write_slot_lists, move_root_lists. Qed.

Lemma lifted_owners x : x ∈ other_owners C l r T' ↔ x ∈ owners ch ++ ctx_owners C ++ owners T'.
Proof using t v p Hempty. unfold other_owners, ch. destruct b; rewrite Hempty; cbn [owners app]; done. Qed.

Lemma remove_lift_spec :
  needs C ch → removed t (kmem_cache_free p t2) v (fill C (N p c k o l r)) T' q p.
Proof using Hrepr Hpath Hempty.
  intros Hneed. split; [exact lifted_lists|]. exists (fill C ch). destruct Hpath as (HC & HT & HN).
  destruct (remove_lift v C p c k o l r b HT Hempty) as [Hw He]. fold ch in Hw, He.
  destruct (fill_delete v C _ _ q HC HT HN Hw Hneed) as [Hwf Hent]; [by eapply node_extends|done|].
  split; [|done]. apply focus_repr.
  - eapply focus_free, focus_perm; [|exact focus_lifted]. fold others. solve_Permutation.
  - apply removed_lists; [exact lifted_lists|]. intros x. rewrite lifted_owners, owners_fill, !elem_of_app. tauto.
Qed.
End remove.

(** A leaf under a node without a peer: the sibling takes the parent's place. *)
Lemma remove_collapse_spec t v f C T' p c k o :
  repr t v (fill (f :: C) (N p c k o E E)) T' → path v (f :: C) (N p c k o E E) → f_pr f = None →
  let t1 := set_node p (fun n => n <| peer := None |>) (list_del_node p t) in
  let t2 := write_slot (slot_of v (f :: C)) None t1 in
  let t3 := move_root (f_sib f) (slot_of v C) (low (slot_of v C)) (kmem_cache_free p t2) in
  removed t (kmem_cache_free (f_p f) (write_slot (slot_of v C) (ptr (f_sib f)) t3)) v
    (fill (f :: C) (N p c k o E E)) T' (c, kpre v k c) p.
Proof.
  intros Hr HP Hn t1 t2 t3. pose proof (focus_lifted t v (f :: C) T' p c k o E E Hr true eq_refl) as Hf.
  cbn [ptr move_root] in Hf. fold t1 t2 in Hf. cbn [cells app] in Hf.
  apply focus_free, focus_frame in Hf.
  assert (focus (kmem_cache_free p t2) v C (Some (f_p f)) (ptr T')
    (cells v (S_bit (f_p f) (negb (f_side f))) (f_sib f) ++
     (f_p f, frame_node v (slot_of v C) f None) :: cells (negb v) (S_root (negb v)) T')) as Hf2.
  { eapply focus_perm; [|exact Hf]. solve_Permutation. }
  apply (focus_move _ _ _ _ _ _ _ (slot_of v C)) in Hf2. fold t3 in Hf2.
  apply (focus_write _ _ _ _ _ _ (ptr (f_sib f))) in Hf2.
  assert (peer_lists (kmem_cache_free (f_p f) (write_slot (slot_of v C) (ptr (f_sib f)) t3)) = peer_lists t1) as Hl.
  { cbn. rewrite write_slot_lists. unfold t3. by rewrite move_root_lists. }
  split; [exact Hl|]. exists (fill C (f_sib f)).
  destruct (remove_collapse v C f p c k o (proj1 HP) Hn (proj1 (proj2 HP))) as [Hwf He]. split; [|done].
  apply focus_repr.
  - eapply focus_free, focus_perm; [|exact Hf2]. solve_Permutation.
  - eapply (removed_lists t v (f :: C) T' p c k o E E Hr); [exact Hl|]. intros x. unfold other_owners.
    rewrite owners_fill. cbn [ctx_owners owners]. rewrite Hn. cbn [app]. rewrite !elem_of_app. tauto.
Qed.

Lemma ptr_is_Some T : bool_decide (is_Some (ptr T)) = negb (bool_decide (ptr T = None)).
Proof. destruct T; [done|]. by rewrite bool_decide_true, bool_decide_false. Qed.

Lemma remove_node_spec t v C T' p c k o l r :
  repr t v (fill C (N p c k o l r)) T' → path v C (N p c k o l r) →
  ∃ t', remove_node t p = Some t' ∧ removed t t' v (fill C (N p c k o l r)) T' (c, kpre v k c) p.
Proof.
  intros Hr HP. pose proof (focus_get _ _ _ _ _ _ _ _ (repr_focus _ _ _ _ _ Hr)) as Hg.
  unfold remove_node. rewrite Hg. cbn [mbind option_bind tree_node raw_node bit0 bit1 parent_slot parent_low].
  set (t1 := set_node p (fun n => n <| peer := None |>) (list_del_node p t)). rewrite !ptr_is_Some.
  destruct (negb (bool_decide (ptr l = None)) && negb (bool_decide (ptr r = None))) eqn:Hboth.
  { eexists. split; [done|]. apply remove_keep_spec; [done|done|..].
    - intros ->. by rewrite (bool_decide_true (ptr E = None)) in Hboth.
    - intros ->. by rewrite (bool_decide_true (ptr E = None)), andb_false_r in Hboth. }
  set (b := bool_decide (ptr l = None)). assert ((if b then l else r) = E) as Hb.
  { unfold b. by destruct l, r. }
  assert (child (tree_node v (slot_of v C) c k o (ptr l) (ptr r)) b = ptr (if b then r else l)) as ->
    by (by destruct b).
  set (ch := if b then r else l) in *.
  change (match ptr ch with
     | Some d => set_node d (fun m => m <| parent_slot := slot_of v C |> <| parent_low := low (slot_of v C) |>) t1
     | None => t1 end) with (move_root ch (slot_of v C) (low (slot_of v C)) t1).
  set (t2 := write_slot (slot_of v C) (ptr ch) (move_root ch (slot_of v C) (low (slot_of v C)) t1)).
  pose proof (remove_lift_spec t v C T' p c k o l r Hr HP b Hb) as Hlift. fold ch t1 t2 in Hlift.
  destruct C as [|f C]; cbn [slot_of] in *; [eexists; split; [done|by apply Hlift]|].
  pose proof (focus_lifted t v (f :: C) T' p c k o l r Hr b Hb) as Hf. fold ch t1 in Hf. cbn [slot_of] in Hf. fold t2 in Hf.
  rewrite (focus_get _ _ _ _ _ _ _ _ (focus_frame _ _ _ _ _ _ _ Hf)). cbn [mbind option_bind].
  change (peer (frame_node v (slot_of v C) f (ptr ch))) with (f_pr f).
  assert (low (S_bit (f_p f) (f_side f)) <=? 1 = true) as -> by (by destruct (f_side f)). rewrite andb_true_r.
  destruct (b && bool_decide (ptr r = None) && bool_decide (f_pr f = None)) eqn:Hc.
  - apply andb_prop in Hc as [Hc Hn%bool_decide_eq_true]. apply andb_prop in Hc as [Hl%bool_decide_eq_true Hr'%bool_decide_eq_true].
    destruct l; [|done]. destruct r; [|done]. assert (ch = E) as Hch by (unfold ch; by destruct b).
    pose proof (remove_collapse_spec t v f C T' p c k o Hr HP Hn) as Hcol. unfold t2. rewrite Hch.
    eexists. split; [|exact Hcol]. unfold frame_node, child. cbn [slot_of]. by destruct (f_side f).
  - eexists. split; [done|]. apply Hlift. intros Hn HE. unfold ch, b in *. destruct l, r; try done.
    + by rewrite Hn in Hc.
Qed.
