(* ===== verification/AllowedIPsSpec.v ===== *)
(** * The allowed-IPs trie: correctness

    [represents t m]: the heap [t] is a well-formed trie that holds the prefixes
    of the map [m].  The theorems: insertion and removal never follow a bad
    pointer or read outside a key, keep the representation and insert into and
    delete from the map ([allowedips_insert_spec], [allowedips_remove_spec],
    [allowedips_remove_by_peer_spec]); [lookup] returns the peer of the longest
    prefix of the address ([allowedips_lookup_longest]); a trie of n prefixes has
    at most 2n - 1 nodes ([allowedips_node_bound]); the explicit stack of the
    free walk is deep enough and everything is freed ([allowedips_free_spec]);
    reading a peer's nodes back gives exactly its prefixes
    ([allowedips_read_nodes]). *)
From S2P Require Import Prelude PeerLookup AllowedIPs AllowedIPsKeys AllowedIPsTree AllowedIPsHeap AllowedIPsProofs.

(** The abstract table: for each family the peers of its prefixes. *)
Abbreviation ptable := (bool -> gmap prefix nat).

Definition set_family (v : bool) (f : gmap prefix nat -> gmap prefix nat) (m : ptable) : ptable :=
  fun u => if bool_decide (u = v) then f (m u) else m u.

Definition prefix_of (v : bool) (ip : bytes) (c : Z) : prefix := (c, pre (width v) (be_combine ip) c).

Definition represents (t : allowedips) (m : ptable) : Prop :=
  ∃ T T', repr t false T T' ∧ wf false 0 0 T ∧ wf true 0 0 T' ∧ entries false T = m false ∧ entries true T' = m true.

(** The state seen from family [v]. *)
Definition represents_at (v : bool) (t : allowedips) (T T' : tree) (m : ptable) : Prop :=
  repr t v T T' ∧ wf v 0 0 T ∧ wf (negb v) 0 0 T' ∧ entries v T = m v ∧ entries (negb v) T' = m (negb v).

Lemma represents_view v t m : represents t m ↔ ∃ T T', represents_at v t T T' m.
Proof.
  unfold represents, represents_at. destruct v; cbn [negb]; [|done].
  split; intros (T & T' & Hr & H); exists T', T; apply repr_flip in Hr; cbn [negb] in Hr; tauto.
Qed.

Lemma represents_set v t T T' m T1 t' f :
  represents_at v t T T' m → repr t' v T1 T' → wf v 0 0 T1 → entries v T1 = f (entries v T) →
  represents t' (set_family v f m).
Proof.
  intros (_ & _ & Hw' & He & He') Hr Hw1 He1. apply (represents_view v). exists T1, T'. split_and!; try done.
  - unfold set_family. rewrite bool_decide_true by done. by rewrite He1, He.
  - unfold set_family. by rewrite bool_decide_false by (by destruct v).
Qed.

Lemma represents_same v t T T' m t' : represents_at v t T T' m → repr t' v T T' → represents t' m.
Proof. intros (_ & Hw & Hw' & He & He') Hr. apply (represents_view v). by exists T, T'. Qed.

Lemma repr_bump t v T T' : repr t v T T' → repr (bump_seq t) v T T'.
Proof. by intros [H1 H2 H3 H4]. Qed.

Lemma represents_at_bump t v T T' m : represents_at v t T T' m → represents_at v (bump_seq t) T T' m.
Proof. intros (H & ?). split; [by apply repr_bump|done]. Qed.

Lemma kpre_addr v ip c : wf_addr v ip → (c, kpre v (swap_endian ip (width v)) c) = prefix_of v ip c.
Proof. intros Hip. unfold kpre, prefix_of. by rewrite swap_endian_val. Qed.

(** ** Removal *)

Lemma placed_lookup v key c C T res :
  path v C T → belongs v C key c → placed v key c C T res →
  entries v (fill C T) !! (c, kpre v key c) =
  match T, res with N _ _ _ o _ _, (_, true) => o | _, _ => None end.
Proof.
  intros (HC & HT & HN) (Hk & Hc & Hx) Hp. pose proof (hole_nonneg v C HC) as H0.
  rewrite (entries_fill v) by done. rewrite lookup_union.
  assert (extends v (hole v C).1 (hole v C).2 (c, kpre v key c)) as Hext by (rewrite <- Hx; apply kpre_extends; lia).
  rewrite (ctx_entries_hole v C _ HC Hext), option_union_right_id.
  destruct Hp as [p k o l r He| |p c1 k o l r Hno]; [|done|].
  - cbn [entries]. rewrite put_lookup, He. destruct (decide _) as [[_ ?]|Hd]; [done|].
    destruct o; [destruct Hd; by split|]. rewrite <- He, <- (delete_own v _ _ p c k None l r HT). apply lookup_delete_eq.
  - eapply (mismatch_lookup v); [exact HT|]. destruct (decide (kpre v k c1 = kpre v key c1)); [right|by left].
    destruct (Z.lt_ge_cases c c1); [done|]. destruct Hno. split; [lia|done].
Qed.

Lemma remove_spec v t T T' m key c pr :
  represents_at v t T T' m → wf_key v key → 0 <= c <= width v →
  ∃ t', remove t v key c (Some pr) = Some (t', 0) ∧
    represents t' (if decide (m v !! (c, kpre v key c) = Some pr)
                   then set_family v (delete (c, kpre v key c)) m else m).
Proof.
  intros Hm Hk Hc. pose proof Hm as (Hr & Hw & _ & He & _). unfold remove. destruct (Z.ltb_spec (width v) c); [lia|].
  cbn [read_slot]. change (if v then root6 t else root4 t) with (rootp t v). rewrite (r_root _ _ _ _ Hr).
  cbn [mbind option_bind]. rewrite <- He. case_bool_decide as HE.
  { destruct T; [|done]. exists t. split; [done|]. rewrite decide_False by done. by eapply represents_same. }
  destruct (node_placement_spec t v T T' key c Hr Hw Hk Hc) as (C & T1 & res & -> & -> & HP & Hb & Hpl).
  cbn [mbind option_bind]. pose proof (placed_lookup v key c C T1 res HP Hb Hpl) as Hlook.
  destruct Hpl as [p k o l r Hp| |d cd k o l r Hno]; cbn [negb]; rewrite Hlook;
    [|by exists t; (split; [done|]); rewrite decide_False by done; eapply represents_same..].
  cbn [mbind option_bind]. rewrite (focus_get _ _ _ _ _ _ _ _ (repr_focus _ _ _ _ _ Hr)). cbn [mbind option_bind].
  change (peer (tree_node v (slot_of v C) c k o (ptr l) (ptr r))) with o.
  case_bool_decide as Ho; [|exists t; split; [done|]; rewrite decide_False by congruence; by eapply represents_same].
  destruct (remove_node_spec t v C T' p c k o l r Hr HP) as (t' & -> & _ & T1 & Hr' & Hw' & He'). cbn [mbind option_bind].
  exists t'. split; [done|]. rewrite decide_True by done. rewrite Hp in He'. by eapply represents_set.
Qed.

(** ** Removing a peer *)

Lemma owner_path v p pr T C :
  path v C T → (p, pr) ∈ owners T →
  ∃ C' c k l r, fill C' (N p c k (Some pr) l r) = fill C T ∧ path v C' (N p c k (Some pr) l r).
Proof.
  revert C. induction T as [|q c k o l IHl r IHr]; intros C HP Hin; [by apply not_elem_of_nil in Hin|].
  assert (∀ b : bool, (p, pr) ∈ owners (if b then r else l) → c < width v) as Hlt.
  { intros b Hb. destruct HP as (_ & HT & _). pose proof (wf_children _ _ _ q _ _ o _ _ b HT) as Hch.
    destruct (if b then r else l); [by apply not_elem_of_nil in Hb|]. destruct Hch as (_ & ? & ? & _). lia. }
  cbn [owners] in Hin. rewrite !elem_of_app in Hin. destruct Hin as [Hin|[Hin|Hin]].
  - destruct o; [|by apply not_elem_of_nil in Hin]. apply list_elem_of_singleton in Hin. simplify_eq.
    by exists C, c, k, l, r.
  - destruct (IHl _ (path_step v C q c k o l r false HP (Hlt false Hin)) Hin) as (C' & c' & k' & l' & r' & Hf & HP').
    exists C', c', k', l', r'. split; [|done]. rewrite Hf. apply (fill_step C q c k o l r false).
  - destruct (IHr _ (path_step v C q c k o l r true HP (Hlt true Hin)) Hin) as (C' & c' & k' & l' & r' & Hf & HP').
    exists C', c', k', l', r'. split; [|done]. rewrite Hf. apply (fill_step C q c k o l r true).
Qed.

Lemma entries_owner v T q pr : entries v T !! q = Some pr → ∃ p, (p, pr) ∈ owners T.
Proof.
  induction T as [|p c k o l IHl r IHr]; cbn [entries owners]; [done|]. rewrite put_lookup.
  destruct (decide _) as [_|_].
  - intros ->. exists p. rewrite elem_of_app. left. by left.
  - intros [Hl|[_ Hr]]%lookup_union_Some_raw; [destruct (IHl Hl) as [p' ?]|destruct (IHr Hr) as [p' ?]];
      exists p'; rewrite !elem_of_app; auto.
Qed.

(** The prefix of a node on a peer's list. *)
Lemma owner_entry v T p pr : wf v 0 0 T → (p, pr) ∈ owners T →
  ∃ C c k l r, T = fill C (N p c k (Some pr) l r) ∧ path v C (N p c k (Some pr) l r) ∧
    entries v T !! (c, kpre v k c) = Some pr.
Proof.
  intros Hw Hin. destruct (owner_path v p pr T [] ltac:(by split_and!) Hin) as (C & c & k & l & r & Hf & HP).
  cbn [fill] in Hf. exists C, c, k, l, r. split; [done|]. split; [done|]. rewrite <- Hf.
  rewrite (placed_lookup v k c C _ (Some p, true) HP); [done| |by constructor].
  destruct HP as (_ & (? & ? & ? & ? & _) & _). split_and!; (done || lia).
Qed.

Definition drop_peer (pr : nat) (m : ptable) : ptable := fun u => filter (fun x => x.2 ≠ pr) (m u).

Lemma represents_ext t m m' : (∀ u, m u = m' u) → represents t m → represents t m'.
Proof. intros H (T & T' & ?). exists T, T'. by rewrite <- !H. Qed.

Lemma drop_peer_delete v q pr m u :
  m v !! q = Some pr → drop_peer pr (set_family v (delete q) m) u = drop_peer pr m u.
Proof.
  intros Hq. unfold drop_peer, set_family. case_bool_decide as Hu; [|done]. subst u.
  rewrite map_filter_delete. apply delete_id. apply map_lookup_filter_None. right. intros x Hx. rewrite Hq in Hx.
  simplify_eq. cbn. tauto.
Qed.

(** A node on a peer's list is in one of the trees. *)
Lemma list_owner t m p pr :
  represents t m → p ∈ plist (peer_lists t) pr → ∃ v T T', represents_at v t T T' m ∧ (p, pr) ∈ owners T.
Proof.
  intros (T & T' & Hr & Hrest) Hp. destruct (r_lists _ _ _ _ Hr pr) as [_ Hin].
  apply Hin, elem_of_app in Hp as [Ho|Ho]; [by exists false, T, T'|]. exists true, T', T. split; [|done].
  split; [exact (repr_flip _ _ _ _ Hr)|]. cbn. tauto.
Qed.

Lemma remove_nodes_spec pr l t m :
  represents t m → plist (peer_lists t) pr = l →
  ∃ t', remove_nodes l t = Some t' ∧ represents t' (drop_peer pr m) ∧ plist (peer_lists t') pr = [].
Proof.
  revert t m. induction l as [|p l IH]; intros t m Hm Hl; cbn [remove_nodes].
  { exists t. split; [done|]. split; [|done]. eapply represents_ext; [|exact Hm]. intros u. symmetry.
    unfold drop_peer. apply map_filter_id. intros q x Hx. cbn. intros ->.
    apply (represents_view u) in Hm as (T & T' & Hr & _ & _ & He & _). rewrite <- He in Hx.
    apply entries_owner in Hx as [p Hp]. destruct (r_lists _ _ _ _ Hr pr) as [_ Hin].
    specialize (Hin p). rewrite Hl, elem_of_app in Hin. destruct Hin as [_ Hin]. by destruct (not_elem_of_nil p (Hin (or_introl Hp))). }
  destruct (list_owner t m p pr Hm) as (v & T & T' & Hat & Hown); [rewrite Hl; by left|].
  pose proof Hat as (Hr & Hw & _ & He & _).
  destruct (owner_entry v T p pr Hw Hown) as (C & c & k & l' & r' & HT & HP & Hent). subst T.
  destruct (remove_node_spec t v C T' p c k (Some pr) l' r' Hr HP) as (t1 & -> & Hl1 & T1 & Hr1 & Hw1 & He1).
  cbn [mbind option_bind]. pose proof (represents_set v t _ T' m T1 t1 _ Hat Hr1 Hw1 He1) as Hm1.
  destruct (IH t1 _ Hm1) as (t' & -> & Hm' & Hnil).
  { rewrite Hl1. destruct (r_lists _ _ _ _ Hr pr) as [Hnd _]. unfold plist in *. cbn. rewrite lookup_fmap.
    destruct (peer_lists t !! pr); cbn in *; [|done]. subst. rewrite filter_cons_False by tauto.
    apply NoDup_cons in Hnd as [Hni _]. clear -Hni. induction l as [|x l IHl]; [done|].
    rewrite filter_cons_True by set_solver. f_equal. apply IHl. set_solver. }
  exists t'. split; [done|]. split; [|done]. eapply represents_ext; [|exact Hm']. intros u. apply drop_peer_delete.
  by rewrite <- He.
Qed.

(** ** The free walks *)

Fixpoint bounded (Ts : list tree) : Prop :=
  match Ts with [] => True | T :: Ts => T ≠ E ∧ (height T + length Ts <= MAX_ALLOWEDIPS_DEPTH)%nat ∧ bounded Ts end.

Definition nonempty (T : tree) : list tree := match T with E => [] | _ => [T] end.

Fixpoint total (Ts : list tree) : nat := match Ts with [] => 0 | T :: Ts => (count T + total Ts)%nat end.

(** The cells of the trees on the stack, whatever slots point at them. *)
Inductive stack_cells (v : bool) : list tree -> list cell -> Prop :=
| sc_nil : stack_cells v [] []
| sc_cons s T Ts l : stack_cells v Ts l → stack_cells v (T :: Ts) (cells v s T ++ l).

Lemma stack_cells_push v s T Ts l : stack_cells v Ts l → stack_cells v (nonempty T ++ Ts) (cells v s T ++ l).
Proof. intros H. destruct T; [done|by apply (sc_cons v s)]. Qed.

Lemma push_rcu_spec T Ts :
  (T ≠ E → length Ts < MAX_ALLOWEDIPS_DEPTH)%nat →
  push_rcu (omap ptr Ts) (ptr T) = Some (omap ptr (nonempty T ++ Ts)) ∨ length (omap ptr Ts) ≠ length Ts.
Proof.
  intros H. destruct T as [|p c k o l r]; [by left|]. cbn [push_rcu ptr nonempty app omap list_omap].
  destruct (decide (length (omap ptr Ts) = length Ts)) as [Hl|]; [left|by right]. rewrite Hl.
  destruct (Nat.ltb_spec (length Ts) MAX_ALLOWEDIPS_DEPTH); [done|]. specialize (H ltac:(done)). lia.
Qed.

Lemma bounded_ptrs Ts : bounded Ts → length (omap ptr Ts) = length Ts.
Proof.
  induction Ts as [|T Ts IH]; [done|]. intros (HE & _ & Hb). destruct T; [done|]. cbn. f_equal. by apply IH.
Qed.

Lemma height_pos T : T ≠ E → (0 < height T)%nat.
Proof. destruct T; [done|]. cbn. lia. Qed.

Lemma bounded_push p c k o l r Ts :
  bounded (N p c k o l r :: Ts) →
  (l ≠ E → length Ts < MAX_ALLOWEDIPS_DEPTH)%nat ∧ bounded (nonempty l ++ Ts) ∧
  (r ≠ E → length (nonempty l ++ Ts) < MAX_ALLOWEDIPS_DEPTH)%nat ∧ bounded (nonempty r ++ nonempty l ++ Ts).
Proof.
  intros (_ & Hh & Hb). cbn [height] in Hh.
  assert (∀ T Ts', bounded Ts' → (height T + length Ts' <= MAX_ALLOWEDIPS_DEPTH)%nat → bounded (nonempty T ++ Ts')) as Hn.
  { intros [|] Ts' HTs HT; [done|]. cbn [nonempty app bounded]. done. }
  assert (length (nonempty l ++ Ts) <= S (length Ts))%nat by (destruct l; cbn; lia).
  pose proof (height_pos r). split_and!.
  - lia.
  - apply Hn; [done|lia].
  - intros Hr. specialize (H0 Hr). lia.
  - apply Hn; [apply Hn; [done|lia]|]. destruct l; cbn [nonempty app length height] in *; lia.
Qed.

Section walk.
Context (v : bool) (visit : nat -> allowedips_node -> allowedips -> allowedips).
Context (P : list cell -> allowedips -> Prop).
Hypothesis P_perm : ∀ l l' t, l ≡ₚ l' → P l t → P l' t.
Hypothesis P_visit : ∀ p n l t, P ((p, n) :: l) t → get_node t p = Some n ∧ P l (visit p n t).

(** The walk visits every cell of the trees on its stack. *)
Lemma walk_spec fuel Ts l t :
  bounded Ts → stack_cells v Ts l → (total Ts <= fuel)%nat → P l t →
  ∃ t', walk fuel visit (omap ptr Ts) t = Some t' ∧ P [] t'.
Proof using P_perm P_visit.
  revert Ts l t. induction fuel as [|fuel IH]; intros Ts l t Hb Hs Hf HP.
  { destruct Hs as [|s T Ts l Hs]; [by exists t|]. destruct Hb as (HE & _). destruct T; [done|]. cbn in Hf. lia. }
  destruct Hs as [|s T Ts l Hs]; [by exists t|]. destruct T as [|p c k o lt rt]; [by destruct Hb|].
  cbn [cells app] in HP. destruct (P_visit _ _ _ _ HP) as [Hg HP']. cbn [omap list_omap ptr walk]. rewrite Hg.
  cbn [mbind option_bind tree_node raw_node bit0 bit1].
  destruct (bounded_push _ _ _ _ _ _ _ Hb) as (H1 & H2 & H3 & H4).
  destruct (push_rcu_spec lt Ts H1) as [Hp1|Hx]; [|destruct Hx; apply bounded_ptrs, Hb]. cbn in Hp1 |- *. rewrite Hp1. cbn [mbind option_bind].
  destruct (push_rcu_spec rt _ H3) as [Hp2|Hx]; [|by destruct Hx; apply bounded_ptrs]. cbn in Hp2 |- *. rewrite Hp2. cbn [mbind option_bind].
  apply (IH _ (cells v (S_bit p true) rt ++ cells v (S_bit p false) lt ++ l)); [done| | |].
  - by apply stack_cells_push, stack_cells_push.
  - cbn [total count] in Hf. destruct rt, lt; cbn [nonempty app total count] in *; lia.
  - eapply P_perm; [|exact HP']. solve_Permutation.
Qed.
End walk.

(** ** Freeing *)

Definition cell_owners (l : list cell) : list (nat * nat) := omap (fun x => pair x.1 <$> peer x.2) l.

Lemma cell_owners_app l l' : cell_owners (l ++ l') = cell_owners l ++ cell_owners l'.
Proof. apply omap_app. Qed.

Lemma cell_owners_cells v s T : cell_owners (cells v s T) = owners T.
Proof.
  revert s. induction T as [|p c k o l IHl r IHr]; intros s; [done|]. cbn [cells owners].
  change (cell_owners (?x :: ?l)) with (cell_owners ([x] ++ l)). rewrite cell_owners_app, cell_owners_app, IHl, IHr.
  by destruct o.
Qed.

Lemma cell_owners_ptr l x : x ∈ cell_owners l → x.1 ∈ l.*1.
Proof.
  unfold cell_owners. rewrite list_elem_of_omap. intros ([p n] & Hin & Hp). cbn in Hp.
  destruct (peer n); [|done]. cbn in Hp. simplify_eq. cbn. apply list_elem_of_fmap. by exists (p, n).
Qed.

(** Taking the nodes of [l] off the peers' lists, the nodes of [rest] stay. *)
Definition unlisting (t0 : allowedips) (rest l : list cell) (t : allowedips) : Prop :=
  nodes t = nodes t0 ∧ root4 t = root4 t0 ∧ root6 t = root6 t0 ∧
  (∀ p n, (p, n) ∈ l → nodes t0 !! p = Some n) ∧ NoDup (l ++ rest).*1 ∧
  lists_ok (peer_lists t) (cell_owners (l ++ rest)).

Lemma unlisting_perm t0 rest l l' t : l ≡ₚ l' → unlisting t0 rest l t → unlisting t0 rest l' t.
Proof.
  intros Hp (H1 & H2 & H3 & H4 & H5 & H6). split_and!; try done.
  - intros p n Hn. apply H4. by rewrite Hp.
  - by rewrite <- Hp.
  - eapply lists_ok_ext; [|exact H6]. intros x. unfold cell_owners. by rewrite Hp.
Qed.

Lemma unlisting_visit t0 rest p n l t :
  unlisting t0 rest ((p, n) :: l) t →
  get_node t p = Some n ∧ unlisting t0 rest l (if bool_decide (is_Some (peer n)) then list_del_node p t else t).
Proof.
  intros (H1 & H2 & H3 & H4 & H5 & H6). split; [unfold get_node; rewrite H1; apply H4; by left|].
  cbn [app] in H5, H6. apply NoDup_cons in H5 as [Hni Hnd]. cbn [fst] in Hni.
  split_and!; [by case_bool_decide..|intros q m Hm; apply H4; by right|done|].
  change (cell_owners ((p, n) :: l ++ rest)) with
    (match pair p <$> peer n with Some y => y :: cell_owners (l ++ rest) | None => cell_owners (l ++ rest) end) in H6.
  case_bool_decide as Hp.
  - destruct Hp as [pr Hp]. rewrite Hp in H6. cbn [fmap option_fmap option_map] in H6.
    apply (lists_del _ _ _ _ H6). intros x. rewrite elem_of_cons. split.
    + intros Hx. split; [by right|]. intros <-. by apply cell_owners_ptr in Hx.
    + intros [[->|Hx] Hne]; [done|done].
  - destruct (peer n) as [y|]; [destruct Hp; by eexists|]. exact H6.
Qed.

Lemma freeing_visit rest p n l (t : allowedips) :
  cells_of (nodes t) (((p, n) :: l) ++ rest) →
  get_node t p = Some n ∧ cells_of (nodes (kmem_cache_free p t)) (l ++ rest).
Proof.
  intros H. split; [eapply cells_of_lookup; [exact H|by left]|]. by eapply cells_of_delete.
Qed.

Lemma length_cells v s T : length (cells v s T) = count T.
Proof. revert s. induction T as [|p c k o l IHl r IHr]; intros s; [done|]. cbn [cells length count]. by rewrite length_app, IHl, IHr. Qed.

Lemma cells_of_size m l : cells_of m l → size m = length l.
Proof.
  intros [Hn ->]. rewrite <- (length_map_to_list (list_to_map l)).
  by rewrite (map_to_list_to_map l Hn).
Qed.

Lemma bounded_one v T : wf v 0 0 T → T ≠ E → bounded [T].
Proof.
  intros Hw HE. split_and!; [done| |done]. pose proof (height_bound v 0 0 T Hw).
  destruct v; cbn [width] in *; cbn [length]; unfold MAX_ALLOWEDIPS_DEPTH; lia.
Qed.

Lemma one_walk v T s visit (P : list cell -> allowedips -> Prop) fuel t :
  (∀ l l' t, l ≡ₚ l' → P l t → P l' t) →
  (∀ p n l t, P ((p, n) :: l) t → get_node t p = Some n ∧ P l (visit p n t)) →
  wf v 0 0 T → (count T <= fuel)%nat → P (cells v s T) t →
  ∃ t', on_root (fun r => walk fuel visit [r]) (ptr T) t = Some t' ∧ P [] t'.
Proof.
  intros Hp Hv Hw Hf HP. destruct T as [|p c k o l r]; [by exists t|]. cbn [on_root ptr].
  apply (walk_spec v visit P Hp Hv fuel [N p c k o l r] (cells v s (N p c k o l r) ++ [])).
  - by eapply bounded_one.
  - apply (sc_cons v s), sc_nil.
  - cbn [total]. lia.
  - by rewrite app_nil_r.
Qed.

Lemma cells_reads m l l' p n : cells_of m (l ++ l') → (p, n) ∈ l → m !! p = Some n.
Proof. intros H Hin. eapply cells_of_lookup; [exact H|]. apply elem_of_app. by left. Qed.

Lemma free_spec t m :
  represents t m →
  ∃ t', wg_allowedips_free t = Some t' ∧ nodes t' = ∅ ∧ root4 t' = None ∧ root6 t' = None ∧
    ∀ pr, plist (peer_lists t') pr = [].
Proof.
  intros (T & T' & [Hr Hr' Hc Hl] & Hw & Hw' & _). cbn [negb rootp] in *. unfold wg_allowedips_free. rewrite Hr, Hr'.
  set (t0 := (bump_seq t) <| root4 := None |> <| root6 := None |>).
  set (A := cells false (S_root false) T) in *. set (B := cells true (S_root true) T') in *.
  assert (count T + count T' = size (nodes t))%nat as Hsz.
  { rewrite (cells_of_size _ _ Hc). unfold A, B. by rewrite length_app, !length_cells. }
  destruct (one_walk false T (S_root false) _ (unlisting t0 B) (size (nodes t)) t0
    (unlisting_perm t0 B) (unlisting_visit t0 B) Hw ltac:(lia)) as (t1 & E1 & H1).
  { fold A. split_and!; [done..|intros p n Hn; by eapply cells_reads|apply Hc|].
    rewrite cell_owners_app. unfold A, B. by rewrite !cell_owners_cells. }
  change (on_root (root_remove_peer_lists (size (nodes t))) (ptr T) t0 = Some t1) in E1. cbv zeta. rewrite E1. cbn [mbind option_bind].
  destruct H1 as (N1 & R1 & R1' & _ & D1 & L1). cbn [app] in D1, L1.
  destruct (one_walk true T' (S_root true) _ (unlisting t1 []) (size (nodes t)) t1
    (unlisting_perm t1 []) (unlisting_visit t1 []) Hw' ltac:(lia)) as (t2 & E2 & H2).
  { fold B. split_and!; [done..| |by rewrite app_nil_r|by rewrite app_nil_r].
    intros p n Hn. rewrite N1. eapply (cells_reads _ B A); [|exact Hn]. eapply cells_of_perm; [|exact Hc]. solve_Permutation. }
  change (on_root (root_remove_peer_lists (size (nodes t))) (ptr T') t1 = Some t2) in E2. rewrite E2. cbn [mbind option_bind]. destruct H2 as (N2 & R2 & R2' & _ & _ & L2).
  set (Q := fun rest l (t' : allowedips) => cells_of (nodes t') (l ++ rest) ∧ root4 t' = None ∧ root6 t' = None ∧
    peer_lists t' = peer_lists t2).
  assert (∀ rest l l' t, l ≡ₚ l' → Q rest l t → Q rest l' t) as Qp.
  { intros rest l l' t' Hp [H ?]. split; [|done]. eapply cells_of_perm; [|exact H]. by rewrite Hp. }
  assert (∀ rest p n l t, Q rest ((p, n) :: l) t → get_node t p = Some n ∧ Q rest l (kmem_cache_free p t)) as Qv.
  { intros rest p n l t' [H ?]. destruct (freeing_visit _ _ _ _ _ H). by split_and!; [|split]. }
  destruct (one_walk false T (S_root false) _ (Q B) (size (nodes t)) t2 (Qp B) (Qv B) Hw ltac:(lia)) as (t3 & E3 & Q3).
  { split_and!; [by rewrite N2, N1|by rewrite R2, R1|by rewrite R2', R1'|done]. }
  change (on_root (root_free_rcu (size (nodes t))) (ptr T) t2 = Some t3) in E3. rewrite E3. cbn [mbind option_bind].
  destruct (one_walk true T' (S_root true) _ (Q []) (size (nodes t)) t3 (Qp []) (Qv []) Hw' ltac:(lia)) as (t4 & E4 & Q4).
  { destruct Q3 as [H ?]. split; [|done]. by rewrite app_nil_r. }
  exists t4. split; [exact E4|]. destruct Q4 as ([_ HQ] & ? & ? & HL). split_and!; [done|done|done|].
  intros pr. destruct (L2 pr) as [_ Hin]. rewrite HL. destruct (plist (peer_lists t2) pr) as [|x y]; [done|].
  destruct (Hin x) as [Hin' _]. specialize (Hin' ltac:(by left)). by apply not_elem_of_nil in Hin'.
Qed.

(** ** Reading a node back *)

Lemma swap_endian_involutive v ip : wf_addr v ip → swap_endian (swap_endian ip (width v)) (width v) = ip.
Proof.
  intros [Hl _]. unfold swap_endian. destruct v; cbn [width Z.eqb Pos.eqb] in *.
  - change (Z.to_nat (128 / 8)) with 16%nat in Hl. unfold slice.
    rewrite !drop_0, take_app_length' by (rewrite length_reverse, length_take; lia).
    rewrite drop_app_length' by (rewrite length_reverse, length_take; lia).
    rewrite (take_ge (reverse _)) by (rewrite length_reverse, length_take, length_drop; lia).
    rewrite !reverse_involutive, (take_ge (drop 8 ip)) by (rewrite length_drop; lia). by rewrite take_drop.
  - change (Z.to_nat (32 / 8)) with 4%nat in Hl. rewrite !take_ge by (rewrite ?length_reverse, ?length_take; lia). by rewrite reverse_involutive.
Qed.

(** A key in network order. *)
Lemma key_addr v k : wf_key v k → wf_addr v (swap_endian k (width v)) ∧ be_combine (swap_endian k (width v)) = keyval v k.
Proof.
  intros Hk. pose proof (swap_endian_key v k Hk) as Hw. split; [exact Hw|].
  rewrite <- (swap_endian_val v _ Hw). f_equal. by apply swap_endian_involutive.
Qed.

Lemma be_testbit l i j :
  Forall is_byte l → (i < length l)%nat → 0 <= j < 8 →
  Z.testbit (be_combine l) (8 * Z.of_nat (length l - 1 - i) + j) = Z.testbit (l !!! i) j.
Proof.
  intros Hb Hi Hj. unfold be_combine. rewrite le_combine_testbit; [|by apply Forall_reverse|rewrite length_reverse; lia|done].
  f_equal. rewrite !list_lookup_total_alt. f_equal. rewrite reverse_lookup by lia. f_equal. lia.
Qed.

Lemma be_split_combine l : Forall is_byte l → be_split (length l) (be_combine l) = l.
Proof.
  intros Hb. unfold be_split, be_combine. rewrite <- (length_reverse l).
  rewrite le_split_combine by (by apply Forall_reverse). apply reverse_involutive.
Qed.

Lemma be_combine_bound l : Forall is_byte l → 0 <= be_combine l < 2 ^ (8 * Z.of_nat (length l)).
Proof.
  intros Hb. unfold be_combine. pose proof (le_combine_bound (reverse l) ltac:(by apply Forall_reverse)) as H.
  by rewrite length_reverse in H.
Qed.

(** [ip] with everything after its first [c] bits cleared, byte by byte. *)
Definition clear_host (ip : bytes) (c : Z) : bytes :=
  let cb := Z.to_nat ((c + 7) / 8) in
  let ip := take cb ip ++ zeros (length ip - cb) in
  if c =? 0 then ip else alter (fun b => u8 (Z.land b (Z.shiftl (-1) (- c mod 8)))) (cb - 1)%nat ip.

Lemma clear_host_byte ip c i j :
  Forall is_byte ip → 0 <= c <= 8 * Z.of_nat (length ip) → (i < length ip)%nat → 0 <= j < 8 →
  Z.testbit (clear_host ip c !!! i) j = Z.testbit (ip !!! i) j && (8 * Z.of_nat i + (8 - j) <=? c).
Proof.
  intros Hb Hc Hi Hj. set (cb := Z.to_nat ((c + 7) / 8)).
  assert (8 * Z.of_nat cb - 7 <= c <= 8 * Z.of_nat cb) as Hcb.
  { unfold cb. rewrite Z2Nat.id by (apply Z.div_pos; lia). Z.to_euclidean_division_equations; lia. }
  assert ((take cb ip ++ zeros (length ip - cb)) !!! i = if decide (i < cb)%nat then ip !!! i else 0) as Hz.
  { rewrite !list_lookup_total_alt. destruct (decide (i < cb)%nat) as [Hlt|Hge].
    - rewrite lookup_app_l by (rewrite length_take; lia). by rewrite lookup_take_lt.
    - rewrite lookup_app_r by (rewrite length_take; lia). unfold zeros. rewrite length_take, lookup_replicate_2 by lia. done. }
  unfold clear_host. fold cb. destruct (Z.eqb_spec c 0) as [->|Hc0].
  { rewrite Hz, decide_False by lia. rewrite Z.bits_0. destruct (Z.leb_spec (8 * Z.of_nat i + (8 - j)) 0); [lia|]. by rewrite andb_false_r. }
  rewrite list_lookup_total_alt. destruct (decide (i = cb - 1)%nat) as [->|Hne].
  - rewrite list_lookup_alter_eq. rewrite list_lookup_total_alt in Hz.
    destruct ((take cb ip ++ zeros (length ip - cb)) !! (cb - 1)%nat) as [x|] eqn:Ex.
    2:{ apply lookup_ge_None in Ex. rewrite length_app, length_take in Ex. unfold zeros in Ex. rewrite length_replicate in Ex. lia. }
    cbn [default from_option fmap option_fmap option_map id] in Hz |- *. rewrite Hz, decide_True by lia.
    unfold wrap. rewrite Z.mod_pow2_bits_low, Z.land_spec, Z.shiftl_spec by lia. f_equal.
    pose proof (Z.mod_pos_bound (- c) 8 ltac:(lia)) as Hm.
    assert (- c mod 8 = 8 * Z.of_nat cb - c) as -> by (symmetry; apply (Zmod_unique _ 8 (- Z.of_nat cb)); lia).
    destruct (Z.leb_spec (8 * Z.of_nat (cb - 1) + (8 - j)) c).
    + by rewrite Z.bits_m1 by lia.
    + by rewrite Z.testbit_neg_r by lia.
  - rewrite list_lookup_alter_ne by done. rewrite <- list_lookup_total_alt, Hz. destruct (decide (i < cb)%nat).
    + destruct (Z.leb_spec (8 * Z.of_nat i + (8 - j)) c); [by rewrite andb_true_r|lia].
    + destruct (Z.leb_spec (8 * Z.of_nat i + (8 - j)) c); [lia|]. by rewrite Z.bits_0, andb_false_r.
Qed.

Lemma clear_host_bytes ip c : Forall is_byte ip → Forall is_byte (clear_host ip c).
Proof.
  intros Hb. unfold clear_host.
  assert (Forall is_byte (take (Z.to_nat ((c + 7) / 8)) ip ++ zeros (length ip - Z.to_nat ((c + 7) / 8)))) as H.
  { apply Forall_app. split; [by apply Forall_take|]. apply Forall_replicate. unfold is_byte. lia. }
  destruct (c =? 0); [done|]. apply Forall_alter; [done|]. intros x _ _. apply (wrap_range 8). lia.
Qed.

Lemma length_clear_host ip c : 0 <= c <= 8 * Z.of_nat (length ip) → length (clear_host ip c) = length ip.
Proof.
  intros Hc. unfold clear_host. assert (Z.to_nat ((c + 7) / 8) <= length ip)%nat.
  { assert ((c + 7) / 8 < Z.of_nat (length ip) + 1) by (apply Z.div_lt_upper_bound; lia). lia. }
  destruct (c =? 0); [|rewrite length_alter]; rewrite length_app, length_take, length_zeros; lia.
Qed.

Lemma bits_high x w b : 0 <= w <= b → 0 <= x < 2 ^ w → Z.testbit x b = false.
Proof. intros Hw Hx. rewrite <- (Z.mod_small x (2 ^ w)) by lia. apply Z.mod_pow2_bits_high. lia. Qed.

Lemma clear_host_val ip c :
  Forall is_byte ip → 0 <= c <= 8 * Z.of_nat (length ip) →
  let w := 8 * Z.of_nat (length ip) in
  clear_host ip c = be_split (length ip) (Z.shiftl (pre w (be_combine ip) c) (w - c)).
Proof.
  intros Hb Hc w. pose proof (clear_host_bytes ip c Hb) as Hb'. pose proof (length_clear_host ip c Hc) as Hl.
  rewrite <- (be_split_combine (clear_host ip c) Hb') at 1. rewrite Hl. f_equal.
  apply Z.bits_inj'. intros b Hb0. rewrite Z.shiftl_spec by lia. unfold pre.
  destruct (Z.lt_ge_cases b w) as [Hlt|Hge].
  - set (i := (length ip - 1 - Z.to_nat (b / 8))%nat). assert (b = 8 * Z.of_nat (length ip - 1 - i) + b mod 8) as Hbe.
    { assert (0 <= b / 8 < Z.of_nat (length ip)) as Hd by (unfold w in Hlt; Z.to_euclidean_division_equations; lia).
      pose proof (Z.div_mod b 8 ltac:(lia)). unfold i. lia. }
    pose proof (Z.mod_pos_bound b 8 ltac:(lia)) as Hm. rewrite Hbe at 1. rewrite <- Hl at 1.
    assert (0 <= b / 8 < Z.of_nat (length ip)) as Hd by (unfold w in Hlt; Z.to_euclidean_division_equations; lia).
    rewrite be_testbit by (done || lia). rewrite clear_host_byte by (done || lia).
    rewrite <- (be_testbit ip i) by (done || lia). rewrite <- Hbe.
    destruct (Z.leb_spec (8 * Z.of_nat i + (8 - b mod 8)) c) as [Hle|Hgt].
    + rewrite andb_true_r, Z.shiftr_spec by lia. f_equal. lia.
    + rewrite andb_false_r. by rewrite Z.testbit_neg_r by lia.
  - pose proof (be_combine_bound _ Hb') as B1. rewrite Hl in B1. fold w in B1.
    rewrite Z.shiftr_spec by lia. replace (b - (w - c) + (w - c)) with b by lia.
    pose proof (be_combine_bound _ Hb) as B2. fold w in B2.
    rewrite (bits_high _ w), (bits_high (be_combine ip) w) by lia. done.
Qed.

(** The address of a prefix: its bits, then zeros. *)
Definition prefix_addr (v : bool) (q : prefix) : bytes :=
  be_split (Z.to_nat (width v / 8)) (Z.shiftl q.2 (width v - q.1)).

Lemma read_node_spec v s c k o a b :
  wf_key v k → 0 <= c <= width v →
  wg_allowedips_read_node (tree_node v s c k o a b) = (prefix_addr v (c, kpre v k c), c, negb v).
Proof.
  intros Hk Hc. destruct (key_addr v k Hk) as [[Hl Hb] Hv]. set (ip := swap_endian k (width v)) in *.
  assert (8 * Z.of_nat (length ip) = width v) as Hw by (rewrite Hl; by destruct v).
  unfold wg_allowedips_read_node, prefix_addr. cbn [tree_node raw_node cidr bits bitlen fst snd]. fold ip.
  f_equal; [f_equal|by destruct v]. rewrite <- Hl. unfold kpre. rewrite <- Hv, <- Hw.
  rewrite <- (clear_host_val ip c Hb) by lia. done.
Qed.

Lemma entries_cell v s c0 x0 T q pr :
  wf v c0 x0 T → entries v T !! q = Some pr →
  ∃ p s' c k a b, (p, tree_node v s' c k (Some pr) a b) ∈ cells v s T ∧ (p, pr) ∈ owners T ∧
    q = (c, kpre v k c) ∧ wf_key v k ∧ 0 <= c <= width v.
Proof.
  revert s c0 x0. induction T as [|p c k o l IHl r IHr]; intros s c0 x0 Hw; cbn [entries owners]; [done|]. rewrite put_lookup.
  pose proof (wf_node _ _ _ _ _ _ _ _ _ Hw) as [Hk Hc]. destruct Hw as (_ & _ & _ & _ & Hl & Hr & _).
  destruct (decide _) as [[Hq _]|_]; [intros ->|intros [H|[_ H]]%lookup_union_Some_raw].
  - exists p, s, c, k, (ptr l), (ptr r). split_and!; try (done || lia); [by left|rewrite elem_of_app; left; by left].
  - destruct (IHl (S_bit p false) _ _ Hl H) as (p' & s' & c' & k' & a & b & Hin & Ho & ?). exists p', s', c', k', a, b.
    split_and!; try tauto; [right; rewrite elem_of_app; by left|rewrite !elem_of_app; auto].
  - destruct (IHr (S_bit p true) _ _ Hr H) as (p' & s' & c' & k' & a & b & Hin & Ho & ?). exists p', s', c', k', a, b.
    split_and!; try tauto; [right; rewrite elem_of_app; by right|rewrite !elem_of_app; auto].
Qed.

(** The prefixes of a peer as they are read back node by node from its list. *)
Definition reads_back (t : allowedips) (pr : nat) (ip : bytes) (c : Z) (v4 : bool) : Prop :=
  ∃ p n, p ∈ plist (peer_lists t) pr ∧ nodes t !! p = Some n ∧ wg_allowedips_read_node n = (ip, c, v4).

Lemma reads_back_entry t m pr ip c v :
  represents t m → reads_back t pr ip c (negb v) → ∃ x, m v !! (c, x) = Some pr ∧ ip = prefix_addr v (c, x).
Proof.
  intros Hm (p & n & Hp & Hn & Hread). destruct (list_owner t m p pr Hm Hp) as (u & T & T' & Hat & Hown).
  pose proof Hat as (Hr & Hw & _ & He & _).
  destruct (owner_entry u T p pr Hw Hown) as (C & c' & k & l & r & -> & HP & Hent).
  pose proof (focus_get _ _ _ _ _ _ _ _ (repr_focus _ _ _ _ _ Hr)) as Hg. unfold get_node in Hg. rewrite Hn in Hg. simplify_eq.
  destruct HP as (_ & HT & _). destruct (wf_node _ _ _ p _ _ (Some pr) _ _ HT) as [Hk Hc].
  rewrite read_node_spec in Hread by done. injection Hread as <- <- Huv. exists (kpre u k c').
  assert (u = v) as <- by (by destruct u, v). by rewrite <- He.
Qed.

Lemma entry_reads_back t m pr c v x :
  represents t m → m v !! (c, x) = Some pr → reads_back t pr (prefix_addr v (c, x)) c (negb v).
Proof.
  intros Hm Hx. apply (represents_view v) in Hm as (T & T' & Hr & Hw & _ & He & _). rewrite <- He in Hx.
  destruct (entries_cell v (S_root v) _ _ T _ _ Hw Hx) as (p & s & c' & k & a & b & Hin & Ho & Hq & Hk & Hc).
  injection Hq as -> ->. exists p, (tree_node v s c' k (Some pr) a b). split_and!.
  - apply (r_lists _ _ _ _ Hr). apply elem_of_app. by left.
  - exact (repr_reads _ _ _ _ Hr _ _ Hin).
  - by apply read_node_spec.
Qed.

(** ** Theorems *)

Lemma insert_represents v t m ip c pr alloc1 alloc2 :
  represents t m → wf_addr v ip → 0 <= c < 256 → fresh_allocs t alloc1 alloc2 →
  ∃ t' res, wg_allowedips_insert v t ip c pr alloc1 alloc2 = Some (t', res) ∧
    (res = 0 → ∃ peer, pr = Some peer ∧ c <= width v ∧
       represents t' (set_family v (insert (prefix_of v ip c) peer) m)) ∧
    (res ≠ 0 → represents t' m ∧
       (res = - EINVAL ∧ (pr = None ∨ width v < c) ∨ res = - ENOMEM ∧ (alloc1 = None ∨ alloc2 = None))).
Proof.
  intros Hm Hip Hc Ha. apply (represents_view v) in Hm as (T & T' & Hat). apply represents_at_bump in Hat.
  unfold wg_allowedips_insert. set (t0 := bump_seq t) in *. pose proof Hat as (Hr & Hw & _).
  assert (represents t0 m) as Hm0 by (apply (represents_view v); by exists T, T').
  destruct pr as [pr|]; [|exists t0, (- EINVAL); cbn [add]; split; [done|]; split; [done|auto]].
  destruct (Z.ltb_spec (width v) c) as [Hlt|Hle].
  { exists t0, (- EINVAL). unfold add. destruct (Z.ltb_spec (width v) c); [|lia]. split; [done|]. split; [done|auto]. }
  destruct (add_spec t0 v T T' (swap_endian ip (width v)) c pr alloc1 alloc2 Hr Hw (swap_endian_key v ip Hip)
    ltac:(lia) Ha) as (t' & res & -> & Hres). exists t', res. split; [done|].
  destruct Hres as [[-> (T1 & Hr1 & Hw1 & He1)]|(-> & Halloc & Hr1)].
  - split; [|done]. intros _. exists pr. split; [done|]. split; [done|]. rewrite kpre_addr in He1 by done.
    by eapply represents_set.
  - split; [done|]. intros _. split; [by eapply represents_same|auto].
Qed.

(** C24: inserting a prefix always ends and never follows a bad pointer; it
    returns 0 exactly when the peer is given, the length fits the family and the
    allocations it needed succeeded, and then the table is the old one with that
    prefix mapped to the peer; on an error the table is unchanged. *)
Theorem allowedips_insert_spec v t m ip c pr alloc1 alloc2 :
  represents t m → wf_addr v ip → 0 <= c < 256 → fresh_allocs t alloc1 alloc2 →
  ∃ t' res, wg_allowedips_insert v t ip c pr alloc1 alloc2 = Some (t', res) ∧
    (res = 0 → ∃ peer, pr = Some peer ∧ c <= width v ∧
       represents t' (set_family v (insert (prefix_of v ip c) peer) m)) ∧
    (res ≠ 0 → represents t' m ∧
       (res = - EINVAL ∧ (pr = None ∨ width v < c) ∨ res = - ENOMEM ∧ (alloc1 = None ∨ alloc2 = None))).
Proof. apply insert_represents. Qed.

Lemma remove_represents v t m ip c pr :
  represents t m → wf_addr v ip → 0 <= c < 256 →
  ∃ t' res, wg_allowedips_remove v t ip c (Some pr) = Some (t', res) ∧
    (width v < c → res = - EINVAL ∧ represents t' m) ∧
    (c <= width v → res = 0 ∧
       represents t' (if decide (m v !! prefix_of v ip c = Some pr)
                      then set_family v (delete (prefix_of v ip c)) m else m)).
Proof.
  intros Hm Hip Hc. apply (represents_view v) in Hm as (T & T' & Hat). apply represents_at_bump in Hat.
  unfold wg_allowedips_remove. set (t0 := bump_seq t) in *. destruct (Z.lt_ge_cases (width v) c) as [Hlt|Hle].
  - exists t0, (- EINVAL). unfold remove. destruct (Z.ltb_spec (width v) c); [|lia]. split; [done|]. split; [|lia].
    intros _. split; [done|]. apply (represents_view v). by exists T, T'.
  - destruct (remove_spec v t0 T T' m _ c pr Hat (swap_endian_key v ip Hip) ltac:(lia)) as (t' & -> & Hm').
    rewrite kpre_addr in Hm' by done. exists t', 0. split; [done|]. split; [lia|done].
Qed.

(** C26: removing a prefix always ends and never follows a bad pointer; it deletes
    the prefix when the table maps it to that peer and otherwise changes nothing. *)
Theorem allowedips_remove_spec v t m ip c pr :
  represents t m → wf_addr v ip → 0 <= c < 256 →
  ∃ t' res, wg_allowedips_remove v t ip c (Some pr) = Some (t', res) ∧
    (width v < c → res = - EINVAL ∧ represents t' m) ∧
    (c <= width v → res = 0 ∧
       represents t' (if decide (m v !! prefix_of v ip c = Some pr)
                      then set_family v (delete (prefix_of v ip c)) m else m)).
Proof. apply remove_represents. Qed.

Lemma remove_by_peer_represents t m pr :
  represents t m →
  ∃ t', wg_allowedips_remove_by_peer t pr = Some t' ∧ represents t' (drop_peer pr m) ∧ plist (peer_lists t') pr = [].
Proof.
  intros Hm. assert (represents (bump_seq t) m) as Hb.
  { apply (represents_view false) in Hm as (T & T' & Hat). apply (represents_view false). exists T, T'.
    by apply represents_at_bump. }
  unfold wg_allowedips_remove_by_peer. change (default [] (peer_lists t !! pr)) with (plist (peer_lists t) pr).
  destruct (plist (peer_lists t) pr) as [|p l] eqn:Hl.
  - destruct (remove_nodes_spec pr [] t m Hm Hl) as (t' & Ht & Hm' & Hnil). injection Ht as <-. by exists t.
  - exact (remove_nodes_spec pr (p :: l) (bump_seq t) m Hb Hl).
Qed.

(** Removing a peer deletes exactly the prefixes that map to it, in both
    families, and empties its list. *)
Theorem allowedips_remove_by_peer_spec t m pr :
  represents t m →
  ∃ t', wg_allowedips_remove_by_peer t pr = Some t' ∧ represents t' (drop_peer pr m) ∧ plist (peer_lists t') pr = [].
Proof. apply remove_by_peer_represents. Qed.

(** The peer the table routes an address to; a lookup only adds the reference. *)
Lemma lookup_owner v t m ip :
  represents t m → wf_addr v ip →
  ∃ o, longest v (m v) (be_combine ip) o ∧ ∀ refs, lookup t refs v ip =
    match o with
    | Some pr => if default 0 (refs !! pr) =? 0 then None else Some (<[pr := default 0 (refs !! pr) + 1]> refs, Some pr)
    | None => Some (refs, None)
    end.
Proof.
  intros Hm Hip. apply (represents_view v) in Hm as (T & T' & Hr & Hw & _ & He & _).
  set (key := swap_endian ip (width v)). pose proof (swap_endian_key v ip Hip) as Hk. fold key in Hk.
  pose proof (swap_endian_val v ip Hip) as Hv. fold key in Hv.
  pose proof (find_node_spec t v key lookup_fuel (S_root v) T 0 0 None (repr_reads _ _ _ _ Hr) Hw Hk (wf_fuel v T Hw)) as Hf.
  cbn [fmap option_fmap option_map] in Hf.
  assert (∀ refs, lookup t refs v ip = match fst <$> t_find v key T None with
    | None => Some (refs, None)
    | Some p => n ← get_node t p;
        match wg_peer_get_maybe_zero refs (peer n) with (refs, Some pr) => Some (refs, Some pr) | (_, None) => None end
    end) as Hl.
  { intros refs. unfold lookup. fold key. cbn [read_slot]. change (if v then root6 t else root4 t) with (rootp t v).
    rewrite (r_root _ _ _ _ Hr). cbn [mbind option_bind]. rewrite Hf. done. }
  destruct (t_find_spec v 0 0 key T None Hw) as [(p & pr & c & Hfind & Hc & Hent & Hab)|[Hfind Hab]]; rewrite Hfind in Hl;
    cbn [fmap option_fmap option_map fst] in Hl.
  - exists (Some pr). split; [exists c; unfold kpre in *; rewrite Hv, He in *; done|]. intros refs. rewrite Hl.
    destruct (t_find_owner v key T None p pr Hfind) as [|Ho]; [done|].
    destruct (owners_cells v (S_root v) T p pr Ho) as (n & Hn & Hp). rewrite (repr_reads _ _ _ _ Hr _ _ Hn).
    cbn [mbind option_bind]. unfold wg_peer_get_maybe_zero. rewrite Hp. by destruct (_ =? 0).
  - exists None. split; [|exact Hl]. rewrite <- He. unfold longest. unfold kpre in Hab. by rewrite Hv in Hab.
Qed.

Lemma lookup_longest v t m refs ip :
  represents t m → wf_addr v ip → (∀ q pr, m v !! q = Some pr → default 0 (refs !! pr) ≠ 0) →
  ∃ refs' o, lookup t refs v ip = Some (refs', o) ∧ longest v (m v) (be_combine ip) o ∧
    refs' = match o with Some pr => <[pr := default 0 (refs !! pr) + 1]> refs | None => refs end.
Proof.
  intros Hm Hip Hrefs. destruct (lookup_owner v t m ip Hm Hip) as (o & Ho & Hl). rewrite Hl. destruct o as [pr|]; [|eauto].
  destruct Ho as (c & Hc & Hpr & Hab). destruct (Z.eqb_spec (default 0 (refs !! pr)) 0) as [E0|_]; [by destruct (Hrefs _ _ Hpr)|].
  eexists _, (Some pr). split; [done|]. split; [by exists c|done].
Qed.

Lemma lookup_sound v t m refs ip refs' o :
  represents t m → wf_addr v ip → lookup t refs v ip = Some (refs', o) → longest v (m v) (be_combine ip) o.
Proof.
  intros Hm Hip E. destruct (lookup_owner v t m ip Hm Hip) as (o' & Ho & Hl). rewrite Hl in E.
  destruct o' as [pr|]; [destruct (_ =? 0); [done|]|]; by injection E as _ <-.
Qed.

(** C25: looking an address up takes at most 129 nodes and returns the peer of the
    longest prefix of the address in the table, with one more reference, or
    nothing when no prefix matches. *)
Theorem allowedips_lookup_longest v t m refs ip :
  represents t m → wf_addr v ip → (∀ q pr, m v !! q = Some pr → default 0 (refs !! pr) ≠ 0) →
  ∃ refs' o, lookup t refs v ip = Some (refs', o) ∧ longest v (m v) (be_combine ip) o ∧
    refs' = match o with Some pr => <[pr := default 0 (refs !! pr) + 1]> refs | None => refs end.
Proof. apply lookup_longest. Qed.

(** A family with n prefixes has at most 2n - 1 nodes, so at most one
    intermediate node per prefix is ever kept. *)
Theorem allowedips_node_bound t m :
  represents t m →
  (size (nodes t) <= (2 * size (m false) - 1) + (2 * size (m true) - 1))%nat.
Proof.
  intros (T & T' & Hr & Hw & Hw' & <- & <-). rewrite (cells_of_size _ _ (r_cells _ _ _ _ Hr)), length_app, !length_cells.
  assert (∀ v T, wf v 0 0 T → count T <= 2 * size (entries v T) - 1)%nat as Hone.
  { intros v U HU. destruct U as [|p c k o l r]; [cbn; lia|]. pose proof (count_bound v 0 0 _ HU ltac:(done)). lia. }
  pose proof (Hone _ _ Hw). pose proof (Hone _ _ Hw'). cbn [negb]. lia.
Qed.

(** C27: freeing the table ends, with the walks' stack never above its
    MAX_ALLOWEDIPS_DEPTH entries; every node is freed once and no peer's list keeps
    a freed node. *)
Theorem allowedips_free_spec t m :
  represents t m →
  ∃ t', wg_allowedips_free t = Some t' ∧ nodes t' = ∅ ∧ root4 t' = None ∧ root6 t' = None ∧
    ∀ pr, plist (peer_lists t') pr = [].
Proof. apply free_spec. Qed.

(** Reading the nodes of a peer's list back gives exactly the peer's prefixes
    in the table, with the host bits cleared. *)
Theorem allowedips_read_nodes t m pr ip c v :
  represents t m →
  reads_back t pr ip c (negb v) ↔ ∃ x, m v !! (c, x) = Some pr ∧ ip = prefix_addr v (c, x).
Proof.
  intros Hm. split; [by apply reads_back_entry|]. intros (x & Hx & ->). by eapply entry_reads_back.
Qed.

(** ** A concrete table

    10.0.0.0/8 for peer 1, 10.1.0.0/16 for peer 2 and 192.168.0.0/16 for peer 1:
    the third insertion needs the intermediate node 4. *)

Definition demo_tree : tree :=
  N 4 0 [0; 0; 168; 192] None
    (N 1 8 [0; 0; 0; 10] (Some 1%nat) (N 2 16 [0; 0; 1; 10] (Some 2%nat) E E) E)
    (N 3 16 [0; 0; 168; 192] (Some 1%nat) E E).

Definition demo : allowedips :=
  mk_allowedips (Some 4%nat) None 4 (list_to_map (cells false (S_root false) demo_tree))
    {[1%nat := [1%nat; 3%nat]; 2%nat := [2%nat]]}.

Definition demo_map : ptable := fun v => if v then ∅ else entries false demo_tree.

Lemma demo_run :
  (t ← wg_allowedips_insert_v4 wg_allowedips_init [10; 0; 0; 0] 8 (Some 1%nat) (Some 1%nat) None;
   t ← wg_allowedips_insert_v4 t.1 [10; 1; 0; 0] 16 (Some 2%nat) (Some 2%nat) None;
   wg_allowedips_insert_v4 t.1 [192; 168; 0; 0] 16 (Some 1%nat) (Some 3%nat) (Some 4%nat)) = Some (demo, 0).
Proof. vm_compute. reflexivity. Qed.

Lemma demo_bytes k : k ∈ [[0; 0; 168; 192]; [0; 0; 0; 10]; [0; 0; 1; 10]] → wf_key false k.
Proof.
  intros Hk. split; [by repeat (apply elem_of_cons in Hk as [->|Hk]; [done|]); apply not_elem_of_nil in Hk|].
  repeat (apply elem_of_cons in Hk as [->|Hk]; [repeat constructor; unfold is_byte; lia|]). by apply not_elem_of_nil in Hk.
Qed.

Lemma demo_wf : wf false 0 0 demo_tree.
Proof.
  cbn [wf demo_tree]. split_and!; try (reflexivity || done || (apply demo_bytes; set_solver)); try (cbn; lia); by intros.
Qed.

Lemma demo_represents : represents demo demo_map.
Proof.
  exists demo_tree, E. split; [|split; [apply demo_wf|done]]. split; [done|done| |].
  - split; [|done]. apply (bool_decide_unpack _). reflexivity.
  - intros pr. cbn [app owners demo_tree]. unfold plist, demo. cbn [peer_lists].
    destruct (decide (pr = 1%nat)) as [->|H1]; [split; [apply (bool_decide_unpack _); reflexivity|set_solver]|].
    rewrite lookup_insert_ne by done.
    destruct (decide (pr = 2%nat)) as [->|H2]; [split; [apply (bool_decide_unpack _); reflexivity|set_solver]|].
    rewrite lookup_singleton_ne by done. split; [constructor|]. set_solver.
Qed.

Lemma demo_addr a b c d : is_byte a → is_byte b → is_byte c → is_byte d → wf_addr false [a; b; c; d].
Proof. intros. split; [done|]. by rewrite !Forall_cons, Forall_nil. Qed.

Lemma allowedips_insert_spec_witness :
  ∃ t' res, wg_allowedips_insert false demo [10; 1; 2; 0] 24 (Some 1%nat) (Some 7%nat) (Some 8%nat) = Some (t', res) ∧
    (res = 0 → ∃ peer, Some 1%nat = Some peer ∧ 24 <= width false ∧
       represents t' (set_family false (insert (prefix_of false [10; 1; 2; 0] 24) peer) demo_map)) ∧
    (res ≠ 0 → represents t' demo_map ∧
       (res = - EINVAL ∧ (Some 1%nat = None ∨ width false < 24) ∨
        res = - ENOMEM ∧ (Some 7%nat = None ∨ Some 8%nat = None))).
Proof.
  apply (allowedips_insert_spec false demo demo_map [10; 1; 2; 0] 24 (Some 1%nat) (Some 7%nat) (Some 8%nat) demo_represents).
  - apply demo_addr; unfold is_byte; lia.
  - lia.
  - split; intros p Hp; injection Hp as <-; [done|split; done].
Defined.

Lemma allowedips_remove_spec_witness :
  ∃ t' res, wg_allowedips_remove false demo [10; 1; 0; 0] 16 (Some 2%nat) = Some (t', res) ∧
    (width false < 16 → res = - EINVAL ∧ represents t' demo_map) ∧
    (16 <= width false → res = 0 ∧
       represents t' (if decide (demo_map false !! prefix_of false [10; 1; 0; 0] 16 = Some 2%nat)
                      then set_family false (delete (prefix_of false [10; 1; 0; 0] 16)) demo_map else demo_map)).
Proof.
  apply (allowedips_remove_spec false demo demo_map [10; 1; 0; 0] 16 2%nat demo_represents).
  - apply demo_addr; unfold is_byte; lia.
  - lia.
Defined.

Lemma allowedips_remove_by_peer_spec_witness :
  ∃ t', wg_allowedips_remove_by_peer demo 1 = Some t' ∧ represents t' (drop_peer 1 demo_map) ∧
    plist (peer_lists t') 1 = [].
Proof. exact (allowedips_remove_by_peer_spec demo demo_map 1 demo_represents). Defined.

Lemma allowedips_lookup_longest_witness :
  ∃ refs' o, lookup demo {[1%nat := 1; 2%nat := 5]} false [10; 1; 2; 3] = Some (refs', o) ∧
    longest false (demo_map false) (be_combine [10; 1; 2; 3]) o ∧
    refs' = match o with
            | Some pr => <[pr := default 0 (({[1%nat := 1; 2%nat := 5]} : peer_refs) !! pr) + 1]> {[1%nat := 1; 2%nat := 5]}
            | None => {[1%nat := 1; 2%nat := 5]}
            end.
Proof.
  apply (allowedips_lookup_longest false demo demo_map {[1%nat := 1; 2%nat := 5]} [10; 1; 2; 3] demo_represents).
  - apply demo_addr; unfold is_byte; lia.
  - intros q pr Hq. destruct (entries_owner false demo_tree q pr Hq) as [p Hp]. cbn [owners demo_tree app] in Hp.
    assert (pr = 1%nat ∨ pr = 2%nat) as [->| ->] by set_solver; done.
Defined.

Lemma allowedips_node_bound_witness :
  (size (nodes demo) <= (2 * size (demo_map false) - 1) + (2 * size (demo_map true) - 1))%nat.
Proof. exact (allowedips_node_bound demo demo_map demo_represents). Defined.

Lemma allowedips_free_spec_witness :
  ∃ t', wg_allowedips_free demo = Some t' ∧ nodes t' = ∅ ∧ root4 t' = None ∧ root6 t' = None ∧
    ∀ pr, plist (peer_lists t') pr = [].
Proof. exact (allowedips_free_spec demo demo_map demo_represents). Defined.

Lemma allowedips_read_nodes_witness :
  reads_back demo 2 [10; 1; 0; 0] 16 true ↔
  ∃ x, demo_map false !! (16, x) = Some 2%nat ∧ [10; 1; 0; 0] = prefix_addr false (16, x).
Proof. exact (allowedips_read_nodes demo demo_map 2 [10; 1; 0; 0] 16 false demo_represents). Defined.
