(* ===== verification/AllowedIPsSelftest.v ===== *)
(** * The self-test of the allowed-IPs trie (selftest/allowedips.c)

    The test keeps, next to the trie, a linear list of prefixes ordered by length
    whose look-up returns the first match.  The list and the trie answer alike
    after the same operations ([horrible_lookup_equiv]); the randomised test
    therefore succeeds on every sequence of random numbers and fails only for
    lack of memory ([randomized_test_passes]); the fixed cases are evaluated
    ([allowedips_selftest_passes]).

    Allocation is a function [alloc] that says which attempts succeed, random
    numbers are an arbitrary sequence [rnd].  Printing the trie as a graph is off
    in the source and left out. *)
From S2P Require Import Prelude PeerLookup AllowedIPs AllowedIPsKeys AllowedIPsTree AllowedIPsHeap AllowedIPsProofs AllowedIPsSpec.
From Stdlib Require Import Sorting.Sorted.

Definition NUM_PEERS : Z := 2000.
Definition NUM_RAND_ROUTES : Z := 400.
Definition NUM_MUTATED_ROUTES : Z := 100.
Definition NUM_QUERIES : Z := NUM_RAND_ROUTES * NUM_MUTATED_ROUTES * 30.

(** ** The linear list

    [union nf_inet_addr] is its 16 bytes, [all], [ip6] and [ip] are its 32-bit
    words. *)

Definition word (i : nat) (u : bytes) : Z := read_u32 u (4 * i).
Definition put_word (i : nat) (w : Z) (u : bytes) : bytes :=
  take (4 * i) u ++ le_split 4 w ++ drop (4 * i + 4) u.

Definition htonl (x : Z) : Z := le_combine (be_split 4 x).

Definition hweight32 (w : Z) : Z := foldr (fun i n => n + Z.b2z (Z.testbit w i)) 0 (seqZ 0 32).

Record horrible_allowedips_node := mk_horrible {
  h_ip : bytes;
  h_mask : bytes;
  h_version : Z;
  h_value : option nat;
}.

#[export] Instance settable_horrible : Settable horrible_allowedips_node := fun n =>
  mk_horrible (h_ip n) (h_mask n) (h_version n) (h_value n).

Definition horrible_allowedips := list horrible_allowedips_node.

Definition horrible_allowedips_init : horrible_allowedips := [].

Fixpoint horrible_allowedips_free (table : horrible_allowedips) : horrible_allowedips :=
  match table with
  | [] => []
  | _ :: h => horrible_allowedips_free h
  end.

Definition horrible_cidr_to_mask (cidr : Z) : bytes :=
  let mask := zeros 16 in
  let mask := replicate (Z.to_nat (cidr / 8)) 255 ++ drop (Z.to_nat (cidr / 8)) mask in
  if cidr mod 32 =? 0 then mask
  else put_word (Z.to_nat (cidr / 32))
         (htonl (Z.land (Z.shiftl 0xFFFFFFFF (32 - cidr mod 32)) 0xFFFFFFFF)) mask.

Definition horrible_mask_to_cidr (subnet : bytes) : Z :=
  u8 (hweight32 (word 0 subnet) + hweight32 (word 1 subnet) + hweight32 (word 2 subnet) + hweight32 (word 3 subnet)).

Definition and_word (i : nat) (mask ip : bytes) : bytes :=
  put_word i (Z.land (word i ip) (word i mask)) ip.

Definition horrible_mask_self (node : horrible_allowedips_node) : horrible_allowedips_node :=
  if h_version node =? 4 then node <| h_ip ::= and_word 0 (h_mask node) |>
  else if h_version node =? 6 then
    node <| h_ip ::= and_word 0 (h_mask node) |> <| h_ip ::= and_word 1 (h_mask node) |>
         <| h_ip ::= and_word 2 (h_mask node) |> <| h_ip ::= and_word 3 (h_mask node) |>
  else node.

Definition match_word (i : nat) (node : horrible_allowedips_node) (ip : bytes) : bool :=
  Z.land (word i ip) (word i (h_mask node)) =? word i (h_ip node).

Definition horrible_match_v4 (node : horrible_allowedips_node) (ip : bytes) : bool := match_word 0 node ip.
Definition horrible_match_v6 (node : horrible_allowedips_node) (ip : bytes) : bool :=
  match_word 0 node ip && match_word 1 node ip && match_word 2 node ip && match_word 3 node ip.

(** The first loop of [horrible_insert_ordered]: the entry with the same prefix
    takes the new value. *)
Fixpoint horrible_replace (table : horrible_allowedips) (node : horrible_allowedips_node) :
    option horrible_allowedips :=
  match table with
  | [] => None
  | other :: rest =>
    if (h_version other =? h_version node) && bool_decide (h_mask other = h_mask node)
       && bool_decide (h_ip other = h_ip node)
    then Some (other <| h_value := h_value node |> :: rest)
    else cons other <$> horrible_replace rest node
  end.

(** The second loop and the three ways of linking the node: before the first
    entry that is no longer, or behind the last. *)
Fixpoint horrible_link (table : horrible_allowedips) (my_cidr : Z) (node : horrible_allowedips_node) :
    horrible_allowedips :=
  match table with
  | [] => [node]
  | other :: rest =>
    if horrible_mask_to_cidr (h_mask other) <=? my_cidr then node :: other :: rest
    else other :: horrible_link rest my_cidr node
  end.

Definition horrible_insert_ordered (table : horrible_allowedips) (node : horrible_allowedips_node) :
    horrible_allowedips :=
  match horrible_replace table node with
  | Some table => table
  | None => horrible_link table (horrible_mask_to_cidr (h_mask node)) node
  end.

(** [ok]: the allocation succeeds. *)
Definition horrible_allowedips_insert_v4 (table : horrible_allowedips) (ip : bytes) (cidr : Z) (value : option nat)
    (ok : bool) : horrible_allowedips * Z :=
  if ok then
    let node := mk_horrible (ip ++ zeros 12) (horrible_cidr_to_mask cidr) 4 value in
    (horrible_insert_ordered table (horrible_mask_self node), 0)
  else (table, - ENOMEM).

Definition horrible_allowedips_insert_v6 (table : horrible_allowedips) (ip : bytes) (cidr : Z) (value : option nat)
    (ok : bool) : horrible_allowedips * Z :=
  if ok then
    let node := mk_horrible ip (horrible_cidr_to_mask cidr) 6 value in
    (horrible_insert_ordered table (horrible_mask_self node), 0)
  else (table, - ENOMEM).

Fixpoint horrible_allowedips_lookup_v4 (table : horrible_allowedips) (ip : bytes) : option nat :=
  match table with
  | [] => None
  | node :: table =>
    if (h_version node =? 4) && horrible_match_v4 node ip then h_value node
    else horrible_allowedips_lookup_v4 table ip
  end.

Fixpoint horrible_allowedips_lookup_v6 (table : horrible_allowedips) (ip : bytes) : option nat :=
  match table with
  | [] => None
  | node :: table =>
    if (h_version node =? 6) && horrible_match_v6 node ip then h_value node
    else horrible_allowedips_lookup_v6 table ip
  end.

Fixpoint horrible_allowedips_remove_by_value (table : horrible_allowedips) (value : option nat) :
    horrible_allowedips :=
  match table with
  | [] => []
  | node :: h =>
    if bool_decide (h_value node = value) then horrible_allowedips_remove_by_value h value
    else node :: horrible_allowedips_remove_by_value h value
  end.

(** The two families with one name each, for the theorems. *)
Definition horrible_insert (v6 : bool) := if v6 then horrible_allowedips_insert_v6 else horrible_allowedips_insert_v4.
Definition horrible_lookup (v6 : bool) := if v6 then horrible_allowedips_lookup_v6 else horrible_allowedips_lookup_v4.

(** ** The state of a test

    The trie, the peers' reference counts and the number of allocations tried. *)
Record bench := mk_bench {
  b_trie : allowedips;
  b_refs : peer_refs;
  b_pos : nat;
}.

#[export] Instance settable_bench : Settable bench := fun b => mk_bench (b_trie b) (b_refs b) (b_pos b).

(** An address where no node is. *)
Definition fresh_ptr (t : allowedips) : nat := map_fold (fun p _ n => Nat.max (S p) n) 0%nat (nodes t).

Section Tests.
Context (alloc : nat -> bool).

Definition kzalloc (b : bench) : bool * bench := (alloc (b_pos b), b <| b_pos ::= S |>).

(** [wg_allowedips_insert_v4] and [_v6] on the trie of the test, with the two
    allocations an insertion may need. *)
Definition bench_insert (v6 : bool) (ip : bytes) (cidr : Z) (mem : option nat) (b : bench) : option (bench * Z) :=
  let p := fresh_ptr (b_trie b) in
  let '(ok1, b) := kzalloc b in
  let '(ok2, b) := kzalloc b in
  '(t, res) ← wg_allowedips_insert v6 (b_trie b) ip cidr mem
    (if ok1 then Some p else None) (if ok2 then Some (S p) else None);
  Some (b <| b_trie := t |>, res).

Definition bench_remove (v6 : bool) (ip : bytes) (cidr : Z) (mem : option nat) (b : bench) : option (bench * Z) :=
  '(t, res) ← wg_allowedips_remove v6 (b_trie b) ip cidr mem; Some (b <| b_trie := t |>, res).

Definition bench_lookup (v6 : bool) (ip : bytes) (b : bench) : option (bench * option nat) :=
  '(refs, o) ← lookup (b_trie b) (b_refs b) v6 ip; Some (b <| b_refs := refs |>, o).

Definition bench_remove_by_peer (pr : nat) (b : bench) : option bench :=
  t ← wg_allowedips_remove_by_peer (b_trie b) pr; Some (b <| b_trie := t |>).

Definition bench_free (b : bench) : option bench :=
  t ← wg_allowedips_free (b_trie b); Some (b <| b_trie := t |>).

(** [wg_allowedips_init] on a used table; the lists belong to the peers. *)
Definition bench_reinit (b : bench) : bench :=
  b <| b_trie ::= fun t => t <| root4 := None |> <| root6 := None |> <| seq := 1 |> |>.

(** ** The randomised test *)

Section Random.
Context (rnd : nat -> Z).

Record rtest := mk_rtest {
  r_bench : bench;
  r_list : horrible_allowedips;
  r_pos : nat;
}.

#[export] Instance settable_rtest : Settable rtest := fun s => mk_rtest (r_bench s) (r_list s) (r_pos s).

(** A step of the test: [None] is a bad access, [false] jumps to the clean-up. *)
Definition rstep := rtest -> option (bool * rtest).
Definition and_then (f g : rstep) : rstep := fun s => '(ok, s) ← f s; if ok : bool then g s else Some (false, s).

Fixpoint iterate (n : nat) (f : rstep) : rstep :=
  match n with
  | O => fun s => Some (true, s)
  | S n => and_then f (iterate n f)
  end.

Definition get_random_u32 (s : rtest) : Z * rtest := (u32 (rnd (r_pos s)), s <| r_pos ::= S |>).
Definition get_random_u8 (s : rtest) : Z * rtest := let '(x, s) := get_random_u32 s in (u8 x, s).
Definition get_random_u32_below (ceil : Z) (s : rtest) : Z * rtest :=
  let '(x, s) := get_random_u32 s in (x mod ceil, s).
Definition get_random_u32_inclusive (floor ceil : Z) (s : rtest) : Z * rtest :=
  let '(x, s) := get_random_u32 s in (floor + x mod (ceil - floor + 1), s).

Fixpoint get_random_bytes (n : nat) (s : rtest) : bytes * rtest :=
  match n with
  | O => ([], s)
  | S n => let '(x, s) := get_random_u8 s in let '(l, s) := get_random_bytes n s in (x :: l, s)
  end.

Definition random_route (v6 : bool) (s : rtest) : Z * nat * rtest :=
  let '(cidr, s) := get_random_u32_inclusive 1 (width v6) s in
  let '(peer, s) := get_random_u32_below NUM_PEERS s in
  (cidr, Z.to_nat peer, s).

(** The same route into the trie and into the list. *)
Definition insert_route (v6 : bool) (ip : bytes) : rstep := fun s =>
  let '(cidr, peer, s) := random_route v6 s in
  '(b, res) ← bench_insert v6 ip cidr (Some peer) (r_bench s);
  let s := s <| r_bench := b |> in
  if res <? 0 then Some (false, s)
  else
    let '(ok, b) := kzalloc (r_bench s) in
    let '(h, res) := horrible_insert v6 (r_list s) ip cidr (Some peer) ok in
    Some (res =? 0, s <| r_bench := b |> <| r_list := h |>).

(** The mask of a mutated route: [k] is the loop variable left by the first loop,
    and the loop over the rest stops at 4 in both families. *)
Definition mutate_mask (mask : bytes) (mutate_amount : Z) : bytes :=
  let k := Z.to_nat (mutate_amount / 8) in
  let mask := replicate k 255 ++ drop k mask in
  let mask := <[k := u8 (Z.shiftl 255 ((8 - mutate_amount mod 8) mod 8))]> mask in
  take k mask ++ zeros (4 - k) ++ drop (Nat.max k 4) mask.

Fixpoint mutate_bytes (n : nat) (mutated mask : bytes) (s : rtest) : bytes * rtest :=
  match n, mutated, mask with
  | S n, b :: mutated, m :: mask =>
    let '(x, s) := get_random_u8 s in
    let '(l, s) := mutate_bytes n mutated mask s in
    (u8 (Z.lor (Z.land b m) (Z.land (Z.lnot m) x)) :: l, s)
  | _, _, _ => (mutated, s)
  end.

Definition mutate_route (v6 : bool) (ip : bytes) : rstep := fun s =>
  let '(mask, s) := get_random_bytes (length ip) s in
  let '(mutate_amount, s) := get_random_u32_below (width v6) s in
  let '(mutated, s) := mutate_bytes 4 ip (mutate_mask mask mutate_amount) s in
  insert_route v6 mutated s.

Definition rand_route (v6 : bool) : rstep := fun s =>
  let '(ip, s) := get_random_bytes (Z.to_nat (width v6 / 8)) s in
  and_then (insert_route v6 ip) (iterate (Z.to_nat NUM_MUTATED_ROUTES) (mutate_route v6 ip)) s.

Definition query (v6 : bool) : rstep := fun s =>
  let '(ip, s) := get_random_bytes (Z.to_nat (width v6 / 8)) s in
  '(b, o) ← bench_lookup v6 ip (r_bench s);
  Some (bool_decide (o = horrible_lookup v6 (r_list s) ip), s <| r_bench := b |>).

(** A round of queries before each removal of a peer and after the last. *)
Fixpoint rounds (peers : list nat) : rstep :=
  and_then (iterate (Z.to_nat NUM_QUERIES) (and_then (query false) (query true)))
    (fun s =>
       match peers with
       | [] => Some (true, s)
       | p :: peers =>
         b ← bench_remove_by_peer p (r_bench s);
         rounds peers (s <| r_bench := b |> <| r_list ::= fun h => horrible_allowedips_remove_by_value h (Some p) |>)
       end).

(** [peers[i] = kzalloc(...)]; [kref_init]. *)
Fixpoint init_peers (peers : list nat) : rstep := fun s =>
  match peers with
  | [] => Some (true, s)
  | p :: peers =>
    let '(ok, b) := kzalloc (r_bench s) in
    let s := s <| r_bench := b |> in
    if ok then init_peers peers (s <| r_bench ::= fun b => b <| b_refs ::= <[p := 1]> |> |>)
    else Some (false, s)
  end.

Definition peers : list nat := List.seq 0 (Z.to_nat NUM_PEERS).

Definition kcalloc_peers : rstep := fun s =>
  let '(ok, b) := kzalloc (r_bench s) in Some (ok, s <| r_bench := b |>).

Definition removal_check : rstep := fun s =>
  Some (bool_decide (root4 (b_trie (r_bench s)) = None) && bool_decide (root6 (b_trie (r_bench s)) = None), s).

(** The clean-up frees both tables and the peers on every path. *)
Definition randomized_test (pos : nat) : option (bool * rtest) :=
  let s := mk_rtest (mk_bench wg_allowedips_init ∅ pos) horrible_allowedips_init 0 in
  '(ret, s) ←
    and_then kcalloc_peers
    (and_then (init_peers peers)
    (and_then (iterate (Z.to_nat NUM_RAND_ROUTES) (rand_route false))
    (and_then (iterate (Z.to_nat NUM_RAND_ROUTES) (rand_route true))
    (and_then (rounds peers) removal_check)))) s;
  b ← bench_free (r_bench s);
  Some (ret, s <| r_bench := b <| b_refs := ∅ |> |> <| r_list ::= horrible_allowedips_free |>).
End Random.

(** ** The fixed cases *)

Definition ip4 (a b c d : Z) : bytes := [u8 a; u8 b; u8 c; u8 d].
Definition ip6 (a b c d : Z) : bytes := be_split 4 a ++ be_split 4 b ++ be_split 4 c ++ be_split 4 d.

(** The state, the test number [i] and the result so far. *)
Record stest := mk_stest {
  s_bench : bench;
  s_i : Z;
  s_success : bool;
}.

#[export] Instance settable_stest : Settable stest := fun s => mk_stest (s_bench s) (s_i s) (s_success s).

Definition sstep := stest -> option stest.

Fixpoint run_steps (l : list sstep) (s : stest) : option stest :=
  match l with
  | [] => Some s
  | f :: l => s ← f s; run_steps l s
  end.

Definition maybe_fail (_s : bool) (s : stest) : stest :=
  let s := s <| s_i ::= fun i => i + 1 |> in
  if _s then s else s <| s_success := false |>.

Definition do_insert (v6 : bool) (mem : option nat) (ip : bytes) (cidr : Z) : sstep := fun s =>
  '(b, _) ← bench_insert v6 ip cidr mem (s_bench s); Some (s <| s_bench := b |>).
Definition do_remove (v6 : bool) (mem : option nat) (ip : bytes) (cidr : Z) : sstep := fun s =>
  '(b, _) ← bench_remove v6 ip cidr mem (s_bench s); Some (s <| s_bench := b |>).

Definition test_lookup (v6 : bool) (ip : bytes) (ok : option nat -> bool) : sstep := fun s =>
  '(b, o) ← bench_lookup v6 ip (s_bench s); Some (maybe_fail (ok o) (s <| s_bench := b |>)).
Definition test (v6 : bool) (mem : option nat) (ip : bytes) : sstep :=
  test_lookup v6 ip (fun o => bool_decide (o = mem)).
Definition test_negative (v6 : bool) (mem : option nat) (ip : bytes) : sstep :=
  test_lookup v6 ip (fun o => bool_decide (o ≠ mem)).
Definition test_boolean (cond : bool) : sstep := fun s => Some (maybe_fail cond s).

(** [test_boolean(remove(...) == res)]. *)
Definition test_remove (v6 : bool) (mem : option nat) (ip : bytes) (cidr res : Z) : sstep := fun s =>
  '(b, r) ← bench_remove v6 ip cidr mem (s_bench s); test_boolean (r =? res) (s <| s_bench := b |>).

Definition remove_by_peer (pr : nat) : sstep := fun s =>
  b ← bench_remove_by_peer pr (s_bench s); Some (s <| s_bench := b |>).
Definition free_table : sstep := fun s => b ← bench_free (s_bench s); Some (s <| s_bench := b |>).
Definition init_table : sstep := fun s => Some (s <| s_bench ::= bench_reinit |>).

(** The eight peers. *)
Definition pa : nat := 0.
Definition pb : nat := 1.
Definition pc : nat := 2.
Definition pd : nat := 3.
Definition pe : nat := 4.
Definition pf : nat := 5.
Definition pg : nat := 6.
Definition ph : nat := 7.

(** The table; entries are replaced and host bits are dropped. *)
Definition static_inserts : list sstep :=
  [do_insert false (Some pa) (ip4 192 168 4 0) 24;
   do_insert false (Some pb) (ip4 192 168 4 4) 32;
   do_insert false (Some pc) (ip4 192 168 0 0) 16;
   do_insert false (Some pd) (ip4 192 95 5 64) 27;
   do_insert false (Some pc) (ip4 192 95 5 65) 27;
   do_insert true (Some pd) (ip6 0x26075300 0x60006b00 0 0xc05f0543) 128;
   do_insert true (Some pc) (ip6 0x26075300 0x60006b00 0 0) 64;
   do_insert false (Some pe) (ip4 0 0 0 0) 0;
   do_insert true (Some pe) (ip6 0 0 0 0) 0;
   do_insert true (Some pf) (ip6 0 0 0 0) 0;
   do_insert true (Some pg) (ip6 0x24046800 0 0 0) 32;
   do_insert true (Some ph) (ip6 0x24046800 0x40040800 0xdeadbeef 0xdeadbeef) 64;
   do_insert true (Some pa) (ip6 0x24046800 0x40040800 0xdeadbeef 0xdeadbeef) 128;
   do_insert true (Some pc) (ip6 0x24446800 0x40e40800 0xdeaebeef 0xdefbeef) 128;
   do_insert true (Some pb) (ip6 0x24446800 0xf0e40800 0xeeaebeef 0) 98;
   do_insert false (Some pg) (ip4 64 15 112 0) 20;
   do_insert false (Some ph) (ip4 64 15 123 211) 25;
   do_insert false (Some pa) (ip4 10 0 0 0) 25;
   do_insert false (Some pb) (ip4 10 0 0 128) 25;
   do_insert false (Some pa) (ip4 10 1 0 0) 30;
   do_insert false (Some pb) (ip4 10 1 0 4) 30;
   do_insert false (Some pc) (ip4 10 1 0 8) 29;
   do_insert false (Some pd) (ip4 10 1 0 16) 29].

(** Longest matches in both families. *)
Definition static_lookups : list sstep :=
  [test false (Some pa) (ip4 192 168 4 20);
   test false (Some pa) (ip4 192 168 4 0);
   test false (Some pb) (ip4 192 168 4 4);
   test false (Some pc) (ip4 192 168 200 182);
   test false (Some pc) (ip4 192 95 5 68);
   test false (Some pe) (ip4 192 95 5 96);
   test true (Some pd) (ip6 0x26075300 0x60006b00 0 0xc05f0543);
   test true (Some pc) (ip6 0x26075300 0x60006b00 0 0xc02e01ee);
   test true (Some pf) (ip6 0x26075300 0x60006b01 0 0);
   test true (Some pg) (ip6 0x24046800 0x40040806 0 0x1006);
   test true (Some pg) (ip6 0x24046800 0x40040806 0x1234 0x5678);
   test true (Some pf) (ip6 0x240467ff 0x40040806 0x1234 0x5678);
   test true (Some pf) (ip6 0x24046801 0x40040806 0x1234 0x5678);
   test true (Some ph) (ip6 0x24046800 0x40040800 0x1234 0x5678);
   test true (Some ph) (ip6 0x24046800 0x40040800 0 0);
   test true (Some ph) (ip6 0x24046800 0x40040800 0x10101010 0x10101010);
   test true (Some pa) (ip6 0x24046800 0x40040800 0xdeadbeef 0xdeadbeef);
   test false (Some pg) (ip4 64 15 116 26);
   test false (Some pg) (ip4 64 15 127 3);
   test false (Some pg) (ip4 64 15 123 1);
   test false (Some ph) (ip4 64 15 123 128);
   test false (Some ph) (ip4 64 15 123 129);
   test false (Some pa) (ip4 10 0 0 52);
   test false (Some pb) (ip4 10 0 0 220);
   test false (Some pa) (ip4 10 1 0 2);
   test false (Some pb) (ip4 10 1 0 6);
   test false (Some pc) (ip4 10 1 0 10);
   test false (Some pd) (ip4 10 1 0 20)].

(** Removing a peer. *)
Definition static_remove_by_peer : list sstep :=
  [do_insert false (Some pa) (ip4 1 0 0 0) 32;
   do_insert false (Some pa) (ip4 64 0 0 0) 32;
   do_insert false (Some pa) (ip4 128 0 0 0) 32;
   do_insert false (Some pa) (ip4 192 0 0 0) 32;
   do_insert false (Some pa) (ip4 255 0 0 0) 32;
   remove_by_peer pa;
   test_negative false (Some pa) (ip4 1 0 0 0);
   test_negative false (Some pa) (ip4 64 0 0 0);
   test_negative false (Some pa) (ip4 128 0 0 0);
   test_negative false (Some pa) (ip4 192 0 0 0);
   test_negative false (Some pa) (ip4 255 0 0 0)].

(** Removing single prefixes: only an exact match of its peer. *)
Definition static_remove : list sstep :=
  [do_insert false (Some pa) (ip4 1 0 0 0) 32;
   do_insert false (Some pa) (ip4 192 0 0 0) 24;
   do_insert true (Some pa) (ip6 0x24446801 0x40e40800 0xdeaebeef 0xdefbeef) 128;
   do_insert true (Some pa) (ip6 0x24446800 0xf0e40800 0xeeaebeef 0) 98;
   test false (Some pa) (ip4 1 0 0 0);
   test false (Some pa) (ip4 192 0 0 1);
   test true (Some pa) (ip6 0x24446801 0x40e40800 0xdeaebeef 0xdefbeef);
   test true (Some pa) (ip6 0x24446800 0xf0e40800 0xeeaebeef 0x10101010);
   do_remove false (Some pa) (ip4 192 0 0 0) 32;
   test false (Some pa) (ip4 192 0 0 1);
   test_remove false None (ip4 192 0 0 0) 24 0;
   test false (Some pa) (ip4 192 0 0 1);
   test_remove false (Some pb) (ip4 192 0 0 0) 24 0;
   test false (Some pa) (ip4 192 0 0 1);
   test_remove false (Some pb) (ip4 192 0 0 0) 33 (- EINVAL);
   test false (Some pa) (ip4 192 0 0 1);
   do_remove false (Some pa) (ip4 192 0 0 0) 24;
   test_negative false (Some pa) (ip4 192 0 0 1);
   do_remove false (Some pa) (ip4 1 0 0 0) 32;
   test_negative false (Some pa) (ip4 1 0 0 0);
   do_remove true (Some pa) (ip6 0x24446801 0x40e40800 0xdeaebeef 0xdefbeef) 96;
   test true (Some pa) (ip6 0x24446801 0x40e40800 0xdeaebeef 0xdefbeef);
   test_remove true None (ip6 0x24446801 0x40e40800 0xdeaebeef 0xdefbeef) 128 0;
   test true (Some pa) (ip6 0x24446801 0x40e40800 0xdeaebeef 0xdefbeef);
   test_remove true (Some pb) (ip6 0x24446801 0x40e40800 0xdeaebeef 0xdefbeef) 128 0;
   test true (Some pa) (ip6 0x24446801 0x40e40800 0xdeaebeef 0xdefbeef);
   test_remove true (Some pa) (ip6 0x24446801 0x40e40800 0xdeaebeef 0xdefbeef) 129 (- EINVAL);
   test true (Some pa) (ip6 0x24446801 0x40e40800 0xdeaebeef 0xdefbeef);
   do_remove true (Some pa) (ip6 0x24446801 0x40e40800 0xdeaebeef 0xdefbeef) 128;
   test_negative true (Some pa) (ip6 0x24446801 0x40e40800 0xdeaebeef 0xdefbeef);
   do_remove true (Some pb) (ip6 0x24446800 0xf0e40800 0xeeaebeef 0) 98;
   test true (Some pa) (ip6 0x24446800 0xf0e40800 0xeeaebeef 0x10101010);
   do_remove true (Some pa) (ip6 0x24446800 0xf0e40800 0xeeaebeef 0) 98;
   test_negative true (Some pa) (ip6 0x24446800 0xf0e40800 0xeeaebeef 0x10101010)].

(** Nested prefixes of one peer. *)
Definition static_remove_nested : list sstep :=
  [free_table;
   init_table;
   do_insert false (Some pa) (ip4 192 168 0 0) 16;
   do_insert false (Some pa) (ip4 192 168 0 0) 24;
   remove_by_peer pa;
   test_negative false (Some pa) (ip4 192 168 0 1)].

(** The prefixes that are read back. *)
Definition static_listed : list sstep :=
  [do_insert false (Some pa) (ip4 192 95 5 93) 27;
   do_insert true (Some pa) (ip6 0x26075300 0x60006b00 0 0xc05f0543) 128;
   do_insert false (Some pa) (ip4 10 1 0 20) 29;
   do_insert true (Some pa) (ip6 0x26075300 0x6d8a6bf8 0xdab1f1df 0xc05f1523) 83;
   do_insert true (Some pa) (ip6 0x26075300 0x6d8a6bf8 0xdab1f1df 0xc05f1523) 21].

(** 129 prefixes in a row, the deepest trie there is. *)
Definition static_depth_round (i : Z) : list sstep :=
  let part := be_split 8 (u64 (Z.shiftl U64_MAX i)) in
  [do_insert true (Some pa) (replicate 8 255 ++ part) 128;
   do_insert true (Some pa) (part ++ zeros 8) 128].

Definition static_depth : list sstep :=
  (i ← seqZ 0 64; static_depth_round i) ++
  [(fun s => Some (s <| s_i := 64 |>)); do_insert true (Some pa) (zeros 16) 128; free_table].

(** What the walk over the list of the peer [a] finds. *)
Record found := mk_found {
  f_count : Z;
  found_a : bool; found_b : bool; found_c : bool; found_d : bool; found_e : bool; found_other : bool;
}.

#[export] Instance settable_found : Settable found := fun x =>
  mk_found (f_count x) (found_a x) (found_b x) (found_c x) (found_d x) (found_e x) (found_other x).

Definition found_node (x : found) (n : allowedips_node) : found :=
  let '(ip, cidr, v4) := wg_allowedips_read_node n in
  let x := x <| f_count ::= fun c => c + 1 |> in
  if (cidr =? 27) && v4 && bool_decide (ip = ip4 192 95 5 64) then x <| found_a := true |>
  else if (cidr =? 128) && negb v4 && bool_decide (ip = ip6 0x26075300 0x60006b00 0 0xc05f0543)
  then x <| found_b := true |>
  else if (cidr =? 29) && v4 && bool_decide (ip = ip4 10 1 0 16) then x <| found_c := true |>
  else if (cidr =? 83) && negb v4 && bool_decide (ip = ip6 0x26075300 0x6d8a6bf8 0xdab1e000 0)
  then x <| found_d := true |>
  else if (cidr =? 21) && negb v4 && bool_decide (ip = ip6 0x26075000 0 0 0) then x <| found_e := true |>
  else x <| found_other := true |>.

Fixpoint found_list (t : allowedips) (l : list nat) (x : found) : option found :=
  match l with
  | [] => Some x
  | p :: l => n ← get_node t p; found_list t l (found_node x n)
  end.

Definition static_read_back : sstep := fun s =>
  let t := b_trie (s_bench s) in
  x ← found_list t (default [] (peer_lists t !! pa)) (mk_found 0 false false false false false false);
  run_steps [test_boolean (f_count x =? 5); test_boolean (found_a x); test_boolean (found_b x);
             test_boolean (found_c x); test_boolean (found_d x); test_boolean (found_e x);
             test_boolean (negb (found_other x))] s.

(** [init_peer], eight times; all of them are tried. *)
Fixpoint init_peer (l : list nat) (b : bench) : bool * bench :=
  match l with
  | [] => (true, b)
  | p :: l =>
    let '(ok, b) := kzalloc b in
    let '(all_ok, b) := init_peer l (if ok then b <| b_refs ::= <[p := 1]> |> else b) in
    (ok && all_ok, b)
  end.

Definition static_tests : sstep := fun s =>
  s ← run_steps static_inserts s;
  run_steps (static_lookups ++ static_remove_by_peer ++ static_remove ++ static_remove_nested ++
             static_depth ++ [init_table] ++ static_listed ++ [static_read_back])
    (s <| s_success := true |>).

(** [random]: DEBUG_RANDOM_TRIE is defined. *)
Definition wg_allowedips_selftest (random : bool) (rnd : nat -> Z) : option (bool * stest) :=
  let '(ok, b) := init_peer [pa; pb; pc; pd; pe; pf; pg; ph] (mk_bench wg_allowedips_init ∅ 0) in
  let s := mk_stest b 0 false in
  s ←
    (if ok then
       s ← static_tests s;
       if random && s_success s then
         '(ret, r) ← randomized_test rnd (b_pos (s_bench s));
         Some (s <| s_success := ret |> <| s_bench ::= fun b => b <| b_pos := b_pos (r_bench r) |> |>)
       else Some s
     else Some s);
  s ← free_table s;
  Some (s_success s, s <| s_bench ::= fun b => b <| b_refs := ∅ |> |>).
End Tests.

(** ** Words, masks and prefixes *)

Lemma land_byte a b : is_byte a → is_byte b → is_byte (Z.land a b).
Proof. unfold is_byte. intros Ha Hb. pose proof (land_mask a b ltac:(lia)). lia. Qed.

Lemma land_cons a b x y : is_byte a → is_byte b → Z.land (a + 256 * x) (b + 256 * y) = Z.land a b + 256 * Z.land x y.
Proof.
  intros Ha Hb. apply Z.bits_inj'. intros i Hi. rewrite Z.land_spec, !cons_testbit by auto using land_byte.
  destruct (i <? 8); by rewrite Z.land_spec.
Qed.

Lemma le_combine_land l k :
  Forall is_byte l → Forall is_byte k → length l = length k →
  le_combine (zip_with Z.land l k) = Z.land (le_combine l) (le_combine k).
Proof.
  intros Hl. revert k. induction Hl as [|a l Ha Hl IH]; intros [|b k] Hk Hlen; try done. apply Forall_cons in Hk as [Hb Hk].
  cbn [zip_with le_combine]. rewrite land_cons by done. rewrite IH by (done || (cbn in Hlen; lia)). done.
Qed.

Lemma land_bytes l k : Forall is_byte l → Forall is_byte k → Forall is_byte (zip_with Z.land l k).
Proof.
  intros Hl. revert k. induction Hl as [|a l Ha Hl IH]; intros [|b k] Hk; try by constructor.
  apply Forall_cons in Hk as [Hb Hk]. constructor; [by apply land_byte|by apply IH].
Qed.

Lemma zip_with_reverse (l k : bytes) :
  length l = length k → reverse (zip_with Z.land l k) = zip_with Z.land (reverse l) (reverse k).
Proof.
  revert k. induction l as [|a l IH]; intros [|b k] Hlen; try done. cbn [zip_with]. rewrite !reverse_cons, IH by (cbn in Hlen; lia).
  rewrite zip_with_app by (rewrite !length_reverse; cbn in Hlen; lia). done.
Qed.

Lemma be_combine_land l k :
  Forall is_byte l → Forall is_byte k → length l = length k →
  be_combine (zip_with Z.land l k) = Z.land (be_combine l) (be_combine k).
Proof.
  intros Hl Hk Hlen. unfold be_combine. rewrite zip_with_reverse by done.
  apply le_combine_land; [by apply Forall_reverse..|by rewrite !length_reverse].
Qed.

Lemma le_combine_inj l k :
  Forall is_byte l → Forall is_byte k → length l = length k → le_combine l = le_combine k → l = k.
Proof. intros Hl Hk Hlen E. rewrite <- (le_split_combine l Hl), <- (le_split_combine k Hk). by rewrite E, Hlen. Qed.

Lemma slice_is_bytes off n l : Forall is_byte l → Forall is_byte (slice off n l).
Proof. intros H. by apply Forall_take, Forall_drop. Qed.

Section Words.
Context (i : nat) (ip mask : bytes).
Hypothesis Hi : (4 * i + 4 <= length ip)%nat.
Hypothesis Hm : length mask = 16%nat.
Hypothesis Hl : (length ip <= 16)%nat.
Hypothesis Hip : Forall is_byte ip.
Hypothesis Hmask : Forall is_byte mask.

Lemma land_word : Z.land (word i ip) (word i mask) = le_combine (zip_with Z.land (slice (4 * i) 4 ip) (slice (4 * i) 4 mask)).
Proof using All. unfold word, read_u32. rewrite le_combine_land; [done|by apply slice_is_bytes..|rewrite !length_slice by lia; done]. Qed.

Lemma and_word_bytes :
  and_word i mask ip =
  take (4 * i) ip ++ zip_with Z.land (slice (4 * i) 4 ip) (slice (4 * i) 4 mask) ++ drop (4 * i + 4) ip.
Proof using All.
  unfold and_word, put_word. rewrite land_word. do 2 f_equal.
  replace 4%nat with (length (zip_with Z.land (slice (4 * i) 4 ip) (slice (4 * i) 4 mask))) at 1.
  - apply le_split_combine, land_bytes; by apply slice_is_bytes.
  - rewrite length_zip_with, !length_slice by lia. done.
Qed.

Lemma match_word_bytes v n x :
  length n = 16%nat → Forall is_byte n →
  match_word i (mk_horrible n mask v x) ip =
  bool_decide (zip_with Z.land (slice (4 * i) 4 ip) (slice (4 * i) 4 mask) = slice (4 * i) 4 n).
Proof using All.
  intros Hn Hb. unfold match_word. cbn [h_mask h_ip]. rewrite land_word. apply eq_bool_prop_intro.
  rewrite bool_decide_spec, Is_true_true, Z.eqb_eq. split; [|by intros ->]. intros E.
  apply le_combine_inj; [by apply land_bytes; apply slice_is_bytes|by apply slice_is_bytes| |done].
  rewrite length_zip_with, !length_slice by lia. done.
Qed.
End Words.

Abbreviation addr_len v := (Z.to_nat (width v / 8)).

Definition mask_check (c : Z) : bool :=
  let m := horrible_cidr_to_mask c in
  bool_decide (length m = 16%nat) && forallb (fun b => (0 <=? b) && (b <? 256)) m
  && (be_combine m =? Z.shiftl (Z.ones c) (128 - c)) && (horrible_mask_to_cidr m =? c)
  && implb (c <=? 32) ((be_combine (take 4 m) =? Z.shiftl (Z.ones c) (32 - c)) && bool_decide (drop 4 m = zeros 12)).

Lemma mask_checked : forallb mask_check (seqZ 0 129) = true.
Proof. vm_compute. reflexivity. Qed.

(** The mask of a prefix length that fits the family. *)
Record mask_ok (v : bool) (c : Z) (m : bytes) : Prop := {
  mo_length : length m = 16%nat;
  mo_bytes : Forall is_byte m;
  mo_val : be_combine (take (addr_len v) m) = Z.shiftl (Z.ones c) (width v - c);
  mo_cidr : horrible_mask_to_cidr m = c;
}.

Lemma cidr_mask_ok v c : 0 <= c <= width v → mask_ok v c (horrible_cidr_to_mask c).
Proof.
  intros Hc. pose proof mask_checked as H. rewrite forallb_forall in H. specialize (H c).
  rewrite <- list_elem_of_In, elem_of_seqZ in H. assert (c < 129) by (destruct v; cbn in Hc; lia).
  specialize (H ltac:(lia)). unfold mask_check in H. rewrite !andb_true_iff, bool_decide_eq_true, !Z.eqb_eq in H.
  destruct H as ((((H1 & H2) & H3) & H4) & H5). split; [done| | |done].
  - apply Forall_forall. intros b Hb. rewrite forallb_forall in H2. rewrite list_elem_of_In in Hb. specialize (H2 b Hb).
    unfold is_byte. rewrite andb_true_iff, Z.leb_le, Z.ltb_lt in H2. done.
  - destruct v.
    + change (addr_len true) with 16%nat. rewrite take_ge by (rewrite H1; done). done.
    + change (width false) with 32 in *. destruct (Z.leb_spec c 32); [|lia]. cbn [implb] in H5.
      rewrite andb_true_iff, Z.eqb_eq in H5. exact (proj1 H5).
Qed.

Lemma land_ones_shift w x c :
  0 <= c <= w → 0 <= x < 2 ^ w → Z.land x (Z.shiftl (Z.ones c) (w - c)) = Z.shiftl (pre w x c) (w - c).
Proof.
  intros Hc Hx. apply Z.bits_inj'. intros i Hi. unfold pre. rewrite Z.land_spec, !Z.shiftl_spec by lia.
  destruct (Z.lt_ge_cases i (w - c)) as [Hlt|Hge].
  - by rewrite !(Z.testbit_neg_r _ (i - (w - c))), andb_false_r by lia.
  - rewrite Z.shiftr_spec by lia. replace (i - (w - c) + (w - c)) with i by lia.
    destruct (Z.lt_ge_cases i w) as [Hiw|Hiw].
    + by rewrite Z.ones_spec_low, andb_true_r by lia.
    + by rewrite (bits_high x w i) by lia.
Qed.

Lemma pre_bound w x c : 0 <= c <= w → 0 <= x < 2 ^ w → 0 <= pre w x c < 2 ^ c.
Proof.
  intros Hc Hx. unfold pre. rewrite Z.shiftr_div_pow2 by lia. split; [apply Z.div_pos; lia|].
  apply Z.div_lt_upper_bound; [lia|]. rewrite <- Z.pow_add_r by lia. replace (w - c + c) with w by lia. lia.
Qed.

Lemma width_len v : 8 * Z.of_nat (addr_len v) = width v.
Proof. by destruct v. Qed.

Lemma addr_bound v ip : wf_addr v ip → 0 <= be_combine ip < 2 ^ width v.
Proof. intros [Hl Hb]. pose proof (be_combine_bound ip Hb) as H. by rewrite Hl, width_len in H. Qed.

(** The address of a prefix is the address masked. *)
Lemma masked_addr v ip c :
  wf_addr v ip → 0 <= c <= width v →
  zip_with Z.land ip (take (addr_len v) (horrible_cidr_to_mask c)) = prefix_addr v (prefix_of v ip c).
Proof.
  intros Hip Hc. destruct (cidr_mask_ok v c Hc) as [M1 M2 M3 _]. pose proof Hip as [Hl Hb].
  assert (length (take (addr_len v) (horrible_cidr_to_mask c)) = addr_len v) as Hm
    by (rewrite length_take, M1; by destruct v).
  assert (Forall is_byte (take (addr_len v) (horrible_cidr_to_mask c))) as Hmb by (by apply Forall_take).
  unfold prefix_addr, prefix_of. cbn [fst snd].
  rewrite <- (be_split_combine _ (land_bytes _ _ Hb Hmb)). rewrite length_zip_with, Hl, Hm, Nat.min_id. f_equal.
  rewrite be_combine_land, M3 by congruence. apply land_ones_shift; [done|by apply addr_bound].
Qed.

Lemma prefix_addr_inj v c x y :
  0 <= c <= width v → 0 <= x < 2 ^ c → 0 <= y < 2 ^ c → prefix_addr v (c, x) = prefix_addr v (c, y) → x = y.
Proof.
  intros Hc Hx Hy E. unfold prefix_addr in E. cbn [fst snd] in E. apply (f_equal be_combine) in E.
  unfold be_combine, be_split in E. rewrite !reverse_involutive, !le_combine_split, !width_len in E.
  rewrite !Z.shiftl_mul_pow2 in E by lia.
  assert (∀ z, 0 <= z < 2 ^ c → 0 <= z * 2 ^ (width v - c) < 2 ^ width v) as Hz.
  { intros z Hz. split; [apply Z.mul_nonneg_nonneg; [lia|apply Z.pow_nonneg; lia]|].
    replace (2 ^ width v) with (2 ^ c * 2 ^ (width v - c)) by (rewrite <- Z.pow_add_r by lia; f_equal; lia).
    apply Z.mul_lt_mono_pos_r; [apply Z.pow_pos_nonneg; lia|lia]. }
  rewrite !Z.mod_small in E by auto. apply Z.mul_cancel_r in E; [done|]. apply Z.pow_nonzero; lia.
Qed.

(** ** The list as a table of prefixes *)

Definition version (v : bool) : Z := if v then 6 else 4.

Definition hnode (v : bool) (q : prefix) (pr : nat) : horrible_allowedips_node :=
  mk_horrible (prefix_addr v q ++ zeros (16 - addr_len v)) (horrible_cidr_to_mask q.1) (version v) (Some pr).

Definition horrible_match (v : bool) := if v then horrible_match_v6 else horrible_match_v4.

Definition wf_prefix (v : bool) (q : prefix) : Prop := 0 <= q.1 <= width v ∧ 0 <= q.2 < 2 ^ q.1.

Lemma prefix_of_wf v ip c : wf_addr v ip → 0 <= c <= width v → wf_prefix v (prefix_of v ip c).
Proof. intros Hip Hc. split; [done|]. by apply pre_bound, addr_bound. Qed.

Lemma length_prefix_addr v q : length (prefix_addr v q) = addr_len v.
Proof. unfold prefix_addr, be_split. by rewrite length_reverse, length_le_split. Qed.

Lemma prefix_addr_bytes v q : Forall is_byte (prefix_addr v q).
Proof. apply Forall_reverse, le_split_bytes. Qed.

(** A list of known length as its elements. *)
Ltac explode l H := repeat (destruct l as [|? l]; [discriminate H|]); destruct l; [clear H|discriminate H].
Ltac bytes_ok := decompose_Forall; repeat (apply Forall_cons_2; [auto using land_byte|]); try apply Forall_nil_2; auto using land_byte.

Lemma mask_self_v6 ip mask x :
  length ip = 16%nat → length mask = 16%nat → Forall is_byte ip → Forall is_byte mask →
  horrible_mask_self (mk_horrible ip mask 6 x) = mk_horrible (zip_with Z.land ip mask) mask 6 x.
Proof.
  intros Hi Hm Bi Bm. unfold horrible_mask_self.
  change (mk_horrible (and_word 3 mask (and_word 2 mask (and_word 1 mask (and_word 0 mask ip)))) mask 6 x =
    mk_horrible (zip_with Z.land ip mask) mask 6 x). f_equal.
  explode ip Hi. explode mask Hm. decompose_Forall.
  rewrite (and_word_bytes 0) by (cbn; (lia || bytes_ok)). cbn [Nat.mul Nat.add slice take drop zip_with app].
  rewrite (and_word_bytes 1) by (cbn; (lia || bytes_ok)). cbn [Nat.mul Nat.add slice take drop zip_with app].
  rewrite (and_word_bytes 2) by (cbn; (lia || bytes_ok)). cbn [Nat.mul Nat.add slice take drop zip_with app].
  rewrite (and_word_bytes 3) by (cbn; (lia || bytes_ok)). reflexivity.
Qed.

Lemma mask_self_v4 ip mask x :
  length ip = 4%nat → length mask = 16%nat → Forall is_byte ip → Forall is_byte mask →
  horrible_mask_self (mk_horrible (ip ++ zeros 12) mask 4 x) = mk_horrible (zip_with Z.land ip (take 4 mask) ++ zeros 12) mask 4 x.
Proof.
  intros Hi Hm Bi Bm. unfold horrible_mask_self.
  change (mk_horrible (and_word 0 mask (ip ++ zeros 12)) mask 4 x =
    mk_horrible (zip_with Z.land ip (take 4 mask) ++ zeros 12) mask 4 x). f_equal.
  rewrite and_word_bytes; [|rewrite ?length_app, ?length_zeros, ?Hi; try (done || lia)..|].
  - explode ip Hi. explode mask Hm. reflexivity.
  - apply Forall_app. split; [done|]. apply Forall_replicate. unfold is_byte. lia.
  - done.
Qed.

(** The node an insertion makes. *)
Lemma self_node v ip c pr :
  wf_addr v ip → 0 <= c <= width v →
  horrible_mask_self (mk_horrible (ip ++ zeros (16 - addr_len v)) (horrible_cidr_to_mask c) (version v) (Some pr)) =
  hnode v (prefix_of v ip c) pr.
Proof.
  intros Hip Hc. pose proof Hip as [Hl Hb]. destruct (cidr_mask_ok v c Hc) as [M1 M2 _ _].
  unfold hnode. rewrite <- (masked_addr v ip c Hip Hc). destruct v; cbn [version].
  - change (16 - addr_len true)%nat with 0%nat. change (addr_len true) with 16%nat in *. unfold zeros. cbn [replicate].
    rewrite !app_nil_r. rewrite (take_ge (horrible_cidr_to_mask c)) by (rewrite M1; done). by apply mask_self_v6.
  - by apply mask_self_v4.
Qed.

Lemma match_v6_bytes ip mask n x :
  length ip = 16%nat → length mask = 16%nat → length n = 16%nat →
  Forall is_byte ip → Forall is_byte mask → Forall is_byte n →
  horrible_match_v6 (mk_horrible n mask 6 x) ip = bool_decide (zip_with Z.land ip mask = n).
Proof.
  intros Hi Hm Hn Bi Bm Bn. unfold horrible_match_v6. rewrite !match_word_bytes by (done || lia).
  explode ip Hi. explode mask Hm. explode n Hn. cbn [Nat.mul Nat.add slice take drop zip_with].
  apply eq_bool_prop_intro. rewrite !andb_True, !bool_decide_spec. split; [|intros E; by simplify_list_eq].
  intros (((E1 & E2) & E3) & E4). injection E1 as -> -> -> ->. injection E2 as -> -> -> ->.
  injection E3 as -> -> -> ->. by injection E4 as -> -> -> ->.
Qed.

Lemma match_v4_bytes ip mask n x :
  length ip = 4%nat → length mask = 16%nat → length n = 4%nat →
  Forall is_byte ip → Forall is_byte mask → Forall is_byte n →
  horrible_match_v4 (mk_horrible (n ++ zeros 12) mask 4 x) ip = bool_decide (zip_with Z.land ip (take 4 mask) = n).
Proof.
  intros Hi Hm Hn Bi Bm Bn. unfold horrible_match_v4. rewrite match_word_bytes; try (done || lia).
  - by explode ip Hi; explode mask Hm; explode n Hn.
  - rewrite length_app, length_zeros, Hn. done.
  - apply Forall_app. split; [done|]. apply Forall_replicate. unfold is_byte. lia.
Qed.

(** A node matches the addresses of its prefix. *)
Lemma match_node v ip q pr :
  wf_addr v ip → wf_prefix v q →
  horrible_match v (hnode v q pr) ip = bool_decide (prefix_of v ip q.1 = q).
Proof.
  intros Hip [Hc Hx]. destruct q as [c x]. cbn [fst snd] in *. pose proof Hip as [Hl Hb].
  destruct (cidr_mask_ok v c Hc) as [M1 M2 _ _].
  pose proof (length_prefix_addr v (c, x)) as Hn. pose proof (prefix_addr_bytes v (c, x)) as Bn.
  assert (horrible_match v (hnode v (c, x) pr) ip = bool_decide (prefix_addr v (prefix_of v ip c) = prefix_addr v (c, x))) as ->.
  { rewrite <- (masked_addr v ip c Hip Hc). unfold hnode. destruct v; cbn [horrible_match version fst].
    - change (16 - addr_len true)%nat with 0%nat. change (addr_len true) with 16%nat in *. unfold zeros. cbn [replicate].
      rewrite app_nil_r. rewrite (take_ge (horrible_cidr_to_mask c)) by (rewrite M1; done). by apply match_v6_bytes.
    - by apply match_v4_bytes. }
  apply bool_decide_ext. split; [|by intros ->]. unfold prefix_of. intros E. f_equal.
  apply (prefix_addr_inj v c); try done. by apply pre_bound, addr_bound.
Qed.

(** The first loop compares prefixes. *)
Lemma same_node v q pr v' q' pr' :
  wf_prefix v q → wf_prefix v' q' →
  (h_version (hnode v q pr) =? h_version (hnode v' q' pr')) && bool_decide (h_mask (hnode v q pr) = h_mask (hnode v' q' pr'))
    && bool_decide (h_ip (hnode v q pr) = h_ip (hnode v' q' pr')) = bool_decide ((v, q) = (v', q')).
Proof.
  intros [Hc Hx] [Hc' Hx']. destruct q as [c x], q' as [c' x']. cbn [fst snd] in *. apply eq_bool_prop_intro.
  rewrite !andb_True, !bool_decide_spec, Is_true_true, Z.eqb_eq. split; [|by intros [= -> -> ->]].
  unfold hnode. cbn [h_version h_mask h_ip fst snd]. intros ((E1 & E2) & E3).
  assert (v = v') as <- by (by destruct v, v'). apply (f_equal horrible_mask_to_cidr) in E2.
  rewrite (mo_cidr v c _ (cidr_mask_ok v c Hc)), (mo_cidr v c' _ (cidr_mask_ok v c' Hc')) in E2. subst c'.
  apply app_inj_1 in E3 as [E3 _]; [|by rewrite !length_prefix_addr]. by rewrite (prefix_addr_inj v c x x').
Qed.

Abbreviation hentry := (bool * prefix * nat)%type.

Definition hnodes (ks : list hentry) : horrible_allowedips := (fun x => hnode x.1.1 x.1.2 x.2) <$> ks.

(** No entry is before a longer one. *)
Definition no_longer (x y : hentry) : Prop := y.1.2.1 <= x.1.2.1.

(** The list holds the prefixes of the table [m], longest first. *)
Record hlists (ks : list hentry) (m : ptable) : Prop := {
  hl_wf : Forall (fun x => wf_prefix x.1.1 x.1.2) ks;
  hl_nodup : NoDup ks.*1;
  hl_sorted : StronglySorted no_longer ks;
  hl_table v q pr : m v !! q = Some pr ↔ (v, q, pr) ∈ ks;
}.

Definition horrible_represents (l : horrible_allowedips) (m : ptable) : Prop := ∃ ks, l = hnodes ks ∧ hlists ks m.

Lemma hnode_cidr v q pr : wf_prefix v q → horrible_mask_to_cidr (h_mask (hnode v q pr)) = q.1.
Proof. intros [Hc _]. exact (mo_cidr _ _ _ (cidr_mask_ok v q.1 Hc)). Qed.

(** *** Replacing and linking *)

Definition replaced (k : bool * prefix) (pr : nat) (ks : list hentry) : list hentry :=
  (fun x => if decide (x.1 = k) then (x.1, pr) else x) <$> ks.

Lemma replaced_fresh k pr ks : k ∉ ks.*1 → replaced k pr ks = ks.
Proof.
  unfold replaced. induction ks as [|x ks IH]; intros Hk; [done|]. cbn in Hk |- *. apply not_elem_of_cons in Hk as [? ?].
  rewrite decide_False by done. f_equal. by apply IH.
Qed.

Lemma replace_spec ks v q pr :
  Forall (fun x => wf_prefix x.1.1 x.1.2) ks → wf_prefix v q → NoDup ks.*1 →
  horrible_replace (hnodes ks) (hnode v q pr) =
  if decide ((v, q) ∈ ks.*1) then Some (hnodes (replaced (v, q) pr ks)) else None.
Proof.
  intros Hks Hq. induction Hks as [|[[u p] x] ks Hx Hks IH]; intros Hnd; [done|]. cbn [fst snd] in Hx. apply NoDup_cons in Hnd as [Hni Hnd].
  unfold hnodes. cbn [fmap list_fmap horrible_replace fst snd]. rewrite same_node by done. fold (hnodes ks). rewrite IH by done.
  case_bool_decide as Hsame.
  - rewrite decide_True by (rewrite <- Hsame; left). unfold replaced. cbn [fmap list_fmap fst snd]. rewrite decide_True by done.
    fold (replaced (v, q) pr ks). by rewrite replaced_fresh by (by rewrite <- Hsame).
  - unfold replaced. cbn [fmap list_fmap fst snd]. rewrite (decide_False (P := (u, p) = (v, q))) by done. fold (replaced (v, q) pr ks).
    destruct (decide ((v, q) ∈ ks.*1)) as [Hin|Hout]; [rewrite decide_True by (by right); done|].
    rewrite decide_False by (intros [Heq|]%elem_of_cons; [by destruct Hsame|done]). done.
Qed.

Fixpoint linked (ks : list hentry) (e : hentry) : list hentry :=
  match ks with
  | [] => [e]
  | x :: ks => if x.1.2.1 <=? e.1.2.1 then e :: x :: ks else x :: linked ks e
  end.

Lemma horrible_link_spec ks v q pr :
  Forall (fun x => wf_prefix x.1.1 x.1.2) ks →
  horrible_link (hnodes ks) q.1 (hnode v q pr) = hnodes (linked ks (v, q, pr)).
Proof.
  induction 1 as [|[[u p] x] ks Hx Hks IH]; [done|]. unfold hnodes. cbn [fmap list_fmap horrible_link linked fst snd]. cbn [fst snd] in Hx.
  rewrite hnode_cidr by done. destruct (p.1 <=? q.1); [done|]. cbn [fmap list_fmap]. f_equal. apply IH.
Qed.

Lemma linked_perm ks e : linked ks e ≡ₚ e :: ks.
Proof. induction ks as [|x ks IH]; [done|]. cbn. destruct (_ <=? _); [done|]. rewrite IH. apply Permutation_swap. Qed.

Lemma linked_sorted ks e : StronglySorted no_longer ks → StronglySorted no_longer (linked ks e).
Proof.
  induction 1 as [|x ks Hs IH Hx]; [repeat constructor|]. cbn. destruct (Z.leb_spec x.1.2.1 e.1.2.1) as [Hle|Hgt].
  - constructor; [by constructor|]. constructor; [done|]. eapply Forall_impl; [exact Hx|]. unfold no_longer. intros y Hy. cbn in *. lia.
  - constructor; [done|]. rewrite linked_perm. constructor; [unfold no_longer; lia|done].
Qed.

Lemma replaced_keys k pr ks : (replaced k pr ks).*1 = ks.*1.
Proof. unfold replaced. rewrite <- list_fmap_compose. apply list_fmap_ext. intros i x _. cbn. by destruct (decide _). Qed.

Lemma replaced_in k pr ks x : k ∈ ks.*1 → x ∈ replaced k pr ks ↔ if decide (x.1 = k) then x.2 = pr else x ∈ ks.
Proof.
  intros Hk. unfold replaced. rewrite list_elem_of_fmap. split.
  - intros (y & -> & Hy). destruct (decide (y.1 = k)) as [He|Hne]; cbn [fst snd]; [by rewrite decide_True|by rewrite decide_False].
  - destruct (decide (x.1 = k)) as [He|Hne]; intros Hx.
    + apply list_elem_of_fmap in Hk as (y & Hy & Hin). exists y. split; [|done]. rewrite decide_True by done. destruct x. cbn in *. congruence.
    + exists x. by rewrite decide_False.
Qed.

Lemma replaced_forall {k pr ks} (P : bool * prefix -> Prop) : Forall (fun x => P x.1) ks → Forall (fun x => P x.1) (replaced k pr ks).
Proof. intros H. unfold replaced. apply Forall_fmap. eapply Forall_impl; [exact H|]. intros x Hx. cbn. by destruct (decide _). Qed.

Lemma replaced_sorted k pr ks : StronglySorted no_longer ks → StronglySorted no_longer (replaced k pr ks).
Proof.
  induction 1 as [|x ks Hs IH Hx]; [constructor|]. unfold replaced. cbn [fmap list_fmap]. constructor; [done|].
  assert ((if decide (x.1 = k) then (x.1, pr) else x).1 = x.1) as Hk by (by destruct (decide _)).
  unfold no_longer. rewrite Hk. by apply (replaced_forall (fun y => y.2.1 <= x.1.2.1)).
Qed.

Lemma ordered_spec ks m v q pr :
  hlists ks m → wf_prefix v q →
  ∃ ks', horrible_insert_ordered (hnodes ks) (hnode v q pr) = hnodes ks' ∧ hlists ks' (set_family v <[q := pr]> m).
Proof.
  intros [H1 H2 H3 H4] Hq. unfold horrible_insert_ordered. rewrite replace_spec by done. rewrite hnode_cidr by done.
  assert (∀ u p x, set_family v <[q := pr]> m u !! p = Some x ↔ if decide ((u, p) = (v, q)) then x = pr else m u !! p = Some x) as Hset.
  { intros u p x. unfold set_family. case_bool_decide as Hu; [subst u|rewrite decide_False by congruence; done].
    rewrite lookup_insert. destruct (decide (q = p)) as [->|Hp]; [rewrite decide_True by done|by rewrite decide_False by congruence].
    split; [by intros [= ->]|by intros ->]. }
  destruct (decide ((v, q) ∈ ks.*1)) as [Hin|Hout].
  - exists (replaced (v, q) pr ks). split; [done|]. split.
    + by apply (replaced_forall (fun k => wf_prefix k.1 k.2)).
    + by rewrite replaced_keys.
    + by apply replaced_sorted.
    + intros u p x. rewrite Hset, replaced_in by done. cbn [fst snd]. by destruct (decide _).
  - exists (linked ks (v, q, pr)). rewrite horrible_link_spec by done. split; [done|]. split.
    + rewrite linked_perm. by constructor.
    + rewrite linked_perm. by constructor.
    + by apply linked_sorted.
    + intros u p x. rewrite Hset, linked_perm, elem_of_cons. destruct (decide _) as [[= -> ->]|Hne].
      * split; [intros ->; by left|]. intros [[= ->]|Hk]; [done|]. destruct Hout. apply list_elem_of_fmap. by exists (v, q, x).
      * rewrite H4. split; [auto|]. by intros [[= -> -> ->]|?].
Qed.

Lemma horrible_insert_spec v l m ip c pr :
  horrible_represents l m → wf_addr v ip → 0 <= c <= width v →
  ∃ l', horrible_insert v l ip c (Some pr) true = (l', 0) ∧
    horrible_represents l' (set_family v <[prefix_of v ip c := pr]> m).
Proof.
  intros (ks & -> & Hk) Hip Hc. destruct (ordered_spec ks m v _ pr Hk (prefix_of_wf v ip c Hip Hc)) as (ks' & E & Hk').
  exists (hnodes ks'). split; [|by exists ks']. rewrite <- E, <- (self_node v ip c pr Hip Hc).
  destruct v; cbn [horrible_insert version]; [|done]. change (16 - addr_len true)%nat with 0%nat. unfold zeros. cbn [replicate].
  by rewrite app_nil_r.
Qed.

(** *** Look-up *)

Fixpoint first_match (v : bool) (ip : bytes) (ks : list hentry) : option nat :=
  match ks with
  | [] => None
  | x :: ks => if bool_decide (x.1 = (v, prefix_of v ip x.1.2.1)) then Some x.2 else first_match v ip ks
  end.

Lemma lookup_first v ip ks :
  Forall (fun x => wf_prefix x.1.1 x.1.2) ks → wf_addr v ip → horrible_lookup v (hnodes ks) ip = first_match v ip ks.
Proof.
  intros Hks Hip. induction Hks as [|[[u q] pr] ks Hq Hks IH]; [by destruct v|]. cbn [fst snd] in Hq. cbn [first_match fst snd].
  rewrite <- IH. clear IH.
  assert ((h_version (hnode u q pr) =? version v) && horrible_match v (hnode u q pr) ip = bool_decide ((u, q) = (v, prefix_of v ip q.1))) as <-.
  { destruct (decide (u = v)) as [->|Hne].
    - rewrite match_node by done. unfold hnode. cbn [h_version]. rewrite Z.eqb_refl. cbn [andb]. apply bool_decide_ext.
      split; [by intros ->|by intros [= <-]].
    - rewrite bool_decide_false by congruence. by destruct u, v. }
  by destruct v.
Qed.

Lemma first_match_spec v ip ks :
  StronglySorted no_longer ks →
  match first_match v ip ks with
  | Some pr => ∃ c, (v, prefix_of v ip c, pr) ∈ ks ∧ ∀ c' pr', (v, prefix_of v ip c', pr') ∈ ks → c' <= c
  | None => ∀ c pr, (v, prefix_of v ip c, pr) ∉ ks
  end.
Proof.
  induction 1 as [|[[u q] pr] ks Hs IH Hx]; cbn [first_match fst snd]; [intros; apply not_elem_of_nil|].
  case_bool_decide as Hm.
  - injection Hm as -> Hq. exists q.1. split; [rewrite <- Hq; left|]. intros c' pr' [[= Hc _]|Hin]%elem_of_cons.
    + rewrite <- Hc. done.
    + rewrite Forall_forall in Hx. exact (Hx _ Hin).
  - assert (∀ c pr', (v, prefix_of v ip c, pr') ∈ (u, q, pr) :: ks → (v, prefix_of v ip c, pr') ∈ ks) as Hrest.
    { intros c pr' [[= -> Hq _]|Hin]%elem_of_cons; [|done]. destruct Hm. by rewrite <- Hq. }
    destruct (first_match v ip ks).
    + destruct IH as (c & Hc & Hmax). exists c. split; [by right|]. eauto.
    + intros c pr' Hin. by destruct (IH c pr' (Hrest _ _ Hin)).
Qed.

Lemma horrible_lookup_longest v l m ip :
  horrible_represents l m → wf_addr v ip → longest v (m v) (be_combine ip) (horrible_lookup v l ip).
Proof.
  intros (ks & -> & [H1 H2 H3 H4]) Hip. rewrite lookup_first by done. pose proof (first_match_spec v ip ks H3) as H.
  destruct (first_match v ip ks) as [pr|]; unfold longest.
  - destruct H as (c & Hin & Hmax). exists c. rewrite Forall_forall in H1. destruct (H1 _ Hin) as [Hc _]. cbn in Hc. split; [done|].
    split; [by apply H4|]. intros c' Hc'. apply eq_None_not_Some. intros [pr' Hpr]. apply H4 in Hpr. specialize (Hmax _ _ Hpr). lia.
  - intros c Hc. apply eq_None_not_Some. intros [pr Hpr]. apply H4 in Hpr. by destruct (H c pr).
Qed.

Lemma longest_unique v m x o o' : longest v m x o → longest v m x o' → o = o'.
Proof.
  destruct o as [pr|], o' as [pr'|]; cbn [longest]; [|intros (c & Hc & E & _) H|intros H (c & Hc & E & _)|done];
    [|by rewrite H in E..].
  intros (c & Hc & E & Hab) (c' & Hc' & E' & Hab'). destruct (Z.lt_trichotomy c c') as [Hlt|[->|Hlt]].
  - rewrite Hab in E' by lia. done.
  - congruence.
  - rewrite Hab' in E by lia. done.
Qed.

(** *** Removal *)

Lemma Forall_filtered {A} (P Q : A -> Prop) `{∀ x, Decision (Q x)} (l : list A) : Forall P l → Forall P (filter Q l).
Proof. rewrite !Forall_forall. intros Hl x [_ Hx]%list_elem_of_filter. auto. Qed.

Lemma horrible_remove_spec l m pr :
  horrible_represents l m → horrible_represents (horrible_allowedips_remove_by_value l (Some pr)) (drop_peer pr m).
Proof.
  intros (ks & -> & [H1 H2 H3 H4]). exists (filter (fun x => x.2 ≠ pr) ks). split.
  - clear. induction ks as [|x ks IH]; [done|]. unfold hnodes. cbn [fmap list_fmap horrible_allowedips_remove_by_value hnode h_value].
    fold (hnodes ks). rewrite IH. destruct (decide (x.2 = pr)) as [He|Hne].
    + rewrite bool_decide_true by congruence. rewrite filter_cons_False by (cbn; tauto). done.
    + rewrite bool_decide_false by congruence. rewrite filter_cons_True by done. done.
  - split.
    + by apply Forall_filtered.
    + clear -H2. induction ks as [|x ks IH]; [done|]. cbn in H2. apply NoDup_cons in H2 as [Hn Hd].
      destruct (decide (x.2 = pr)); [by rewrite filter_cons_False by (cbn; tauto); apply IH|].
      rewrite filter_cons_True by done. cbn. constructor; [|by apply IH]. intros Hin. apply Hn.
      apply list_elem_of_fmap in Hin as (y & -> & Hy). apply list_elem_of_filter in Hy as [_ Hy]. apply list_elem_of_fmap. eauto.
    + clear -H3. induction H3 as [|x ks Hs IH Hx]; [constructor|]. rewrite filter_cons. destruct (decide _); [|done].
      constructor; [done|]. by apply Forall_filtered.
    + intros v q x. unfold drop_peer. rewrite map_lookup_filter_Some, list_elem_of_filter, H4. cbn. tauto.
Qed.

(** ** The randomised test succeeds *)

Lemma fresh_ptr_bound t p : (fresh_ptr t <= p)%nat → nodes t !! p = None.
Proof.
  unfold fresh_ptr. intros Hp. apply eq_None_not_Some. intros [n Hn]. revert Hp.
  cut (p < map_fold (fun p (_ : allowedips_node) n => Nat.max (S p) n) 0 (nodes t))%nat; [lia|]. revert n Hn.
  apply (map_fold_weak_ind (fun r m => ∀ n, m !! p = Some n → p < r)%nat); [by intros n Hn|].
  intros i x m r Hi IH n. rewrite lookup_insert_Some. intros [[-> _]|[_ Hm]]; [lia|]. specialize (IH n Hm). lia.
Qed.

Lemma represents_init : represents wg_allowedips_init (fun _ => ∅).
Proof.
  exists E, E. split; [|done]. split; [done|done|split; [constructor|done]|].
  intros pr. unfold plist. cbn. split; [constructor|]. intros p. split; by intros ?%not_elem_of_nil.
Qed.

Lemma represents_empty v t m : represents t m → m v = ∅ → rootp t v = None.
Proof.
  intros Hm Hv. apply (represents_view v) in Hm as (T & T' & Hr & Hw & _ & He & _). rewrite (r_root _ _ _ _ Hr).
  destruct T as [|p c k o l r]; [done|]. pose proof (count_bound v 0 0 _ Hw ltac:(done)) as Hb.
  rewrite He, Hv, map_size_empty in Hb. lia.
Qed.

Section RandomProofs.
Context (alloc : nat -> bool) (rnd : nat -> Z).

(** Both tables hold the same prefixes, all of peers in [ps], which are alive. *)
Definition synced (ps : list nat) (s : rtest) : Prop :=
  ∃ m, represents (b_trie (r_bench s)) m ∧ horrible_represents (r_list s) m ∧
    (∀ v q pr, m v !! q = Some pr → pr ∈ ps) ∧ ∀ pr, pr ∈ ps → 0 < default 0 (b_refs (r_bench s) !! pr).

Definition intact (s : rtest) : Prop := ∃ m, represents (b_trie (r_bench s)) m.

(** [f] makes no bad access from [P], leaves a table that can be freed, and
    either establishes [Q] or some allocation has failed. *)
Definition triple (P : rtest -> Prop) (f : rstep) (Q : rtest -> Prop) : Prop :=
  ∀ s, P s → ∃ ok s', f s = Some (ok, s') ∧ intact s' ∧ if ok : bool then Q s' else ∃ i, alloc i = false.

Lemma triple_then P Q R f g : triple P f Q → triple Q g R → triple P (and_then f g) R.
Proof using Type.
  intros Hf Hg s Hs. destruct (Hf s Hs) as (ok & s' & E & Hi & Ho). unfold and_then. rewrite E. cbn [mbind option_bind].
  destruct ok; [by apply Hg|]. by exists false, s'.
Qed.

Lemma triple_iterate n P f : (∀ s, P s → intact s) → triple P f P → triple P (iterate n f) P.
Proof using Type.
  intros Hi Hf. induction n as [|n IH]; [|by eapply triple_then].
  intros s Hs. exists true, s. split; [done|]. split; [by apply Hi|done].
Qed.

Lemma synced_intact ps s : synced ps s → intact s.
Proof using Type. intros (m & Hm & _). by exists m. Qed.

Lemma synced_rnd ps s f : synced ps s → synced ps (s <| r_pos ::= f |>).
Proof using Type. done. Qed.

Lemma u8_byte x : is_byte (u8 x).
Proof using Type. apply (wrap_range 8). lia. Qed.

Lemma get_random_bytes_spec n s :
  ∃ l f, get_random_bytes rnd n s = (l, s <| r_pos ::= f |>) ∧ length l = n ∧ Forall is_byte l.
Proof using Type.
  revert s. induction n as [|n IH]; intros s.
  - exists [], id. split; [by destruct s|]. split; [done|constructor].
  - cbn [get_random_bytes get_random_u8 get_random_u32]. destruct (IH (s <| r_pos ::= S |>)) as (l & f & E & Hl & Hb). rewrite E.
    eexists _, (fun p => f (S p)). split; [done|]. split; [by cbn; f_equal|]. constructor; [apply u8_byte|done].
Qed.

Lemma mutate_bytes_spec n ip mask s :
  Forall is_byte ip →
  ∃ l f, mutate_bytes rnd n ip mask s = (l, s <| r_pos ::= f |>) ∧ length l = length ip ∧ Forall is_byte l.
Proof using Type.
  revert ip mask s. induction n as [|n IH]; intros ip mask s Hip; [exists ip, id; by destruct s|].
  destruct Hip as [|b ip Hb Hip]; [exists [], id; by destruct s|]. destruct mask as [|k mask]; [exists (b :: ip), id; split; [by destruct s|]; split; [done|by constructor]|].
  cbn [mutate_bytes get_random_u8 get_random_u32]. destruct (IH ip mask (s <| r_pos ::= S |>) Hip) as (l & f & E & Hl & Hb'). rewrite E.
  eexists _, (fun p => f (S p)). split; [done|]. split; [by cbn; f_equal|]. constructor; [apply u8_byte|done].
Qed.

Lemma random_route_spec v s :
  ∃ c pr, random_route rnd v s = (c, pr, s <| r_pos ::= fun p => S (S p) |>) ∧ 0 <= c <= width v ∧ pr ∈ peers.
Proof using Type.
  unfold random_route, get_random_u32_inclusive, get_random_u32_below, get_random_u32. eexists _, _. split; [reflexivity|]. split.
  - pose proof (Z.mod_pos_bound (u32 (rnd (r_pos s))) (width v - 1 + 1) ltac:(by destruct v)). lia.
  - unfold peers. apply list_elem_of_In, in_seq. split; [lia|]. cbn [plus]. unfold NUM_PEERS.
    pose proof (Z.mod_pos_bound (u32 (rnd (r_pos s <| r_pos ::= S |>))) 2000 ltac:(lia)). apply Z2Nat.inj_lt; lia.
Qed.

Lemma set_family_in (v : bool) (q : prefix) (pr : nat) (ps : list nat) (m : ptable) (u : bool) (p : prefix) (x : nat) :
  (∀ v q pr, m v !! q = Some pr → pr ∈ ps) → pr ∈ ps → set_family v <[q := pr]> m u !! p = Some x → x ∈ ps.
Proof using Type.
  intros Hm Hpr. unfold set_family. case_bool_decide; [|by apply Hm].
  rewrite lookup_insert_Some. intros [[_ <-]|[_ Hx]]; [done|by eapply Hm].
Qed.

Lemma insert_route_ok v ip : wf_addr v ip → triple (synced peers) (insert_route alloc rnd v ip) (synced peers).
Proof using Type.
  intros Hip s Hs. unfold insert_route. destruct (random_route_spec v s) as (c & pr & -> & Hc & Hpr).
  destruct Hs as (m & Hm & Hl & Hin & Hal). unfold bench_insert, kzalloc. cbn [r_bench r_list b_trie b_pos]. cbv zeta.
  set (b := r_bench s) in *. change (r_bench s <| r_pos ::= λ p, S (S p) |>) with b.
  change (b_trie (b <| b_pos ::= S |> <| b_pos ::= S |>)) with (b_trie b).
  set (a1 := if alloc (b_pos b) then Some (fresh_ptr (b_trie b)) else None).
  set (a2 := if alloc (b_pos b <| b_pos ::= S |>) then Some (S (fresh_ptr (b_trie b))) else None).
  assert (fresh_allocs (b_trie b) a1 a2) as Hfresh.
  { split; intros p Hp.
    - unfold a1 in Hp. destruct (alloc (b_pos b)); [|done]. injection Hp as <-. by apply fresh_ptr_bound.
    - unfold a2 in Hp. destruct (alloc (b_pos b <| b_pos ::= S |>)); [|done]. injection Hp as <-.
      split; [apply fresh_ptr_bound; lia|]. unfold a1. destruct (alloc (b_pos b)); [|done]. intros [= Hx]. lia. }
  assert (a1 = None ∨ a2 = None → ∃ i, alloc i = false) as Hfail.
  { unfold a1, a2. intros [H|H]; [exists (b_pos b); by destruct (alloc (b_pos b))|].
    exists (b_pos b <| b_pos ::= S |>). by destruct (alloc (b_pos b <| b_pos ::= S |>)). }
  clearbody a1 a2. destruct (insert_represents v (b_trie b) m ip c (Some pr) a1 a2 Hm Hip ltac:(destruct v; cbn in Hc; lia) Hfresh)
    as (t' & res & -> & Hok & Herr). cbn [mbind option_bind].
  destruct (decide (res = 0)) as [->|Hne].
  - destruct (Hok eq_refl) as (pr' & [= <-] & _ & Hm'). cbn [Z.ltb Z.compare].
    destruct (alloc _) eqn:Ha; [|eexists false, _; destruct v; (split; [reflexivity|]); (split; [by eexists|eauto])].
    destruct (horrible_insert_spec v (r_list s) m ip c pr Hl Hip Hc) as (l' & El & Hl').
    change (r_list s <| r_pos ::= λ p, S (S p) |> <| r_bench := _ |>) with (r_list s). rewrite El. eexists true, _. split; [reflexivity|].
    split; [by eexists|]. exists (set_family v <[prefix_of v ip c := pr]> m). split_and!; [done|done| |done].
    intros u q x Hx. by eapply set_family_in.
  - destruct (Herr Hne) as [Hm' Hcause]. assert (res <? 0 = true) as ->.
    { destruct Hcause as [[-> _]|[-> _]]; reflexivity. }
    eexists false, _. split; [reflexivity|]. split; [by eexists|].
    destruct Hcause as [[_ [?|?]]|[_ Ha]]; [done|lia|auto].
Qed.

Lemma mutate_route_ok v ip : wf_addr v ip → triple (synced peers) (mutate_route alloc rnd v ip) (synced peers).
Proof using Type.
  intros Hip s Hs. unfold mutate_route. destruct (get_random_bytes_spec (length ip) s) as (mask & f & -> & _ & _).
  unfold get_random_u32_below, get_random_u32. cbv zeta.
  edestruct (mutate_bytes_spec 4 ip) as (l & g & -> & Hl & Hb); [apply Hip|].
  apply insert_route_ok; [|by repeat apply synced_rnd]. split; [by rewrite Hl; apply Hip|done].
Qed.

Lemma rand_route_ok v : triple (synced peers) (rand_route alloc rnd v) (synced peers).
Proof using Type.
  intros s Hs. unfold rand_route. destruct (get_random_bytes_spec (addr_len v) s) as (ip & f & -> & Hl & Hb).
  assert (wf_addr v ip) as Hip by (by split).
  apply (triple_then (synced peers) (synced peers)); [by apply insert_route_ok| |by apply synced_rnd].
  apply triple_iterate; [apply synced_intact|]. by apply mutate_route_ok.
Qed.

Lemma query_ok v ps : triple (synced ps) (query rnd v) (synced ps).
Proof using Type.
  intros s (m & Hm & Hl & Hin & Hal). unfold query. destruct (get_random_bytes_spec (addr_len v) s) as (ip & f & -> & Hlen & Hb).
  assert (wf_addr v ip) as Hip by (by split). unfold bench_lookup.
  change (r_bench s <| r_pos ::= f |>) with (r_bench s). change (r_list s <| r_pos ::= f |>) with (r_list s).
  destruct (lookup_owner v _ m ip Hm Hip) as (o & Ho & ->).
  pose proof (longest_unique _ _ _ _ _ Ho (horrible_lookup_longest v _ m ip Hl Hip)) as <-.
  assert (∀ refs, (∀ pr, pr ∈ ps → 0 < default 0 (refs !! pr)) →
    synced ps (s <| r_pos ::= f |> <| r_bench := (r_bench s) <| b_refs := refs |> |>)) as Hsync.
  { intros refs Hrefs. exists m. done. }
  destruct o as [pr|].
  - destruct Ho as (c & _ & Hpr & _). pose proof (Hal pr (Hin _ _ _ Hpr)) as Hpos.
    destruct (Z.eqb_spec (default 0 (b_refs (r_bench s) !! pr)) 0); [lia|]. cbn [mbind option_bind]. rewrite bool_decide_true by done.
    eexists true, _. split; [reflexivity|]. split; [by exists m|]. apply Hsync. intros pr' Hpr'.
    destruct (decide (pr' = pr)) as [->|Hne]; [rewrite lookup_insert_eq; cbn; lia|]. rewrite lookup_insert_ne by done. by apply Hal.
  - cbn [mbind option_bind]. rewrite bool_decide_true by done. eexists true, _. split; [reflexivity|].
    split; [by exists m|]. by apply Hsync.
Qed.

Lemma rounds_ok ps : triple (synced ps) (rounds rnd ps) (synced []).
Proof using Type.
  induction ps as [|p ps IH]; cbn [rounds]; (eapply triple_then;
    [apply triple_iterate; [apply synced_intact|]; eapply triple_then; apply query_ok|]).
  - intros s Hs. exists true, s. split; [done|]. split; [by eapply synced_intact|done].
  - intros s (m & Hm & Hl & Hin & Hal). unfold bench_remove_by_peer.
    destruct (remove_by_peer_represents _ m p Hm) as (t' & -> & Hm' & _). cbn [mbind option_bind].
    apply IH. exists (drop_peer p m). split; [done|]. split; [by apply horrible_remove_spec|]. split.
    + intros v q pr. unfold drop_peer. rewrite map_lookup_filter_Some. cbn. intros [Hq Hne].
      by apply Hin, elem_of_cons in Hq as [->|].
    + intros pr Hpr. apply Hal. by right.
Qed.

Lemma init_peers_ok ps qs : triple (synced qs) (init_peers alloc ps) (synced (qs ++ ps)).
Proof using Type.
  revert qs. induction ps as [|p ps IH]; intros qs s Hs.
  { rewrite app_nil_r. exists true, s. split; [done|]. split; [by eapply synced_intact|done]. }
  cbn [init_peers]. unfold kzalloc. destruct (alloc _) eqn:Ha.
  - rewrite cons_middle, app_assoc. apply IH. destruct Hs as (m & Hm & Hl & Hin & Hal). exists m. split; [done|]. split; [done|].
    split; [intros v q pr Hq; apply elem_of_app; left; by eapply Hin|]. intros pr Hpr.
    change (0 < default 0 (<[p := 1]> (b_refs (r_bench s)) !! pr)).
    destruct (decide (p = pr)) as [->|Hne]; [by rewrite lookup_insert_eq|]. rewrite lookup_insert_ne by done. apply Hal.
    apply elem_of_app in Hpr as [?|Hpr]; [done|]. apply list_elem_of_singleton in Hpr. congruence.
  - eexists false, _. split; [reflexivity|]. destruct Hs as (m & Hm & _). split; [by exists m|eauto].
Qed.

Lemma removal_ok : triple (synced []) removal_check (fun _ => True).
Proof using Type.
  intros s Hs. pose proof (synced_intact _ _ Hs) as Hi. destruct Hs as (m & Hm & _ & Hin & _).
  assert (∀ v, m v = ∅) as He.
  { intros v. apply map_empty. intros q. apply eq_None_not_Some. intros [pr Hpr]. by apply Hin, not_elem_of_nil in Hpr. }
  exists true, s. unfold removal_check. pose proof (represents_empty false _ m Hm (He false)) as E4. pose proof (represents_empty true _ m Hm (He true)) as E6.
  cbn [rootp] in E4, E6. rewrite E4, E6. done.
Qed.

Lemma synced_init pos : synced [] (mk_rtest (mk_bench wg_allowedips_init ∅ pos) horrible_allowedips_init 0).
Proof using Type.
  exists (fun _ => ∅). split; [apply represents_init|]. split; [|split; [by intros v q pr Hq|by intros pr ?%not_elem_of_nil]].
  exists []. split; [done|]. split; [constructor..|]. intros v q pr. rewrite lookup_empty. split; [done|by intros ?%not_elem_of_nil].
Qed.

Lemma randomized_test_run pos :
  ∃ ret s, randomized_test alloc rnd pos = Some (ret, s) ∧ nodes (b_trie (r_bench s)) = ∅ ∧ r_list s = [] ∧
    (ret = false → ∃ i, alloc i = false).
Proof using Type.
  unfold randomized_test. set (s0 := mk_rtest _ _ _).
  assert (triple (synced []) (kcalloc_peers alloc) (synced [])) as H0.
  { intros s Hs. unfold kcalloc_peers, kzalloc. eexists _, _. split; [reflexivity|].
    split; [exact (synced_intact _ _ Hs)|]. destruct (alloc _) eqn:Ha; [exact Hs|eauto]. }
  destruct (triple_then _ _ _ _ _ H0 (triple_then _ _ _ _ _ (init_peers_ok peers [])
    (triple_then _ _ _ _ _ (triple_iterate (Z.to_nat NUM_RAND_ROUTES) _ _ (synced_intact _) (rand_route_ok false))
    (triple_then _ _ _ _ _ (triple_iterate (Z.to_nat NUM_RAND_ROUTES) _ _ (synced_intact _) (rand_route_ok true))
    (triple_then _ _ _ _ _ (rounds_ok peers) removal_ok)))) s0 (synced_init pos)) as (ret & s & -> & [m Hm] & Hr).
  cbn [mbind option_bind]. unfold bench_free. destruct (free_spec _ m Hm) as (t' & -> & Hn & _). cbn [mbind option_bind].
  eexists _, _. split; [reflexivity|]. split; [exact Hn|]. split; [|by intros ->].
  cbn. generalize (r_list s). intros l. by induction l.
Qed.
End RandomProofs.

(** ** Theorems *)


(** Whatever the random numbers are, the randomised test makes no bad access,
    ends, frees everything, and can only fail when an allocation failed. *)
Theorem randomized_test_passes alloc rnd pos :
  ∃ ret s, randomized_test alloc rnd pos = Some (ret, s) ∧ nodes (b_trie (r_bench s)) = ∅ ∧ r_list s = [] ∧
    (ret = false → ∃ i, alloc i = false).
Proof. apply randomized_test_run. Qed.

Lemma static_cases_pass :
  let '(ok, b) := init_peer (fun _ => true) [pa; pb; pc; pd; pe; pf; pg; ph] (mk_bench wg_allowedips_init ∅ 0) in
  ok = true ∧
  match static_tests (fun _ => true) (mk_stest b 0 false) with
  | Some s =>
    s_success s = true ∧
    match wg_allowedips_free (b_trie (s_bench s)) with Some t => nodes t = ∅ | None => False end
  | None => False
  end.
Proof. vm_compute. split_and!; reflexivity. Qed.

(** C37: with memory, the whole self-test of the trie passes, with and without its
    randomised part: every fixed case holds and every node is freed. *)
Theorem allowedips_selftest_passes random rnd :
  ∃ s, wg_allowedips_selftest (fun _ => true) random rnd = Some (true, s) ∧ nodes (b_trie (s_bench s)) = ∅.
Proof.
  pose proof static_cases_pass as H. unfold wg_allowedips_selftest. destruct (init_peer _ _ _) as [ok b].
  destruct H as [-> H]. destruct (static_tests _ _) as [s|]; [|done]. destruct H as [Hs Hf]. cbn [mbind option_bind].
  rewrite Hs, andb_true_r. destruct random; unfold free_table, bench_free.
  - destruct (randomized_test_run (fun _ => true) rnd (b_pos (s_bench s))) as (ret & r & -> & _ & _ & Hret).
    assert (ret = true) as -> by (destruct ret; [done|]; by destruct (Hret eq_refl)). cbn [mbind option_bind].
    change (b_trie (s_bench (s <| s_success := true |> <| s_bench ::= _ |>))) with (b_trie (s_bench s)).
    destruct (wg_allowedips_free _) as [t|]; [|done]. by eexists.
  - cbn [mbind option_bind]. destruct (wg_allowedips_free _) as [t|]; [|done]. cbn [mbind option_bind].
    eexists. split; [apply f_equal, f_equal2; [exact Hs|reflexivity]|exact Hf].
Qed.

Lemma demo_horrible : horrible_represents (hnodes [(false, (16, 2561), 2%nat); (false, (16, 49320), 1%nat); (false, (8, 10), 1%nat)]) demo_map.
Proof.
  eexists. split; [reflexivity|]. split.
  - repeat (apply Forall_cons_2; [split; cbn; lia|]). apply Forall_nil_2.
  - apply (bool_decide_unpack _). reflexivity.
  - unfold no_longer. repeat constructor; cbn; lia.
  - intros v q pr. unfold demo_map. destruct v; [split; [done|set_solver]|].
    split.
    + intros Hq. apply elem_of_map_to_list in Hq. vm_compute in Hq. set_solver.
    + intros Hin. rewrite !elem_of_cons in Hin. destruct Hin as [[= -> ->]|[[= -> ->]|[[= -> ->]|[]%not_elem_of_nil]]]; reflexivity.
Qed.

