(* ===== verification/World.v ===== *)
(** * The device: its state, its environment and the monad of its handlers

    [world] is one WireGuard interface with everything its handlers touch: the
    structures of device.h, peer.h, noise.h and cookie.h, a heap of socket
    buffers, the work that has been queued, the clocks, the random numbers still
    to come and the outcome of the allocations still to come.  A peer, a keypair
    and a buffer are addresses; an entry of the index table is embedded in its
    owner, so its address is computed from the owner's ([hs_entry], [kp_entry]).

    A handler is a computation of [M]: it reads and changes the world and returns
    a value, or has no result ([None]) when the C code would follow a dangling
    pointer or not return.  Handlers run one at a time here; what the receive
    path's threads may do to each other is the subject of RxWake.v. *)
From S2P Require Import Prelude Messages Counter PeerLookup AllowedIPs Ratelimiter.

(** ** The cryptography the module links against *)

Class Crypto := {
  blake2s : nat -> bytes -> bytes -> bytes;
  curve25519 : bytes -> bytes -> option bytes;
  curve25519_generate_public : bytes -> option bytes;
  curve25519_clamp_secret : bytes -> bytes;
  chacha20poly1305_encrypt : bytes -> bytes -> Z -> bytes -> bytes;
  chacha20poly1305_decrypt : bytes -> bytes -> Z -> bytes -> option bytes;
  xchacha20poly1305_encrypt : bytes -> bytes -> bytes -> bytes -> bytes;
  xchacha20poly1305_decrypt : bytes -> bytes -> bytes -> bytes -> option bytes;
}.

(** ** noise.h *)

Record noise_symmetric_key := mk_symmetric_key {
  sk_key : bytes;
  sk_birthdate : Z;
  sk_is_valid : bool;
}.
#[export] Instance settable_symmetric_key : Settable noise_symmetric_key := fun k =>
  mk_symmetric_key (sk_key k) (sk_birthdate k) (sk_is_valid k).

Record noise_keypair := mk_keypair {
  kp_sending : noise_symmetric_key;
  kp_sending_counter : Z;
  kp_receiving : noise_symmetric_key;
  kp_receiving_counter : noise_replay_counter;
  kp_remote_index : Z;
  kp_i_am_the_initiator : bool;
  kp_refcount : Z;
  kp_internal_id : Z;
}.
#[export] Instance settable_keypair : Settable noise_keypair := fun k =>
  mk_keypair (kp_sending k) (kp_sending_counter k) (kp_receiving k) (kp_receiving_counter k)
    (kp_remote_index k) (kp_i_am_the_initiator k) (kp_refcount k) (kp_internal_id k).

Record noise_keypairs := mk_keypairs {
  current_keypair : option nat;
  previous_keypair : option nat;
  next_keypair : option nat;
}.
#[export] Instance settable_keypairs : Settable noise_keypairs := fun k =>
  mk_keypairs (current_keypair k) (previous_keypair k) (next_keypair k).

Record noise_static_identity := mk_static_identity {
  static_public : bytes;
  static_private : bytes;
  has_identity : bool;
}.
#[export] Instance settable_static_identity : Settable noise_static_identity := fun i =>
  mk_static_identity (static_public i) (static_private i) (has_identity i).

Inductive noise_handshake_state :=
  | HANDSHAKE_ZEROED
  | HANDSHAKE_CREATED_INITIATION
  | HANDSHAKE_CONSUMED_INITIATION
  | HANDSHAKE_CREATED_RESPONSE
  | HANDSHAKE_CONSUMED_RESPONSE.
#[global] Instance noise_handshake_state_eq : EqDecision noise_handshake_state.
Proof. solve_decision. Defined.

Record noise_handshake := mk_handshake {
  hs_state : noise_handshake_state;
  hs_last_initiation_consumption : Z;
  hs_ephemeral_private : bytes;
  hs_remote_static : bytes;
  hs_remote_ephemeral : bytes;
  hs_precomputed_static_static : bytes;
  hs_preshared_key : bytes;
  hs_hash : bytes;
  hs_chaining_key : bytes;
  hs_latest_timestamp : bytes;
  hs_remote_index : Z;
}.
#[export] Instance settable_handshake : Settable noise_handshake := fun h =>
  mk_handshake (hs_state h) (hs_last_initiation_consumption h) (hs_ephemeral_private h) (hs_remote_static h)
    (hs_remote_ephemeral h) (hs_precomputed_static_static h) (hs_preshared_key h) (hs_hash h)
    (hs_chaining_key h) (hs_latest_timestamp h) (hs_remote_index h).

(** ** cookie.h *)

Record cookie_checker := mk_cookie_checker {
  cc_secret : bytes;
  cc_cookie_encryption_key : bytes;
  cc_message_mac1_key : bytes;
  cc_secret_birthdate : Z;
}.
#[export] Instance settable_cookie_checker : Settable cookie_checker := fun c =>
  mk_cookie_checker (cc_secret c) (cc_cookie_encryption_key c) (cc_message_mac1_key c) (cc_secret_birthdate c).

Record cookie := mk_cookie {
  co_birthdate : Z;
  co_is_valid : bool;
  co_cookie : bytes;
  co_have_sent_mac1 : bool;
  co_last_mac1_sent : bytes;
  co_cookie_decryption_key : bytes;
  co_message_mac1_key : bytes;
}.
#[export] Instance settable_cookie : Settable cookie := fun c =>
  mk_cookie (co_birthdate c) (co_is_valid c) (co_cookie c) (co_have_sent_mac1 c) (co_last_mac1_sent c)
    (co_cookie_decryption_key c) (co_message_mac1_key c).

(** ** peer.h *)

(** The address half of [struct endpoint], by its family; [src] is the 16-byte
    union of [{src4, src_if4}] and [src6]. *)
Inductive sockaddr :=
  | AF_UNSPEC
  | AF_INET (sin_addr : bytes) (sin_port : Z)
  | AF_INET6 (sin6_addr : bytes) (sin6_port sin6_scope_id : Z).
#[global] Instance sockaddr_eq : EqDecision sockaddr.
Proof. solve_decision. Defined.

Record endpoint := mk_endpoint { ep_addr : sockaddr; ep_src : bytes }.
#[export] Instance settable_endpoint : Settable endpoint := fun e => mk_endpoint (ep_addr e) (ep_src e).

(** The timers by the jiffies they expire at, when pending. *)
Record peer_timers := mk_timers {
  timer_retransmit_handshake : option Z;
  timer_send_keepalive : option Z;
  timer_new_handshake : option Z;
  timer_zero_key_material : option Z;
  timer_persistent_keepalive : option Z;
}.
#[export] Instance settable_timers : Settable peer_timers := fun t =>
  mk_timers (timer_retransmit_handshake t) (timer_send_keepalive t) (timer_new_handshake t)
    (timer_zero_key_material t) (timer_persistent_keepalive t).

(** The FIFO that PrevQueue.v shows [prev_queue] to be: the packets that are
    counted, oldest first, and the one that was peeked at. *)
Record packet_fifo := mk_fifo { fq_queued : list nat; fq_peeked : option nat }.

(** [endpoint_cache]: the cached route with its source address. *)
Record wg_peer := mk_peer {
  tx_queue : packet_fifo;
  rx_queue : packet_fifo;
  staged_packet_queue : list nat;
  is_dead : bool;
  keypairs : noise_keypairs;
  peer_endpoint : endpoint;
  endpoint_cache : option (Z * bytes);
  handshake : noise_handshake;
  last_sent_handshake : Z;
  latest_cookie : cookie;
  rx_bytes : Z;
  tx_bytes : Z;
  timers : peer_timers;
  timer_handshake_attempts : Z;
  persistent_keepalive_interval : Z;
  timer_need_another_keepalive : bool;
  sent_lastminute_handshake : bool;
  walltime_last_handshake : Z * Z;
  internal_id : Z;
}.
#[export] Instance settable_peer : Settable wg_peer := fun p =>
  mk_peer (tx_queue p) (rx_queue p) (staged_packet_queue p) (is_dead p) (keypairs p) (peer_endpoint p)
    (endpoint_cache p) (handshake p) (last_sent_handshake p) (latest_cookie p) (rx_bytes p) (tx_bytes p)
    (timers p) (timer_handshake_attempts p) (persistent_keepalive_interval p)
    (timer_need_another_keepalive p) (sent_lastminute_handshake p) (walltime_last_handshake p) (internal_id p).

(** ** Socket buffers

    A linear buffer: [head] is the whole area from [skb->head], the data are the
    [len] bytes from offset [data], the headers are offsets too.  The last fields
    are [struct packet_cb]. *)
Record sk_buff := mk_skb {
  skb_head : bytes;
  skb_data : Z;
  skb_len : Z;
  skb_network_header : Z;
  skb_transport_header : Z;
  skb_protocol : Z;
  skb_skb_iif : Z;
  skb_ip_summed : Z;
  skb_next : option nat;
  cb_nonce : Z;
  cb_keypair : option nat;
  cb_state : packet_state;
  cb_mtu : Z;
  cb_ds : Z;
}.
#[export] Instance settable_skb : Settable sk_buff := fun s =>
  mk_skb (skb_head s) (skb_data s) (skb_len s) (skb_network_header s) (skb_transport_header s) (skb_protocol s)
    (skb_skb_iif s) (skb_ip_summed s) (skb_next s) (cb_nonce s) (cb_keypair s) (cb_state s) (cb_mtu s) (cb_ds s).

Definition ETH_P_IP : Z := 2048.
Definition ETH_P_IPV6 : Z := 34525.

Definition skb_tail (s : sk_buff) : Z := skb_data s + skb_len s.
(** [n] bytes at an offset of the buffer, and the packet's data. *)
Definition skb_bytes (s : sk_buff) (off n : Z) : bytes := slice (Z.to_nat off) (Z.to_nat n) (skb_head s).
Definition skb_contents (s : sk_buff) : bytes := skb_bytes s (skb_data s) (skb_len s).

(** ** Device *)

Record net_stats := mk_stats {
  st_rx_packets : Z; st_rx_bytes : Z; st_rx_errors : Z; st_rx_frame_errors : Z; st_rx_length_errors : Z;
  st_tx_errors : Z; st_tx_dropped : Z }.
#[export] Instance settable_stats : Settable net_stats := fun s =>
  mk_stats (st_rx_packets s) (st_rx_bytes s) (st_rx_errors s) (st_rx_frame_errors s) (st_rx_length_errors s)
    (st_tx_errors s) (st_tx_dropped s).

(** The work items of a peer and of the device. *)
Inductive work :=
  | Transmit_handshake_work (p : nat)
  | Clear_peer_work (p : nat)
  | Transmit_packet_work (p : nat)
  | Encrypt_work
  | Decrypt_work
  | Handshake_receive_work
  | Napi_poll (p : nat).
#[global] Instance work_eq : EqDecision work.
Proof. solve_decision. Defined.

(** A datagram handed to the UDP tunnel: source, source port, destination, traffic class and payload. *)
Record datagram := mk_datagram { dg_src : bytes; dg_sport : Z; dg_dst : sockaddr; dg_ds : Z; dg_data : bytes }.

Record world := mk_world {
  (* environment *)
  w_now : Z;
  w_jiffies : Z;
  w_realtime : Z * Z;
  w_random : list Z;
  w_alloc_fails : list bool;
  (* net device *)
  w_running : bool;
  w_dev_mtu : Z;
  w_net : Z;
  w_stats : net_stats;
  w_sent : list datagram;
  w_delivered : list (nat * nat);
  (* struct wg_device *)
  w_static_identity : noise_static_identity;
  w_cookie_checker : cookie_checker;
  w_index_hashtable : index_hashtable;
  w_peer_hashtable : pubkey_hashtable;
  w_peer_allowedips : allowedips;
  w_peer_list : list nat;
  w_num_peers : Z;
  w_sock4 : option Z;
  w_sock6 : option Z;
  w_open_socks : Z;
  w_creating_net : option Z;
  w_incoming_port : Z;
  w_fwmark : Z;
  w_device_update_gen : Z;
  w_handshake_queue : list nat;
  w_handshake_queue_len : Z;
  w_encrypt_queue : list nat;
  w_decrypt_queue : list nat;
  w_works : list work;
  (* statics and heaps *)
  w_ratelimiter : ratelimiter;
  w_last_under_load : Z;
  w_keypair_counter : Z;
  w_peer_counter : Z;
  w_peers : gmap nat wg_peer;
  w_refs : peer_refs;
  w_keypairs : gmap nat noise_keypair;
  w_skbs : gmap nat sk_buff;
}.
#[export] Instance settable_world : Settable world := fun w =>
  mk_world (w_now w) (w_jiffies w) (w_realtime w) (w_random w) (w_alloc_fails w) (w_running w) (w_dev_mtu w) (w_net w)
    (w_stats w) (w_sent w) (w_delivered w) (w_static_identity w) (w_cookie_checker w) (w_index_hashtable w)
    (w_peer_hashtable w) (w_peer_allowedips w) (w_peer_list w) (w_num_peers w) (w_sock4 w) (w_sock6 w)
    (w_open_socks w) (w_creating_net w) (w_incoming_port w) (w_fwmark w) (w_device_update_gen w)
    (w_handshake_queue w) (w_handshake_queue_len w) (w_encrypt_queue w) (w_decrypt_queue w) (w_works w)
    (w_ratelimiter w) (w_last_under_load w) (w_keypair_counter w) (w_peer_counter w) (w_peers w) (w_refs w)
    (w_keypairs w) (w_skbs w).

(** Index entries are embedded in handshakes and keypairs. *)
Definition hs_entry (p : nat) : nat := 2 * p.
Definition kp_entry (k : nat) : nat := 2 * k + 1.
Definition entry_owner (e : nat) : nat := e / 2.
#[global] Arguments hs_entry : simpl never.
#[global] Arguments kp_entry : simpl never.
#[global] Arguments entry_owner : simpl never.

(** ** The monad *)

Definition M (A : Type) : Type := world -> option (A * world).

#[global] Instance M_ret : MRet M := fun A x w => Some (x, w).
#[global] Instance M_bind : MBind M := fun A B f m w =>
  match m w with Some (x, w) => f x w | None => None end.

Definition gets {A} (f : world -> A) : M A := fun w => Some (f w, w).
Definition modify (f : world -> world) : M unit := fun w => Some (tt, f w).
Definition stuck {A} : M A := fun _ => None.
Definition lift {A} (o : option A) : M A := fun w => match o with Some x => Some (x, w) | None => None end.
Definition when (b : bool) (m : M unit) : M unit := if b then m else mret tt.

(** Running the same action on each element, in order. *)
Fixpoint for_each {A} (l : list A) (f : A -> M unit) : M unit :=
  match l with [] => mret tt | x :: l => f x ;; for_each l f end.

(** ** Primitives *)

Definition get_peer (p : nat) : M wg_peer := fun w => match w_peers w !! p with Some x => Some (x, w) | None => None end.
Definition set_peer (p : nat) (f : wg_peer -> wg_peer) : M unit := fun w =>
  match w_peers w !! p with Some x => Some (tt, w <| w_peers ::= <[p := f x]> |>) | None => None end.
Definition get_keypair (k : nat) : M noise_keypair := fun w =>
  match w_keypairs w !! k with Some x => Some (x, w) | None => None end.
Definition set_keypair (k : nat) (f : noise_keypair -> noise_keypair) : M unit := fun w =>
  match w_keypairs w !! k with Some x => Some (tt, w <| w_keypairs ::= <[k := f x]> |>) | None => None end.
Definition get_skb (s : nat) : M sk_buff := fun w => match w_skbs w !! s with Some x => Some (x, w) | None => None end.
Definition set_skb (s : nat) (f : sk_buff -> sk_buff) : M unit := fun w =>
  match w_skbs w !! s with Some x => Some (tt, w <| w_skbs ::= <[s := f x]> |>) | None => None end.
Definition kfree_skb (s : nat) : M unit := fun w =>
  match w_skbs w !! s with Some _ => Some (tt, w <| w_skbs ::= delete s |>) | None => None end.

Definition ktime_get_coarse_boottime_ns : M Z := gets w_now.

(** [get_random_u32_below], [get_random_bytes]. *)
Definition get_random_u32 : M Z := fun w =>
  match w_random w with [] => None | r :: rs => Some (u32 r, w <| w_random := rs |>) end.
Definition get_random_u32_below (ceil : Z) : M Z := r ← get_random_u32; mret (r mod ceil).
Fixpoint get_random_bytes (n : nat) : M bytes :=
  match n with O => mret [] | S n => r ← get_random_u32; rs ← get_random_bytes n; mret (u8 r :: rs) end.

(** Whether the next allocation succeeds. *)
Definition alloc_ok : M bool := fun w =>
  match w_alloc_fails w with [] => Some (true, w) | b :: bs => Some (negb b, w <| w_alloc_fails := bs |>) end.

(** A new buffer of [size] bytes, all of it tail room. *)
Definition new_skb (size : Z) : sk_buff :=
  mk_skb (zeros (Z.to_nat size)) 0 0 0 0 0 0 0 None 0 None PACKET_STATE_UNCRYPTED 0 0.
Definition add_skb (b : sk_buff) : M nat :=
  skbs ← gets w_skbs;
  let s := fresh (dom skbs) in
  modify (fun w => w <| w_skbs ::= <[s := b]> |>);; mret s.
Definition alloc_skb (size : Z) : M (option nat) :=
  ok ← alloc_ok;
  if ok : bool then s ← add_skb (new_skb size); mret (Some s) else mret None.

(** [queue_work]: false when the item is already queued. *)
Definition queue_work (k : work) : M bool :=
  ws ← gets w_works;
  if bool_decide (k ∈ ws) then mret false
  else modify (fun w => w <| w_works := ws ++ [k] |>);; mret true.

(** [wg_peer_get] and the reference count part of [wg_peer_put]. *)
Definition wg_peer_get (p : nat) : M unit :=
  modify (fun w => w <| w_refs ::= fun m => <[p := default 0 (m !! p) + 1]> m |>).

(** ** Reading a run backwards *)

Lemma bind_inv {A B} (m : M A) (f : A -> M B) w r :
  (m ≫= f) w = Some r → ∃ x w1, m w = Some (x, w1) ∧ f x w1 = Some r.
Proof. unfold mbind, M_bind. destruct (m w) as [[x w1]|]; [|done]. intros Hr. by exists x, w1. Qed.

Lemma gets_inv {A} (f : world -> A) w x w' : gets f w = Some (x, w') → x = f w ∧ w' = w.
Proof. unfold gets. intros Hr. by simplify_eq. Qed.

Lemma ret_inv {A} (a : A) w x w' : (mret a : M A) w = Some (x, w') → x = a ∧ w' = w.
Proof. unfold mret, M_ret. intros Hr. by simplify_eq. Qed.

Lemma modify_inv f w u w' : modify f w = Some (u, w') → w' = f w.
Proof. unfold modify. intros Hr. by simplify_eq. Qed.

Lemma get_peer_inv p w x w' : get_peer p w = Some (x, w') → w_peers w !! p = Some x ∧ w' = w.
Proof. unfold get_peer. intros Hr. repeat case_match; by simplify_eq. Qed.

Lemma set_peer_inv p f w u w' :
  set_peer p f w = Some (u, w') → ∃ x, w_peers w !! p = Some x ∧ w' = w <| w_peers := <[p := f x]> (w_peers w) |>.
Proof. unfold set_peer. intros Hr. repeat case_match; simplify_eq. by eexists. Qed.

Lemma get_keypair_inv k w x w' : get_keypair k w = Some (x, w') → w_keypairs w !! k = Some x ∧ w' = w.
Proof. unfold get_keypair. intros Hr. repeat case_match; by simplify_eq. Qed.

Lemma set_keypair_inv k f w u w' :
  set_keypair k f w = Some (u, w') →
  ∃ x, w_keypairs w !! k = Some x ∧ w' = w <| w_keypairs := <[k := f x]> (w_keypairs w) |>.
Proof. unfold set_keypair. intros Hr. repeat case_match; simplify_eq. by eexists. Qed.

Lemma get_random_bytes_inv n w b w' :
  get_random_bytes n w = Some (b, w') → ∃ rs, w' = w <| w_random := rs |>.
Proof.
  revert w b. induction n as [|n IH]; intros w b Hr; cbn [get_random_bytes] in Hr.
  - apply ret_inv in Hr as [_ ->]. exists (w_random w). by destruct w.
  - apply bind_inv in Hr as (r & w1 & Hr1 & Hr). apply bind_inv in Hr as (rs & w2 & Hr2 & Hr).
    apply ret_inv in Hr as [_ ->]. unfold get_random_u32 in Hr1. destruct (w_random w) as [|y ys]; [done|].
    injection Hr1 as _ <-. destruct (IH _ _ Hr2) as [zs ->]. by exists zs.
Qed.

(** ** Running forward *)

Lemma bind_run {A B} (m : M A) (f : A -> M B) w x w1 : m w = Some (x, w1) → (m ≫= f) w = f x w1.
Proof. intros E. unfold mbind, M_bind. by rewrite E. Qed.

Lemma get_peer_run p w x : w_peers w !! p = Some x → get_peer p w = Some (x, w).
Proof. intros E. unfold get_peer. by rewrite E. Qed.

Lemma set_peer_run p f w x : w_peers w !! p = Some x → set_peer p f w = Some (tt, w <| w_peers := <[p := f x]> (w_peers w) |>).
Proof. intros E. unfold set_peer. by rewrite E. Qed.

Lemma get_keypair_run k w x : w_keypairs w !! k = Some x → get_keypair k w = Some (x, w).
Proof. intros E. unfold get_keypair. by rewrite E. Qed.

Lemma set_keypair_run k f w x :
  w_keypairs w !! k = Some x → set_keypair k f w = Some (tt, w <| w_keypairs := <[k := f x]> (w_keypairs w) |>).
Proof. intros E. unfold set_keypair. by rewrite E. Qed.

Lemma get_skb_run s b w : w_skbs w !! s = Some b → get_skb s w = Some (b, w).
Proof. intros E. unfold get_skb. by rewrite E. Qed.

Lemma set_skb_run s f w b : w_skbs w !! s = Some b → set_skb s f w = Some (tt, w <| w_skbs := <[s := f b]> (w_skbs w) |>).
Proof. intros E. unfold set_skb. by rewrite E. Qed.

(** One step of a run backwards, for each primitive. *)
Ltac minv H :=
  match type of H with
  | (_ ≫= _) _ = Some _ => let x := fresh "x" in let w := fresh "w" in let Hx := fresh "Hm" in
      apply bind_inv in H as (x & w & Hx & H); minv Hx
  | gets _ _ = Some _ => apply gets_inv in H as [-> ->]
  | (mret _) _ = Some _ => apply ret_inv in H as [-> ->]
  | modify _ _ = Some _ => apply modify_inv in H as ->
  | get_peer _ _ = Some _ => let E := fresh "Ep" in apply get_peer_inv in H as [E ->]
  | get_keypair _ _ = Some _ => let E := fresh "Ek" in apply get_keypair_inv in H as [E ->]
  | _ => idtac
  end.
