(* ===== verification/Skb.v ===== *)
(** * Socket buffers

    The primitives of linux/skbuff.h that the sources call, on the linear buffers
    of World.v.  A primitive that the kernel answers with a panic (pushing below
    [skb->head], putting past the end) has no result; reading outside
    [head, tail) has none either, so that a handler that has a result made no
    access out of bounds. *)
From S2P Require Import Prelude Messages Counter PeerLookup AllowedIPs Ratelimiter World.

Definition CHECKSUM_NONE : Z := 0.
Definition CHECKSUM_UNNECESSARY : Z := 1.
Definition CHECKSUM_PARTIAL : Z := 3.

Definition skb_end (s : sk_buff) : Z := Z.of_nat (length (skb_head s)).
Definition skb_headroom (s : sk_buff) : Z := skb_data s.
Definition skb_tailroom (s : sk_buff) : Z := skb_end s - skb_tail s.

Record skb_ok (s : sk_buff) : Prop := {
  so_data : 0 <= skb_data s;
  so_len : 0 <= skb_len s;
  so_end : skb_tail s <= skb_end s;
}.

(** [n] bytes at an offset from [head], if they lie in the buffer's head room and data. *)
Definition skb_read (s : sk_buff) (off n : Z) : option bytes :=
  if (0 <=? off) && (0 <=? n) && (off + n <=? skb_tail s) then Some (skb_bytes s off n) else None.

(** Overwriting bytes of the buffer. *)
Definition overwrite (off : Z) (b head : bytes) : bytes :=
  take (Z.to_nat off) head ++ b ++ drop (Z.to_nat off + length b) head.
Definition skb_write (off : Z) (b : bytes) (s : sk_buff) : sk_buff := s <| skb_head ::= overwrite off b |>.

Definition skb_reserve (n : Z) (s : sk_buff) : sk_buff := s <| skb_data ::= Z.add n |>.
Definition skb_put (n : Z) (s : sk_buff) : option sk_buff :=
  if skb_tail s + n <=? skb_end s then Some (s <| skb_len ::= Z.add n |>) else None.
Definition skb_put_data (b : bytes) (s : sk_buff) : option sk_buff :=
  skb_put (Z.of_nat (length b)) (skb_write (skb_tail s) b s).
Definition skb_push (n : Z) (s : sk_buff) : option sk_buff :=
  if n <=? skb_data s then Some (s <| skb_data := skb_data s - n |> <| skb_len ::= Z.add n |>) else None.
(** [skb_pull] does nothing when there is not that much. *)
Definition skb_pull (n : Z) (s : sk_buff) : sk_buff :=
  if n <=? skb_len s then s <| skb_data ::= Z.add n |> <| skb_len := skb_len s - n |> else s.
Definition __skb_pull (n : Z) (s : sk_buff) : option sk_buff :=
  if n <=? skb_len s then Some (s <| skb_data ::= Z.add n |> <| skb_len := skb_len s - n |>) else None.
Definition pskb_may_pull (n : Z) (s : sk_buff) : bool := n <=? skb_len s.
Definition pskb_trim (n : Z) (s : sk_buff) : sk_buff := if n <? skb_len s then s <| skb_len := n |> else s.
Definition skb_reset_network_header (s : sk_buff) : sk_buff := s <| skb_network_header := skb_data s |>.

(** Room before the data and after it; all offsets move with the data. *)
Definition skb_expand_head (n : Z) (s : sk_buff) : sk_buff :=
  let k := Z.max 0 (n - skb_headroom s) in
  s <| skb_head ::= app (zeros (Z.to_nat k)) |> <| skb_data ::= Z.add k |>
    <| skb_network_header ::= Z.add k |> <| skb_transport_header ::= Z.add k |>.
Definition skb_expand_tail (n : Z) (s : sk_buff) : sk_buff :=
  let k := Z.max 0 (n - skb_tailroom s) in s <| skb_head ::= fun h => h ++ zeros (Z.to_nat k) |>.

(** ** In the monad *)

Definition put_skb (s : nat) (o : option sk_buff) : M unit := b ← lift o; set_skb s (fun _ => b).

(** A chain of buffers linked by [skb->next]: linking a list of them, and walking
    it; the walk is bounded by the number of buffers there are. *)
Fixpoint link_chain (l : list nat) : M unit :=
  match l with
  | [] => mret tt
  | s :: l => set_skb s (fun b => b <| skb_next := head l |>);; link_chain l
  end.

Fixpoint chain (fuel : nat) (skbs : gmap nat sk_buff) (o : option nat) : list nat :=
  match fuel, o with
  | S fuel, Some s => s :: chain fuel skbs (skbs !! s ≫= skb_next)
  | _, _ => []
  end.
Definition walk_chain (first : nat) : M (list nat) := skbs ← gets w_skbs; mret (chain (size skbs) skbs (Some first)).
Definition kfree_skb_list (first : nat) : M unit := l ← walk_chain first; for_each l kfree_skb.

(** ** Lemmas *)

Lemma skb_pull_tail n s : skb_tail (skb_pull n s) = skb_tail s.
Proof. unfold skb_pull, skb_tail. case_match; cbn; lia. Qed.

(** Pulling and trimming leave the rest of the packet alone. *)
Lemma skb_pull_nonce n s : cb_nonce (skb_pull n s) = cb_nonce s.
Proof. unfold skb_pull. by case_match. Qed.
Lemma pskb_trim_nonce n s : cb_nonce (pskb_trim n s) = cb_nonce s.
Proof. unfold pskb_trim. by case_match. Qed.

Lemma skb_contents_length s : skb_ok s → Z.of_nat (length (skb_contents s)) = skb_len s.
Proof.
  intros [Hd Hl He]. unfold skb_contents, skb_bytes, slice, skb_tail, skb_end in *. rewrite length_take, length_drop. lia.
Qed.

Lemma skb_read_Some s off n b : skb_read s off n = Some b ↔ 0 <= off ∧ 0 <= n ∧ off + n <= skb_tail s ∧ b = skb_bytes s off n.
Proof.
  unfold skb_read. destruct (Z.leb_spec 0 off), (Z.leb_spec 0 n), (Z.leb_spec (off + n) (skb_tail s)); cbn; split;
    try (intros [= <-]); naive_solver lia.
Qed.

(** ** A buffer by its three parts: what lies before the data, the data, what lies after *)

Record holds (s : sk_buff) (pre c post : bytes) : Prop := {
  ho_head : skb_head s = pre ++ c ++ post;
  ho_data : skb_data s = Z.of_nat (length pre);
  ho_len : skb_len s = Z.of_nat (length c);
}.

Lemma holds_contents s pre c post : holds s pre c post → skb_contents s = c.
Proof.
  intros [Hh Hd Hl]. unfold skb_contents, skb_bytes, slice. rewrite Hh, Hd, Hl, !Nat2Z.id, drop_app_length.
  apply take_app_length.
Qed.

Lemma holds_ok s pre c post : holds s pre c post → skb_ok s.
Proof. intros [Hh Hd Hl]. split; unfold skb_tail, skb_end; rewrite ?Hh, ?Hd, ?Hl, ?length_app; lia. Qed.

Lemma ok_holds s : skb_ok s → ∃ pre post, holds s pre (skb_contents s) post.
Proof.
  intros Hs. pose proof (skb_contents_length s Hs) as Hl. destruct Hs as [Hd Hn He]. unfold skb_tail, skb_end in He.
  exists (take (Z.to_nat (skb_data s)) (skb_head s)), (drop (Z.to_nat (skb_len s)) (drop (Z.to_nat (skb_data s)) (skb_head s))).
  split; [|rewrite length_take; lia|done]. unfold skb_contents, skb_bytes, slice. by rewrite !take_drop.
Qed.

(** What the list lemmas need of a length. *)
Ltac len_solve := rewrite ?length_app, ?length_take, ?length_drop, ?length_zeros; lia.

Lemma holds_bytes s pre c post a b :
  holds s pre c post → c ++ post = a ++ b → skb_bytes s (skb_data s) (Z.of_nat (length a)) = a.
Proof.
  intros [Hh Hd Hl] E. unfold skb_bytes, slice. rewrite Hh, Hd, !Nat2Z.id, drop_app_length, E. apply take_app_length.
Qed.

Lemma holds_read s pre a b post :
  holds s pre (a ++ b) post → skb_read s (skb_data s) (Z.of_nat (length a)) = Some a.
Proof.
  intros Hs. apply skb_read_Some. pose proof (holds_ok _ _ _ _ Hs) as []. destruct Hs as [Hh Hd Hl] eqn:E.
  unfold skb_tail. rewrite Hl, length_app. split_and!; [lia..|]. symmetry. eapply holds_bytes; [exact Hs|]. by rewrite <- app_assoc.
Qed.

Lemma holds_push s a b c post n :
  holds s (a ++ b) c post → n = Z.of_nat (length b) → ∃ s', skb_push n s = Some s' ∧ holds s' a (b ++ c) post ∧
    s' = s <| skb_data := skb_data s - n |> <| skb_len ::= Z.add n |>.
Proof.
  intros [Hh Hd Hl] ->. unfold skb_push. rewrite length_app in Hd. destruct (Z.leb_spec (Z.of_nat (length b)) (skb_data s)); [|lia].
  eexists. split; [reflexivity|]. split; [|done]. split; cbn; [|lia|rewrite length_app; lia].
  by rewrite Hh, <- !app_assoc.
Qed.

Lemma holds_put s pre c a b n :
  holds s pre c (a ++ b) → n = Z.of_nat (length a) → ∃ s', skb_put n s = Some s' ∧ holds s' pre (c ++ a) b ∧
    s' = s <| skb_len ::= Z.add n |>.
Proof.
  intros [Hh Hd Hl] ->. unfold skb_put, skb_tail, skb_end. rewrite Hh, Hd, Hl, !length_app.
  destruct (Z.leb_spec (Z.of_nat (length pre) + Z.of_nat (length c) + Z.of_nat (length a))
    (Z.of_nat (length pre + (length c + (length a + length b))))); [|lia].
  eexists. split; [reflexivity|]. split; [|done]. split; cbn; [|done|rewrite length_app; lia]. by rewrite Hh, <- !app_assoc.
Qed.

Lemma holds_pull s pre a b post n :
  holds s pre (a ++ b) post → n = Z.of_nat (length a) → holds (skb_pull n s) (pre ++ a) b post.
Proof.
  intros [Hh Hd Hl] ->. unfold skb_pull. rewrite length_app in Hl. destruct (Z.leb_spec (Z.of_nat (length a)) (skb_len s)); [|lia].
  split; cbn; [by rewrite Hh, <- !app_assoc|rewrite length_app; lia|lia].
Qed.

Lemma holds_trim s pre a b post n :
  holds s pre (a ++ b) post → n = Z.of_nat (length a) → holds (pskb_trim n s) pre a (b ++ post).
Proof.
  intros [Hh Hd Hl] ->. unfold pskb_trim. rewrite length_app in Hl. destruct (Z.ltb_spec (Z.of_nat (length a)) (skb_len s)).
  - split; cbn; [by rewrite Hh, <- !app_assoc|done|done].
  - assert (b = []) as -> by (apply nil_length_inv; lia). rewrite app_nil_r in Hh. split; cbn [app]; [done|done|cbn in Hl; lia].
Qed.

Lemma overwrite_middle pre old new post :
  length old = length new → overwrite (Z.of_nat (length pre)) new (pre ++ old ++ post) = pre ++ new ++ post.
Proof.
  intros Hl. unfold overwrite. rewrite Nat2Z.id, take_app_length. do 2 f_equal.
  rewrite <- Hl, <- length_app, app_assoc. apply drop_app_length.
Qed.

Lemma holds_write_data s pre old b post new :
  holds s pre (old ++ b) post → length old = length new → holds (skb_write (skb_data s) new s) pre (new ++ b) post.
Proof.
  intros [Hh Hd Hl] Hn. split; cbn; [|done|rewrite Hl; rewrite !length_app; lia].
  rewrite Hh, Hd, <- !app_assoc. by apply overwrite_middle.
Qed.

Lemma holds_write_tail s pre c old post new :
  holds s pre c (old ++ post) → length old = length new → holds (skb_write (skb_tail s) new s) pre c (new ++ post).
Proof.
  intros [Hh Hd Hl] Hn. split; cbn; [|done|done]. unfold skb_tail.
  rewrite Hh, Hd, Hl, <- Nat2Z.inj_add, <- length_app, !(app_assoc pre c). by apply overwrite_middle.
Qed.

Lemma holds_expand_tail s pre c post n :
  holds s pre c post → ∃ post', holds (skb_expand_tail n s) pre c post' ∧ n <= Z.of_nat (length post').
Proof.
  intros [Hh Hd Hl]. unfold skb_expand_tail.
  exists (post ++ zeros (Z.to_nat (Z.max 0 (n - skb_tailroom s)))). split.
  - split; cbn; [by rewrite Hh, <- !app_assoc|done|done].
  - unfold skb_tailroom, skb_end, skb_tail. rewrite Hh, Hd, Hl, !length_app, length_zeros. lia.
Qed.

Lemma holds_expand_head s pre c post n :
  holds s pre c post → ∃ pre', holds (skb_expand_head n s) pre' c post ∧ n <= Z.of_nat (length pre').
Proof.
  intros [Hh Hd Hl]. unfold skb_expand_head, skb_headroom.
  exists (zeros (Z.to_nat (Z.max 0 (n - skb_data s))) ++ pre). split.
  - split; cbn; [by rewrite Hh, <- app_assoc|rewrite length_app, length_zeros; lia|done].
  - rewrite length_app, length_zeros. lia.
Qed.

(** A list whose length is known to be enough, split. *)
Lemma split_at {A} (l : list A) (n : nat) : (n <= length l)%nat → ∃ a b, l = a ++ b ∧ length a = n.
Proof. intros Hn. exists (take n l), (drop n l). rewrite take_drop, length_take. split; [done|lia]. Qed.

Lemma split_at_end {A} (l : list A) (n : nat) : (n <= length l)%nat → ∃ a b, l = a ++ b ∧ length b = n.
Proof. intros Hn. destruct (split_at l (length l - n)) as (a & b & -> & Ha); [lia|]. exists a, b. rewrite length_app in *. split; [done|lia]. Qed.
