(* ===== verification/Noise.v ===== *)
(** * The Noise_IKpsk2 handshake and the keypairs (noise.c)

    The symmetric state (hmac, kdf, the mixing functions), the four handshake messages, session
    derivation and the three keypair slots of a peer, each with the index-table
    and reference-count work it does.  The theorems about them are in
    NoiseProofs.v. *)
From S2P Require Import Prelude Messages Counter PeerLookup AllowedIPs Ratelimiter World.

Definition handshake_name : bytes :=
  [78; 111; 105; 115; 101; 95; 73; 75; 112; 115; 107; 50; 95; 50; 53; 53; 49; 57; 95; 67; 104; 97; 67; 104; 97; 80;
   111; 108; 121; 95; 66; 76; 65; 75; 69; 50; 115].
Definition identifier_name : bytes :=
  [87; 105; 114; 101; 71; 117; 97; 114; 100; 32; 118; 49; 32; 122; 120; 50; 99; 52; 32; 74; 97; 115; 111; 110; 64;
   122; 120; 50; 99; 52; 46; 99; 111; 109].

(** ** References to peers (peer.c) *)

(** [wg_packet_purge_staged_packets] (send.c). *)
Definition wg_packet_purge_staged_packets (p : nat) : M unit :=
  x ← get_peer p;
  modify (fun w => w <| w_stats ::= fun s => s <| st_tx_dropped ::= Z.add (Z.of_nat (length (staged_packet_queue x))) |> |>);;
  for_each (staged_packet_queue x) kfree_skb;;
  set_peer p (fun x => x <| staged_packet_queue := [] |>).

(** [rcu_release]: the peer's memory is zeroed and freed, the index entry in it too. *)
Definition rcu_release (p : nat) : M unit :=
  modify (fun w => w <| w_peers ::= delete p |> <| w_refs ::= delete p |>
                     <| w_index_hashtable ::= fun T => T <| ih_nodes ::= delete (hs_entry p) |> |>).

Definition kref_release (p : nat) : M unit :=
  modify (fun w => w <| w_index_hashtable ::= fun T => wg_index_hashtable_remove T (hs_entry p) |>);;
  wg_packet_purge_staged_packets p;;
  rcu_release p.

Definition wg_peer_put (o : option nat) : M unit :=
  match o with
  | None => mret tt
  | Some p =>
    refs ← gets w_refs;
    let n := default 0 (refs !! p) in
    if n <=? 0 then stuck
    else
      modify (fun w => w <| w_refs ::= <[p := n - 1]> |>);;
      when (n - 1 =? 0) (kref_release p)
  end.

(** A lookup by public key, with the keys of the peers there are. *)
Definition pubkey_lookup `{SipHash} (key : bytes) : M (option nat) := fun w =>
  let '(refs, o) :=
    wg_pubkey_hashtable_lookup (fun p => hs_remote_static ∘ handshake <$> w_peers w !! p) (w_peer_hashtable w) (w_refs w) key in
  Some (o, w <| w_refs := refs |>).

Definition index_lookup (mask index : Z) : M (option (nat * nat)) := fun w =>
  let '(T, refs, o) := wg_index_hashtable_lookup (w_index_hashtable w) (w_refs w) mask index in
  Some (o, w <| w_index_hashtable := T |> <| w_refs := refs |>).

Definition index_insert (e : nat) : M Z := fun w =>
  match wg_index_hashtable_insert (w_index_hashtable w) e (w_random w) with
  | Some (T, i, rs) => Some (i, w <| w_index_hashtable := T |> <| w_random := rs |>)
  | None => None
  end.

Definition index_remove (e : nat) : M unit :=
  modify (fun w => w <| w_index_hashtable ::= fun T => wg_index_hashtable_remove T e |>).

Definition index_replace (old new : nat) : M bool := fun w =>
  let '(T, b) := wg_index_hashtable_replace (w_index_hashtable w) old new in
  Some (b, w <| w_index_hashtable := T |>).

(** The memory of an entry comes and goes with its owner. *)
Definition entry_init (e : nat) (ty : Z) (p : nat) : M unit :=
  modify (fun w => w <| w_index_hashtable ::= fun T => T <| ih_nodes ::= <[e := mk_index_entry (Some p) ty 0]> |> |>).
Definition entry_fini (e : nat) : M unit :=
  modify (fun w => w <| w_index_hashtable ::= fun T => T <| ih_nodes ::= delete e |> |>).

Definition set_handshake (p : nat) (f : noise_handshake -> noise_handshake) : M unit :=
  set_peer p (fun x => x <| handshake ::= f |>).
Definition set_keypairs (p : nat) (f : noise_keypairs -> noise_keypairs) : M unit :=
  set_peer p (fun x => x <| keypairs ::= f |>).

Section Noise.
Context `{Crypto}.

(** ** The symmetric state *)

Definition handshake_init_chaining_key : bytes := blake2s NOISE_HASH_LEN [] handshake_name.
Definition handshake_init_hash : bytes :=
  blake2s NOISE_HASH_LEN [] (handshake_init_chaining_key ++ identifier_name).

Definition xor_with (c : Z) (l : bytes) : bytes := Z.lxor c <$> l.

Definition hmac (input key : bytes) : bytes :=
  let x_key := take BLAKE2S_BLOCK_SIZE
    ((if (BLAKE2S_BLOCK_SIZE <? length key)%nat then blake2s BLAKE2S_HASH_SIZE [] key else key) ++ zeros BLAKE2S_BLOCK_SIZE) in
  let x_key := xor_with 54 x_key in
  let i_hash := blake2s BLAKE2S_HASH_SIZE [] (x_key ++ input) in
  let x_key := xor_with (Z.lxor 92 54) x_key in
  blake2s BLAKE2S_HASH_SIZE [] (x_key ++ i_hash).

(** A destination that is NULL or of length zero is [None]. *)
Definition kdf (first second third : option nat) (data chaining_key : bytes) : bytes * bytes * bytes :=
  let secret := hmac data chaining_key in
  match first with
  | None => ([], [], [])
  | Some first_len =>
    let output := hmac [1] secret in
    let first_dst := take first_len output in
    match second with
    | None => (first_dst, [], [])
    | Some second_len =>
      let output := hmac (output ++ [2]) secret in
      let second_dst := take second_len output in
      match third with
      | None => (first_dst, second_dst, [])
      | Some third_len =>
        let output := hmac (output ++ [3]) secret in
        (first_dst, second_dst, take third_len output)
      end
    end
  end.

Definition derive_keys (now : Z) (chaining_key : bytes) : noise_symmetric_key * noise_symmetric_key :=
  let '(k1, k2, _) := kdf (Some NOISE_SYMMETRIC_KEY_LEN) (Some NOISE_SYMMETRIC_KEY_LEN) None [] chaining_key in
  (mk_symmetric_key k1 now true, mk_symmetric_key k2 now true).

(** The new chaining key and the message key ([key] NULL: not wanted). *)
Definition mix_key (want_key : bool) (chaining_key data : bytes) : bytes * bytes :=
  let '(ck, key, _) := kdf (Some NOISE_HASH_LEN) (if want_key then Some NOISE_SYMMETRIC_KEY_LEN else None) None
                         data chaining_key in
  (ck, key).

Definition mix_dh (want_key : bool) (chaining_key private public : bytes) : option (bytes * bytes) :=
  dh ← curve25519 private public; Some (mix_key want_key chaining_key dh).

Definition mix_precomputed_dh (chaining_key precomputed : bytes) : option (bytes * bytes) :=
  if bool_decide (precomputed = zeros NOISE_PUBLIC_KEY_LEN) then None
  else Some (mix_key true chaining_key precomputed).

Definition mix_hash (hash src : bytes) : bytes := blake2s NOISE_HASH_LEN [] (hash ++ src).

Definition mix_psk (chaining_key hash psk : bytes) : bytes * bytes * bytes :=
  let '(ck, temp_hash, key) :=
    kdf (Some NOISE_HASH_LEN) (Some NOISE_HASH_LEN) (Some NOISE_SYMMETRIC_KEY_LEN) psk chaining_key in
  (ck, mix_hash hash temp_hash, key).

(** Chaining key and hash. *)
Definition handshake_init (remote_static : bytes) : bytes * bytes :=
  (handshake_init_chaining_key, mix_hash handshake_init_hash remote_static).

Definition message_encrypt (plaintext key hash : bytes) : bytes * bytes :=
  let c := chacha20poly1305_encrypt plaintext hash 0 key in (c, mix_hash hash c).

Definition message_decrypt (ciphertext key hash : bytes) : option (bytes * bytes) :=
  m ← chacha20poly1305_decrypt ciphertext hash 0 key; Some (m, mix_hash hash ciphertext).

Definition message_ephemeral (ephemeral chaining_key hash : bytes) : bytes * bytes :=
  let '(ck, _, _) := kdf (Some NOISE_HASH_LEN) None None ephemeral chaining_key in
  (ck, mix_hash hash ephemeral).

Definition rounddown_pow_of_two (x : Z) : Z := 2 ^ Z.log2 x.

Definition tai64n_now (now : Z * Z) : bytes :=
  let q := rounddown_pow_of_two (NSEC_PER_SEC / INITIATIONS_PER_SECOND) in
  let tv_nsec := now.2 / q * q in
  be_split 8 (u64 (4611686018427387914 + now.1)) ++ be_split 4 tv_nsec.

(** ** Keys and handshake state *)

(** [curve25519_generate_secret]. *)
Definition generate_secret : M bytes :=
  k ← get_random_bytes NOISE_PUBLIC_KEY_LEN; mret (curve25519_clamp_secret k).

Definition wg_noise_set_static_identity_private_key (private_key : bytes) : M unit :=
  modify (fun w => w <| w_static_identity ::= fun i =>
    match curve25519_generate_public private_key with
    | Some pub => mk_static_identity pub (curve25519_clamp_secret private_key) true
    | None => mk_static_identity (static_public i) (curve25519_clamp_secret private_key) false
    end |>).

Definition wg_noise_precompute_static_static (p : nat) : M unit :=
  i ← gets w_static_identity; x ← get_peer p;
  set_handshake p (fun h => h <| hs_precomputed_static_static :=
    if has_identity i then default (zeros NOISE_PUBLIC_KEY_LEN)
                             (curve25519 (static_private i) (hs_remote_static (handshake x)))
    else zeros NOISE_PUBLIC_KEY_LEN |>).

Definition zeroed_handshake (remote_static preshared_key : bytes) : noise_handshake :=
  mk_handshake HANDSHAKE_ZEROED 0 (zeros NOISE_PUBLIC_KEY_LEN) remote_static (zeros NOISE_PUBLIC_KEY_LEN)
    (zeros NOISE_PUBLIC_KEY_LEN) preshared_key (zeros NOISE_HASH_LEN) (zeros NOISE_HASH_LEN)
    (zeros NOISE_TIMESTAMP_LEN) 0.

Definition wg_noise_handshake_init (p : nat) (peer_public_key : bytes) (peer_preshared_key : option bytes) : M unit :=
  set_peer p (fun x => x <| handshake :=
    zeroed_handshake peer_public_key (default (zeros NOISE_SYMMETRIC_KEY_LEN) peer_preshared_key) |>);;
  entry_init (hs_entry p) INDEX_HASHTABLE_HANDSHAKE p;;
  wg_noise_precompute_static_static p.

Definition handshake_zero (h : noise_handshake) : noise_handshake :=
  h <| hs_ephemeral_private := zeros NOISE_PUBLIC_KEY_LEN |> <| hs_remote_ephemeral := zeros NOISE_PUBLIC_KEY_LEN |>
    <| hs_hash := zeros NOISE_HASH_LEN |> <| hs_chaining_key := zeros NOISE_HASH_LEN |>
    <| hs_remote_index := 0 |> <| hs_state := HANDSHAKE_ZEROED |>.

Definition wg_noise_handshake_clear (p : nat) : M unit :=
  index_remove (hs_entry p);; set_handshake p handshake_zero.

(** [wg_noise_reset_last_sent_handshake]. *)
Definition wg_noise_reset_last_sent_handshake (p : nat) : M unit :=
  now ← ktime_get_coarse_boottime_ns;
  set_peer p (fun x => x <| last_sent_handshake := u64 (now - (REKEY_TIMEOUT + 1) * NSEC_PER_SEC) |>).

(** ** Keypairs *)

Definition zeroed_key : noise_symmetric_key := mk_symmetric_key (zeros NOISE_SYMMETRIC_KEY_LEN) 0 false.

Definition keypair_create (p : nat) : M (option nat) :=
  ok ← alloc_ok;
  if negb ok then mret None
  else
    kps ← gets w_keypairs; n ← gets w_keypair_counter;
    let k := fresh (dom kps) in
    modify (fun w => w <| w_keypair_counter := n + 1 |>
      <| w_keypairs ::= <[k := mk_keypair zeroed_key 0 zeroed_key counter_init 0 false 1 (n + 1)]> |>);;
    entry_init (kp_entry k) INDEX_HASHTABLE_KEYPAIR p;;
    mret (Some k).

(** [keypair_free_rcu]. *)
Definition keypair_free_rcu (k : nat) : M unit :=
  modify (fun w => w <| w_keypairs ::= delete k |>);; entry_fini (kp_entry k).

Definition keypair_free_kref (k : nat) : M unit := index_remove (kp_entry k);; keypair_free_rcu k.

Definition wg_noise_keypair_put (o : option nat) (unreference_now : bool) : M unit :=
  match o with
  | None => mret tt
  | Some k =>
    when unreference_now (index_remove (kp_entry k));;
    x ← get_keypair k;
    if kp_refcount x <=? 0 then stuck
    else
      set_keypair k (fun x => x <| kp_refcount := kp_refcount x - 1 |>);;
      when (kp_refcount x - 1 =? 0) (keypair_free_kref k)
  end.

Definition wg_noise_keypair_get (o : option nat) : M (option nat) :=
  match o with
  | None => mret None
  | Some k =>
    x ← get_keypair k;
    if kp_refcount x =? 0 then mret None
    else set_keypair k (fun x => x <| kp_refcount := kp_refcount x + 1 |>);; mret (Some k)
  end.

Definition wg_noise_keypairs_clear (p : nat) : M unit :=
  x ← get_peer p;
  set_keypairs p (fun ks => ks <| next_keypair := None |>);;
  wg_noise_keypair_put (next_keypair (keypairs x)) true;;
  set_keypairs p (fun ks => ks <| previous_keypair := None |>);;
  wg_noise_keypair_put (previous_keypair (keypairs x)) true;;
  set_keypairs p (fun ks => ks <| current_keypair := None |>);;
  wg_noise_keypair_put (current_keypair (keypairs x)) true.

Definition invalidate_sending (o : option nat) : M unit :=
  match o with
  | None => mret tt
  | Some k => set_keypair k (fun x => x <| kp_sending ::= fun s => s <| sk_is_valid := false |> |>)
  end.

Definition wg_noise_expire_current_peer_keypairs (p : nat) : M unit :=
  wg_noise_handshake_clear p;;
  wg_noise_reset_last_sent_handshake p;;
  x ← get_peer p;
  invalidate_sending (next_keypair (keypairs x));;
  invalidate_sending (current_keypair (keypairs x)).

Definition add_new_keypair (p new_keypair : nat) : M unit :=
  x ← get_peer p; kp ← get_keypair new_keypair;
  let previous := previous_keypair (keypairs x) in
  let next := next_keypair (keypairs x) in
  let current := current_keypair (keypairs x) in
  if kp_i_am_the_initiator kp then
    (match next with
     | Some _ =>
       set_keypairs p (fun ks => ks <| next_keypair := None |> <| previous_keypair := next |>);;
       wg_noise_keypair_put current true
     | None => set_keypairs p (fun ks => ks <| previous_keypair := current |>)
     end);;
    wg_noise_keypair_put previous true;;
    set_keypairs p (fun ks => ks <| current_keypair := Some new_keypair |>)
  else
    set_keypairs p (fun ks => ks <| next_keypair := Some new_keypair |>);;
    wg_noise_keypair_put next true;;
    set_keypairs p (fun ks => ks <| previous_keypair := None |>);;
    wg_noise_keypair_put previous true.

Definition wg_noise_received_with_keypair (p : nat) (received_keypair : option nat) : M bool :=
  x ← get_peer p;
  if negb (bool_decide (received_keypair = next_keypair (keypairs x))) then mret false
  else
    let old := previous_keypair (keypairs x) in
    set_keypairs p (fun ks => ks <| previous_keypair := current_keypair ks |>);;
    wg_noise_keypair_put old true;;
    set_keypairs p (fun ks => ks <| current_keypair := received_keypair |> <| next_keypair := None |>);;
    mret true.

(** ** The four messages *)

(** The MACs are filled in by [wg_cookie_add_mac_to_packet]. *)
Definition no_macs : message_macs := mk_message_macs (zeros COOKIE_LEN) (zeros COOKIE_LEN).

(** What the handshake keeps of a message's symmetric state, when a step fails
    half way through. *)
Definition put_state (p : nat) (ck hash : bytes) : M unit :=
  set_handshake p (fun h => h <| hs_chaining_key := ck |> <| hs_hash := hash |>).

Definition wg_noise_handshake_create_initiation (p : nat) : M (option message_handshake_initiation) :=
  i ← gets w_static_identity; x ← get_peer p; real ← gets w_realtime;
  if negb (has_identity i) then mret None
  else
    let h := handshake x in
    let '(ck, hash) := handshake_init (hs_remote_static h) in
    put_state p ck hash;;
    e ← generate_secret;
    set_handshake p (fun h => h <| hs_ephemeral_private := e |>);;
    match curve25519_generate_public e with
    | None => mret None
    | Some pub =>
      let '(ck, hash) := message_ephemeral pub ck hash in
      put_state p ck hash;;
      match mix_dh true ck e (hs_remote_static h) with
      | None => mret None
      | Some (ck, key) =>
        let '(encrypted_static, hash) := message_encrypt (static_public i) key hash in
        put_state p ck hash;;
        match mix_precomputed_dh ck (hs_precomputed_static_static h) with
        | None => mret None
        | Some (ck, key) =>
          let '(encrypted_timestamp, hash) := message_encrypt (tai64n_now real) key hash in
          put_state p ck hash;;
          sender_index ← index_insert (hs_entry p);
          set_handshake p (fun h => h <| hs_state := HANDSHAKE_CREATED_INITIATION |>);;
          mret (Some (mk_message_handshake_initiation MESSAGE_HANDSHAKE_INITIATION sender_index pub
                        encrypted_static encrypted_timestamp no_macs))
        end
      end
    end.

(** [memcmp(a, b, n) <= 0] for strings of one length: as big-endian numbers. *)
Definition memcmp_le (a b : bytes) : bool := be_combine a <=? be_combine b.

(** The checks of an initiation that need no peer: chaining key, hash, ephemeral
    and the static key it claims. *)
Definition open_initiation (i : noise_static_identity) (src : message_handshake_initiation) :
    option (bytes * bytes * bytes) :=
  let '(ck, hash) := handshake_init (static_public i) in
  let '(ck, hash) := message_ephemeral (init_unencrypted_ephemeral src) ck hash in
  '(ck, key) ← mix_dh true ck (static_private i) (init_unencrypted_ephemeral src);
  '(s, hash) ← message_decrypt (init_encrypted_static src) key hash;
  Some (ck, hash, s).

(** The checks with the peer's precomputed secret: the timestamp. *)
Definition open_timestamp (h : noise_handshake) (ck hash : bytes) (src : message_handshake_initiation) :
    option (bytes * bytes * bytes) :=
  '(ck, key) ← mix_precomputed_dh ck (hs_precomputed_static_static h);
  '(t, hash) ← message_decrypt (init_encrypted_timestamp src) key hash;
  Some (ck, hash, t).

Definition replay_attack (h : noise_handshake) (t : bytes) : bool := memcmp_le t (hs_latest_timestamp h).
Definition flood_attack (h : noise_handshake) (now : Z) : bool :=
  s64 now <? s64 (hs_last_initiation_consumption h) + NSEC_PER_SEC / INITIATIONS_PER_SECOND.

Definition accept_initiation (now : Z) (src : message_handshake_initiation) (ck hash t : bytes) (h : noise_handshake) :
    noise_handshake :=
  let h := h <| hs_remote_ephemeral := init_unencrypted_ephemeral src |> in
  let h := if negb (memcmp_le t (hs_latest_timestamp h)) then h <| hs_latest_timestamp := t |> else h in
  let h := h <| hs_hash := hash |> <| hs_chaining_key := ck |> <| hs_remote_index := init_sender_index src |> in
  let h := if s64 (u64 (hs_last_initiation_consumption h - now)) <? 0
           then h <| hs_last_initiation_consumption := now |> else h in
  h <| hs_state := HANDSHAKE_CONSUMED_INITIATION |>.

Definition wg_noise_handshake_consume_initiation `{SipHash} (src : message_handshake_initiation) : M (option nat) :=
  i ← gets w_static_identity; now ← ktime_get_coarse_boottime_ns;
  if negb (has_identity i) then mret None
  else
    match open_initiation i src with
    | None => mret None
    | Some (ck, hash, s) =>
      peer ← pubkey_lookup s;
      match peer with
      | None => mret None
      | Some p =>
        x ← get_peer p;
        match open_timestamp (handshake x) ck hash src with
        | None => wg_peer_put (Some p);; mret None
        | Some (ck, hash, t) =>
          if replay_attack (handshake x) t || flood_attack (handshake x) now
          then wg_peer_put (Some p);; mret None
          else set_handshake p (accept_initiation now src ck hash t);; mret (Some p)
        end
      end
    end.

Definition wg_noise_handshake_create_response (p : nat) : M (option message_handshake_response) :=
  x ← get_peer p;
  let h := handshake x in
  if negb (bool_decide (hs_state h = HANDSHAKE_CONSUMED_INITIATION)) then mret None
  else
    e ← generate_secret;
    set_handshake p (fun h => h <| hs_ephemeral_private := e |>);;
    match curve25519_generate_public e with
    | None => mret None
    | Some pub =>
      let '(ck, hash) := message_ephemeral pub (hs_chaining_key h) (hs_hash h) in
      put_state p ck hash;;
      match mix_dh false ck e (hs_remote_ephemeral h) with
      | None => mret None
      | Some (ck, _) =>
        put_state p ck hash;;
        match mix_dh false ck e (hs_remote_static h) with
        | None => mret None
        | Some (ck, _) =>
          let '(ck, hash, key) := mix_psk ck hash (hs_preshared_key h) in
          let '(encrypted_nothing, hash) := message_encrypt [] key hash in
          put_state p ck hash;;
          sender_index ← index_insert (hs_entry p);
          set_handshake p (fun h => h <| hs_state := HANDSHAKE_CREATED_RESPONSE |>);;
          mret (Some (mk_message_handshake_response MESSAGE_HANDSHAKE_RESPONSE sender_index (hs_remote_index h) pub
                        encrypted_nothing no_macs))
        end
      end
    end.

(** The checks of a response against the handshake that waits for it. *)
Definition open_response (i : noise_static_identity) (h : noise_handshake) (src : message_handshake_response) :
    option (bytes * bytes) :=
  let e := resp_unencrypted_ephemeral src in
  let '(ck, hash) := message_ephemeral e (hs_chaining_key h) (hs_hash h) in
  '(ck, _) ← mix_dh false ck (hs_ephemeral_private h) e;
  '(ck, _) ← mix_dh false ck (static_private i) e;
  let '(ck, hash, key) := mix_psk ck hash (hs_preshared_key h) in
  '(_, hash) ← message_decrypt (resp_encrypted_nothing src) key hash;
  Some (ck, hash).

Definition accept_response (src : message_handshake_response) (ck hash : bytes) (h : noise_handshake) : noise_handshake :=
  h <| hs_remote_ephemeral := resp_unencrypted_ephemeral src |> <| hs_hash := hash |> <| hs_chaining_key := ck |>
    <| hs_remote_index := resp_sender_index src |> <| hs_state := HANDSHAKE_CONSUMED_RESPONSE |>.

(** The state is read again under the write lock; with one handler at a time it
    is still the same. *)
Definition wg_noise_handshake_consume_response (src : message_handshake_response) : M (option nat) :=
  i ← gets w_static_identity;
  if negb (has_identity i) then mret None
  else
    r ← index_lookup INDEX_HASHTABLE_HANDSHAKE (resp_receiver_index src);
    match r with
    | None => mret None
    | Some (e, p) =>
      x ← get_peer (entry_owner e);
      if negb (bool_decide (hs_state (handshake x) = HANDSHAKE_CREATED_INITIATION))
      then wg_peer_put (Some p);; mret None
      else
        match open_response i (handshake x) src with
        | None => wg_peer_put (Some p);; mret None
        | Some (ck, hash) => set_handshake (entry_owner e) (accept_response src ck hash);; mret (Some p)
        end
    end.

(** ** Sessions *)

Definition wg_noise_handshake_begin_session (p : nat) : M bool :=
  x ← get_peer p; now ← ktime_get_coarse_boottime_ns;
  let h := handshake x in
  if negb (bool_decide (hs_state h = HANDSHAKE_CREATED_RESPONSE)) &&
     negb (bool_decide (hs_state h = HANDSHAKE_CONSUMED_RESPONSE)) then mret false
  else
    o ← keypair_create p;
    match o with
    | None => mret false
    | Some k =>
      let initiator := bool_decide (hs_state h = HANDSHAKE_CONSUMED_RESPONSE) in
      let '(first, second) := derive_keys now (hs_chaining_key h) in
      set_keypair k (fun kp =>
        kp <| kp_i_am_the_initiator := initiator |> <| kp_remote_index := hs_remote_index h |>
           <| kp_sending := if initiator then first else second |>
           <| kp_receiving := if initiator then second else first |>);;
      set_handshake p handshake_zero;;
      if negb (is_dead x) then
        add_new_keypair p k;; index_replace (hs_entry p) (kp_entry k)
      else keypair_free_rcu k;; mret false
    end.
End Noise.
