(* ===== verification/Timers.v ===== *)
(** * Timers: arming and disarming (timers.c)

    The five timers of a peer and the functions that the send and receive paths
    report events to.  What happens when a timer expires is in Expiry.v, after the
    send path that it calls. *)
From S2P Require Import Prelude Messages Counter PeerLookup AllowedIPs Ratelimiter World Skb Noise.

(** The kernel's tick rate. *)
Class Ticks := HZ : Z.

Inductive timer :=
  | Retransmit_handshake
  | Send_keepalive
  | New_handshake
  | Zero_key_material
  | Persistent_keepalive.
#[global] Instance timer_eq : EqDecision timer.
Proof. solve_decision. Defined.

Definition timer_expiry (t : timer) (ts : peer_timers) : option Z :=
  match t with
  | Retransmit_handshake => timer_retransmit_handshake ts
  | Send_keepalive => timer_send_keepalive ts
  | New_handshake => timer_new_handshake ts
  | Zero_key_material => timer_zero_key_material ts
  | Persistent_keepalive => timer_persistent_keepalive ts
  end.
Definition timer_set (t : timer) (o : option Z) (ts : peer_timers) : peer_timers :=
  match t with
  | Retransmit_handshake => ts <| timer_retransmit_handshake := o |>
  | Send_keepalive => ts <| timer_send_keepalive := o |>
  | New_handshake => ts <| timer_new_handshake := o |>
  | Zero_key_material => ts <| timer_zero_key_material := o |>
  | Persistent_keepalive => ts <| timer_persistent_keepalive := o |>
  end.

Definition timer_pending (p : nat) (t : timer) : M bool :=
  x ← get_peer p; mret (bool_decide (is_Some (timer_expiry t (timers x)))).
(** [mod_timer] and [timer_delete]. *)
Definition mod_timer (p : nat) (t : timer) (expires : Z) : M unit :=
  set_peer p (fun x => x <| timers ::= timer_set t (Some (u64 expires)) |>).
Definition timer_delete (p : nat) (t : timer) : M unit := set_peer p (fun x => x <| timers ::= timer_set t None |>).

Section Timers.
Context `{Ticks}.

Definition REKEY_TIMEOUT_JITTER_MAX_JIFFIES : Z := HZ / 3.

Definition mod_peer_timer (p : nat) (t : timer) (expires : Z) : M unit :=
  running ← gets w_running; x ← get_peer p;
  when (running && negb (is_dead x)) (mod_timer p t expires).

Definition wg_timers_data_sent (p : nat) : M unit :=
  pending ← timer_pending p New_handshake;
  when (negb pending)
    (now ← gets w_jiffies; jitter ← get_random_u32_below REKEY_TIMEOUT_JITTER_MAX_JIFFIES;
     mod_peer_timer p New_handshake (now + (KEEPALIVE_TIMEOUT + REKEY_TIMEOUT) * HZ + jitter)).

Definition wg_timers_data_received (p : nat) : M unit :=
  running ← gets w_running;
  when running
    (pending ← timer_pending p Send_keepalive;
     if negb pending then now ← gets w_jiffies; mod_peer_timer p Send_keepalive (now + KEEPALIVE_TIMEOUT * HZ)
     else set_peer p (fun x => x <| timer_need_another_keepalive := true |>)).

Definition wg_timers_any_authenticated_packet_sent (p : nat) : M unit := timer_delete p Send_keepalive.

Definition wg_timers_any_authenticated_packet_received (p : nat) : M unit := timer_delete p New_handshake.

Definition wg_timers_handshake_initiated (p : nat) : M unit :=
  now ← gets w_jiffies; jitter ← get_random_u32_below REKEY_TIMEOUT_JITTER_MAX_JIFFIES;
  mod_peer_timer p Retransmit_handshake (now + REKEY_TIMEOUT * HZ + jitter).

Definition wg_timers_handshake_complete (p : nat) : M unit :=
  timer_delete p Retransmit_handshake;;
  real ← gets w_realtime;
  set_peer p (fun x => x <| timer_handshake_attempts := 0 |> <| sent_lastminute_handshake := false |>
                         <| walltime_last_handshake := real |>).

Definition wg_timers_session_derived (p : nat) : M unit :=
  now ← gets w_jiffies; mod_peer_timer p Zero_key_material (now + REJECT_AFTER_TIME * 3 * HZ).

Definition wg_timers_any_authenticated_packet_traversal (p : nat) : M unit :=
  x ← get_peer p; now ← gets w_jiffies;
  when (negb (persistent_keepalive_interval x =? 0))
    (mod_peer_timer p Persistent_keepalive (now + persistent_keepalive_interval x * HZ)).

Definition wg_timers_init (p : nat) : M unit :=
  set_peer p (fun x => x <| timers := mk_timers None None None None None |> <| timer_handshake_attempts := 0 |>
                         <| sent_lastminute_handshake := false |> <| timer_need_another_keepalive := false |>).
End Timers.
