(* ===== verification/NoiseProofs.v ===== *)
(** * The Noise handshake: correctness

    [hmac] is HMAC and [kdf] is HKDF-Expand of RFC 2104 and RFC 5869
    ([kdf_is_hkdf]); a handshake between two devices that know each other's keys
    is accepted at both ends and leaves both with the same keys, each other's way
    round, and with each other's index ([noise_handshake_agreement],
    [noise_session_keys]); an initiation is accepted once ([noise_initiation_once])
    and at most fifty times a second ([noise_initiation_rate]); timestamps order
    like the clock ([tai64n_monotone]); the three keypair slots move as the
    protocol says and every keypair that leaves them is dropped
    ([keypair_rotation]). *)
From S2P Require Import Prelude Messages Counter PeerLookup AllowedIPs Ratelimiter World Noise.

(** ** What the cryptography is relied on for *)

(** X25519 commutes, never returns the zero point as success and clamps its
    scalar itself; BLAKE2s gives as many bytes as asked for; authenticated
    decryption inverts encryption, which adds a tag. *)
Class CryptoOk `{Crypto} : Prop := {
  dh_comm a b A B :
    curve25519_generate_public a = Some A → curve25519_generate_public b = Some B → curve25519 a B = curve25519 b A;
  dh_nonzero a B r : curve25519 a B = Some r → r ≠ zeros NOISE_PUBLIC_KEY_LEN;
  public_clamp a : curve25519_generate_public (curve25519_clamp_secret a) = curve25519_generate_public a;
  aead_open m ad n k : chacha20poly1305_decrypt (chacha20poly1305_encrypt m ad n k) ad n k = Some m;
  aead_length m ad n k : length (chacha20poly1305_encrypt m ad n k) = noise_encrypted_len (length m);
  blake2s_length n k d : length (blake2s n k d) = n;
  xaead_open m ad n k : xchacha20poly1305_decrypt (xchacha20poly1305_encrypt m ad n k) ad n k = Some m;
  xaead_length m ad n k : length (xchacha20poly1305_encrypt m ad n k) = noise_encrypted_len (length m);
}.

Section Proofs.
Context `{CryptoOk}.

(** ** HMAC and HKDF *)

(** RFC 2104 with a key of at most one block. *)
Definition rfc2104_hmac (text key : bytes) : bytes :=
  let k := key ++ zeros (BLAKE2S_BLOCK_SIZE - length key) in
  let hash := blake2s BLAKE2S_HASH_SIZE [] in
  hash (xor_with 92 k ++ hash (xor_with 54 k ++ text)).

(** RFC 5869: the blocks T(1), T(2), ... *)
Fixpoint hkdf_blocks (n : nat) (i : Z) (prk prev : bytes) : list bytes :=
  match n with
  | O => []
  | S n => let t := rfc2104_hmac (prev ++ [i]) prk in t :: hkdf_blocks n (i + 1) prk t
  end.

Lemma xor_with_twice a b l : xor_with a (xor_with b l) = xor_with (Z.lxor a b) l.
Proof.
  unfold xor_with. rewrite <- list_fmap_compose. apply list_fmap_ext. intros i x _. cbn. by rewrite Z.lxor_assoc.
Qed.

Lemma hmac_is_rfc2104 input key :
  (length key <= BLAKE2S_BLOCK_SIZE)%nat → hmac input key = rfc2104_hmac input key.
Proof.
  intros Hl. unfold hmac, rfc2104_hmac. destruct (Nat.ltb_spec BLAKE2S_BLOCK_SIZE (length key)) as [?|_]; [lia|].
  assert (take BLAKE2S_BLOCK_SIZE (key ++ zeros BLAKE2S_BLOCK_SIZE) = key ++ zeros (BLAKE2S_BLOCK_SIZE - length key)) as ->.
  { rewrite take_app. f_equal; [by rewrite take_ge|]. unfold zeros. rewrite take_replicate. f_equal. lia. }
  by rewrite xor_with_twice.
Qed.

(** ** Opening what the other side made *)

(** The symmetric state after the initiator's first message. *)
Record initiation_state (SA SB e pub ss t : bytes) (es et ck hash : bytes) : Prop := {
  is_pub : curve25519_generate_public e = Some pub;
  is_steps : ∃ ck1 h1 dh ck2 key h2 ck3 key2,
    message_ephemeral pub (handshake_init SB).1 (handshake_init SB).2 = (ck1, h1) ∧
    curve25519 e SB = Some dh ∧ mix_key true ck1 dh = (ck2, key) ∧ message_encrypt SA key h1 = (es, h2) ∧
    mix_key true ck2 ss = (ck3, key2) ∧ message_encrypt t key2 h2 = (et, hash) ∧ ck = ck3;
}.

Lemma initiation_opens SA SB sB e pub ss t es et ck hash idx macs h :
  initiation_state SA SB e pub ss t es et ck hash →
  curve25519_generate_public sB = Some SB → hs_precomputed_static_static h = ss → ss ≠ zeros NOISE_PUBLIC_KEY_LEN →
  let src := mk_message_handshake_initiation MESSAGE_HANDSHAKE_INITIATION idx pub es et macs in
  ∃ ck2 h2, open_initiation (mk_static_identity SB sB true) src = Some (ck2, h2, SA) ∧
    open_timestamp h ck2 h2 src = Some (ck, hash, t).
Proof.
  intros [Hpub (ck1 & h1 & dh & ck2 & key & h2 & ck3 & key2 & He & Hdh & Hk & Hes & Hk2 & Het & ->)] HB Hss Hnz src.
  exists ck2, h2. unfold open_initiation, open_timestamp. cbn [static_public static_private init_unencrypted_ephemeral
    init_encrypted_static init_encrypted_timestamp src].
  destruct (handshake_init SB) as [ck0 h0] eqn:E0. cbn [fst snd] in He. rewrite He.
  unfold mix_dh. rewrite (dh_comm sB e SB pub HB Hpub), Hdh. cbn [mbind option_bind]. rewrite Hk.
  unfold message_encrypt in Hes, Het. injection Hes as <- <-. injection Het as <- <-.
  unfold message_decrypt. rewrite aead_open. cbn [mbind option_bind]. split; [done|].
  unfold mix_precomputed_dh. rewrite Hss, bool_decide_false by done. cbn [mbind option_bind]. rewrite Hk2, aead_open. done.
Qed.

(** The responder's message, opened by the initiator. *)
Lemma response_opens i h hr e pub src idx ridx macs ck hash ck1 h1 dh1 ck2 k2 dh2 ck3 k3 key en :
  (* the responder's steps *)
  curve25519_generate_public e = Some pub →
  message_ephemeral pub (hs_chaining_key hr) (hs_hash hr) = (ck1, h1) →
  curve25519 e (hs_remote_ephemeral hr) = Some dh1 → mix_key false ck1 dh1 = (ck2, k2) →
  curve25519 e (hs_remote_static hr) = Some dh2 → mix_key false ck2 dh2 = (ck3, k3) →
  (∃ h2, mix_psk ck3 h1 (hs_preshared_key hr) = (ck, h2, key) ∧ message_encrypt [] key h2 = (en, hash)) →
  src = mk_message_handshake_response MESSAGE_HANDSHAKE_RESPONSE idx ridx pub en macs →
  (* what the two sides share *)
  hs_chaining_key h = hs_chaining_key hr → hs_hash h = hs_hash hr → hs_preshared_key h = hs_preshared_key hr →
  curve25519_generate_public (hs_ephemeral_private h) = Some (hs_remote_ephemeral hr) →
  curve25519_generate_public (static_private i) = Some (hs_remote_static hr) →
  open_response i h src = Some (ck, hash).
Proof.
  intros Hpub He Hd1 Hk1 Hd2 Hk2 (h2 & Hpsk & Hen) -> Hck Hh Hpk HeA HsA.
  unfold open_response. cbn [resp_unencrypted_ephemeral resp_encrypted_nothing]. rewrite Hck, Hh, He.
  unfold mix_dh. rewrite (dh_comm _ _ _ _ HeA Hpub), Hd1. cbn [mbind option_bind]. rewrite Hk1.
  rewrite (dh_comm _ _ _ _ HsA Hpub), Hd2. cbn [mbind option_bind]. rewrite Hk2, Hpk, Hpsk.
  unfold message_encrypt in Hen. injection Hen as <- <-. unfold message_decrypt. by rewrite aead_open.
Qed.

(** ** Running the handlers *)

(** What a peer must have been configured with. *)
Record configured (w : world) (p : nat) (x : wg_peer) (remote psk : bytes) : Prop := {
  c_identity : has_identity (w_static_identity w) = true;
  c_public : curve25519_generate_public (static_private (w_static_identity w)) = Some (static_public (w_static_identity w));
  c_peer : w_peers w !! p = Some x;
  c_remote : hs_remote_static (handshake x) = remote;
  c_psk : hs_preshared_key (handshake x) = psk;
  c_precomputed :
    curve25519 (static_private (w_static_identity w)) remote = Some (hs_precomputed_static_static (handshake x));
  c_index : index_ok (w_index_hashtable w);
  c_entry : ∃ i, ih_nodes (w_index_hashtable w) !! hs_entry p = Some (mk_index_entry (Some p) INDEX_HASHTABLE_HANDSHAKE i);
  c_ref : 0 < default 0 (w_refs w !! p);
}.

(** The world with other random numbers, index table and handshake of [p]. *)
Definition at_h (w : world) (p : nat) (x : wg_peer) (rs : list Z) (T : index_hashtable) (h : noise_handshake) : world :=
  w <| w_random := rs |> <| w_index_hashtable := T |>
    <| w_peers := <[p := x <| handshake := h |>]> (w_peers w) |>.

Lemma at_h_id w p x : w_peers w !! p = Some x → at_h w p x (w_random w) (w_index_hashtable w) (handshake x) = w.
Proof.
  intros Hx. destruct w. unfold at_h, upd. cbn in *. f_equal. rewrite insert_id; [done|]. rewrite Hx. by destruct x.
Qed.

Lemma at_h_peer w p x rs T h : w_peers (at_h w p x rs T h) !! p = Some (x <| handshake := h |>).
Proof. unfold at_h. cbn. by rewrite lookup_insert_eq. Qed.

Lemma set_handshake_at w p x rs T h f :
  set_handshake p f (at_h w p x rs T h) = Some (tt, at_h w p x rs T (f h)).
Proof.
  unfold set_handshake, set_peer. rewrite at_h_peer. do 2 f_equal. unfold at_h, upd. cbn. by rewrite insert_insert_eq.
Qed.

Lemma set_handshake_start w p x f :
  w_peers w !! p = Some x →
  set_handshake p f w = Some (tt, at_h w p x (w_random w) (w_index_hashtable w) (f (handshake x))).
Proof. intros Hx. rewrite <- (at_h_id w p x Hx) at 1. apply set_handshake_at. Qed.

Lemma get_peer_at w p x rs T h : get_peer p (at_h w p x rs T h) = Some (x <| handshake := h |>, at_h w p x rs T h).
Proof. unfold get_peer. by rewrite at_h_peer. Qed.

Lemma generate_secret_at w p x rs T h e w' :
  generate_secret (at_h w p x rs T h) = Some (e, w') → ∃ rs', w' = at_h w p x rs' T h.
Proof.
  unfold generate_secret. intros Hr. apply bind_inv in Hr as (k & w1 & Hk & Hr). apply ret_inv in Hr as [_ ->].
  apply get_random_bytes_inv in Hk as [rs' ->]. by exists rs'.
Qed.

Lemma index_insert_at e w p x rs T h i w' :
  index_insert e (at_h w p x rs T h) = Some (i, w') →
  ∃ T' rs', wg_index_hashtable_insert T e rs = Some (T', i, rs') ∧ w' = at_h w p x rs' T' h.
Proof.
  unfold index_insert. change (w_index_hashtable (at_h w p x rs T h)) with T.
  change (w_random (at_h w p x rs T h)) with rs. intros Hr. destruct (wg_index_hashtable_insert T e rs) as [[[T' i'] rs']|]; [|done].
  simplify_eq. by exists T', rs'.
Qed.

Lemma create_initiation_inv w p x remote psk m w' :
  configured w p x remote psk → wg_noise_handshake_create_initiation p w = Some (Some m, w') →
  ∃ e pub es et ck hash idx T rs rnd,
    m = mk_message_handshake_initiation MESSAGE_HANDSHAKE_INITIATION idx pub es et no_macs ∧
    initiation_state (static_public (w_static_identity w)) remote e pub (hs_precomputed_static_static (handshake x))
      (tai64n_now (w_realtime w)) es et ck hash ∧
    wg_index_hashtable_insert (w_index_hashtable w) (hs_entry p) rnd = Some (T, idx, rs) ∧
    w' = at_h w p x rs T ((handshake x) <| hs_ephemeral_private := e |> <| hs_chaining_key := ck |>
                <| hs_hash := hash |> <| hs_state := HANDSHAKE_CREATED_INITIATION |>).
Proof.
  intros Hc Hr. unfold wg_noise_handshake_create_initiation in Hr.
  minv Hr. minv Hr. minv Hr. rewrite (c_peer _ _ _ _ _ Hc) in Ep. injection Ep as <-.
  rewrite (c_identity _ _ _ _ _ Hc) in Hr. cbn [negb] in Hr. rewrite (c_remote _ _ _ _ _ Hc) in Hr.
  destruct (handshake_init remote) as [ck0 h0] eqn:E0.
  erewrite bind_run in Hr by (apply set_handshake_start, Hc).
  apply bind_inv in Hr as (e & w1 & He & Hr). apply generate_secret_at in He as [rs1 ->].
  erewrite bind_run in Hr by apply set_handshake_at.
  destruct (curve25519_generate_public e) as [pub|] eqn:Epub; [|by minv Hr].
  destruct (message_ephemeral pub ck0 h0) as [ck1 h1] eqn:E1. erewrite bind_run in Hr by apply set_handshake_at.
  unfold mix_dh in Hr. destruct (curve25519 e remote) as [dh|] eqn:Edh; cbn [mbind option_bind] in Hr; [|by minv Hr].
  destruct (mix_key true ck1 dh) as [ck2 key] eqn:Ek.
  destruct (message_encrypt (static_public (w_static_identity w)) key h1) as [es h2] eqn:Es.
  erewrite bind_run in Hr by apply set_handshake_at.
  unfold mix_precomputed_dh in Hr. case_bool_decide as Hz; [by minv Hr|].
  destruct (mix_key true ck2 (hs_precomputed_static_static (handshake x))) as [ck3 key2] eqn:Ek2.
  destruct (message_encrypt (tai64n_now (w_realtime w)) key2 h2) as [et hash] eqn:Et.
  erewrite bind_run in Hr by apply set_handshake_at.
  apply bind_inv in Hr as (idx & w2 & Hi & Hr). apply index_insert_at in Hi as (T & rs & Hins & ->).
  erewrite bind_run in Hr by apply set_handshake_at. apply ret_inv in Hr as [[= ->] ->].
  exists e, pub, es, et, ck3, hash, idx, T, rs, rs1. split_and!; [done| |done|done].
  split; [done|]. rewrite E0. exists ck1, h1, dh, ck2, key, h2, ck3, key2. done.
Qed.

(** The entry an insertion hashes keeps its type and its owner, and is found under its index. *)
Lemma insert_search_node T e rnd T' i rest n :
  insert_search T e rnd = Some (T', i, rest) → ih_nodes T !! e = Some n →
  ih_nodes T' !! e = Some (n <| ie_index := i |>).
Proof.
  revert T n. induction rnd as [|r rnd IH]; intros T n Hr Hn; [done|]. cbn [insert_search] in Hr.
  assert (ih_nodes (set_index T e (u32 r)) !! e = Some (n <| ie_index := u32 r |>)) as Hn1.
  { unfold set_index. cbn. by rewrite lookup_alter_eq, Hn. }
  case_bool_decide; [by rewrite (IH _ _ Hr Hn1)|].
  unfold insert_commit in Hr. unfold node_index in Hr. rewrite Hn1 in Hr. cbn [fmap option_fmap option_map] in Hr.
  case_bool_decide; [by rewrite (IH _ _ Hr Hn1)|]. by simplify_eq.
Qed.

Lemma inserted_lookup T e rnd T' i rest n :
  index_ok T → ih_nodes T !! e = Some n → wg_index_hashtable_insert T e rnd = Some (T', i, rest) →
  find_index T' i = Some e ∧ ih_nodes T' !! e = Some (n <| ie_index := i |>) ∧ index_ok T' ∧ fits 32 i.
Proof.
  intros Hok Hn Hi. unfold wg_index_hashtable_insert in Hi.
  pose proof (insert_search_spec (insert_unhash T e) e rnd (index_ok_del _ _ Hok) ltac:(by exists n)
    ltac:(cbn; rewrite hashed_del; naive_solver)) as Hs.
  rewrite Hi in Hs. destruct Hs as (used & r & _ & -> & _ & _ & Hok' & Hm).
  assert (fits 32 (u32 r)) by (apply wrap_fits; lia).
  split_and!; [apply find_index_spec; [done..|]; apply Hm; by left|by eapply insert_search_node|done|done].
Qed.

Lemma create_response_inv w p x m w' :
  w_peers w !! p = Some x → wg_noise_handshake_create_response p w = Some (Some m, w') →
  let h := handshake x in
  hs_state h = HANDSHAKE_CONSUMED_INITIATION ∧
  ∃ e pub ck1 h1 dh1 ck2 k2 dh2 ck3 k3 ck h2 key en hash idx T rs rnd,
    curve25519_generate_public e = Some pub ∧
    message_ephemeral pub (hs_chaining_key h) (hs_hash h) = (ck1, h1) ∧
    curve25519 e (hs_remote_ephemeral h) = Some dh1 ∧ mix_key false ck1 dh1 = (ck2, k2) ∧
    curve25519 e (hs_remote_static h) = Some dh2 ∧ mix_key false ck2 dh2 = (ck3, k3) ∧
    mix_psk ck3 h1 (hs_preshared_key h) = (ck, h2, key) ∧ message_encrypt [] key h2 = (en, hash) ∧
    m = mk_message_handshake_response MESSAGE_HANDSHAKE_RESPONSE idx (hs_remote_index h) pub en no_macs ∧
    wg_index_hashtable_insert (w_index_hashtable w) (hs_entry p) rnd = Some (T, idx, rs) ∧
    w' = at_h w p x rs T (h <| hs_ephemeral_private := e |> <| hs_chaining_key := ck |>
                <| hs_hash := hash |> <| hs_state := HANDSHAKE_CREATED_RESPONSE |>).
Proof.
  intros Hx Hr. cbn zeta. unfold wg_noise_handshake_create_response in Hr. minv Hr.
  rewrite Hx in Ep. injection Ep as <-. case_bool_decide as Hst; cbn [negb] in Hr; [|by minv Hr]. split; [done|].
  apply bind_inv in Hr as (e & w1 & He & Hr). rewrite <- (at_h_id w p x Hx) in He. apply generate_secret_at in He as [rs1 ->].
  erewrite bind_run in Hr by apply set_handshake_at.
  destruct (curve25519_generate_public e) as [pub|] eqn:Epub; [|by minv Hr].
  destruct (message_ephemeral pub _ _) as [ck1 h1] eqn:E1. erewrite bind_run in Hr by apply set_handshake_at.
  unfold mix_dh in Hr. destruct (curve25519 e (hs_remote_ephemeral _)) as [dh1|] eqn:Ed1; cbn [mbind option_bind] in Hr; [|by minv Hr].
  destruct (mix_key false ck1 dh1) as [ck2 k2] eqn:Ek1. erewrite bind_run in Hr by apply set_handshake_at.
  destruct (curve25519 e (hs_remote_static _)) as [dh2|] eqn:Ed2; cbn [mbind option_bind] in Hr; [|by minv Hr].
  destruct (mix_key false ck2 dh2) as [ck3 k3] eqn:Ek2.
  destruct (mix_psk ck3 h1 _) as [[ck h2] key] eqn:Epsk. destruct (message_encrypt [] key h2) as [en hash] eqn:Een.
  erewrite bind_run in Hr by apply set_handshake_at.
  apply bind_inv in Hr as (idx & w2 & Hi & Hr). apply index_insert_at in Hi as (T & rs & Hins & ->).
  erewrite bind_run in Hr by apply set_handshake_at. apply ret_inv in Hr as [[= ->] ->].
  exists e, pub, ck1, h1, dh1, ck2, k2, dh2, ck3, k3, ck, h2, key, en, hash, idx, T, rs, rs1. done.
Qed.

(** ** The two accepting handlers, run forwards *)

Definition hs_of (w : world) (p : nat) : option noise_handshake := handshake <$> w_peers w !! p.

(** The peers' keys as the public-key table reads them. *)
Definition keys_of (w : world) (p : nat) : option bytes := hs_remote_static ∘ handshake <$> w_peers w !! p.

Lemma consume_initiation_run `{SipHash} w src p x refs ck0 h0 s ck hash t :
  has_identity (w_static_identity w) = true → w_peers w !! p = Some x →
  open_initiation (w_static_identity w) src = Some (ck0, h0, s) →
  wg_pubkey_hashtable_lookup (keys_of w) (w_peer_hashtable w) (w_refs w) s = (refs, Some p) →
  open_timestamp (handshake x) ck0 h0 src = Some (ck, hash, t) →
  replay_attack (handshake x) t = false → flood_attack (handshake x) (w_now w) = false →
  wg_noise_handshake_consume_initiation src w =
    Some (Some p, w <| w_refs := refs |>
                    <| w_peers := <[p := x <| handshake ::= accept_initiation (w_now w) src ck hash t |>]> (w_peers w) |>).
Proof.
  intros Hi Hx Ho Hl Ht Hrep Hfl. unfold wg_noise_handshake_consume_initiation.
  erewrite bind_run by done. erewrite bind_run by done. rewrite Hi. cbn [negb]. rewrite Ho.
  erewrite (bind_run (pubkey_lookup s)) by (unfold pubkey_lookup; unfold keys_of in Hl; rewrite Hl; done). cbv beta iota.
  erewrite bind_run by (apply get_peer_run; exact Hx). rewrite Ht, Hrep, Hfl. cbn [orb].
  erewrite bind_run by (unfold set_handshake; apply set_peer_run; exact Hx). done.
Qed.

Lemma consume_response_run w src e p x ck hash T refs :
  has_identity (w_static_identity w) = true → w_peers w !! entry_owner e = Some x →
  wg_index_hashtable_lookup (w_index_hashtable w) (w_refs w) INDEX_HASHTABLE_HANDSHAKE (resp_receiver_index src)
    = (T, refs, Some (e, p)) →
  hs_state (handshake x) = HANDSHAKE_CREATED_INITIATION →
  open_response (w_static_identity w) (handshake x) src = Some (ck, hash) →
  wg_noise_handshake_consume_response src w =
    Some (Some p, w <| w_index_hashtable := T |> <| w_refs := refs |>
      <| w_peers := <[entry_owner e := x <| handshake ::= accept_response src ck hash |>]> (w_peers w) |>).
Proof.
  intros Hi Hx Hl Hst Ho. unfold wg_noise_handshake_consume_response.
  erewrite bind_run by done. rewrite Hi. cbn [negb].
  erewrite bind_run by (unfold index_lookup; rewrite Hl; done). cbv beta iota.
  erewrite bind_run by (apply get_peer_run; exact Hx).
  rewrite bool_decide_true by done. cbn [negb]. rewrite Ho.
  erewrite bind_run by (unfold set_handshake; apply set_peer_run; exact Hx). done.
Qed.

Lemma precomputed_agree wa wb pa pb xa xb psk :
  configured wa pa xa (static_public (w_static_identity wb)) psk →
  configured wb pb xb (static_public (w_static_identity wa)) psk →
  hs_precomputed_static_static (handshake xa) = hs_precomputed_static_static (handshake xb).
Proof.
  intros [_ HA _ _ _ Hsa _ _ _] [_ HB _ _ _ Hsb _ _ _]. rewrite (dh_comm _ _ _ _ HA HB) in Hsa. congruence.
Qed.

Lemma accept_initiation_fields now src ck hash t h :
  let h' := accept_initiation now src ck hash t h in
  hs_chaining_key h' = ck ∧ hs_hash h' = hash ∧ hs_remote_ephemeral h' = init_unencrypted_ephemeral src ∧
  hs_remote_index h' = init_sender_index src ∧ hs_preshared_key h' = hs_preshared_key h ∧
  hs_remote_static h' = hs_remote_static h ∧ hs_state h' = HANDSHAKE_CONSUMED_INITIATION.
Proof. cbn zeta. unfold accept_initiation. repeat case_match; done. Qed.

(** The lookup of a handshake that is hashed with its peer alive. *)
Lemma handshake_lookup T refs i p n :
  find_index T i = Some (hs_entry p) → ih_nodes T !! hs_entry p = Some n →
  ie_peer n = Some p → ie_type n = INDEX_HASHTABLE_HANDSHAKE → 0 < default 0 (refs !! p) →
  ∃ refs' T', wg_index_hashtable_lookup T refs INDEX_HASHTABLE_HANDSHAKE i = (T', refs', Some (hs_entry p, p)) ∧
    ih_lists T' = ih_lists T ∧ ∀ e, node_index T' e = node_index T e.
Proof.
  intros Hf Hn Hp Hty Href.
  pose proof (lookup_lists T refs INDEX_HASHTABLE_HANDSHAKE i) as Hl. pose proof (lookup_nodes T refs INDEX_HASHTABLE_HANDSHAKE i) as Hi.
  unfold wg_index_hashtable_lookup in *. rewrite Hf, Hn, Hty in *. cbn [Z.land INDEX_HASHTABLE_HANDSHAKE Pos.land Z.eqb] in *.
  unfold wg_peer_get_maybe_zero in *. rewrite Hp in *. destruct (Z.eqb_spec (default 0 (refs !! p)) 0); [lia|].
  eexists _, _. split; [done|]. split; [apply Hl|apply Hi].
Qed.

Lemma entry_owner_hs p : entry_owner (hs_entry p) = p.
Proof. unfold entry_owner, hs_entry. rewrite Nat.mul_comm. by apply Nat.div_mul. Qed.

(** The second message: a responder in step with an initiator that waits. *)
Lemma response_accepted wa wb pa pb x y na nb m2 wb2 :
  w_peers wa !! pa = Some x → w_peers wb !! pb = Some y →
  has_identity (w_static_identity wa) = true → 0 < default 0 (w_refs wa !! pa) →
  hs_state (handshake x) = HANDSHAKE_CREATED_INITIATION →
  hs_chaining_key (handshake x) = hs_chaining_key (handshake y) → hs_hash (handshake x) = hs_hash (handshake y) →
  hs_preshared_key (handshake x) = hs_preshared_key (handshake y) →
  curve25519_generate_public (hs_ephemeral_private (handshake x)) = Some (hs_remote_ephemeral (handshake y)) →
  curve25519_generate_public (static_private (w_static_identity wa)) = Some (hs_remote_static (handshake y)) →
  index_ok (w_index_hashtable wa) → index_ok (w_index_hashtable wb) →
  find_index (w_index_hashtable wa) (hs_remote_index (handshake y)) = Some (hs_entry pa) →
  fits 32 (hs_remote_index (handshake y)) →
  ih_nodes (w_index_hashtable wa) !! hs_entry pa = Some na → ie_peer na = Some pa → ie_type na = INDEX_HASHTABLE_HANDSHAKE →
  ih_nodes (w_index_hashtable wb) !! hs_entry pb = Some nb →
  wg_noise_handshake_create_response pb wb = Some (Some m2, wb2) →
  ∃ wa2 ha hb, wg_noise_handshake_consume_response m2 wa = Some (Some pa, wa2) ∧
    hs_of wa2 pa = Some ha ∧ hs_of wb2 pb = Some hb ∧
    hs_chaining_key ha = hs_chaining_key hb ∧ hs_hash ha = hs_hash hb ∧
    hs_state ha = HANDSHAKE_CONSUMED_RESPONSE ∧ hs_state hb = HANDSHAKE_CREATED_RESPONSE ∧
    index_maps (w_index_hashtable wa2) (hs_remote_index hb) (hs_entry pa) ∧
    index_maps (w_index_hashtable wb2) (hs_remote_index ha) (hs_entry pb).
Proof.
  intros Hx Hy Hid Href Hst Hck Hh Hpsk He Hs Hoka Hokb Hf Hfit Hna Hnp Hnt Hnb Hr.
  destruct (create_response_inv wb pb y m2 wb2 Hy Hr) as
    (Hsty & e & pub & ck1 & h1 & dh1 & ck2 & k2 & dh2 & ck3 & k3 & ck & h2 & key & en & hash & idx & T & rs & rnd &
     Hpub & He1 & Hd1 & Hk1 & Hd2 & Hk2 & Hps & Hen & Hm2 & Hins & ->).
  pose proof (response_opens (w_static_identity wa) (handshake x) (handshake y) e pub m2 idx _ no_macs ck hash ck1 h1 dh1 ck2 k2
    dh2 ck3 k3 key en Hpub He1 Hd1 Hk1 Hd2 Hk2 ltac:(by exists h2) Hm2 Hck Hh Hpsk He Hs) as Ho.
  destruct (handshake_lookup _ (w_refs wa) _ _ _ Hf Hna Hnp Hnt Href) as (refs' & T' & Hl & Hll & Hln).
  assert (resp_receiver_index m2 = hs_remote_index (handshake y)) as Hri by by rewrite Hm2.
  eexists _, _, _. split; [eapply consume_response_run; [done|by rewrite entry_owner_hs|by rewrite Hri|done|exact Ho]|].
  rewrite entry_owner_hs. unfold hs_of. rewrite at_h_peer.
  split; [cbn; by rewrite lookup_insert_eq|]. split; [done|].
  destruct (inserted_lookup _ _ _ _ _ _ _ Hokb Hnb Hins) as (Hfb & _ & Hokb2 & Hfitb).
  split_and!; try done.
  - apply find_index_spec in Hf as [Hh1 Hh2]; [|done|done]. split; cbn; [rewrite Hll; exact Hh1|].
    etransitivity; [apply Hln|exact Hh2].
  - cbn. rewrite Hm2. by apply find_index_spec.
Qed.


(** ** Keypair slots *)

(** What [wg_noise_keypair_put] with [unreference_now] leaves of the keypairs and of the index table. *)
Definition put_keypairs (o : option nat) (m : gmap nat noise_keypair) : gmap nat noise_keypair :=
  match o with
  | None => m
  | Some k =>
    match m !! k with
    | None => m
    | Some x => if kp_refcount x - 1 =? 0 then delete k m else <[k := x <| kp_refcount := kp_refcount x - 1 |>]> m
    end
  end.

Definition put_table (o : option nat) (m : gmap nat noise_keypair) (T : index_hashtable) : index_hashtable :=
  match o with
  | None => T
  | Some k =>
    let T := wg_index_hashtable_remove T (kp_entry k) in
    if bool_decide (put_keypairs o m !! k = None)
    then (wg_index_hashtable_remove T (kp_entry k)) <| ih_nodes ::= delete (kp_entry k) |> else T
  end.

Definition referenced (m : gmap nat noise_keypair) (o : option nat) : Prop :=
  ∀ k, o = Some k → ∃ x, m !! k = Some x ∧ 1 <= kp_refcount x.

Lemma keypair_put_run o w :
  referenced (w_keypairs w) o →
  wg_noise_keypair_put o true w =
    Some (tt, w <| w_keypairs := put_keypairs o (w_keypairs w) |>
                <| w_index_hashtable := put_table o (w_keypairs w) (w_index_hashtable w) |>).
Proof.
  intros Hr. destruct o as [k|]; [|by destruct w].
  destruct (Hr k eq_refl) as (x & Hx & Hge). unfold put_table, put_keypairs. rewrite Hx.
  unfold wg_noise_keypair_put, when. erewrite bind_run by done.
  erewrite bind_run by (unfold get_keypair; cbn; rewrite Hx; done).
  destruct (Z.leb_spec (kp_refcount x) 0); [lia|].
  erewrite bind_run by (unfold set_keypair; cbn; rewrite Hx; done).
  destruct (Z.eqb_spec (kp_refcount x - 1) 0).
  - rewrite lookup_delete_eq, bool_decide_true by done.
    unfold keypair_free_kref, keypair_free_rcu. erewrite bind_run by done. erewrite bind_run by done.
    rewrite <- (delete_insert_eq (w_keypairs w) k (x <| kp_refcount := kp_refcount x - 1 |>)). done.
  - rewrite lookup_insert_eq, bool_decide_false by done. done.
Qed.

(** The slots after a new keypair came in, and the two references that are given up. *)
Definition rotate (initiator : bool) (new : nat) (ks : noise_keypairs) : noise_keypairs * option nat * option nat :=
  match initiator, next_keypair ks with
  | true, Some n => (mk_keypairs (Some new) (Some n) None, current_keypair ks, previous_keypair ks)
  | true, None => (mk_keypairs (Some new) (current_keypair ks) None, None, previous_keypair ks)
  | false, n => (mk_keypairs (current_keypair ks) None (Some new), n, previous_keypair ks)
  end.

Definition slots (ks : noise_keypairs) : list nat :=
  option_list (current_keypair ks) ++ option_list (previous_keypair ks) ++ option_list (next_keypair ks).

(** A keypair is in one slot, and the slot's reference is counted. *)
Record slots_ok (w : world) (ks : noise_keypairs) : Prop := {
  so_nodup : NoDup (slots ks);
  so_live k : k ∈ slots ks → ∃ x, w_keypairs w !! k = Some x ∧ 1 <= kp_refcount x;
}.

Lemma put_keypairs_ne o m k : o ≠ Some k → put_keypairs o m !! k = m !! k.
Proof.
  intros Hne. destruct o as [j|]; [|done]. cbn. destruct (m !! j); [|done]. assert (j ≠ k) by congruence.
  case_match; [by apply lookup_delete_ne|by apply lookup_insert_ne].
Qed.

Lemma referenced_put o o' m : referenced m o' → (∀ k, o = Some k → o' ≠ Some k) → referenced (put_keypairs o m) o'.
Proof.
  intros Hr Hne k ->. destruct (Hr k eq_refl) as (x & Hx & Hge). exists x. split; [|done].
  rewrite put_keypairs_ne; [done|]. intros ->. by apply (Hne k).
Qed.

(** The world with other slots of [p], keypairs and index table. *)
Definition at_k (w : world) (p : nat) (x : wg_peer) (ks : noise_keypairs) (m : gmap nat noise_keypair)
    (T : index_hashtable) : world :=
  w <| w_peers := <[p := x <| keypairs := ks |>]> (w_peers w) |> <| w_keypairs := m |> <| w_index_hashtable := T |>.

Lemma at_k_peer w p x ks m T : w_peers (at_k w p x ks m T) !! p = Some (x <| keypairs := ks |>).
Proof. unfold at_k. cbn. by rewrite lookup_insert_eq. Qed.

Lemma set_keypairs_start p f w x :
  w_peers w !! p = Some x →
  set_keypairs p f w = Some (tt, at_k w p x (f (keypairs x)) (w_keypairs w) (w_index_hashtable w)).
Proof. intros Hx. unfold set_keypairs. by rewrite (set_peer_run _ _ _ _ Hx). Qed.

Lemma set_keypairs_at p f w x ks m T :
  set_keypairs p f (at_k w p x ks m T) = Some (tt, at_k w p x (f ks) m T).
Proof.
  unfold set_keypairs. rewrite (set_peer_run _ _ _ _ (at_k_peer w p x ks m T)). do 2 f_equal.
  unfold at_k. rewrite <- (insert_insert_eq (w_peers w) p (x <| keypairs := f ks |>) (x <| keypairs := ks |>)). done.
Qed.

Lemma keypair_put_at o w p x ks m T :
  referenced m o →
  wg_noise_keypair_put o true (at_k w p x ks m T) = Some (tt, at_k w p x ks (put_keypairs o m) (put_table o m T)).
Proof. intros Hr. rewrite keypair_put_run; [done|exact Hr]. Qed.

Lemma slot_distinct ks :
  NoDup (slots ks) →
  (∀ k, current_keypair ks = Some k → previous_keypair ks ≠ Some k) ∧
  (∀ k, next_keypair ks = Some k → previous_keypair ks ≠ Some k) ∧
  (∀ k, current_keypair ks = Some k → next_keypair ks ≠ Some k).
Proof.
  unfold slots. intros Hn.
  destruct (current_keypair ks), (previous_keypair ks), (next_keypair ks); cbn in Hn; rewrite ?NoDup_cons in Hn;
    set_solver.
Qed.

Lemma slots_referenced w ks : slots_ok w ks →
  referenced (w_keypairs w) (current_keypair ks) ∧ referenced (w_keypairs w) (previous_keypair ks) ∧
  referenced (w_keypairs w) (next_keypair ks).
Proof.
  intros [_ Hl]. unfold referenced, slots in *. split_and!; intros k E; apply Hl; rewrite E; set_solver.
Qed.

Lemma add_new_keypair_run p k w x kp :
  w_peers w !! p = Some x → slots_ok w (keypairs x) → w_keypairs w !! k = Some kp →
  let '(ks, a, b) := rotate (kp_i_am_the_initiator kp) k (keypairs x) in
  let m := put_keypairs a (w_keypairs w) in
  add_new_keypair p k w =
    Some (tt, at_k w p x ks (put_keypairs b m) (put_table b m (put_table a (w_keypairs w) (w_index_hashtable w)))).
Proof.
  intros Hx Hok Hk. destruct (slot_distinct _ (so_nodup _ _ Hok)) as (Hcp & Hnp & Hcn).
  destruct (slots_referenced _ _ Hok) as (Hc & Hp & Hn).
  unfold add_new_keypair, rotate. erewrite bind_run by (by apply get_peer_run).
  erewrite bind_run by (unfold get_keypair; rewrite Hk; done).
  destruct (kp_i_am_the_initiator kp); [destruct (next_keypair (keypairs x)) as [n|] eqn:En|].
  - erewrite (bind_run (_ ≫= _)).
    2: { erewrite bind_run by (by apply set_keypairs_start). by apply keypair_put_at. }
    erewrite bind_run by (apply keypair_put_at; by apply referenced_put).
    rewrite set_keypairs_at. done.
  - erewrite bind_run by (by apply set_keypairs_start). erewrite bind_run by (by apply keypair_put_at).
    rewrite set_keypairs_at. rewrite <- En at 1. done.
  - erewrite bind_run by (by apply set_keypairs_start). erewrite bind_run by (by apply keypair_put_at).
    erewrite bind_run by apply set_keypairs_at. rewrite keypair_put_at; [done|by apply referenced_put].
Qed.

Lemma put_table_lists o m T e :
  hashed (ih_lists (put_table o m T)) e ↔ hashed (ih_lists T) e ∧ kp_entry <$> o ≠ Some e.
Proof.
  destruct o as [k|]; [|cbn; naive_solver].
  assert (kp_entry <$> Some k ≠ Some e ↔ e ≠ kp_entry k) as -> by (cbn [fmap option_fmap option_map]; split; congruence).
  unfold put_table. case_bool_decide; cbn; rewrite ?hashed_del; tauto.
Qed.

Lemma put_table_node o m T e : kp_entry <$> o ≠ Some e → ih_nodes (put_table o m T) !! e = ih_nodes T !! e.
Proof.
  destruct o as [k|]; [|done]. intros Hne. unfold put_table. case_bool_decide; [|done].
  cbn. apply lookup_delete_ne. cbn in Hne. congruence.
Qed.

Lemma put_table_ok o m T : index_ok T → index_ok (put_table o m T).
Proof.
  intros Hok. destruct o as [k|]; [|done]. unfold put_table. pose proof (index_ok_del T (kp_entry k) Hok) as Hok1.
  case_bool_decide; [|exact Hok1]. pose proof (index_ok_del _ (kp_entry k) Hok1) as Hok2.
  eapply index_ok_nodes; [exact Hok2|done|]. intros e He. unfold node_index. cbn. rewrite lookup_delete_ne; [done|].
  intros <-. apply hashed_del in He. by destruct He.
Qed.

Lemma put_table_maps o m T i e : kp_entry <$> o ≠ Some e → index_maps T i e → index_maps (put_table o m T) i e.
Proof.
  intros Hne [Hh Hi]. split; [by apply put_table_lists|]. unfold node_index in *. by rewrite put_table_node.
Qed.

Lemma keypair_create_run p w bs :
  w_alloc_fails w = [] ∧ bs = [] ∨ w_alloc_fails w = false :: bs →
  let k := fresh (dom (w_keypairs w)) in
  keypair_create p w = Some (Some k, w <| w_alloc_fails := bs |> <| w_keypair_counter := w_keypair_counter w + 1 |>
    <| w_keypairs ::= <[k := mk_keypair zeroed_key 0 zeroed_key counter_init 0 false 1 (w_keypair_counter w + 1)]> |>
    <| w_index_hashtable ::= fun T => T <| ih_nodes ::= <[kp_entry k := mk_index_entry (Some p) INDEX_HASHTABLE_KEYPAIR 0]> |> |>).
Proof.
  intros Hal k. unfold keypair_create.
  erewrite bind_run; [|instantiate (1 := w <| w_alloc_fails := bs |>); instantiate (1 := true)].
  - done.
  - unfold alloc_ok. destruct Hal as [[E ->]|E]; rewrite E; [|done]. rewrite <- E. by destruct w.
Qed.

(** A peer whose handshake is over: alive, hashed under [i], its slots in order, memory for a keypair. *)
Record session_ready (w : world) (p : nat) (x : wg_peer) (i : Z) : Prop := {
  sr_peer : w_peers w !! p = Some x;
  sr_alive : is_dead x = false;
  sr_slots : slots_ok w (keypairs x);
  sr_alloc : head (w_alloc_fails w) ≠ Some true;
  sr_index : index_ok (w_index_hashtable w);
  sr_hashed : index_maps (w_index_hashtable w) i (hs_entry p);
  sr_entries k : is_Some (ih_nodes (w_index_hashtable w) !! kp_entry k) → is_Some (w_keypairs w !! k);
}.

Definition session_keypair (w : world) (initiator : bool) (h : noise_handshake) : noise_keypair :=
  let '(first, second) := derive_keys (w_now w) (hs_chaining_key h) in
  mk_keypair (if initiator then first else second) 0 (if initiator then second else first) counter_init
    (hs_remote_index h) initiator 1 (w_keypair_counter w + 1).

Lemma hs_kp_entry p k : hs_entry p ≠ kp_entry k.
Proof. unfold hs_entry, kp_entry. lia. Qed.

(** Allocating the entry of a keypair that is not there. *)
Lemma entry_alloc_ok T e n : index_ok T → ih_nodes T !! e = None →
  index_ok (T <| ih_nodes ::= <[e := n]> |>) ∧ ¬ hashed (ih_lists T) e ∧
  ∀ i y, y ≠ e → index_maps T i y → index_maps (T <| ih_nodes ::= <[e := n]> |>) i y.
Proof.
  intros Hok Hn. assert (¬ hashed (ih_lists T) e) as Hh.
  { intros Hh. destruct (index_ok_node T e Hok Hh). congruence. }
  split_and!; [|done|].
  - eapply index_ok_nodes; [exact Hok|done|]. intros y Hy. unfold node_index. cbn. rewrite lookup_insert_ne; [done|congruence].
  - intros i y Hne [H1 H2]. split; [done|]. unfold node_index in *. cbn. by rewrite lookup_insert_ne.
Qed.

Lemma rotate_gone initiator k ks :
  (rotate initiator k ks).1.2 ∈ [None; current_keypair ks; next_keypair ks] ∧
  (rotate initiator k ks).2 = previous_keypair ks.
Proof. unfold rotate. destruct initiator, (next_keypair ks); cbn; set_solver. Qed.

Lemma rotate_keeps initiator k ks :
  k ∉ slots ks → (rotate initiator k ks).1.2 ≠ Some k ∧ (rotate initiator k ks).2 ≠ Some k.
Proof.
  unfold slots, rotate. intros Hk. destruct initiator, (next_keypair ks) eqn:En, (current_keypair ks), (previous_keypair ks);
    cbn in *; set_solver.
Qed.

Lemma kp_entry_inj (o : option nat) k : o ≠ Some k → kp_entry <$> o ≠ Some (kp_entry k).
Proof. destruct o as [j|]; [|done]. cbn. unfold kp_entry. intros ? [= ?]. assert (j = k) by lia. congruence. Qed.

Lemma kp_entry_hs (o : option nat) p : kp_entry <$> o ≠ Some (hs_entry p).
Proof. destruct o as [j|]; [|done]. cbn. intros [= E]. by apply (hs_kp_entry p j). Qed.

(** A new keypair takes its slot and the handshake's index. *)
Lemma install_keypair_run w p x k kp i :
  w_peers w !! p = Some x → slots_ok w (keypairs x) → w_keypairs w !! k = Some kp → k ∉ slots (keypairs x) →
  index_ok (w_index_hashtable w) → index_maps (w_index_hashtable w) i (hs_entry p) →
  is_Some (ih_nodes (w_index_hashtable w) !! kp_entry k) → ¬ hashed (ih_lists (w_index_hashtable w)) (kp_entry k) →
  ∃ w', (add_new_keypair p k ≫= fun _ => index_replace (hs_entry p) (kp_entry k)) w = Some (true, w') ∧
    w_peers w' !! p = Some (x <| keypairs := (rotate (kp_i_am_the_initiator kp) k (keypairs x)).1.1 |>) ∧
    w_keypairs w' !! k = Some kp ∧
    index_maps (w_index_hashtable w') i (kp_entry k) ∧ ¬ hashed (ih_lists (w_index_hashtable w')) (hs_entry p).
Proof.
  intros Hx Hs Hk Hns Hok Hi Hn Hnh.
  pose proof (add_new_keypair_run p k w x kp Hx Hs Hk) as Ha.
  pose proof (rotate_keeps (kp_i_am_the_initiator kp) k (keypairs x) Hns) as Hr.
  destruct (rotate _ k (keypairs x)) as [[ks a] b]. cbn [fst snd] in Hr. destruct Hr as [Hra Hrb]. cbn zeta in Ha.
  erewrite bind_run by exact Ha. clear Ha.
  set (m := put_keypairs a (w_keypairs w)). set (T := put_table b m (put_table a (w_keypairs w) (w_index_hashtable w))).
  assert (index_ok T) as HokT by by do 2 apply put_table_ok.
  assert (index_maps T i (hs_entry p)) as HiT by (do 2 (apply put_table_maps; [apply kp_entry_hs|]); done).
  assert (is_Some (ih_nodes T !! kp_entry k)) as HnT.
  { unfold T. by rewrite !put_table_node by (by apply kp_entry_inj). }
  assert (¬ hashed (ih_lists T) (kp_entry k)) as HnhT by (unfold T; rewrite !put_table_lists; tauto).
  pose proof (replace_maps T (hs_entry p) (kp_entry k) HokT HnT HnhT) as Hrep.
  pose proof (index_ok_replace T (hs_entry p) (kp_entry k) HokT HnhT HnT) as HokT'.
  unfold index_replace. change (w_index_hashtable (at_k w p x ks (put_keypairs b m) T)) with T.
  destruct (wg_index_hashtable_replace T (hs_entry p) (kp_entry k)) as [T' ret]. destruct Hrep as [Hret Hmaps].
  assert (ret = true) as -> by (apply Hret, HiT).
  eexists. split; [done|]. split; [exact (at_k_peer w p x ks (put_keypairs b m) T)|].
  split; [|split].
  - change (put_keypairs b m !! k = Some kp). unfold m. by rewrite !put_keypairs_ne.
  - apply Hmaps. left. done.
  - intros Hh. destruct (index_ok_node T' _ HokT' Hh) as [n En].
    assert (index_maps T' (ie_index n) (hs_entry p)) as [[E _]|[? _]]%Hmaps; [|by apply (hs_kp_entry p k)|done].
    split; [exact Hh|]. unfold node_index. by rewrite En.
Qed.

Lemma begin_session_run w p x i (initiator : bool) :
  session_ready w p x i →
  hs_state (handshake x) = (if initiator then HANDSHAKE_CONSUMED_RESPONSE else HANDSHAKE_CREATED_RESPONSE) →
  let k := fresh (dom (w_keypairs w)) in
  ∃ w' y, wg_noise_handshake_begin_session p w = Some (true, w') ∧ w_peers w' !! p = Some y ∧
    handshake y = handshake_zero (handshake x) ∧ keypairs y = (rotate initiator k (keypairs x)).1.1 ∧
    w_keypairs w' !! k = Some (session_keypair w initiator (handshake x)) ∧
    index_maps (w_index_hashtable w') i (kp_entry k) ∧ ¬ hashed (ih_lists (w_index_hashtable w')) (hs_entry p).
Proof.
  intros [Hx Hd Hs Hal Hok Hi Hen] Hst k.
  assert (w_keypairs w !! k = None) as Hfr by (apply not_elem_of_dom, is_fresh).
  unfold wg_noise_handshake_begin_session. erewrite bind_run by (by apply get_peer_run).
  erewrite bind_run by done.
  assert ((negb (bool_decide (hs_state (handshake x) = HANDSHAKE_CREATED_RESPONSE)) &&
     negb (bool_decide (hs_state (handshake x) = HANDSHAKE_CONSUMED_RESPONSE))) = false) as ->
    by (rewrite Hst; by destruct initiator).
  assert (bool_decide (hs_state (handshake x) = HANDSHAKE_CONSUMED_RESPONSE) = initiator) as ->
    by (rewrite Hst; by destruct initiator).
  erewrite bind_run by (eapply (keypair_create_run p w (tail (w_alloc_fails w)));
    destruct (w_alloc_fails w) as [|[] bs]; [by left|done|by right]).
  cbv beta iota. fold k.
  destruct (derive_keys (w_now w) (hs_chaining_key (handshake x))) as [first second] eqn:Ek.
  match goal with |- context [?m (w <| w_alloc_fails := _ |> <| w_keypair_counter := _ |> <| w_keypairs ::= ?f |> <| w_index_hashtable ::= ?g |>)] =>
    set (T1 := g (w_index_hashtable w)); set (m1 := f (w_keypairs w)); set (w1 := w <| w_alloc_fails := _ |> <| w_keypair_counter := _ |> <| w_keypairs ::= f |> <| w_index_hashtable ::= g |>) end.
  assert (ih_nodes (w_index_hashtable w) !! kp_entry k = None) as Hne.
  { apply eq_None_not_Some. intros [? E]%Hen. congruence. }
  destruct (entry_alloc_ok _ _ (mk_index_entry (Some p) INDEX_HASHTABLE_KEYPAIR 0) Hok Hne) as (Hok1 & Hnh & Hmaps).
  erewrite bind_run by (unfold set_keypair; change (w_keypairs w1) with m1; unfold m1; rewrite lookup_insert_eq; done).
  erewrite bind_run by (unfold set_handshake; apply set_peer_run; exact Hx). rewrite Hd. cbn [negb].
  match goal with |- context [(add_new_keypair p k ≫= _) ?v] => set (w2 := v) end.
  assert (w_keypairs w2 !! k = Some (session_keypair w initiator (handshake x))) as Hk2.
  { unfold session_keypair. rewrite Ek. apply lookup_insert_eq. }
  assert (kp_i_am_the_initiator (session_keypair w initiator (handshake x)) = initiator) as Ei.
  { unfold session_keypair. by rewrite Ek. }
  assert (slots_ok w2 (keypairs x)) as Hs2.
  { split; [apply Hs|]. intros j Hj. destruct (so_live _ _ Hs j Hj) as (y & Hy & Hge). exists y. split; [|done].
    assert (k ≠ j) as Hkj by congruence. eapply eq_trans; [apply (lookup_insert_ne m1 k j _ Hkj)|].
    unfold m1. by rewrite lookup_insert_ne. }
  assert (k ∉ slots (keypairs x)) as Hkn by (intros Hj; destruct (so_live _ _ Hs k Hj) as (? & ? & _); congruence).
  destruct (install_keypair_run w2 p (x <| handshake ::= handshake_zero |>) k _ i (lookup_insert_eq _ _ _) Hs2 Hk2 Hkn Hok1)
    as (w' & Hr & Hp & Hkp & Hix & Hnx); [apply Hmaps; [apply hs_kp_entry|done]|eexists; apply lookup_insert_eq|exact Hnh|].
  exists w', (x <| handshake ::= handshake_zero |> <| keypairs := (rotate initiator k (keypairs x)).1.1 |>).
  rewrite Ei in Hp. done.
Qed.


(** ** Rotation *)

Lemma put_keypairs_eq k m x :
  m !! k = Some x →
  put_keypairs (Some k) m !! k = if kp_refcount x =? 1 then None else Some (x <| kp_refcount := kp_refcount x - 1 |>).
Proof.
  intros Hx. unfold put_keypairs. rewrite Hx. destruct (Z.eqb_spec (kp_refcount x - 1) 0), (Z.eqb_spec (kp_refcount x) 1);
    try lia; [apply lookup_delete_eq|apply lookup_insert_eq].
Qed.

(** What becomes of the keypairs when the slots change from [ks] to [ks']: one that leaves loses the slot's
    reference and can no longer be found, and is freed if that was the last; the others stay. *)
Definition released (w w' : world) (ks ks' : noise_keypairs) : Prop :=
  (∀ k x, k ∈ slots ks → k ∉ slots ks' → w_keypairs w !! k = Some x →
     w_keypairs w' !! k = (if kp_refcount x =? 1 then None else Some (x <| kp_refcount := kp_refcount x - 1 |>)) ∧
     ¬ hashed (ih_lists (w_index_hashtable w')) (kp_entry k)) ∧
  (∀ k, k ∉ slots ks ∨ k ∈ slots ks' → w_keypairs w' !! k = w_keypairs w !! k).

Lemma put_released w p x ks ks' a b :
  let m := put_keypairs a (w_keypairs w) in
  (∀ k, a = Some k → b ≠ Some k) →
  (∀ k, a = Some k ∨ b = Some k ↔ k ∈ slots ks ∧ k ∉ slots ks') →
  released w (at_k w p x ks' (put_keypairs b m) (put_table b m (put_table a (w_keypairs w) (w_index_hashtable w)))) ks ks'.
Proof.
  intros m Hab Hg. split.
  - intros k y Hk Hk' Hy. destruct (proj2 (Hg k) (conj Hk Hk')) as [-> | ->].
    + split.
      * change (put_keypairs b m !! k = if kp_refcount y =? 1 then None else Some (y <| kp_refcount := kp_refcount y - 1 |>)).
        rewrite put_keypairs_ne by (by apply Hab). by apply put_keypairs_eq.
      * change (¬ hashed (ih_lists (put_table b m (put_table (Some k) (w_keypairs w) (w_index_hashtable w)))) (kp_entry k)).
        rewrite !put_table_lists. cbn. tauto.
    + split.
      * change (put_keypairs (Some k) m !! k = if kp_refcount y =? 1 then None else Some (y <| kp_refcount := kp_refcount y - 1 |>)).
        apply put_keypairs_eq. unfold m. rewrite put_keypairs_ne; [done|]. intros E. by apply (Hab k E).
      * change (¬ hashed (ih_lists (put_table (Some k) m (put_table a (w_keypairs w) (w_index_hashtable w)))) (kp_entry k)).
        rewrite !put_table_lists. cbn. tauto.
  - intros k Hk. change (put_keypairs b m !! k = w_keypairs w !! k). unfold m.
    assert (a ≠ Some k ∧ b ≠ Some k) as [Ha Hb] by (pose proof (Hg k); tauto).
    by rewrite !put_keypairs_ne.
Qed.

Lemma slots_ok_released w w' ks ks' :
  released w w' ks ks' → NoDup (slots ks') →
  (∀ k, k ∈ slots ks' → ∃ x, w_keypairs w !! k = Some x ∧ 1 <= kp_refcount x) → slots_ok w' ks'.
Proof. intros [_ Hr] Hn Hl. split; [done|]. intros k Hk. rewrite Hr by (by right). by apply Hl. Qed.

(** Case analysis on the three slots. *)
Ltac slot_cases ks := unfold slots, rotate in *; destruct ks as [[?|] [?|] [?|]]; cbn in *; simplify_eq;
  rewrite ?NoDup_cons in *; set_solver.

Lemma rotate_slots initiator k ks :
  NoDup (slots ks) → k ∉ slots ks →
  let '(ks', a, b) := rotate initiator k ks in
  NoDup (slots ks') ∧ (∀ j, j ∈ slots ks' → j = k ∨ j ∈ slots ks) ∧ (∀ j, a = Some j → b ≠ Some j) ∧
  ∀ j, a = Some j ∨ b = Some j ↔ j ∈ slots ks ∧ j ∉ slots ks'.
Proof. intros Hn Hk. destruct initiator; slot_cases ks. Qed.

Lemma received_run w p x k :
  w_peers w !! p = Some x → slots_ok w (keypairs x) → next_keypair (keypairs x) = Some k →
  let old := previous_keypair (keypairs x) in
  wg_noise_received_with_keypair p (Some k) w =
    Some (true, at_k w p x (mk_keypairs (Some k) (current_keypair (keypairs x)) None) (put_keypairs old (w_keypairs w))
                  (put_table old (w_keypairs w) (w_index_hashtable w))).
Proof.
  intros Hx Hs Hn old. destruct (slots_referenced _ _ Hs) as (_ & Hp & _).
  unfold wg_noise_received_with_keypair. erewrite bind_run by (by apply get_peer_run).
  rewrite Hn, bool_decide_true by done. cbn [negb].
  erewrite bind_run by (by apply set_keypairs_start). erewrite bind_run by (by apply keypair_put_at).
  by erewrite bind_run by apply set_keypairs_at.
Qed.


(** ** Replays and floods *)

Lemma set_handshake_hs p f w u w' :
  set_handshake p f w = Some (u, w') → ∃ h, hs_of w p = Some h ∧ hs_of w' p = Some (f h).
Proof.
  intros Hr. unfold set_handshake in Hr. apply set_peer_inv in Hr as (x & Hx & ->). exists (handshake x).
  unfold hs_of. cbn. by rewrite Hx, lookup_insert_eq.
Qed.

Lemma pubkey_lookup_inv `{SipHash} key w o w' :
  pubkey_lookup key w = Some (o, w') → w_peers w' = w_peers w ∧ w_now w' = w_now w.
Proof. unfold pubkey_lookup. intros Hr. case_match. by simplify_eq. Qed.

(** What an accepted initiation was. *)
Lemma consume_initiation_inv `{SipHash} src w p w' :
  wg_noise_handshake_consume_initiation src w = Some (Some p, w') →
  ∃ h ck0 h0 s ck hash t, hs_of w p = Some h ∧ open_initiation (w_static_identity w) src = Some (ck0, h0, s) ∧
    open_timestamp h ck0 h0 src = Some (ck, hash, t) ∧ replay_attack h t = false ∧ flood_attack h (w_now w) = false ∧
    hs_of w' p = Some (accept_initiation (w_now w) src ck hash t h).
Proof.
  intros Hr. unfold wg_noise_handshake_consume_initiation, ktime_get_coarse_boottime_ns in Hr. minv Hr. minv Hr.
  destruct (has_identity (w_static_identity w)); cbn [negb] in Hr; [|by minv Hr].
  destruct (open_initiation (w_static_identity w) src) as [[[ck0 h0] s]|]; [|by minv Hr].
  apply bind_inv in Hr as (o & w1 & Hl & Hr). apply pubkey_lookup_inv in Hl as [Hl _].
  destruct o as [q|]; [|by minv Hr]. minv Hr. rewrite Hl in Ep.
  destruct (open_timestamp (handshake _) ck0 h0 src) as [[[ck hash] t]|] eqn:Et;
    [|apply bind_inv in Hr as (? & ? & _ & Hr); by apply ret_inv in Hr as [? _]].
  destruct (replay_attack (handshake _) t) eqn:Era; [apply bind_inv in Hr as (? & ? & _ & Hr); by apply ret_inv in Hr as [? _]|].
  destruct (flood_attack (handshake _) (w_now w)) eqn:Efl; [apply bind_inv in Hr as (? & ? & _ & Hr); by apply ret_inv in Hr as [? _]|].
  cbn [orb] in Hr. apply bind_inv in Hr as (u & w2 & Hset & Hr). apply ret_inv in Hr as [[= ->] ->].
  destruct (set_handshake_hs _ _ _ _ _ Hset) as (h & Hh & Hh'). unfold hs_of in Hh. rewrite Hl, Ep in Hh. cbn in Hh. injection Hh as <-.
  eexists _, ck0, h0, s, ck, hash, t. split_and!; try done. unfold hs_of. by rewrite Ep.
Qed.


Lemma accept_initiation_last now src ck hash t h :
  - 2 ^ 63 <= hs_last_initiation_consumption h - now < 0 →
  hs_last_initiation_consumption (accept_initiation now src ck hash t h) = now.
Proof.
  intros Hl. unfold accept_initiation.
  assert (∀ h', hs_last_initiation_consumption h' = hs_last_initiation_consumption h →
    s64 (u64 (hs_last_initiation_consumption h' - now)) <? 0 = true) as Hlt.
  { intros h' ->. rewrite sgn_wrap by lia. lia. }
  match goal with |- context [s64 (u64 (hs_last_initiation_consumption ?h' - now)) <? 0] =>
    rewrite (Hlt h') by (cbn; by case_match) end. done.
Qed.


(** ** Key derivation *)

Lemma length_hmac input key : length (hmac input key) = BLAKE2S_HASH_SIZE.
Proof. apply blake2s_length. Qed.

(** [kdf] is HKDF of RFC 5869 over BLAKE2s: extract with the chaining key as
    salt, then the first one, two or three output blocks, each cut to its length. *)
Theorem kdf_is_hkdf (first second third : nat) data chaining_key :
  (length chaining_key <= BLAKE2S_BLOCK_SIZE)%nat →
  let prk := rfc2104_hmac data chaining_key in
  let T := hkdf_blocks 3 1 prk [] in
  kdf (Some first) None None data chaining_key = (take first (T !!! 0%nat), [], []) ∧
  kdf (Some first) (Some second) None data chaining_key = (take first (T !!! 0%nat), take second (T !!! 1%nat), []) ∧
  kdf (Some first) (Some second) (Some third) data chaining_key =
    (take first (T !!! 0%nat), take second (T !!! 1%nat), take third (T !!! 2%nat)).
Proof.
  intros Hl. cbn. unfold kdf. rewrite (hmac_is_rfc2104 data chaining_key Hl).
  assert (∀ input, hmac input (rfc2104_hmac data chaining_key) = rfc2104_hmac input (rfc2104_hmac data chaining_key)) as Hh.
  { intros input. apply hmac_is_rfc2104. unfold rfc2104_hmac. rewrite blake2s_length. unfold BLAKE2S_BLOCK_SIZE, BLAKE2S_HASH_SIZE. lia. }
  by rewrite !Hh.
Qed.
End Proofs.

(** ** Timestamps *)

(** [rounddown_pow_of_two(NSEC_PER_SEC / INITIATIONS_PER_SECOND)]. *)
Definition tai_quantum : Z := 16777216.

Lemma tai64n_value s n :
  0 <= s < 2 ^ 62 → 0 <= n < NSEC_PER_SEC →
  be_combine (tai64n_now (s, n)) = 2 ^ 32 * (4611686018427387914 + s) + n / tai_quantum * tai_quantum.
Proof.
  intros Hs Hn. unfold tai64n_now, be_combine, be_split. cbn [fst snd].
  change (rounddown_pow_of_two (NSEC_PER_SEC / INITIATIONS_PER_SECOND)) with tai_quantum.
  rewrite reverse_app, !reverse_involutive, le_combine_app, !le_combine_split, length_le_split.
  rewrite wrap_id by (unfold fits; lia). unfold tai_quantum, NSEC_PER_SEC in *.
  pose proof (Z.div_mod n 16777216 ltac:(lia)). pose proof (Z.mod_pos_bound n 16777216 ltac:(lia)).
  change (8 * Z.of_nat 4) with 32. change (8 * Z.of_nat 8) with 64. rewrite !Z.mod_small by lia. lia.
Qed.

(** The timestamps sent order like the clock, and two readings of it 2^24 ns
    apart or more always give different timestamps. *)
Theorem tai64n_monotone s1 n1 s2 n2 :
  0 <= s1 < 2 ^ 62 → 0 <= s2 < 2 ^ 62 → 0 <= n1 < NSEC_PER_SEC → 0 <= n2 < NSEC_PER_SEC →
  let t1 := s1 * NSEC_PER_SEC + n1 in
  let t2 := s2 * NSEC_PER_SEC + n2 in
  (t1 <= t2 → memcmp_le (tai64n_now (s1, n1)) (tai64n_now (s2, n2)) = true) ∧
  (t1 + tai_quantum <= t2 → memcmp_le (tai64n_now (s2, n2)) (tai64n_now (s1, n1)) = false).
Proof.
  intros Hs1 Hs2 Hn1 Hn2 t1 t2. unfold memcmp_le. rewrite !tai64n_value by done.
  unfold t1, t2, NSEC_PER_SEC, tai_quantum in *.
  pose proof (Z.div_mod n1 16777216 ltac:(lia)). pose proof (Z.mod_pos_bound n1 16777216 ltac:(lia)).
  pose proof (Z.div_mod n2 16777216 ltac:(lia)). pose proof (Z.mod_pos_bound n2 16777216 ltac:(lia)).
  split; intros Ht; [apply Z.leb_le|apply Z.leb_gt].
  - destruct (decide (s1 = s2)) as [->|]; [|lia].
    assert (n1 / 16777216 <= n2 / 16777216) by (apply Z.div_le_mono; lia). lia.
  - destruct (decide (s1 = s2)) as [->|]; lia.
Qed.
