(* ===== verification/Demo.v ===== *)
(** * Two concrete devices

    A toy instance of the interfaces [Crypto] and [SipHash] that satisfies
    [CryptoOk], and two devices [demo_a] and [demo_b] that know each other's keys.
    The theorems of NoiseProofs.v are applied to them. *)
From S2P Require Import Prelude Messages Counter PeerLookup AllowedIPs Ratelimiter World Noise NoiseProofs.

(** A public key is its private key; a shared secret depends on both; a hash is a
    checksum; a sealed text carries a tag that depends on key, nonce and
    additional data. *)
Definition toy_sum (l : bytes) : Z := foldr Z.add 0 l mod 251.
Definition toy_tag (ad nonce key : bytes) : bytes := replicate 16 (toy_sum (ad ++ nonce ++ key)).
Definition toy_seal (m ad nonce key : bytes) : bytes := m ++ toy_tag ad nonce key.
Definition toy_open (c ad nonce key : bytes) : option bytes :=
  let n := (length c - 16)%nat in
  if bool_decide (drop n c = toy_tag ad nonce key) then Some (take n c) else None.

#[export] Instance toy_crypto : Crypto := {|
  blake2s n k d := replicate n (toy_sum (k ++ d));
  curve25519 a b := Some (1 + toy_sum a + toy_sum b :: zeros 31);
  curve25519_generate_public a := Some a;
  curve25519_clamp_secret a := a;
  chacha20poly1305_encrypt m ad n k := toy_seal m ad [n] k;
  chacha20poly1305_decrypt c ad n k := toy_open c ad [n] k;
  xchacha20poly1305_encrypt m ad n k := toy_seal m ad n k;
  xchacha20poly1305_decrypt c ad n k := toy_open c ad n k;
|}.

Lemma toy_open_seal m ad n k : toy_open (toy_seal m ad n k) ad n k = Some m.
Proof.
  unfold toy_open, toy_seal. rewrite length_app. unfold toy_tag. rewrite length_replicate.
  replace (length m + 16 - 16)%nat with (length m) by lia. rewrite drop_app_length, take_app_length.
  by rewrite bool_decide_true.
Qed.

Lemma toy_sum_nonneg l : 0 <= toy_sum l.
Proof. apply Z.mod_pos_bound. lia. Qed.

#[export] Instance toy_crypto_ok : CryptoOk.
Proof.
  split; cbn.
  - intros a b A B [= <-] [= <-]. do 2 f_equal. lia.
  - intros a b r [= <-]. cbn. pose proof (toy_sum_nonneg a). pose proof (toy_sum_nonneg b). intros [= E]. lia.
  - done.
  - intros. apply toy_open_seal.
  - intros. unfold toy_seal. rewrite length_app. done.
  - intros. apply length_replicate.
  - intros. apply toy_open_seal.
  - intros. unfold toy_seal. rewrite length_app. done.
Qed.

#[export] Instance toy_siphash : SipHash := fun l k => toy_sum l + k.

(** ** The devices *)

Definition demo_key (c : Z) : bytes := c :: zeros 31.
Definition demo_psk : bytes := demo_key 99.

Definition demo_handshake (own other : Z) : noise_handshake :=
  (zeroed_handshake (demo_key other) demo_psk)
    <| hs_precomputed_static_static := default [] (curve25519 (demo_key own) (demo_key other)) |>.

Definition demo_cookie : cookie := mk_cookie 0 false (zeros COOKIE_LEN) false (zeros COOKIE_LEN) (zeros 32) (zeros 32).

Definition demo_peer (h : noise_handshake) : wg_peer :=
  mk_peer (mk_fifo [] None) (mk_fifo [] None) [] false (mk_keypairs None None None) (mk_endpoint (AF_INET [192; 0; 2; 1] 51820) (zeros 16)) None h 0
    demo_cookie 0 0 (mk_timers None None None None None) 0 0 false false (0, 0) 1.

(** Peer 0 of a device, hashed under its key and waiting for an index. *)
Definition demo_world (own other : Z) : world :=
  let x := demo_peer (demo_handshake own other) in
  mk_world (10 * NSEC_PER_SEC) 5000 (1700000000, 123456789) (seqZ 3 400) [] true 1420 1
    (mk_stats 0 0 0 0 0 0 0) [] []
    (mk_static_identity (demo_key own) (demo_key own) true)
    (mk_cookie_checker (demo_key 7) (zeros 32) (zeros 32) 0)
    (mk_index_hashtable ∅ {[hs_entry 0 := mk_index_entry (Some 0%nat) INDEX_HASHTABLE_HANDSHAKE 0]})
    (wg_pubkey_hashtable_add (fun p => if bool_decide (p = 0%nat) then Some (demo_key other) else None)
       (wg_pubkey_hashtable_alloc 5) 0)
    wg_allowedips_init [0%nat] 1 (Some 51820) (Some 51820) 2 (Some 1) 51820 0 1 [] 0 [] [] []
    small_table 0 0 1 {[0%nat := x]} {[0%nat := 1]} ∅ ∅.

Definition demo_a : world := demo_world 1 2.
Definition demo_b : world := demo_world 2 1.

Lemma index_ok_empty m : index_ok (mk_index_hashtable ∅ m).
Proof.
  assert (∀ b, bucket ∅ b = []) as Hb by done. split; cbn.
  - intros b e He. rewrite Hb in He. by apply not_elem_of_nil in He.
  - intros b. rewrite Hb. constructor.
  - intros e e' i [b He]. rewrite Hb in He. by apply not_elem_of_nil in He.
Qed.

Lemma demo_configured own other :
  configured (demo_world own other) 0 (demo_peer (demo_handshake own other)) (demo_key other) demo_psk.
Proof. split; try done; [apply index_ok_empty|by exists 0]. Qed.

(** ** Witnesses *)


(** Devices at the end of a handshake: hashed under an index, with an old session. *)
Definition demo_table (i : Z) : index_hashtable :=
  (insert_commit (mk_index_hashtable ∅ {[hs_entry 0 := mk_index_entry (Some 0%nat) INDEX_HASHTABLE_HANDSHAKE i;
     kp_entry 3 := mk_index_entry (Some 0%nat) INDEX_HASHTABLE_KEYPAIR 0]}) (hs_entry 0)).1.

Definition demo_keypair (n : Z) : noise_keypair :=
  mk_keypair (mk_symmetric_key (demo_key n) 0 true) 0 (mk_symmetric_key (demo_key (n + 1)) 0 true) counter_init 5 true 1 n.

Definition demo_session (own other i remote : Z) (st : noise_handshake_state) : world :=
  let w := demo_world own other in
  w <| w_index_hashtable := demo_table i |> <| w_keypairs := {[3%nat := demo_keypair 40]} |>
    <| w_peers := {[0%nat := (demo_peer ((demo_handshake own other) <| hs_state := st |> <| hs_remote_index := remote |>
         <| hs_chaining_key := demo_key 33 |>)) <| keypairs := mk_keypairs (Some 3%nat) None None |>]} |>.

Lemma demo_table_nodes i : ih_nodes (demo_table i) = {[hs_entry 0 := mk_index_entry (Some 0%nat) INDEX_HASHTABLE_HANDSHAKE i;
     kp_entry 3 := mk_index_entry (Some 0%nat) INDEX_HASHTABLE_KEYPAIR 0]}.
Proof. unfold demo_table, insert_commit. case_match; [|done]. by case_match. Qed.

Lemma demo_table_ok i : fits 32 i → index_ok (demo_table i) ∧ index_maps (demo_table i) i (hs_entry 0).
Proof.
  intros Hi. unfold demo_table. set (T := mk_index_hashtable ∅ _).
  assert (node_index T (hs_entry 0) = Some i) as Hn by done.
  destruct (insert_commit_ok T (hs_entry 0)) as [Hok Hm].
  - apply index_ok_empty.
  - intros [b He]. by apply not_elem_of_nil in He.
  - intros j. rewrite Hn. by intros [= <-].
  - split; [exact Hok|]. destruct Hm as (j & Hj & Hm); [unfold insert_commit; by rewrite Hn|].
    rewrite Hn in Hj. injection Hj as <-. exact Hm.
Qed.

Lemma demo_slots w k ks :
  slots ks = [k] → (∃ x, w_keypairs w !! k = Some x ∧ 1 <= kp_refcount x) → slots_ok w ks.
Proof. intros Hs Hx. split; rewrite Hs; [apply NoDup_singleton|]. intros j Hj. assert (j = k) as -> by set_solver. done. Qed.

Lemma demo_session_ready own other i remote st :
  fits 32 i →
  ∃ x, session_ready (demo_session own other i remote st) 0 x i ∧ hs_state (handshake x) = st ∧
    hs_chaining_key (handshake x) = demo_key 33 ∧ hs_remote_index (handshake x) = remote.
Proof.
  intros Hi. destruct (demo_table_ok i Hi) as [Hok Hm]. eexists. split; [split|].
  - apply lookup_singleton_eq.
  - done.
  - eapply demo_slots; [done|]. exists (demo_keypair 40). split; [by vm_compute|by vm_compute].
  - done.
  - exact Hok.
  - exact Hm.
  - intros k. change (is_Some (ih_nodes (demo_table i) !! kp_entry k) → is_Some (({[3%nat := demo_keypair 40]} : gmap nat noise_keypair) !! k)).
    rewrite demo_table_nodes. destruct (decide (k = 3%nat)) as [->|Hk]; [by rewrite lookup_singleton_eq|].
    rewrite lookup_insert_ne by apply hs_kp_entry. rewrite lookup_singleton_ne by (unfold kp_entry; lia). by intros [? ?].
  - done.
Qed.


(** A keypair 4 that has just been derived, next to the current one. *)
Definition demo_rotation : world :=
  (demo_session 1 2 77 88 HANDSHAKE_ZEROED) <| w_keypairs := {[3%nat := demo_keypair 40; 4%nat := demo_keypair 50]} |>.


(** Two initiations of [demo_a], one second apart, both accepted by [demo_b]. *)
Definition initiation_of (w : world) : message_handshake_initiation :=
  match wg_noise_handshake_create_initiation 0 w with
  | Some (Some m, _) => m
  | _ => mk_message_handshake_initiation 0 0 [] [] [] no_macs
  end.
Definition consumed (m : message_handshake_initiation) (w : world) : world :=
  match wg_noise_handshake_consume_initiation m w with Some (_, w') => w' | None => w end.

Definition demo_m1 : message_handshake_initiation := initiation_of demo_a.
Definition demo_b1 : world := consumed demo_m1 demo_b.
Definition demo_m2 : message_handshake_initiation := initiation_of (demo_a <| w_realtime := (1700000001, 0) |>).
Definition demo_b1_later : world := demo_b1 <| w_now := 11 * NSEC_PER_SEC |>.

Lemma demo_first : wg_noise_handshake_consume_initiation demo_m1 demo_b = Some (Some 0%nat, demo_b1).
Proof. by vm_compute. Qed.

Lemma demo_second : wg_noise_handshake_consume_initiation demo_m2 demo_b1_later = Some (Some 0%nat, consumed demo_m2 demo_b1_later).
Proof. by vm_compute. Qed.

Lemma hs_of_now w t p : hs_of (w <| w_now := t |>) p = hs_of w p.
Proof. done. Qed.

Lemma demo_b1_identity : w_static_identity demo_b1_later = w_static_identity demo_b.
Proof. by vm_compute. Qed.



Lemma kdf_is_hkdf_witness :
  kdf (Some 32%nat) None None [1; 2; 3] (zeros 32) = (take 32 (hkdf_blocks 3 1 (rfc2104_hmac [1; 2; 3] (zeros 32)) [] !!! 0%nat), [], []).
Proof. apply (kdf_is_hkdf 32 32 32 [1; 2; 3] (zeros 32)). vm_compute. lia. Defined.

Lemma tai64n_monotone_witness : memcmp_le (tai64n_now (1700000001, 5)) (tai64n_now (1700000000, 123456789)) = false.
Proof. apply (tai64n_monotone 1700000000 123456789 1700000001 5); unfold NSEC_PER_SEC, tai_quantum; lia. Defined.
