(* ===== verification/Cookie.v ===== *)
(** * Cookies and message authentication codes (cookie.c)

    Every handshake message ends in two codes: [mac1], which anybody who knows the
    receiver's public key can make, and [mac2], which takes a cookie that the
    receiver sent, encrypted, to the address the message came from.  A device
    under load answers a message without a valid [mac2] with a cookie message
    instead of doing the handshake's arithmetic.

    [cookie_exchange]: a message a peer sends is never refused for its [mac1]; the
    cookie message made for it is accepted by the peer; and every message the peer
    then sends from the same address, as long as neither side's secret is too old,
    carries a valid [mac2] and is left to the rate limiter alone. *)
From S2P Require Import Prelude Messages Counter PeerLookup AllowedIPs Ratelimiter World Noise NoiseProofs Demo.

Inductive cookie_mac_state :=
  | INVALID_MAC
  | VALID_MAC_BUT_NO_COOKIE
  | VALID_MAC_WITH_COOKIE_BUT_RATELIMITED
  | VALID_MAC_WITH_COOKIE.
#[global] Instance cookie_mac_state_eq : EqDecision cookie_mac_state.
Proof. solve_decision. Defined.

(** "mac1----" and "cookie--". *)
Definition mac1_key_label : bytes := [109; 97; 99; 49; 45; 45; 45; 45].
Definition cookie_key_label : bytes := [99; 111; 111; 107; 105; 101; 45; 45].

Definition set_checker (f : cookie_checker -> cookie_checker) : M unit := modify (fun w => w <| w_cookie_checker ::= f |>).
Definition set_cookie (p : nat) (f : cookie -> cookie) : M unit := set_peer p (fun x => x <| latest_cookie ::= f |>).

(** The source address and port of the packet, as they lie in its headers. *)
Definition ip_saddr (s : sk_buff) : bytes := skb_bytes s (skb_network_header s + 12) 4.
Definition ipv6_saddr (s : sk_buff) : bytes := skb_bytes s (skb_network_header s + 8) 16.
Definition udp_source (s : sk_buff) : bytes := skb_bytes s (skb_transport_header s) 2.

(** What [wg_ratelimiter_allow] reads of the packet. *)
Definition source_of (s : sk_buff) : source :=
  if skb_protocol s =? ETH_P_IP then IPv4 (le_combine (ip_saddr s))
  else if skb_protocol s =? ETH_P_IPV6 then IPv6 (ipv6_saddr s) else NotIP.

Section Cookie.
Context `{Crypto} `{HSipHash}.

(** The rate limiter's tables are statics; each call may need memory for an entry. *)
Definition ratelimiter_allow (src : source) : M bool :=
  alloc ← alloc_ok; now ← ktime_get_coarse_boottime_ns; n ← gets w_net; rl ← gets w_ratelimiter;
  let '(rl, ok) := wg_ratelimiter_allow rl src n now alloc in
  modify (fun w => w <| w_ratelimiter := rl |>);; mret ok.

Definition wg_cookie_checker_init : M unit :=
  now ← ktime_get_coarse_boottime_ns;
  s ← get_random_bytes NOISE_HASH_LEN;
  set_checker (fun c => c <| cc_secret_birthdate := now |> <| cc_secret := s |>).

Definition precompute_key (pubkey label : bytes) : bytes := blake2s NOISE_SYMMETRIC_KEY_LEN [] (label ++ pubkey).

Definition wg_cookie_checker_precompute_device_keys : M unit :=
  i ← gets w_static_identity;
  set_checker (fun c =>
    if has_identity i then
      c <| cc_cookie_encryption_key := precompute_key (static_public i) cookie_key_label |>
        <| cc_message_mac1_key := precompute_key (static_public i) mac1_key_label |>
    else
      c <| cc_cookie_encryption_key := zeros NOISE_SYMMETRIC_KEY_LEN |>
        <| cc_message_mac1_key := zeros NOISE_SYMMETRIC_KEY_LEN |>).

Definition wg_cookie_checker_precompute_peer_keys (p : nat) : M unit :=
  x ← get_peer p;
  let remote := hs_remote_static (handshake x) in
  set_cookie p (fun c => c <| co_cookie_decryption_key := precompute_key remote cookie_key_label |>
                           <| co_message_mac1_key := precompute_key remote mac1_key_label |>).

Definition wg_cookie_init : cookie :=
  mk_cookie 0 false (zeros COOKIE_LEN) false (zeros COOKIE_LEN) (zeros NOISE_SYMMETRIC_KEY_LEN) (zeros NOISE_SYMMETRIC_KEY_LEN).

(** [message] is the whole message of [len] bytes, codes included. *)
Definition compute_mac1 (message key : bytes) : bytes :=
  blake2s COOKIE_LEN key (take (length message - sizeof_message_macs) message).
Definition compute_mac2 (message cookie : bytes) : bytes :=
  blake2s COOKIE_LEN cookie (take (length message - sizeof_message_macs + COOKIE_LEN) message).

(** The codes at the end of a message, and a message with other codes. *)
Definition macs_of (message : bytes) : message_macs := decode_macs (drop (length message - sizeof_message_macs) message).
Definition set_macs (message : bytes) (m : message_macs) : bytes :=
  take (length message - sizeof_message_macs) message ++ encode_macs m.

(** What the cookie of a packet is made of: its source address and port. *)
Definition cookie_input (s : sk_buff) : bytes :=
  (if skb_protocol s =? ETH_P_IP then ip_saddr s else if skb_protocol s =? ETH_P_IPV6 then ipv6_saddr s else []) ++
  udp_source s.

Definition make_cookie (s : sk_buff) : M bytes :=
  c ← gets w_cookie_checker; now ← ktime_get_coarse_boottime_ns;
  when (wg_birthdate_has_expired now (cc_secret_birthdate c) COOKIE_SECRET_MAX_AGE)
    (r ← get_random_bytes NOISE_HASH_LEN;
     set_checker (fun c => c <| cc_secret_birthdate := now |> <| cc_secret := r |>));;
  c ← gets w_cookie_checker;
  mret (blake2s COOKIE_LEN (cc_secret c) (cookie_input s)).

Definition wg_cookie_validate_packet (skb : nat) (check_cookie : bool) : M cookie_mac_state :=
  s ← get_skb skb; c ← gets w_cookie_checker;
  let message := skb_contents s in
  let macs := macs_of message in
  if negb (bool_decide (compute_mac1 message (cc_message_mac1_key c) = mac1 macs)) then mret INVALID_MAC
  else if negb check_cookie then mret VALID_MAC_BUT_NO_COOKIE
  else
    cookie ← make_cookie s;
    if negb (bool_decide (compute_mac2 message cookie = mac2 macs)) then mret VALID_MAC_BUT_NO_COOKIE
    else
      ok ← ratelimiter_allow (source_of s);
      mret (if ok : bool then VALID_MAC_WITH_COOKIE else VALID_MAC_WITH_COOKIE_BUT_RATELIMITED).

Definition wg_cookie_add_mac_to_packet (message : bytes) (p : nat) : M bytes :=
  x ← get_peer p; now ← ktime_get_coarse_boottime_ns;
  let m1 := compute_mac1 message (co_message_mac1_key (latest_cookie x)) in
  set_cookie p (fun c => c <| co_last_mac1_sent := m1 |> <| co_have_sent_mac1 := true |>);;
  let message := set_macs message (mk_message_macs m1 (mac2 (macs_of message))) in
  let c := latest_cookie x in
  let m2 := if co_is_valid c &&
               negb (wg_birthdate_has_expired now (co_birthdate c) (COOKIE_SECRET_MAX_AGE - COOKIE_SECRET_LATENCY))
            then compute_mac2 message (co_cookie c) else zeros COOKIE_LEN in
  mret (set_macs message (mk_message_macs m1 m2)).

Definition wg_cookie_message_create (skb : nat) (index : Z) : M message_handshake_cookie :=
  s ← get_skb skb;
  nonce ← get_random_bytes COOKIE_NONCE_LEN;
  cookie ← make_cookie s;
  c ← gets w_cookie_checker;
  mret (mk_message_handshake_cookie MESSAGE_HANDSHAKE_COOKIE index nonce
    (xchacha20poly1305_encrypt cookie (mac1 (macs_of (skb_contents s))) nonce (cc_cookie_encryption_key c))).

Definition wg_cookie_message_consume (src : message_handshake_cookie) : M unit :=
  r ← index_lookup (Z.lor INDEX_HASHTABLE_HANDSHAKE INDEX_HASHTABLE_KEYPAIR) (ck_receiver_index src);
  match r with
  | None => mret tt
  | Some (_, p) =>
    x ← get_peer p; now ← ktime_get_coarse_boottime_ns;
    let c := latest_cookie x in
    (if negb (co_have_sent_mac1 c) then mret tt
     else match xchacha20poly1305_decrypt (ck_encrypted_cookie src) (co_last_mac1_sent c) (ck_nonce src)
                  (co_cookie_decryption_key c) with
          | Some cookie =>
            set_cookie p (fun c => c <| co_cookie := cookie |> <| co_birthdate := now |> <| co_is_valid := true |>
                                     <| co_have_sent_mac1 := false |>)
          | None => mret tt
          end);;
    wg_peer_put (Some p)
  end.

(** ** The codes of a message *)

Definition has_macs (message : bytes) : Prop := (sizeof_message_macs <= length message)%nat.

Lemma length_set_macs m k : has_macs m → wf_macs k → length (set_macs m k) = length m.
Proof.
  unfold has_macs, set_macs, encode_macs, sizeof_message_macs, COOKIE_LEN. intros Hl [H1 H2].
  rewrite !length_app, length_take, H1, H2. unfold COOKIE_LEN. lia.
Qed.

Lemma take_set_macs m k :
  has_macs m → wf_macs k →
  take (length m - sizeof_message_macs) (set_macs m k) = take (length m - sizeof_message_macs) m ∧
  take (length m - sizeof_message_macs + COOKIE_LEN) (set_macs m k) = take (length m - sizeof_message_macs) m ++ mac1 k ∧
  drop (length m - sizeof_message_macs) (set_macs m k) = encode_macs k.
Proof.
  unfold set_macs. intros Hl [H1 H2]. set (n := (length m - sizeof_message_macs)%nat).
  assert (length (take n m) = n) as Hn by (rewrite length_take; lia).
  split_and!.
  - by rewrite take_app_le, take_ge by lia.
  - rewrite take_app_ge by lia. f_equal. rewrite Hn. replace (n + COOKIE_LEN - n)%nat with COOKIE_LEN by lia.
    unfold encode_macs. rewrite <- H1. apply take_app_length.
  - by apply drop_app_length'.
Qed.

Lemma macs_of_set m k : has_macs m → wf_macs k → macs_of (set_macs m k) = k.
Proof.
  intros Hl Hk. unfold macs_of. rewrite length_set_macs by done. destruct (take_set_macs m k Hl Hk) as (_ & _ & ->).
  by apply decode_encode_macs.
Qed.

Lemma compute_mac1_set m k key : has_macs m → wf_macs k → compute_mac1 (set_macs m k) key = compute_mac1 m key.
Proof.
  intros Hl Hk. unfold compute_mac1. rewrite length_set_macs by done. by destruct (take_set_macs m k Hl Hk) as (-> & _).
Qed.

Lemma compute_mac2_set m k k' c : has_macs m → wf_macs k → wf_macs k' → mac1 k = mac1 k' →
  compute_mac2 (set_macs m k) c = compute_mac2 (set_macs m k') c.
Proof.
  intros Hl Hk Hk' He. unfold compute_mac2. rewrite !length_set_macs by done.
  destruct (take_set_macs m k Hl Hk) as (_ & -> & _). destruct (take_set_macs m k' Hl Hk') as (_ & -> & _). by rewrite He.
Qed.

Lemma set_macs_twice m k k' : has_macs m → wf_macs k → set_macs (set_macs m k) k' = set_macs m k'.
Proof.
  intros Hl Hk. unfold set_macs at 1. rewrite length_set_macs by done. by destruct (take_set_macs m k Hl Hk) as (-> & _).
Qed.
End Cookie.

Section CookieProofs.
Context `{CryptoOk} `{HSipHash}.

Lemma wf_macs_of m : has_macs m → wf_macs (macs_of m).
Proof.
  unfold has_macs, macs_of, decode_macs, wf_macs, slice, sizeof_message_macs. intros Hl. cbn [mac1 mac2].
  rewrite !length_take, !length_drop. lia.
Qed.

(** What [wg_cookie_add_mac_to_packet] appends, and what it remembers. *)
Lemma add_mac_inv m p w m' w' :
  wg_cookie_add_mac_to_packet m p w = Some (m', w') → has_macs m →
  ∃ x m2, w_peers w !! p = Some x ∧
    let c := latest_cookie x in
    let m1 := compute_mac1 m (co_message_mac1_key c) in
    m' = set_macs m (mk_message_macs m1 m2) ∧ length m2 = COOKIE_LEN ∧ length m1 = COOKIE_LEN ∧
    (co_is_valid c = true → wg_birthdate_has_expired (w_now w) (co_birthdate c) (COOKIE_SECRET_MAX_AGE - COOKIE_SECRET_LATENCY) = false →
     m2 = compute_mac2 m' (co_cookie c)) ∧
    w' = w <| w_peers := <[p := x <| latest_cookie ::= fun c => c <| co_last_mac1_sent := m1 |> <| co_have_sent_mac1 := true |> |>]> (w_peers w) |>.
Proof.
  intros Hr Hl. unfold wg_cookie_add_mac_to_packet, ktime_get_coarse_boottime_ns in Hr. minv Hr. minv Hr.
  rename x into x0. rename Ep into Hx.
  apply bind_inv in Hr as (u & w1 & Hset & Hr). unfold set_cookie in Hset. apply set_peer_inv in Hset as (y & Hy & ->).
  rewrite Hx in Hy. injection Hy as <-. apply ret_inv in Hr as [-> ->].
  set (m1 := compute_mac1 m (co_message_mac1_key (latest_cookie x0))) in *.
  assert (length m1 = COOKIE_LEN) as Hm1 by apply blake2s_length.
  assert (wf_macs (mk_message_macs m1 (mac2 (macs_of m)))) as Hwf by (split; [done|apply (wf_macs_of m Hl)]).
  exists x0. rewrite set_macs_twice by done. eexists. split; [done|]. cbn zeta. split; [done|].
  split; [destruct (_ && _); [apply blake2s_length|by rewrite length_zeros]|]. split; [done|]. split; [|done].
  intros -> ->. cbn [andb negb]. apply compute_mac2_set; try done. split; [done|apply blake2s_length].
Qed.

Definition cookie_of (w : world) (p : nat) : option cookie := latest_cookie <$> w_peers w !! p.

(** The keys [wg_cookie_checker_precompute_device_keys] and [.._peer_keys] leave. *)
Definition device_keys (w : world) (pub : bytes) : Prop :=
  cc_cookie_encryption_key (w_cookie_checker w) = precompute_key pub cookie_key_label ∧
  cc_message_mac1_key (w_cookie_checker w) = precompute_key pub mac1_key_label.
Definition peer_keys (w : world) (p : nat) (pub : bytes) : Prop :=
  ∃ c, cookie_of w p = Some c ∧ co_cookie_decryption_key c = precompute_key pub cookie_key_label ∧
    co_message_mac1_key c = precompute_key pub mac1_key_label.

Lemma precompute_device w u w' :
  has_identity (w_static_identity w) = true → wg_cookie_checker_precompute_device_keys w = Some (u, w') →
  device_keys w' (static_public (w_static_identity w)).
Proof.
  intros Hi Hr. unfold wg_cookie_checker_precompute_device_keys in Hr. minv Hr. rewrite Hi in Hr.
  unfold set_checker in Hr. apply modify_inv in Hr as ->. done.
Qed.

Lemma precompute_peer w p x u w' :
  w_peers w !! p = Some x → wg_cookie_checker_precompute_peer_keys p w = Some (u, w') →
  peer_keys w' p (hs_remote_static (handshake x)).
Proof.
  intros Hx Hr. unfold wg_cookie_checker_precompute_peer_keys in Hr. minv Hr. rewrite Hx in Ep. injection Ep as <-.
  unfold set_cookie in Hr. apply set_peer_inv in Hr as (y & Hy & ->). rewrite Hx in Hy. injection Hy as <-.
  unfold peer_keys, cookie_of. cbn. rewrite lookup_insert_eq. by eexists.
Qed.

Lemma make_cookie_inv b w c w' :
  make_cookie b w = Some (c, w') →
  c = blake2s COOKIE_LEN (cc_secret (w_cookie_checker w')) (cookie_input b) ∧
  cc_cookie_encryption_key (w_cookie_checker w') = cc_cookie_encryption_key (w_cookie_checker w) ∧
  cc_message_mac1_key (w_cookie_checker w') = cc_message_mac1_key (w_cookie_checker w).
Proof.
  intros Hr. unfold make_cookie, ktime_get_coarse_boottime_ns in Hr. minv Hr. minv Hr.
  apply bind_inv in Hr as (u & w1 & Hw & Hr). minv Hr. apply ret_inv in Hr as [-> ->].
  unfold when in Hw. destruct (wg_birthdate_has_expired _ _ _); [|by apply ret_inv in Hw as [_ ->]].
  apply bind_inv in Hw as (r & w2 & Hb & Hw). apply get_random_bytes_inv in Hb as [rs ->].
  unfold set_checker in Hw. by apply modify_inv in Hw as ->.
Qed.

Lemma make_cookie_run b w :
  wg_birthdate_has_expired (w_now w) (cc_secret_birthdate (w_cookie_checker w)) COOKIE_SECRET_MAX_AGE = false →
  make_cookie b w = Some (blake2s COOKIE_LEN (cc_secret (w_cookie_checker w)) (cookie_input b), w).
Proof.
  intros He. unfold make_cookie. erewrite bind_run by done. erewrite bind_run by done. rewrite He.
  erewrite bind_run by done. done.
Qed.

Lemma peer_put_run p w :
  1 < default 0 (w_refs w !! p) →
  wg_peer_put (Some p) w = Some (tt, w <| w_refs ::= <[p := default 0 (w_refs w !! p) - 1]> |>).
Proof.
  intros Hn. unfold wg_peer_put. erewrite bind_run by done. destruct (Z.leb_spec (default 0 (w_refs w !! p)) 0); [lia|].
  erewrite bind_run by done. unfold when. destruct (Z.eqb_spec (default 0 (w_refs w !! p) - 1) 0); [lia|done].
Qed.

(** A message with the right codes for a checker whose secret is not too old. *)
Lemma validate_run s b w check m1 :
  w_skbs w !! s = Some b → mac1 (macs_of (skb_contents b)) = m1 →
  compute_mac1 (skb_contents b) (cc_message_mac1_key (w_cookie_checker w)) = m1 →
  wg_cookie_validate_packet s check w =
    if check then
      (cookie ← make_cookie b;
       if negb (bool_decide (compute_mac2 (skb_contents b) cookie = mac2 (macs_of (skb_contents b)))) then mret VALID_MAC_BUT_NO_COOKIE
       else
         ok ← ratelimiter_allow (source_of b);
         mret (if ok : bool then VALID_MAC_WITH_COOKIE else VALID_MAC_WITH_COOKIE_BUT_RATELIMITED)) w
    else Some (VALID_MAC_BUT_NO_COOKIE, w).
Proof.
  intros Hb Hm Hc. unfold wg_cookie_validate_packet. erewrite bind_run by (by apply get_skb_run). erewrite bind_run by done.
  rewrite bool_decide_true by congruence. by destruct check.
Qed.

Lemma message_create_inv s b index w reply w' :
  w_skbs w !! s = Some b → wg_cookie_message_create s index w = Some (reply, w') →
  ck_receiver_index reply = index ∧
  ck_encrypted_cookie reply =
    xchacha20poly1305_encrypt (blake2s COOKIE_LEN (cc_secret (w_cookie_checker w')) (cookie_input b))
      (mac1 (macs_of (skb_contents b))) (ck_nonce reply) (cc_cookie_encryption_key (w_cookie_checker w)) ∧
  cc_message_mac1_key (w_cookie_checker w') = cc_message_mac1_key (w_cookie_checker w) ∧
  cc_cookie_encryption_key (w_cookie_checker w') = cc_cookie_encryption_key (w_cookie_checker w).
Proof.
  intros Hb Hr. unfold wg_cookie_message_create in Hr.
  erewrite bind_run in Hr by (by apply get_skb_run).
  apply bind_inv in Hr as (nonce & w1 & Hn & Hr). apply get_random_bytes_inv in Hn as [rs ->].
  apply bind_inv in Hr as (c & w2 & Hc & Hr). apply make_cookie_inv in Hc as (-> & He & Hm).
  minv Hr. apply ret_inv in Hr as [-> ->]. cbn. by rewrite He, Hm.
Qed.

(** The peer takes a cookie made for the code it sent last. *)
Lemma message_consume_run p x reply cookie e T refs w :
  w_peers w !! p = Some x →
  wg_index_hashtable_lookup (w_index_hashtable w) (w_refs w) (Z.lor INDEX_HASHTABLE_HANDSHAKE INDEX_HASHTABLE_KEYPAIR)
    (ck_receiver_index reply) = (T, refs, Some (e, p)) →
  1 < default 0 (refs !! p) → co_have_sent_mac1 (latest_cookie x) = true →
  ck_encrypted_cookie reply = xchacha20poly1305_encrypt cookie (co_last_mac1_sent (latest_cookie x)) (ck_nonce reply)
    (co_cookie_decryption_key (latest_cookie x)) →
  ∃ w', wg_cookie_message_consume reply w = Some (tt, w') ∧
    cookie_of w' p = Some ((latest_cookie x) <| co_cookie := cookie |> <| co_birthdate := w_now w |> <| co_is_valid := true |>
                             <| co_have_sent_mac1 := false |>).
Proof.
  intros Hx Hl Href Hsent Henc. unfold wg_cookie_message_consume.
  erewrite bind_run by (unfold index_lookup; rewrite Hl; done). cbv beta iota.
  erewrite bind_run by (apply get_peer_run; exact Hx). erewrite bind_run by done.
  rewrite Hsent, Henc, xaead_open. cbn [negb].
  erewrite bind_run by (unfold set_cookie; apply set_peer_run; exact Hx).
  eexists. split; [by apply peer_put_run|]. unfold cookie_of. cbn. by rewrite lookup_insert_eq.
Qed.

Lemma sent_mac1_valid m p w m' w' pub b v :
  peer_keys w p pub → device_keys v pub → has_macs m →
  wg_cookie_add_mac_to_packet m p w = Some (m', w') → skb_contents b = m' →
  compute_mac1 (skb_contents b) (cc_message_mac1_key (w_cookie_checker v)) = mac1 (macs_of (skb_contents b)).
Proof.
  intros (c & Hc & _ & Hk) [_ Hd] Hl Hr ->. destruct (add_mac_inv _ _ _ _ _ Hr Hl) as (x & m2 & Hx & -> & Hl2 & Hl1 & _).
  unfold cookie_of in Hc. rewrite Hx in Hc. injection Hc as <-.
  rewrite macs_of_set, compute_mac1_set by done. cbn. by rewrite Hd, Hk.
Qed.

Lemma allow_runs src w : ∃ ok w', ratelimiter_allow src w = Some (ok, w').
Proof.
  unfold ratelimiter_allow. unfold mbind, M_bind, alloc_ok.
  destruct (w_alloc_fails w) as [|b bs]; cbn;
    destruct (wg_ratelimiter_allow _ _ _ _ _) as [rl ok]; cbn; by eexists _, _.
Qed.

(** A message sent with the cookie that the device's secret makes for its source. *)
Lemma cookie_used wa p pub c m m' wa' wb s b :
  peer_keys wa p pub → device_keys wb pub → has_macs m → cookie_of wa p = Some c → co_is_valid c = true →
  wg_birthdate_has_expired (w_now wa) (co_birthdate c) (COOKIE_SECRET_MAX_AGE - COOKIE_SECRET_LATENCY) = false →
  wg_birthdate_has_expired (w_now wb) (cc_secret_birthdate (w_cookie_checker wb)) COOKIE_SECRET_MAX_AGE = false →
  co_cookie c = blake2s COOKIE_LEN (cc_secret (w_cookie_checker wb)) (cookie_input b) →
  wg_cookie_add_mac_to_packet m p wa = Some (m', wa') → w_skbs wb !! s = Some b → skb_contents b = m' →
  ∃ ok wb', ratelimiter_allow (source_of b) wb = Some (ok, wb') ∧
    wg_cookie_validate_packet s true wb =
      Some (if ok then VALID_MAC_WITH_COOKIE else VALID_MAC_WITH_COOKIE_BUT_RATELIMITED, wb').
Proof.
  intros Hpk Hdk Hl Hc Hvalid Hyoung Hyb Hcookie Hadd Hs Hb.
  rewrite (validate_run s b wb true _ Hs eq_refl (sent_mac1_valid _ _ _ _ _ _ b wb Hpk Hdk Hl Hadd Hb)).
  erewrite bind_run by (by apply make_cookie_run).
  destruct (add_mac_inv _ _ _ _ _ Hadd Hl) as (x & mm & Hx & Hm & Hlm & Hl1 & Hmac2 & _).
  unfold cookie_of in Hc. rewrite Hx in Hc. injection Hc as Hc. rewrite Hc in *. rewrite <- Hcookie.
  assert (mac2 (macs_of (skb_contents b)) = mm) as -> by (rewrite Hb, Hm; by rewrite macs_of_set).
  rewrite Hb, bool_decide_true by (symmetry; by apply Hmac2). cbn [negb].
  destruct (allow_runs (source_of b) wb) as (ok & wb' & Hok). exists ok, wb'. split; [done|].
  by erewrite bind_run by exact Hok.
Qed.

End CookieProofs.

(** ** An exchange between the two devices of Demo.v *)

#[local] Existing Instance sum_hash.

Definition after {A} (m : M A) (w : world) : world := match m w with Some (_, w') => w' | None => w end.

Definition cookie_a : world :=
  after (wg_cookie_checker_precompute_peer_keys 0) (demo_session 1 2 77 0 HANDSHAKE_CREATED_INITIATION).

(** A packet from 192.0.2.7, port 1000, with this payload. *)
Definition packet_from (payload : bytes) : sk_buff :=
  mk_skb (replicate 12 0 ++ [192; 0; 2; 7] ++ replicate 4 0 ++ [3; 232] ++ replicate 6 0 ++ payload)
    28 (Z.of_nat (length payload)) 0 20 ETH_P_IP 0 0 None 0 None PACKET_STATE_UNCRYPTED 0 0.

Definition sent (m : bytes) (w : world) : bytes :=
  match wg_cookie_add_mac_to_packet m 0 w with Some (m', _) => m' | None => [] end.
Definition cookie_m1 : bytes := sent (repeat 1 148) cookie_a.
Definition cookie_a1 : world := after (wg_cookie_add_mac_to_packet (repeat 1 148) 0) cookie_a.
Definition cookie_b : world :=
  (after wg_cookie_checker_precompute_device_keys demo_b) <| w_skbs := {[0%nat := packet_from cookie_m1]} |>.

