(* ===== verification/Socket.v ===== *)
(** * Sockets and endpoints (socket.c)

    Sending a buffer to a peer's endpoint with its cached route and source
    address, replying to a packet, learning endpoints from packets, and opening
    and replacing the two sockets.  Routing, address lookups and socket creation
    are the kernel's ([Routing]). *)
From S2P Require Import Prelude Messages Counter PeerLookup AllowedIPs Ratelimiter World Skb Noise NoiseProofs Demo Timers Cookie.


Definition NET_SKB_PAD : Z := 64.
Definition SKB_HEADER_LEN : Z := Z.max sizeof_iphdr sizeof_ipv6hdr + sizeof_udphdr + NET_SKB_PAD.

(** ** The kernel's side *)

Record flowi4 := mk_flowi4 { fl4_saddr : bytes; fl4_daddr : bytes; fl4_sport : Z; fl4_dport : Z; flowi4_mark : Z }.
Record flowi6 := mk_flowi6 {
  fl6_saddr : bytes; fl6_daddr : bytes; fl6_sport : Z; fl6_dport : Z; flowi6_mark : Z; flowi6_oif : Z }.

(** A route is known by the interface it leaves through.  [dst_check] is whether a
    cached route is still good at a time; socket creation gets the number of the
    attempt, and answers with an error or with the port it bound. *)
Class Routing := {
  inet_confirm_addr : Z -> bytes -> bool;
  ip_route_output_flow : Z -> flowi4 -> Z + Z;
  ipv6_chk_addr : Z -> bytes -> bool;
  ipv6_dst_lookup_flow : Z -> flowi6 -> Z + Z;
  dst_check : Z -> Z -> bool;
  ipv6_iface_scope_id : bytes -> Z -> Z;
  udp_sock_create4 : Z -> Z -> nat -> Z + Z;
  udp_sock_create6 : Z -> Z -> nat -> Z + Z;
  ipv6_mod_enabled : bool;
}.

(** ** struct endpoint *)

(** The two views of the source union. *)
Definition src4 (e : endpoint) : bytes := take 4 (ep_src e).
Definition src_if4 (e : endpoint) : Z := le_combine (slice 4 4 (ep_src e)).
Definition set_src4 (addr : bytes) (ifindex : Z) (e : endpoint) : endpoint :=
  e <| ep_src ::= fun s => addr ++ le_split 4 (u32 ifindex) ++ drop 8 s |>.
Definition src6 (e : endpoint) : bytes := ep_src e.

Definition zeroed_endpoint : endpoint := mk_endpoint AF_UNSPEC (zeros 16).

(** The cached route and its source address; a NULL cache is no cache. *)
Abbreviation dst_cache := (option (Z * bytes)).

(** [skb_mark_not_on_list] on a buffer that is about to be sent. *)
Definition mark_not_on_list (s : nat) : M unit := set_skb s (fun b => b <| skb_next := None |>).

(** The destination addresses of the packet. *)
Definition ip_daddr (s : sk_buff) : bytes := skb_bytes s (skb_network_header s + 16) 4.
Definition ipv6_daddr (s : sk_buff) : bytes := skb_bytes s (skb_network_header s + 24) 16.

Section Socket.
Context `{Routing}.

(** [udp_tunnel_xmit_skb]: the buffer's data leave as a datagram. *)
Definition udp_tunnel_xmit_skb (s : nat) (saddr : bytes) (sport : Z) (dst : sockaddr) (ds : Z) : M unit :=
  b ← get_skb s;
  modify (fun w => w <| w_sent ::= fun l => l ++ [mk_datagram saddr sport dst ds (skb_contents b)] |>);;
  kfree_skb s.

Definition cached (jiffies : Z) (cache : option dst_cache) : option (Z * bytes) :=
  match cache with
  | Some (Some (rt, saddr)) => if dst_check rt jiffies then Some (rt, saddr) else None
  | _ => None
  end.

(** The route for the flow, the endpoint and the cache as they are left, and the
    source address to use; or an error. *)
Definition route4 (net jiffies fwmark sport : Z) (e : endpoint) (daddr : bytes) (dport : Z) (cache : option dst_cache) :
    (Z + bytes) * endpoint * option dst_cache :=
  match cached jiffies cache with
  | Some (_, saddr) => (inr saddr, e, cache)
  | None =>
    let ok := inet_confirm_addr net (src4 e) in
    let '(e, cache) := if ok then (e, cache) else (set_src4 (zeros 4) 0 e, (fun _ => None) <$> cache) in
    let flow e := mk_flowi4 (src4 e) daddr sport dport fwmark in
    let rt := ip_route_output_flow net (flow e) in
    let stale := negb (src_if4 e =? 0) &&
      match rt with inl err => err =? - EINVAL | inr ifindex => negb (ifindex =? src_if4 e) end in
    let '(e, cache) := if stale then (set_src4 (zeros 4) 0 e, (fun _ => None) <$> cache) else (e, cache) in
    let rt := if stale then ip_route_output_flow net (flow e) else rt in
    match rt with
    | inl err => (inl err, e, cache)
    | inr ifindex => (inr (src4 e), e, (fun _ => Some (ifindex, src4 e)) <$> cache)
    end
  end.

Definition send4 (s : nat) (e : endpoint) (daddr : bytes) (dport ds : Z) (cache : option dst_cache) :
    M (Z * endpoint * option dst_cache) :=
  mark_not_on_list s;;
  sock ← gets w_sock4; net ← gets w_net; now ← gets w_jiffies; mark ← gets w_fwmark;
  match sock with
  | None => kfree_skb s;; mret (- ENONET, e, cache)
  | Some sport =>
    match route4 net now mark sport e daddr dport cache with
    | (inl err, e, cache) => kfree_skb s;; mret (err, e, cache)
    | (inr saddr, e, cache) => udp_tunnel_xmit_skb s saddr sport (AF_INET daddr dport) ds;; mret (0, e, cache)
    end
  end.

Definition route6 (net jiffies fwmark sport : Z) (e : endpoint) (daddr : bytes) (dport scope_id : Z) (cache : option dst_cache) :
    (Z + bytes) * endpoint * option dst_cache :=
  match cached jiffies cache with
  | Some (_, saddr) => (inr saddr, e, cache)
  | None =>
    let stale := negb (bool_decide (src6 e = zeros 16)) && negb (ipv6_chk_addr net (src6 e)) in
    let '(e, cache) := if stale then (e <| ep_src := zeros 16 |>, (fun _ => None) <$> cache) else (e, cache) in
    match ipv6_dst_lookup_flow net (mk_flowi6 (src6 e) daddr sport dport fwmark scope_id) with
    | inl err => (inl err, e, cache)
    | inr ifindex => (inr (src6 e), e, (fun _ => Some (ifindex, src6 e)) <$> cache)
    end
  end.

Definition send6 (s : nat) (e : endpoint) (daddr : bytes) (dport scope_id ds : Z) (cache : option dst_cache) :
    M (Z * endpoint * option dst_cache) :=
  mark_not_on_list s;;
  sock ← gets w_sock6; net ← gets w_net; now ← gets w_jiffies; mark ← gets w_fwmark;
  match sock with
  | None => kfree_skb s;; mret (- ENONET, e, cache)
  | Some sport =>
    match route6 net now mark sport e daddr dport scope_id cache with
    | (inl err, e, cache) => kfree_skb s;; mret (err, e, cache)
    | (inr saddr, e, cache) =>
      udp_tunnel_xmit_skb s saddr sport (AF_INET6 daddr dport scope_id) ds;; mret (0, e, cache)
    end
  end.

Definition wg_socket_send_skb_to_peer (p s : nat) (ds : Z) : M Z :=
  b ← get_skb s; x ← get_peer p;
  let e := peer_endpoint x in
  r ← (match ep_addr e with
       | AF_INET daddr dport => send4 s e daddr dport ds (Some (endpoint_cache x))
       | AF_INET6 daddr dport scope => send6 s e daddr dport scope ds (Some (endpoint_cache x))
       | AF_UNSPEC => kfree_skb s;; mret (- EAFNOSUPPORT, e, Some (endpoint_cache x))
       end);
  let '(ret, e, cache) := r in
  set_peer p (fun x => x <| peer_endpoint := e |> <| endpoint_cache := default None cache |>);;
  when (ret =? 0) (set_peer p (fun x => x <| tx_bytes := u64 (tx_bytes x + skb_len b) |>));;
  mret ret.

(** A new buffer that holds these bytes, with room for the headers. *)
Definition skb_with_buffer (buffer : bytes) : M (option nat) :=
  o ← alloc_skb (Z.of_nat (length buffer) + SKB_HEADER_LEN);
  match o with
  | None => mret None
  | Some s =>
    set_skb s (skb_reserve SKB_HEADER_LEN);;
    b ← get_skb s;
    put_skb s (skb_put_data buffer b);;
    mret (Some s)
  end.

Definition wg_socket_send_buffer_to_peer (p : nat) (buffer : bytes) (ds : Z) : M Z :=
  o ← skb_with_buffer buffer;
  match o with
  | None => mret (- ENOMEM)
  | Some s => wg_socket_send_skb_to_peer p s ds
  end.

Definition wg_socket_endpoint_from_skb (b : sk_buff) : option endpoint :=
  let port := be_combine (udp_source b) in
  if skb_protocol b =? ETH_P_IP then
    Some (set_src4 (ip_daddr b) (skb_skb_iif b) (mk_endpoint (AF_INET (ip_saddr b) port) (zeros 16)))
  else if skb_protocol b =? ETH_P_IPV6 then
    Some (mk_endpoint (AF_INET6 (ipv6_saddr b) port (ipv6_iface_scope_id (ipv6_saddr b) (skb_skb_iif b))) (ipv6_daddr b))
  else None.

Definition wg_socket_send_buffer_as_reply_to_skb (in_skb : nat) (buffer : bytes) : M Z :=
  b ← get_skb in_skb;
  match wg_socket_endpoint_from_skb b with
  | None => mret (- EINVAL)
  | Some e =>
    o ← skb_with_buffer buffer;
    match o with
    | None => mret (- ENOMEM)
    | Some s =>
      match ep_addr e with
      | AF_INET daddr dport => r ← send4 s e daddr dport 0 None; mret r.1.1
      | AF_INET6 daddr dport scope => r ← send6 s e daddr dport scope 0 None; mret r.1.1
      | AF_UNSPEC => mret 0
      end
    end
  end.

Definition endpoint_eq (a b : endpoint) : bool :=
  match ep_addr a, ep_addr b with
  | AF_INET addr port, AF_INET addr' port' =>
    (port =? port') && bool_decide (addr = addr') && bool_decide (src4 a = src4 b) && (src_if4 a =? src_if4 b)
  | AF_INET6 addr port scope, AF_INET6 addr' port' scope' =>
    (port =? port') && bool_decide (addr = addr') && (scope =? scope') && bool_decide (src6 a = src6 b)
  | AF_UNSPEC, AF_UNSPEC => true
  | _, _ => false
  end.

Definition wg_socket_set_peer_endpoint (p : nat) (e : endpoint) : M unit :=
  x ← get_peer p;
  if endpoint_eq e (peer_endpoint x) then mret tt
  else
    match ep_addr e with
    | AF_INET _ _ =>
      set_peer p (fun x => x <| peer_endpoint ::= fun old => set_src4 (src4 e) (src_if4 e) (old <| ep_addr := ep_addr e |>) |>
                             <| endpoint_cache := None |>)
    | AF_INET6 _ _ _ =>
      set_peer p (fun x => x <| peer_endpoint := mk_endpoint (ep_addr e) (src6 e) |> <| endpoint_cache := None |>)
    | AF_UNSPEC => mret tt
    end.

Definition wg_socket_set_peer_endpoint_from_skb (p s : nat) : M unit :=
  b ← get_skb s;
  match wg_socket_endpoint_from_skb b with Some e => wg_socket_set_peer_endpoint p e | None => mret tt end.

Definition wg_socket_clear_peer_endpoint_src (p : nat) : M unit :=
  set_peer p (fun x => x <| peer_endpoint ::= fun e => e <| ep_src := zeros 16 |> |> <| endpoint_cache := None |>).

(** ** Opening the sockets *)

Definition sock_free (o : option Z) : M unit :=
  match o with None => mret tt | Some _ => modify (fun w => w <| w_open_socks ::= Z.pred |>) end.

Definition wg_socket_reinit (new4 new6 : option Z) : M unit :=
  old4 ← gets w_sock4; old6 ← gets w_sock6;
  modify (fun w => w <| w_sock4 := new4 |> <| w_sock6 := new6 |>);;
  (match new4 with Some port => modify (fun w => w <| w_incoming_port := port |>) | None => mret tt end);;
  sock_free old4;; sock_free old6.

(** The loop over the attempts; [retries] counts from zero. *)
Fixpoint socket_init_loop (fuel : nat) (net port : Z) (retries : nat) : M Z :=
  match fuel with
  | O => stuck
  | S fuel =>
    match udp_sock_create4 net port retries with
    | inl err => mret err
    | inr port4 =>
      modify (fun w => w <| w_open_socks ::= Z.succ |>);;
      if ipv6_mod_enabled then
        match udp_sock_create6 net port4 retries with
        | inl err =>
          modify (fun w => w <| w_open_socks ::= Z.pred |>);;
          if (err =? - EADDRINUSE) && (port =? 0) && (retries <? 100)%nat
          then socket_init_loop fuel net port (S retries)
          else mret err
        | inr port6 =>
          modify (fun w => w <| w_open_socks ::= Z.succ |>);;
          wg_socket_reinit (Some port4) (Some port6);; mret 0
        end
      else wg_socket_reinit (Some port4) None;; mret 0
    end
  end.

Definition wg_socket_init (port : Z) : M Z :=
  net ← gets w_creating_net;
  match net with
  | None => mret (- ENONET)
  | Some net => socket_init_loop 101 net port 0
  end.
End Socket.

(** ** Opening the sockets *)

Definition sock_count (o : option Z) : Z := match o with Some _ => 1 | None => 0 end.
(** The sockets that exist are those the device holds. *)
Definition socks_ok (w : world) : Prop := w_open_socks w = sock_count (w_sock4 w) + sock_count (w_sock6 w).

Section Opening.
Context `{Routing}.
(** [udp_sock_create] fails with a negative error. *)
Context (Herr4 : ∀ net port n e, udp_sock_create4 net port n = inl e → e < 0).
Context (Herr6 : ∀ net port n e, udp_sock_create6 net port n = inl e → e < 0).

Lemma socks_undo w : w <| w_open_socks ::= Z.succ |> <| w_open_socks ::= Z.pred |> = w.
Proof using. destruct w. unfold upd. cbn. by rewrite Z.pred_succ. Qed.

Lemma sock_free_run o w : ∃ w', sock_free o w = Some (tt, w') ∧ w_open_socks w' = w_open_socks w - sock_count o ∧
  w_sock4 w' = w_sock4 w ∧ w_sock6 w' = w_sock6 w ∧ w_incoming_port w' = w_incoming_port w.
Proof using. destruct o as [x|]; (eexists; split; [reflexivity|]); split_and!; try done; cbn; lia. Qed.

(** The new sockets are counted already. *)
Lemma reinit_run new4 new6 w :
  w_open_socks w = sock_count (w_sock4 w) + sock_count (w_sock6 w) + sock_count new4 + sock_count new6 →
  ∃ w', wg_socket_reinit new4 new6 w = Some (tt, w') ∧ socks_ok w' ∧ w_sock4 w' = new4 ∧ w_sock6 w' = new6 ∧
    w_incoming_port w' = default (w_incoming_port w) new4.
Proof using.
  intros Hw. unfold wg_socket_reinit, socks_ok. do 2 erewrite bind_run by done. erewrite bind_run by done.
  set (w1 := w <| w_sock4 := new4 |> <| w_sock6 := new6 |>).
  assert (∃ w2, (match new4 with Some port => modify (fun w => w <| w_incoming_port := port |>) | None => mret tt end) w1 = Some (tt, w2) ∧
    w_open_socks w2 = w_open_socks w ∧ w_sock4 w2 = new4 ∧ w_sock6 w2 = new6 ∧
    w_incoming_port w2 = default (w_incoming_port w) new4) as (w2 & E2 & H2 & H24 & H26 & H2p).
  { destruct new4; (eexists; split; [reflexivity|]); split_and!; reflexivity. }
  erewrite bind_run by exact E2.
  destruct (sock_free_run (w_sock4 w) w2) as (w3 & E3 & H3 & H34 & H36 & H3p). erewrite bind_run by exact E3.
  destruct (sock_free_run (w_sock6 w) w3) as (w4 & E4 & H4 & H44 & H46 & H4p).
  exists w4. split; [exact E4|]. rewrite H44, H46, H4p, H34, H36, H3p, H24, H26. split_and!; [|done..]. lia.
Qed.

Lemma init_loop_run fuel net port retries w :
  socks_ok w → (fuel + retries = 101)%nat → (retries <= 100)%nat →
  ∃ r w', socket_init_loop fuel net port retries w = Some (r, w') ∧
    ((r = 0 ∧ socks_ok w' ∧ is_Some (w_sock4 w') ∧ w_sock4 w' = Some (w_incoming_port w') ∧
      (is_Some (w_sock6 w') ↔ ipv6_mod_enabled = true)) ∨
     r < 0 ∧ w' = w).
Proof using Herr4 Herr6.
  intros Hw. revert retries. induction fuel as [|fuel IH]; intros retries Hf Hr; [lia|]. cbn [socket_init_loop].
  destruct (udp_sock_create4 net port retries) as [e|port4] eqn:E4.
  { exists e, w. split; [done|]. right. eauto. }
  erewrite bind_run by done. destruct ipv6_mod_enabled eqn:E.
  - destruct (udp_sock_create6 net port4 retries) as [e|port6] eqn:E6.
    + erewrite bind_run by done. rewrite socks_undo. destruct (_ && _) eqn:Eb.
      * apply andb_true_iff in Eb as [_ Eb]. apply Nat.ltb_lt in Eb. apply IH; lia.
      * exists e, w. split; [done|]. right. eauto.
    + erewrite bind_run by done. set (w1 := upd (p := w_open_socks) _ _).
      destruct (reinit_run (Some port4) (Some port6) w1) as (w' & E' & Hok & Hs4 & Hs6 & Hp).
      { unfold socks_ok in Hw. unfold w1, upd. cbn. lia. }
      erewrite bind_run by exact E'. exists 0, w'. split; [done|]. left. rewrite Hs4, Hs6, Hp. split_and!; done.
  - set (w1 := upd (p := w_open_socks) _ _).
    destruct (reinit_run (Some port4) None w1) as (w' & E' & Hok & Hs4 & Hs6 & Hp).
    { unfold socks_ok in Hw. unfold w1, upd. cbn. lia. }
    erewrite bind_run by exact E'. exists 0, w'. split; [done|]. left. rewrite Hs4, Hs6, Hp. split_and!; try done.
Qed.

(** C31: opening the sockets always comes to an end, after at most a hundred and one attempts; it leaves both sockets
    in place with the port of the first as the device's, or fails with a negative error and changes nothing; no
    socket is leaked or closed twice. *)
Theorem socket_init_spec port w :
  socks_ok w →
  ∃ r w', wg_socket_init port w = Some (r, w') ∧ socks_ok w' ∧
    ((r = 0 ∧ w_sock4 w' = Some (w_incoming_port w') ∧ (is_Some (w_sock6 w') ↔ ipv6_mod_enabled = true)) ∨
     r < 0 ∧ w' = w).
Proof using Herr4 Herr6.
  intros Hw. unfold wg_socket_init. erewrite bind_run by done. destruct (w_creating_net w) as [net|] eqn:En.
  - destruct (init_loop_run 101 net port 0 w Hw) as (r & w' & E & Hr); [done|lia|]. exists r, w'. split; [done|].
    destruct Hr as [(-> & Hok & _ & Hr)|(Hr & ->)]; eauto.
  - exists (- ENONET), w. split_and!; [done..|]. right. done.
Qed.
End Opening.

(** A host with one IPv4 route, whose IPv6 ports are taken the first three times. *)
#[export] Instance demo_routing : Routing := {|
  inet_confirm_addr _ a := bool_decide (a = zeros 4);
  ip_route_output_flow _ _ := inr 2;
  ipv6_chk_addr _ _ := false;
  ipv6_dst_lookup_flow _ _ := inl (- ENONET);
  dst_check _ _ := false;
  ipv6_iface_scope_id _ _ := 0;
  udp_sock_create4 _ port n := inr (if port =? 0 then 40000 + Z.of_nat n else port);
  udp_sock_create6 _ port n := if (n <? 3)%nat then inl (- EADDRINUSE) else inr port;
  ipv6_mod_enabled := true;
|}.

Lemma socket_init_spec_witness :
  socks_ok demo_a ∧ ∃ w', wg_socket_init 0 demo_a = Some (0, w') ∧ socks_ok w' ∧ w_sock4 w' = Some 40003.
Proof.
  split; [done|].
  assert (∀ net port n e, udp_sock_create4 net port n = inl e → e < 0) as E4 by (intros ? ? ? ? [=]).
  assert (∀ net port n e, udp_sock_create6 net port n = inl e → e < 0) as E6.
  { cbn. intros net port n e E. destruct (n <=? 2)%nat; by simplify_eq. }
  destruct (socket_init_spec E4 E6 0 demo_a eq_refl) as (r & w' & E & Hok & _).
  assert (r = 0 ∧ w_sock4 w' = Some 40003) as [-> H4].
  { vm_compute in E. injection E as <- <-. split; reflexivity. }
  exists w'. split; [exact E|]. split; [exact Hok|exact H4].
Defined.
