(* ===== verification/Send.v ===== *)
(** * The send path (send.c, and the queueing of queueing.h)

    Handshake messages and their rate limit; staged packets, the nonces they get,
    padding and encryption; the worker that encrypts and the one that transmits
    in order. *)
From S2P Require Import Prelude Messages Counter PeerLookup AllowedIPs Ratelimiter World Skb Noise NoiseProofs Demo Timers Cookie Socket.

(** ** What the networking core does for the module *)

(** [ip_tunnel_parse_protocol] is the protocol the IP header's version field says,
    0 for none; [ip_tunnel_ecn_encap] and [ip_tunnel_get_dsfield] compute the outer
    traffic class and read the packet's; [skb_checksum_help] fills in a pending
    checksum of the inner packet. *)
Class NetCore := {
  ip_tunnel_parse_protocol : sk_buff -> Z;
  ip_tunnel_ecn_encap : sk_buff -> Z;
  ip_tunnel_get_dsfield : sk_buff -> Z;
  inet_ecn_decapsulate : Z -> sk_buff -> sk_buff;
  skb_checksum_help : sk_buff -> option sk_buff;
  skb_is_gso : sk_buff -> bool;
  skb_gso_segment : sk_buff -> Z + list sk_buff;
  dst_mtu : sk_buff -> option Z;
  rng_is_initialized : bool;
}.

Definition ALIGN (x a : Z) : Z := u32 (x + a - 1) / a * a.
Definition DATA_PACKET_HEAD_ROOM : Z := ALIGN (Z.of_nat sizeof_message_data + SKB_HEADER_LEN) 4.

(** ** Queues *)

(** The rings have [MAX_QUEUED_PACKETS] slots; producing into a full one fails. *)
Inductive direction := Tx | Rx.
Definition ring_of (d : direction) (w : world) : list nat := match d with Tx => w_encrypt_queue w | Rx => w_decrypt_queue w end.
Definition set_ring (d : direction) (l : list nat) (w : world) : world :=
  match d with Tx => w <| w_encrypt_queue := l |> | Rx => w <| w_decrypt_queue := l |> end.
Definition ring_work (d : direction) : work := match d with Tx => Encrypt_work | Rx => Decrypt_work end.
Definition fifo_of (d : direction) (x : wg_peer) : packet_fifo := match d with Tx => tx_queue x | Rx => rx_queue x end.
Definition set_fifo (d : direction) (q : packet_fifo) (x : wg_peer) : wg_peer :=
  match d with Tx => x <| tx_queue := q |> | Rx => x <| rx_queue := q |> end.

Definition ptr_ring_produce_bh (d : direction) (s : nat) : M bool :=
  l ← gets (ring_of d);
  if Z.of_nat (length l) <? MAX_QUEUED_PACKETS then modify (set_ring d (l ++ [s]));; mret true else mret false.
Definition ptr_ring_consume_bh (d : direction) : M (option nat) :=
  l ← gets (ring_of d);
  match l with [] => mret None | s :: l => modify (set_ring d l);; mret (Some s) end.

Definition prev_queue_enqueue (p : nat) (d : direction) (s : nat) : M bool :=
  x ← get_peer p;
  let q := fifo_of d x in
  if Z.of_nat (length (fq_queued q)) =? MAX_QUEUED_PACKETS then mret false
  else set_peer p (set_fifo d (mk_fifo (fq_queued q ++ [s]) (fq_peeked q)));; mret true.
Definition prev_queue_peek (p : nat) (d : direction) : M (option nat) :=
  x ← get_peer p;
  let q := fifo_of d x in
  match fq_peeked q, fq_queued q with
  | Some s, _ => mret (Some s)
  | None, [] => mret None
  | None, s :: l => set_peer p (set_fifo d (mk_fifo l (Some s)));; mret (Some s)
  end.
Definition prev_queue_drop_peeked (p : nat) (d : direction) : M unit :=
  set_peer p (fun x => set_fifo d (mk_fifo (fq_queued (fifo_of d x)) None) x).

Definition wg_queue_enqueue_per_device_and_peer (d : direction) (p s : nat) : M Z :=
  set_skb s (fun b => b <| cb_state := PACKET_STATE_UNCRYPTED |>);;
  ok ← prev_queue_enqueue p d s;
  if negb ok then mret (- ENOSPC)
  else
    ok ← ptr_ring_produce_bh d s;
    if negb ok then mret (- EPIPE) else queue_work (ring_work d);; mret 0.

(** [PACKET_PEER]: the peer of the packet's keypair. *)
Definition PACKET_PEER (s : nat) : M nat :=
  b ← get_skb s; T ← gets w_index_hashtable;
  lift (k ← cb_keypair b; n ← ih_nodes T !! kp_entry k; ie_peer n).

Definition wg_queue_enqueue_per_peer_tx (s : nat) (state : packet_state) : M unit :=
  p ← PACKET_PEER s;
  wg_peer_get p;;
  set_skb s (fun b => b <| cb_state := state |>);;
  queue_work (Transmit_packet_work p);;
  wg_peer_put (Some p).

Section Send.
Context `{Crypto} `{HSipHash} `{Ticks} `{Routing} `{NetCore}.

(** ** Handshake messages *)

Definition now_to_last_sent (p : nat) : M unit :=
  now ← ktime_get_coarse_boottime_ns; set_peer p (fun x => x <| last_sent_handshake := now |>).

Definition wg_packet_send_handshake_initiation (p : nat) : M unit :=
  x ← get_peer p; now ← ktime_get_coarse_boottime_ns;
  if negb (wg_birthdate_has_expired now (last_sent_handshake x) REKEY_TIMEOUT) then mret tt
  else
    now_to_last_sent p;;
    o ← wg_noise_handshake_create_initiation p;
    match o with
    | None => mret tt
    | Some packet =>
      message ← wg_cookie_add_mac_to_packet (encode_initiation packet) p;
      wg_timers_any_authenticated_packet_traversal p;;
      wg_timers_any_authenticated_packet_sent p;;
      now_to_last_sent p;;
      wg_socket_send_buffer_to_peer p message HANDSHAKE_DSCP;;
      wg_timers_handshake_initiated p
    end.

Definition wg_packet_handshake_send_worker (p : nat) : M unit :=
  wg_packet_send_handshake_initiation p;; wg_peer_put (Some p).

Definition wg_packet_send_queued_handshake_initiation (p : nat) (is_retry : bool) : M unit :=
  when (negb is_retry) (set_peer p (fun x => x <| timer_handshake_attempts := 0 |>));;
  x ← get_peer p; now ← ktime_get_coarse_boottime_ns;
  if negb (wg_birthdate_has_expired now (last_sent_handshake x) REKEY_TIMEOUT) || is_dead x then mret tt
  else
    wg_peer_get p;;
    queued ← queue_work (Transmit_handshake_work p);
    when (negb queued) (wg_peer_put (Some p)).

Definition wg_packet_send_handshake_response (p : nat) : M unit :=
  now_to_last_sent p;;
  o ← wg_noise_handshake_create_response p;
  match o with
  | None => mret tt
  | Some packet =>
    message ← wg_cookie_add_mac_to_packet (encode_response packet) p;
    ok ← wg_noise_handshake_begin_session p;
    when ok
      (wg_timers_session_derived p;;
       wg_timers_any_authenticated_packet_traversal p;;
       wg_timers_any_authenticated_packet_sent p;;
       now_to_last_sent p;;
       wg_socket_send_buffer_to_peer p message HANDSHAKE_DSCP;;
       mret tt)
  end.

Definition wg_packet_send_handshake_cookie (initiating_skb : nat) (sender_index : Z) : M unit :=
  packet ← wg_cookie_message_create initiating_skb sender_index;
  wg_socket_send_buffer_as_reply_to_skb initiating_skb (encode_cookie packet);;
  mret tt.

Definition keep_key_fresh (p : nat) : M unit :=
  x ← get_peer p; now ← ktime_get_coarse_boottime_ns; kps ← gets w_keypairs;
  let send := match current_keypair (keypairs x) ≫= fun k => kps !! k with
    | Some kp => sk_is_valid (kp_sending kp) &&
        ((REKEY_AFTER_MESSAGES <? kp_sending_counter kp) ||
         (kp_i_am_the_initiator kp && wg_birthdate_has_expired now (sk_birthdate (kp_sending kp)) REKEY_AFTER_TIME))
    | None => false
    end in
  when send (wg_packet_send_queued_handshake_initiation p false).

(** ** Encryption *)

(** All of it in 32 bits. *)
Definition calculate_skb_padding (len mtu : Z) : Z :=
  if mtu =? 0 then u32 (ALIGN len MESSAGE_PADDING_MULTIPLE - len)
  else
    let last_unit := if mtu <? len then len mod mtu else len in
    let padded_size := Z.min mtu (ALIGN last_unit MESSAGE_PADDING_MULTIPLE) in
    u32 (padded_size - last_unit).

(** The message a buffer becomes: header, then the sealed plaintext and padding. *)
Definition data_message (index nonce : Z) (key plaintext : bytes) : bytes :=
  encode_data (mk_message_data MESSAGE_DATA index nonce (chacha20poly1305_encrypt plaintext [] nonce key)).

Definition encrypt_packet (s k : nat) : M bool :=
  b ← get_skb s; kp ← get_keypair k;
  let padding_len := calculate_skb_padding (skb_len b) (cb_mtu b) in
  let trailer_len := u32 (padding_len + Z.of_nat (noise_encrypted_len 0)) in
  ok ← alloc_ok;
  if negb ok then mret false
  else
    let b := skb_expand_tail trailer_len b in
    let b := skb_write (skb_tail b) (zeros (Z.to_nat padding_len)) b in
    set_skb s (fun _ => b);;
    ok ← alloc_ok;
    if negb ok then mret false
    else
      let b := skb_expand_head DATA_PACKET_HEAD_ROOM b in
      match (if skb_ip_summed b =? CHECKSUM_PARTIAL then skb_checksum_help b else Some b) with
      | None => mret false
      | Some b =>
        let plaintext := skb_bytes b (skb_data b) (skb_len b + padding_len) in
        b ← lift (skb_push (Z.of_nat sizeof_message_data) b);
        b ← lift (skb_put trailer_len b);
        set_skb s (fun _ => skb_write (skb_data b)
          (data_message (kp_remote_index kp) (cb_nonce b) (sk_key (kp_sending kp)) plaintext) b);;
        mret true
      end.

(** The headers the buffer came with are forgotten; the data become the packet. *)
Definition reset_skb (b : sk_buff) : sk_buff :=
  b <| skb_protocol := 0 |> <| skb_skb_iif := 0 |> <| skb_ip_summed := 0 |>
    <| skb_network_header := skb_data b |> <| skb_transport_header := skb_data b |>.
Definition wg_reset_packet (s : nat) : M unit := set_skb s reset_skb.

(** The chain, packet by packet, until one fails. *)
Fixpoint encrypt_chain (l : list nat) (k : nat) : M packet_state :=
  match l with
  | [] => mret PACKET_STATE_CRYPTED
  | s :: l =>
    ok ← encrypt_packet s k;
    if ok : bool then wg_reset_packet s;; encrypt_chain l k else mret PACKET_STATE_DEAD
  end.

Definition encrypt_one (first : nat) : M unit :=
  b ← get_skb first; k ← lift (cb_keypair b);
  l ← walk_chain first;
  state ← encrypt_chain l k;
  wg_queue_enqueue_per_peer_tx first state.

(** The loop runs once per packet in the ring; nothing it calls adds to the ring. *)
Fixpoint encrypt_loop (fuel : nat) : M unit :=
  o ← ptr_ring_consume_bh Tx;
  match o, fuel with
  | None, _ => mret tt
  | Some _, O => stuck
  | Some first, S fuel => encrypt_one first;; encrypt_loop fuel
  end.
Definition wg_packet_encrypt_worker : M unit := l ← gets w_encrypt_queue; encrypt_loop (length l).

(** ** Transmission *)

Fixpoint send_chain (p : nat) (l : list nat) (data_sent : bool) : M bool :=
  match l with
  | [] => mret data_sent
  | s :: l =>
    b ← get_skb s;
    let is_keepalive := skb_len b =? Z.of_nat (message_data_len 0) in
    ret ← wg_socket_send_skb_to_peer p s (cb_ds b);
    send_chain p l (data_sent || ((ret =? 0) && negb is_keepalive))
  end.

Definition wg_packet_create_data_done (p first : nat) : M unit :=
  wg_timers_any_authenticated_packet_traversal p;;
  wg_timers_any_authenticated_packet_sent p;;
  l ← walk_chain first;
  data_sent ← send_chain p l false;
  when data_sent (wg_timers_data_sent p);;
  keep_key_fresh p.

Fixpoint tx_loop (fuel p : nat) : M unit :=
  o ← prev_queue_peek p Tx;
  match o with
  | None => mret tt
  | Some first =>
    b ← get_skb first;
    if bool_decide (cb_state b = PACKET_STATE_UNCRYPTED) then mret tt
    else
      match fuel with
      | O => stuck
      | S fuel =>
        prev_queue_drop_peeked p Tx;;
        (if bool_decide (cb_state b = PACKET_STATE_CRYPTED) then wg_packet_create_data_done p first else kfree_skb_list first);;
        wg_noise_keypair_put (cb_keypair b) false;;
        wg_peer_put (Some p);;
        tx_loop fuel p
      end
  end.
Definition wg_packet_tx_worker (p : nat) : M unit :=
  x ← get_peer p; tx_loop (S (length (fq_queued (tx_queue x)))) p.

(** ** Staged packets *)

Definition wg_packet_create_data (p first : nat) : M unit :=
  x ← get_peer p;
  ret ← (if is_dead x then mret (- EINVAL)
         else
           ret ← wg_queue_enqueue_per_device_and_peer Tx p first;
           when (ret =? - EPIPE) (wg_queue_enqueue_per_peer_tx first PACKET_STATE_DEAD);;
           mret ret);
  if (ret =? 0) || (ret =? - EPIPE) then mret tt
  else
    b ← get_skb first;
    wg_noise_keypair_put (cb_keypair b) false;;
    wg_peer_put (Some p);;
    kfree_skb_list first.

(** One nonce for each packet; false when they run out. *)
Fixpoint assign_nonces (l : list nat) (k : nat) : M bool :=
  match l with
  | [] => mret true
  | s :: l =>
    b ← get_skb s; kp ← get_keypair k;
    let nonce := kp_sending_counter kp in
    set_keypair k (fun kp => kp <| kp_sending_counter := u64 (nonce + 1) |>);;
    set_skb s (fun b => b <| cb_ds := ip_tunnel_ecn_encap b |> <| cb_nonce := nonce |>);;
    if REJECT_AFTER_MESSAGES <=? nonce then mret false else assign_nonces l k
  end.

(** [out_nokey]: the packets go back to the front of the queue. *)
Definition out_nokey (p : nat) (keypair : option nat) (packets : list nat) : M unit :=
  wg_noise_keypair_put keypair false;;
  set_peer p (fun x => x <| staged_packet_queue ::= app packets |>);;
  wg_packet_send_queued_handshake_initiation p false.

Definition out_invalid (p k : nat) (packets : list nat) : M unit :=
  set_keypair k (fun kp => kp <| kp_sending ::= fun s => s <| sk_is_valid := false |> |>);;
  out_nokey p (Some k) packets.

Definition wg_packet_send_staged_packets (p : nat) : M unit :=
  x ← get_peer p;
  let packets := staged_packet_queue x in
  set_peer p (fun x => x <| staged_packet_queue := [] |>);;
  match packets with
  | [] => mret tt
  | first :: _ =>
    keypair ← wg_noise_keypair_get (current_keypair (keypairs x));
    match keypair with
    | None => out_nokey p None packets
    | Some k =>
      kp ← get_keypair k; now ← ktime_get_coarse_boottime_ns;
      if negb (sk_is_valid (kp_sending kp)) then out_nokey p (Some k) packets
      else if wg_birthdate_has_expired now (sk_birthdate (kp_sending kp)) REJECT_AFTER_TIME then out_invalid p k packets
      else
        ok ← assign_nonces packets k;
        if negb ok then out_invalid p k packets
        else
          link_chain packets;;
          T ← gets w_index_hashtable;
          owner ← lift (n ← ih_nodes T !! kp_entry k; ie_peer n);
          wg_peer_get owner;;
          set_skb first (fun b => b <| cb_keypair := Some k |>);;
          wg_packet_create_data p first
    end
  end.

Definition wg_packet_send_keepalive (p : nat) : M unit :=
  x ← get_peer p; mtu ← gets w_dev_mtu;
  ok ← (match staged_packet_queue x with
        | [] =>
          o ← alloc_skb (DATA_PACKET_HEAD_ROOM + Z.of_nat MESSAGE_MINIMUM_LENGTH);
          match o with
          | None => mret false
          | Some s =>
            set_skb s (fun b => (skb_reserve DATA_PACKET_HEAD_ROOM b) <| cb_mtu := mtu |>);;
            set_peer p (fun x => x <| staged_packet_queue ::= fun l => l ++ [s] |>);;
            mret true
          end
        | _ => mret true
        end);
  when ok (wg_packet_send_staged_packets p).
End Send.

(** ** Padding *)

Lemma ALIGN_spec x : 0 <= x → x + 15 < 2 ^ 32 → x <= ALIGN x 16 < x + 16 ∧ (16 | ALIGN x 16).
Proof.
  intros Hx Hb. unfold ALIGN, wrap. rewrite Z.mod_small by lia. split; [Z.to_euclidean_division_equations; lia|].
  apply Z.divide_factor_r.
Qed.

(** The part of the packet that is padded. *)
Definition last_unit (len mtu : Z) : Z := if (mtu =? 0) || (len <=? mtu) then len else len mod mtu.

Lemma padding_cases len mtu :
  0 <= len → len + 15 < 2 ^ 32 → 0 <= mtu < 2 ^ 32 →
  let n := calculate_skb_padding len mtu in let last := last_unit len mtu in
  0 <= n < 16 ∧ ((16 | last + n) ∨ last + n = mtu) ∧ (mtu ≠ 0 → last + n <= mtu).
Proof.
  intros Hl Hb Hm. unfold calculate_skb_padding, last_unit, MESSAGE_PADDING_MULTIPLE.
  destruct (Z.eqb_spec mtu 0) as [->|Hz]; cbn [orb].
  - pose proof (ALIGN_spec len Hl Hb) as [Ha Hd]. rewrite wrap_id by (split; lia).
    split_and!; [lia|lia|left|done]. by replace (len + _) with (ALIGN len 16) by lia.
  - replace (if mtu <? len then len mod mtu else len) with (if len <=? mtu then len else len mod mtu) by (bdestruct; lia).
    set (u := if len <=? mtu then len else len mod mtu).
    assert (0 <= u <= mtu ∧ u + 15 < 2 ^ 32) as [Hu Hu'].
    { unfold u. bdestruct; [lia|]. pose proof (Z.mod_pos_bound len mtu ltac:(lia)). pose proof (Z.mod_le len mtu ltac:(lia) ltac:(lia)). lia. }
    pose proof (ALIGN_spec u ltac:(lia) Hu') as [Ha Hd]. rewrite wrap_id by (split; lia).
    split_and!; [lia|lia| |lia]. destruct (Z.min_spec mtu (ALIGN u 16)) as [[? ->]|[? ->]]; [right; lia|left].
    by replace (u + _) with (ALIGN u 16) by lia.
Qed.

(** The padding is less than sixteen bytes and the 32-bit subtraction that computes it never underflows; the last
    unit of the packet is padded to a multiple of sixteen, or up to the MTU exactly, and never beyond it. *)
Theorem padding_bounds len mtu :
  0 <= len → len + 15 < 2 ^ 32 → 0 <= mtu < 2 ^ 32 →
  let n := calculate_skb_padding len mtu in let last := last_unit len mtu in
  0 <= n < 16 ∧ ((16 | last + n) ∨ last + n = mtu) ∧ (mtu ≠ 0 → last + n <= mtu).
Proof. apply padding_cases. Qed.

Lemma padding_bounds_witness :
  0 <= 1400 ∧ calculate_skb_padding 1400 1420 = 8 ∧ 0 <= calculate_skb_padding 1400 1420 < 16 ∧
  0 <= calculate_skb_padding 1419 1420 < 16 ∧ calculate_skb_padding 1419 1420 = 1.
Proof.
  pose proof (padding_bounds 1400 1420 ltac:(lia) ltac:(lia) ltac:(lia)) as (H1 & _).
  pose proof (padding_bounds 1419 1420 ltac:(lia) ltac:(lia) ltac:(lia)) as (H2 & _). split_and!; first [done|lia|apply H1|apply H2].
Defined.

(** ** Nonces *)

Section Nonces.
Context `{NetCore}.

(** A world with other keypairs and buffers. *)
Definition at_n (w : world) (K : gmap nat noise_keypair) (S : gmap nat sk_buff) : world :=
  w <| w_keypairs := K |> <| w_skbs := S |>.

(** A packet of the list that was given its nonce, and everything else the same. *)
Record numbered (l : list nat) (c : Z) (S S' : gmap nat sk_buff) : Prop := {
  nu_nonce i s : l !! i = Some s → ∃ b, S !! s = Some b ∧
    S' !! s = Some (b <| cb_ds := ip_tunnel_ecn_encap b |> <| cb_nonce := c + Z.of_nat i |>);
  nu_other s : s ∉ l → S' !! s = S !! s;
}.

Lemma assign_step s l k w K S b kp :
  S !! s = Some b → K !! k = Some kp →
  assign_nonces (s :: l) k (at_n w K S) =
    (if REJECT_AFTER_MESSAGES <=? kp_sending_counter kp then mret false else assign_nonces l k)
      (at_n w (<[k := kp <| kp_sending_counter := u64 (kp_sending_counter kp + 1) |>]> K)
              (<[s := b <| cb_ds := ip_tunnel_ecn_encap b |> <| cb_nonce := kp_sending_counter kp |>]> S)).
Proof.
  intros Hs Hk. cbn [assign_nonces]. erewrite bind_run by (apply get_skb_run; exact Hs).
  erewrite bind_run by (apply get_keypair_run; exact Hk). cbv zeta.
  erewrite bind_run by (apply set_keypair_run; exact Hk).
  erewrite bind_run by (apply set_skb_run; exact Hs). reflexivity.
Qed.

Lemma numbered_cons s l c S S' b :
  s ∉ l → S !! s = Some b →
  numbered l (c + 1) (<[s := b <| cb_ds := ip_tunnel_ecn_encap b |> <| cb_nonce := c |>]> S) S' → numbered (s :: l) c S S'.
Proof.
  intros Hs Hb [Hn Ho]. split.
  - intros [|i] s' Hi; cbn in Hi.
    + injection Hi as <-. exists b. split; [done|]. rewrite Ho, lookup_insert_eq by done. by replace (c + Z.of_nat 0) with c by lia.
    + destruct (Hn i s' Hi) as (b' & Hb' & Hn'). assert (s ≠ s') by (intros ->; by apply Hs, list_elem_of_lookup_2 with i).
      rewrite lookup_insert_ne in Hb' by done. exists b'. split; [done|]. by replace (c + Z.of_nat (Datatypes.S i)) with (c + 1 + Z.of_nat i) by lia.
  - intros s' Hs'. rewrite not_elem_of_cons in Hs'. destruct Hs'. rewrite Ho, lookup_insert_ne by done. done.
Qed.

Lemma assign_nonces_run l k w K S kp :
  let c := kp_sending_counter kp in
  K !! k = Some kp → NoDup l → Forall (fun s => is_Some (S !! s)) l → 0 <= c → c + Z.of_nat (length l) < 2 ^ 64 →
  ∃ ok c' S', assign_nonces l k (at_n w K S) = Some (ok, at_n w (<[k := kp <| kp_sending_counter := c' |>]> K) S') ∧
    (ok = true ↔ l = [] ∨ c + Z.of_nat (length l) <= REJECT_AFTER_MESSAGES) ∧
    (ok = true → c' = c + Z.of_nat (length l) ∧ numbered l c S S') ∧
    (ok = false → REJECT_AFTER_MESSAGES < c').
Proof.
  intros c Hk Hd Hl Hc Hb. revert kp c K S Hk Hl Hc Hb. induction Hd as [|s l Hs Hd IH]; intros kp c K S Hk Hl Hc Hb.
  - exists true, c, S. split; [|split; [|split; [|done]]].
    + rewrite insert_id; [done|]. rewrite Hk. by destruct kp.
    + split; [by left|done].
    + intros _. split; [cbn; lia|]. by split.
  - rewrite Forall_cons in Hl. destruct Hl as [[b Hsb] Hl]. cbn [length] in *.
    rewrite (assign_step s l k w K S b kp) by done. fold c. rewrite wrap_id by (split; lia).
    destruct (Z.leb_spec REJECT_AFTER_MESSAGES c) as [Hle|Hlt].
    { exists false, (c + 1). eexists. split; [reflexivity|]. split; [|split; [done|lia]]. split; [done|]. intros [?|?]; [done|lia]. }
    destruct (IH (kp <| kp_sending_counter := c + 1 |>) (<[k := kp <| kp_sending_counter := c + 1 |>]> K)
      (<[s := b <| cb_ds := ip_tunnel_ecn_encap b |> <| cb_nonce := c |>]> S)) as (ok & c' & S' & E & Hok & Ht & Hf).
    + apply lookup_insert_eq.
    + eapply Forall_impl; [exact Hl|]. intros s' [b' Hb']. destruct (decide (s = s')) as [->|Hn];
        [rewrite lookup_insert_eq; eauto|rewrite lookup_insert_ne by exact Hn; exists b'; exact Hb'].
    + cbn. lia.
    + cbn. lia.
    + rewrite insert_insert_eq in E. cbn in Hok, Ht, Hf. exists ok, c', S'. split; [exact E|]. split; [|split; [intros Hk'; destruct (Ht Hk')|exact Hf]].
      * rewrite Hok. split; [|intros [?|?]; [done|right; lia]].
        intros [->|?]; [cbn; right; lia|right; lia].
      * split; [lia|]. by eapply numbered_cons.
Qed.

(** C9: the packets that are sent together get consecutive nonces from the keypair's counter on, all below the limit,
    and the counter moves past them, so that no later packet gets one of them again; when the limit does not leave room
    for all of them none may be sent, and the counter is left beyond the limit, so that none ever is. *)
Theorem assign_nonces_spec l k w kp :
  let c := kp_sending_counter kp in
  w_keypairs w !! k = Some kp → NoDup l → Forall (fun s => is_Some (w_skbs w !! s)) l →
  0 <= c → c + Z.of_nat (length l) < 2 ^ 64 →
  ∃ ok c' S', assign_nonces l k w = Some (ok, at_n w (<[k := kp <| kp_sending_counter := c' |>]> (w_keypairs w)) S') ∧
    (ok = true ↔ l = [] ∨ c + Z.of_nat (length l) <= REJECT_AFTER_MESSAGES) ∧
    (ok = true → c' = c + Z.of_nat (length l) ∧ numbered l c (w_skbs w) S') ∧
    (ok = false → REJECT_AFTER_MESSAGES < c').
Proof.
  intros c Hk Hd Hl Hc Hb. destruct (assign_nonces_run l k w (w_keypairs w) (w_skbs w) kp Hk Hd Hl Hc Hb) as (ok & c' & S' & E & Hr).
  exists ok, c', S'. split; [|exact Hr]. rewrite <- E. by destruct w.
Qed.
End Nonces.

(** ** Encryption *)

Section Encryption.
Context `{CryptoOk} `{NetCore}.

Lemma data_message_length index nonce key m :
  length (data_message index nonce key m) = (sizeof_message_data + noise_encrypted_len (length m))%nat.
Proof.
  unfold data_message, encode_data. cbn [data_type data_key_idx data_counter data_encrypted_data].
  by rewrite !length_app, !length_le_split, aead_length.
Qed.

(** The zeroed padding behind the packet. *)
Definition padded (b : sk_buff) : bytes :=
  skb_contents b ++ zeros (Z.to_nat (calculate_skb_padding (skb_len b) (cb_mtu b))).

(** A packet whose checksum is not pending, with memory to spare, becomes the data message of its contents. *)
Lemma encrypt_packet_run s k w b kp :
  w_skbs w !! s = Some b → w_keypairs w !! k = Some kp → skb_ok b → w_alloc_fails w = [] →
  skb_ip_summed b ≠ CHECKSUM_PARTIAL → skb_len b + 15 < 2 ^ 32 → 0 <= cb_mtu b < 2 ^ 32 →
  ∃ w' b' pre post, encrypt_packet s k w = Some (true, w') ∧ w_skbs w' = <[s := b']> (w_skbs w) ∧
    holds b' pre (data_message (kp_remote_index kp) (cb_nonce b) (sk_key (kp_sending kp)) (padded b)) post.
Proof.
  intros Hb Hk Hok Ha Hsum Hlen Hmtu. destruct (ok_holds b Hok) as (pre & post & Hh).
  pose proof (padding_cases (skb_len b) (cb_mtu b) ltac:(apply Hok) Hlen Hmtu) as [Hpad _]. cbv zeta in Hpad.
  unfold encrypt_packet, padded. erewrite bind_run by (apply get_skb_run; exact Hb). erewrite bind_run by (apply get_keypair_run; exact Hk).
  set (pad := calculate_skb_padding (skb_len b) (cb_mtu b)) in *. cbv zeta.
  assert (alloc_ok w = Some (true, w)) as Eal by (unfold alloc_ok; by rewrite Ha).
  erewrite bind_run by exact Eal. cbn [negb].
  change (Z.of_nat (noise_encrypted_len 0)) with 16. rewrite wrap_id by (split; lia).
  set (trailer := pad + 16).
  destruct (holds_expand_tail b _ _ _ trailer Hh) as (post1 & Hh1 & Hp1).
  set (b1 := skb_expand_tail trailer b) in *.
  destruct (split_at post1 (Z.to_nat pad)) as (z & rest & -> & Hz); [unfold trailer in *; lia|].
  pose proof (holds_write_tail b1 _ _ _ _ (zeros (Z.to_nat pad)) Hh1 ltac:(by rewrite length_zeros)) as Hh2.
  set (b2 := skb_write (skb_tail b1) (zeros (Z.to_nat pad)) b1) in *.
  erewrite bind_run by (apply set_skb_run; exact Hb).
  set (w1 := w <| w_skbs := _ |>).
  assert (alloc_ok w1 = Some (true, w1)) as Eal1 by (unfold alloc_ok; change (w_alloc_fails w1) with (w_alloc_fails w); by rewrite Ha).
  erewrite bind_run by exact Eal1. cbn [negb].
  destruct (holds_expand_head b2 _ _ _ DATA_PACKET_HEAD_ROOM Hh2) as (pre3 & Hh3 & Hp3).
  set (b3 := skb_expand_head DATA_PACKET_HEAD_ROOM b2) in *.
  change (skb_ip_summed b3) with (skb_ip_summed b). destruct (Z.eqb_spec (skb_ip_summed b) CHECKSUM_PARTIAL); [done|].
  set (text := skb_contents b ++ zeros (Z.to_nat pad)).
  assert (Z.of_nat (length text) = skb_len b3 + pad) as Ht.
  { rewrite (ho_len _ _ _ _ Hh3). unfold text. rewrite length_app, length_zeros. lia. }
  rewrite <- Ht, (holds_bytes b3 _ _ _ text rest Hh3) by (unfold text; by rewrite app_assoc).
  destruct (split_at_end pre3 sizeof_message_data) as (p1 & p2 & -> & Hp2).
  { change DATA_PACKET_HEAD_ROOM with 128 in Hp3. unfold sizeof_message_data. lia. }
  destruct (holds_push b3 _ _ _ _ (Z.of_nat sizeof_message_data) Hh3 ltac:(by rewrite Hp2)) as (b4 & E4 & Hh4 & Hb4).
  rewrite length_app in Hp1.
  destruct (split_at rest 16) as (tag & rest' & -> & Htag); [unfold trailer in *; lia|].
  rewrite (app_assoc (zeros _) tag rest') in Hh4.
  destruct (holds_put b4 _ _ _ _ trailer Hh4 ltac:(rewrite length_app, length_zeros; unfold trailer; lia)) as (b5 & E5 & Hh5 & Hb5).
  erewrite bind_run by (unfold lift; rewrite E4; reflexivity). erewrite bind_run by (unfold lift; rewrite E5; reflexivity).
  erewrite bind_run by (apply set_skb_run, lookup_insert_eq).
  assert (cb_nonce b5 = cb_nonce b) as -> by (subst b5 b4; reflexivity).
  set (msg := data_message _ _ _ _).
  pose proof (holds_write_data b5 p1 ((p2 ++ skb_contents b) ++ zeros (Z.to_nat pad) ++ tag) [] rest' msg) as Hh6.
  rewrite !app_nil_r in Hh6. specialize (Hh6 Hh5).
  eexists _, _, p1, rest'. split; [reflexivity|]. split; [apply insert_insert_eq|]. apply Hh6.
  unfold msg. rewrite data_message_length. unfold text. rewrite !length_app, length_zeros, Hp2, Htag.
  unfold noise_encrypted_len, NOISE_AUTHTAG_LEN, CHACHA20POLY1305_AUTHTAG_SIZE. lia.
Qed.
End Encryption.

(** A networking core that reads the IP version and leaves everything else alone. *)
#[export] Instance demo_netcore : NetCore := {|
  ip_tunnel_parse_protocol b :=
    let version := Z.shiftr (le_combine (skb_bytes b (skb_network_header b) 1)) 4 in
    if version =? 4 then ETH_P_IP else if version =? 6 then ETH_P_IPV6 else 0;
  ip_tunnel_ecn_encap _ := 0;
  ip_tunnel_get_dsfield _ := 0;
  inet_ecn_decapsulate _ b := b;
  skb_checksum_help _ := None;
  skb_is_gso _ := false;
  skb_gso_segment b := inr [b];
  dst_mtu _ := None;
  rng_is_initialized := true;
|}.

(** The last two nonces of a keypair, and one too many. *)
Definition demo_staged (c : Z) : world :=
  demo_a <| w_keypairs := {[3%nat := (demo_keypair 40) <| kp_sending_counter := c |>]} |>
    <| w_skbs := {[7%nat := mk_skb (zeros 32) 0 32 0 0 ETH_P_IP 0 0 None 0 None PACKET_STATE_UNCRYPTED 0 0;
                   8%nat := mk_skb (zeros 32) 0 32 0 0 ETH_P_IP 0 0 None 0 None PACKET_STATE_UNCRYPTED 0 0]} |>.

Lemma assign_nonces_spec_witness :
  let c := REJECT_AFTER_MESSAGES - 2 in
  ∃ S', assign_nonces [7%nat; 8%nat] 3 (demo_staged c) =
      Some (true, at_n (demo_staged c)
        (<[3%nat := (demo_keypair 40) <| kp_sending_counter := c |> <| kp_sending_counter := c + 2 |>]> (w_keypairs (demo_staged c))) S') ∧
    numbered [7%nat; 8%nat] c (w_skbs (demo_staged c)) S'.
Proof.
  intros c.
  destruct (assign_nonces_spec [7%nat; 8%nat] 3 (demo_staged c) ((demo_keypair 40) <| kp_sending_counter := c |>))
    as (ok & c' & S' & E & Hok & Ht & _).
  - reflexivity.
  - apply NoDup_cons. split; [set_solver|apply NoDup_singleton].
  - repeat constructor; by eexists.
  - by vm_compute.
  - by vm_compute.
  - assert (ok = true) as -> by (apply Hok; right; vm_compute; congruence). destruct (Ht eq_refl) as [-> Hn]. by exists S'.
Defined.
