(* ===== verification/Receive.v ===== *)
(** * The receive path, packet by packet (receive.c)

    What RxWake.v leaves out: parsing and checking of the packet, handshake
    messages, decryption, the checks on what was decrypted and delivery.  The
    wake-ups are those of the unmodified module here (every knob at zero). *)
From S2P Require Import Prelude Messages Counter PeerLookup AllowedIPs Ratelimiter World Skb Noise NoiseProofs Demo Timers Cookie Socket Send.

Section Receive.
Context `{Crypto} `{SipHash} `{HSipHash} `{Ticks} `{Routing} `{NetCore}.

Definition update_rx_stats (p : nat) (len : Z) : M unit :=
  modify (fun w => w <| w_stats ::= fun s => s <| st_rx_packets ::= Z.succ |> <| st_rx_bytes ::= Z.add len |> |>);;
  set_peer p (fun x => x <| rx_bytes := u64 (rx_bytes x + len) |>).

Definition wg_check_packet_protocol (b : sk_buff) : bool :=
  let real_protocol := ip_tunnel_parse_protocol b in
  negb (real_protocol =? 0) && (skb_protocol b =? real_protocol).

(** The error and the buffer as it is left; no result for an access out of bounds. *)
Definition prepare_skb_header (b : sk_buff) : option (Z * sk_buff) :=
  let udp := skb_transport_header b in
  if negb (wg_check_packet_protocol b) || (udp <? 0) || (skb_tail b <? udp + sizeof_udphdr) then Some (- EINVAL, b)
  else
    let data_offset := u64 (udp - skb_data b) in
    if (U16_MAX <? data_offset) || (skb_len b <? data_offset + sizeof_udphdr) then Some (- EINVAL, b)
    else
      data_len ← be_combine <$> skb_read b (udp + 4) 2;
      if (data_len <? sizeof_udphdr) || (skb_len b - data_offset <? data_len) then Some (- EINVAL, b)
      else
        let data_len := data_len - sizeof_udphdr in
        let data_offset := u64 (udp + sizeof_udphdr - skb_data b) in
        if negb (pskb_may_pull (data_offset + Z.of_nat sizeof_message_header) b) then Some (- EINVAL, b)
        else
          let b := skb_pull data_offset (pskb_trim (data_len + data_offset) b) in
          if negb (skb_len b =? data_len) then Some (- EINVAL, b)
          else
            let header_len := Z.of_nat (validate_header_len (skb_contents b)) in
            if header_len =? 0 then Some (- EINVAL, b)
            else
              b ← skb_push data_offset b;
              if negb (pskb_may_pull (data_offset + header_len) b) then Some (- EINVAL, b)
              else b ← __skb_pull data_offset b; Some (0, b).

(** ** Handshake messages *)

(** Whether the device is under load, remembered for a second. *)
Definition under_load : M bool :=
  n ← gets w_handshake_queue_len; now ← ktime_get_coarse_boottime_ns; last ← gets w_last_under_load;
  if MAX_QUEUED_INCOMING_HANDSHAKES / 8 <=? n then modify (fun w => w <| w_last_under_load := now |>);; mret true
  else if last =? 0 then mret false
  else
    let load := negb (wg_birthdate_has_expired now last 1) in
    when (negb load) (modify (fun w => w <| w_last_under_load := 0 |>));; mret load.

Definition receive_initiation (s : nat) (packet_needs_cookie : bool) : M (option nat) :=
  b ← get_skb s;
  let message := decode_initiation (skb_contents b) in
  if packet_needs_cookie then wg_packet_send_handshake_cookie s (init_sender_index message);; mret None
  else
    o ← wg_noise_handshake_consume_initiation message;
    match o with
    | None => mret None
    | Some p =>
      wg_socket_set_peer_endpoint_from_skb p s;;
      wg_packet_send_handshake_response p;;
      mret (Some p)
    end.

Definition receive_response (s : nat) (packet_needs_cookie : bool) : M (option nat) :=
  b ← get_skb s;
  let message := decode_response (skb_contents b) in
  if packet_needs_cookie then wg_packet_send_handshake_cookie s (resp_sender_index message);; mret None
  else
    o ← wg_noise_handshake_consume_response message;
    match o with
    | None => mret None
    | Some p =>
      wg_socket_set_peer_endpoint_from_skb p s;;
      ok ← wg_noise_handshake_begin_session p;
      when ok (wg_timers_session_derived p;; wg_timers_handshake_complete p;; wg_packet_send_keepalive p);;
      mret (Some p)
    end.

Definition wg_receive_handshake_packet (s : nat) : M unit :=
  b ← get_skb s;
  let type := SKB_TYPE_LE32 (skb_contents b) in
  if type =? MESSAGE_HANDSHAKE_COOKIE then wg_cookie_message_consume (decode_cookie (skb_contents b))
  else
    load ← under_load;
    mac_state ← wg_cookie_validate_packet s load;
    let needs_cookie :=
      if (load && bool_decide (mac_state = VALID_MAC_WITH_COOKIE)) ||
         (negb load && bool_decide (mac_state = VALID_MAC_BUT_NO_COOKIE)) then Some false
      else if load && bool_decide (mac_state = VALID_MAC_BUT_NO_COOKIE) then Some true
      else None in
    match needs_cookie with
    | None => mret tt
    | Some packet_needs_cookie =>
      o ← (if type =? MESSAGE_HANDSHAKE_INITIATION then receive_initiation s packet_needs_cookie
           else if type =? MESSAGE_HANDSHAKE_RESPONSE then receive_response s packet_needs_cookie
           else mret None);
      match o with
      | None => mret tt
      | Some p =>
        update_rx_stats p (skb_len b);;
        wg_timers_any_authenticated_packet_received p;;
        wg_timers_any_authenticated_packet_traversal p;;
        wg_peer_put (Some p)
      end
    end.

(** The worker's loop; nothing it calls adds to the handshake ring. *)
Fixpoint handshake_loop (fuel : nat) : M unit :=
  l ← gets w_handshake_queue;
  match l, fuel with
  | [], _ => mret tt
  | _, O => stuck
  | s :: l, S fuel =>
    modify (fun w => w <| w_handshake_queue := l |>);;
    wg_receive_handshake_packet s;;
    kfree_skb s;;
    modify (fun w => w <| w_handshake_queue_len ::= Z.pred |>);;
    handshake_loop fuel
  end.
Definition wg_packet_handshake_receive_worker : M unit := l ← gets w_handshake_queue; handshake_loop (length l).

(** ** Data *)

(** receive.c's [keep_key_fresh]. *)
Definition rx_keep_key_fresh (p : nat) : M unit :=
  x ← get_peer p; now ← ktime_get_coarse_boottime_ns; kps ← gets w_keypairs;
  if sent_lastminute_handshake x then mret tt
  else
    let send := match current_keypair (keypairs x) ≫= fun k => kps !! k with
      | Some kp => sk_is_valid (kp_sending kp) && kp_i_am_the_initiator kp &&
          wg_birthdate_has_expired now (sk_birthdate (kp_sending kp)) (REJECT_AFTER_TIME - KEEPALIVE_TIMEOUT - REKEY_TIMEOUT)
      | None => false
      end in
    when send
      (set_peer p (fun x => x <| sent_lastminute_handshake := true |>);;
       wg_packet_send_queued_handshake_initiation p false).

(** The key may still be used for receiving. *)
Definition receiving_key_ok (now : Z) (kp : noise_keypair) : bool :=
  sk_is_valid (kp_receiving kp) && negb (wg_birthdate_has_expired now (sk_birthdate (kp_receiving kp)) REJECT_AFTER_TIME) &&
  negb (REJECT_AFTER_MESSAGES <=? counter (kp_receiving_counter kp)).

(** What is left of a data message after decryption in place: the plaintext where
    the ciphertext was, the header before it as head room. *)
Definition decrypt_buffer (key : bytes) (b : sk_buff) : option (option sk_buff) :=
  header ← skb_read b (skb_data b) (Z.of_nat sizeof_message_data);
  let nonce := data_counter (decode_data header) in
  let b := b <| cb_nonce := nonce |> in
  let offset := skb_data b - skb_network_header b in
  b ← skb_push offset b;
  let offset := offset + Z.of_nat sizeof_message_data in
  let b := skb_pull offset b in
  match chacha20poly1305_decrypt (skb_contents b) [] nonce key with
  | None => Some None
  | Some plaintext =>
    let b := skb_write (skb_data b) plaintext b in
    b ← skb_push offset b;
    Some (Some (skb_pull offset (pskb_trim (skb_len b - Z.of_nat (noise_encrypted_len 0)) b)))
  end.

(** A packet that fails is freed later whatever it holds; its buffer is left alone. *)
Definition decrypt_packet (s : nat) (keypair : option nat) : M bool :=
  match keypair with
  | None => mret false
  | Some k =>
    kp ← get_keypair k; now ← ktime_get_coarse_boottime_ns;
    if negb (receiving_key_ok now kp) then
      set_keypair k (fun kp => kp <| kp_receiving ::= fun r => r <| sk_is_valid := false |> |>);; mret false
    else
      b ← get_skb s;
      ok ← alloc_ok;
      if negb ok then mret false
      else
        r ← lift (decrypt_buffer (sk_key (kp_receiving kp)) b);
        match r with
        | None => mret false
        | Some b => set_skb s (fun _ => b);; mret true
        end
  end.

(** [wg_queue_enqueue_per_peer_rx] with every knob at zero: any completion wakes the poll. *)
Definition enqueue_per_peer_rx (s : nat) (state : packet_state) : M unit :=
  p ← PACKET_PEER s;
  wg_peer_get p;;
  set_skb s (fun b => b <| cb_state := state |>);;
  queue_work (Napi_poll p);;
  wg_peer_put (Some p).

Fixpoint decrypt_loop (fuel : nat) : M unit :=
  o ← ptr_ring_consume_bh Rx;
  match o, fuel with
  | None, _ => mret tt
  | Some _, O => stuck
  | Some s, S fuel =>
    b ← get_skb s;
    ok ← decrypt_packet s (cb_keypair b);
    enqueue_per_peer_rx s (if ok : bool then PACKET_STATE_CRYPTED else PACKET_STATE_DEAD);;
    decrypt_loop fuel
  end.
(** [wg_packet_decrypt_worker], packet by packet. *)
Definition decrypt_worker : M unit := l ← gets w_decrypt_queue; decrypt_loop (length l).

Definition napi_gro_receive (p s : nat) : M unit := modify (fun w => w <| w_delivered ::= fun l => l ++ [(p, s)] |>).

Definition rx_error (f : net_stats -> net_stats) : M unit :=
  modify (fun w => w <| w_stats ::= fun s => f (s <| st_rx_errors ::= Z.succ |>) |>).

(** [ip_hdr(skb)->version], and the length the inner header claims. *)
Definition ip_version (b : sk_buff) : Z := Z.shiftr (le_combine (skb_bytes b (skb_network_header b) 1)) 4.
Definition ip_tot_len (b : sk_buff) : Z := be_combine (skb_bytes b (skb_network_header b + 2) 2).
Definition ipv6_payload_len (b : sk_buff) : Z := be_combine (skb_bytes b (skb_network_header b + 4) 2).
Definition pskb_network_may_pull (n : Z) (b : sk_buff) : bool := pskb_may_pull (skb_network_header b - skb_data b + n) b.

(** The verdict on a decrypted packet, with the packet as it would be delivered. *)
Inductive verdict := Dishonest_type | Dishonest_size | Inner (b : sk_buff).

Definition inner_packet (b : sk_buff) : verdict :=
  if skb_network_header b <? 0 then Dishonest_size
  else if negb (pskb_network_may_pull sizeof_iphdr b &&
           ((ip_version b =? 4) || ((ip_version b =? 6) && pskb_network_may_pull sizeof_ipv6hdr b))) then Dishonest_type
  else
    let b := b <| skb_ip_summed := CHECKSUM_UNNECESSARY |> in
    let b := b <| skb_protocol := ip_tunnel_parse_protocol b |> in
    let checked b (len : Z) := if skb_len b <? len then Dishonest_size else Inner (pskb_trim len b) in
    if skb_protocol b =? ETH_P_IP then
      let len := ip_tot_len b in
      if len <? sizeof_iphdr then Dishonest_size else checked (inet_ecn_decapsulate (cb_ds b) b) len
    else if skb_protocol b =? ETH_P_IPV6 then
      checked (inet_ecn_decapsulate (cb_ds b) b) (ipv6_payload_len b + sizeof_ipv6hdr)
    else Dishonest_type.

(** The inner source address. *)
Definition src_addr (b : sk_buff) : packet_addr :=
  if skb_protocol b =? ETH_P_IP then Addr_v4 (ip_saddr b)
  else if skb_protocol b =? ETH_P_IPV6 then Addr_v6 (ipv6_saddr b) else Addr_none.

Definition lookup_src (a : packet_addr) : M (option nat) :=
  t ← gets w_peer_allowedips; refs ← gets w_refs;
  '(refs, o) ← lift (wg_allowedips_lookup_src t refs a);
  modify (fun w => w <| w_refs := refs |>);; mret o.

Definition deliver (p s : nat) (b : sk_buff) : M unit :=
  match inner_packet b with
  | Dishonest_size => rx_error (fun s => s <| st_rx_length_errors ::= Z.succ |>);; kfree_skb s
  | Dishonest_type => rx_error (fun s => s <| st_rx_frame_errors ::= Z.succ |>);; kfree_skb s
  | Inner b' =>
    set_skb s (fun _ => b');;
    routed_peer ← lookup_src (src_addr b');
    wg_peer_put routed_peer;;
    if negb (bool_decide (routed_peer = Some p)) then
      rx_error (fun s => s <| st_rx_frame_errors ::= Z.succ |>);; kfree_skb s
    else napi_gro_receive p s;; update_rx_stats p (Z.of_nat (message_data_len (Z.to_nat (skb_len b))))
  end.

Definition wg_packet_consume_data_done (p s : nat) (e : endpoint) : M unit :=
  b ← get_skb s;
  wg_socket_set_peer_endpoint p e;;
  confirmed ← wg_noise_received_with_keypair p (cb_keypair b);
  when confirmed (wg_timers_handshake_complete p;; wg_packet_send_staged_packets p);;
  rx_keep_key_fresh p;;
  wg_timers_any_authenticated_packet_received p;;
  wg_timers_any_authenticated_packet_traversal p;;
  if skb_len b =? 0 then update_rx_stats p (Z.of_nat (message_data_len 0));; kfree_skb s
  else wg_timers_data_received p;; deliver p s b.

(** The body of the poll's loop: one packet that is no longer encrypted. *)
Definition rx_packet (p s : nat) : M unit :=
  b ← get_skb s;
  k ← lift (cb_keypair b);
  free ← (if negb (bool_decide (cb_state b = PACKET_STATE_CRYPTED)) then mret true
          else
            kp ← get_keypair k;
            let '(c, ok) := counter_validate (kp_receiving_counter kp) (cb_nonce b) in
            set_keypair k (fun kp => kp <| kp_receiving_counter := c |>);;
            if negb ok then mret true
            else
              match wg_socket_endpoint_from_skb b with
              | None => mret true
              | Some e => wg_reset_packet s;; wg_packet_consume_data_done p s e;; mret false
              end);
  wg_noise_keypair_put (Some k) false;;
  wg_peer_put (Some p);;
  when free (kfree_skb s).

(** The poll's delivery loop, at most [budget] packets; the number delivered. *)
Fixpoint rx_loop (budget p work_done : nat) : M nat :=
  match budget with
  | O => mret work_done
  | S budget =>
    o ← prev_queue_peek p Rx;
    match o with
    | None => mret work_done
    | Some s =>
      b ← get_skb s;
      if bool_decide (cb_state b = PACKET_STATE_UNCRYPTED) then mret work_done
      else prev_queue_drop_peeked p Rx;; rx_packet p s;; rx_loop budget p (S work_done)
    end
  end.

Definition wg_packet_consume_data (s : nat) : M unit :=
  b ← get_skb s;
  let idx := data_key_idx (decode_data (skb_contents b)) in
  r ← index_lookup INDEX_HASHTABLE_KEYPAIR idx;
  let peer := snd <$> r in
  set_skb s (fun b => b <| cb_keypair := entry_owner ∘ fst <$> r |>);;
  k ← wg_noise_keypair_get (entry_owner ∘ fst <$> r);
  match k, peer with
  | Some k, Some p =>
    x ← get_peer p;
    ret ← (if is_dead x then mret (- EINVAL)
           else
             ret ← wg_queue_enqueue_per_device_and_peer Rx p s;
             when (ret =? - EPIPE) (enqueue_per_peer_rx s PACKET_STATE_DEAD);;
             mret ret);
    if (ret =? 0) || (ret =? - EPIPE) then mret tt
    else wg_noise_keypair_put (Some k) false;; wg_peer_put (Some p);; kfree_skb s
  | _, _ => wg_peer_put peer;; kfree_skb s
  end.

(** The ring of [MAX_QUEUED_INCOMING_HANDSHAKES]; its lock is not contended here. *)
Definition receive_handshake (s : nat) : M unit :=
  l ← gets w_handshake_queue;
  if negb rng_is_initialized || (MAX_QUEUED_INCOMING_HANDSHAKES <=? Z.of_nat (length l)) then kfree_skb s
  else
    modify (fun w => w <| w_handshake_queue := l ++ [s] |> <| w_handshake_queue_len ::= Z.succ |>);;
    queue_work Handshake_receive_work;; mret tt.

Definition wg_packet_receive (s : nat) : M unit :=
  b ← get_skb s;
  '(ret, b) ← lift (prepare_skb_header b);
  set_skb s (fun _ => b);;
  if ret <? 0 then kfree_skb s
  else
    let type := SKB_TYPE_LE32 (skb_contents b) in
    if bool_decide (type ∈ [MESSAGE_HANDSHAKE_INITIATION; MESSAGE_HANDSHAKE_RESPONSE; MESSAGE_HANDSHAKE_COOKIE])
    then receive_handshake s
    else if type =? MESSAGE_DATA then
      set_skb s (fun b => b <| cb_ds := ip_tunnel_get_dsfield b |>);; wg_packet_consume_data s
    else kfree_skb s.

(** The socket's callback; [wg] is whether the socket still belongs to the device. *)
Definition wg_receive (wg : bool) (s : nat) : M Z :=
  (if wg then mark_not_on_list s;; wg_packet_receive s else kfree_skb s);; mret 0.
End Receive.

(** ** A data message, from one end to the other *)

Section RoundTrip.
Context `{CryptoOk} `{NetCore}.

(** The message in a received buffer, with the packet's headers before it. *)
Lemma decrypt_buffer_run rb index nonce key text pre post :
  holds rb pre (data_message index nonce key text) post → 0 <= skb_network_header rb <= skb_data rb → fits 64 nonce →
  ∃ rb' pre' post', decrypt_buffer key rb = Some (Some rb') ∧ holds rb' pre' text post' ∧ cb_nonce rb' = nonce.
Proof.
  intros Hh Hn Hf. set (hdr := le_split 4 MESSAGE_DATA ++ le_split 4 index ++ le_split 8 nonce).
  set (ct := chacha20poly1305_encrypt text [] nonce key).
  assert (data_message index nonce key text = hdr ++ ct) as Em.
  { unfold data_message, encode_data, hdr. by rewrite <- !app_assoc. }
  rewrite Em in Hh. assert (length hdr = sizeof_message_data) as Hhdr by (unfold hdr; by rewrite !length_app, !length_le_split).
  unfold decrypt_buffer. rewrite <- Hhdr, (holds_read _ _ _ _ _ Hh). cbn [mbind option_bind].
  assert (data_counter (decode_data hdr) = nonce) as ->.
  { unfold decode_data, hdr. cbn [data_counter]. rewrite slice_app_skip by (rewrite length_le_split; lia).
    rewrite slice_app_skip by (rewrite !length_le_split; lia). rewrite slice_all by (by rewrite length_le_split).
    rewrite le_combine_split. by apply Z.mod_small. }
  set (b0 := rb <| cb_nonce := nonce |>).
  assert (holds b0 pre (hdr ++ ct) post) as Hh0 by (destruct Hh; by split).
  destruct (split_at_end pre (Z.to_nat (skb_data rb - skb_network_header rb))) as (a & b & -> & Hb).
  { rewrite (ho_data _ _ _ _ Hh) in *. lia. }
  change (skb_data b0 - skb_network_header b0) with (skb_data rb - skb_network_header rb).
  destruct (holds_push b0 _ _ _ _ (skb_data rb - skb_network_header rb) Hh0 ltac:(rewrite Hb; lia)) as (b1 & -> & Hh1 & Eb1).
  cbn [mbind option_bind]. rewrite app_assoc in Hh1.
  set (off := skb_data rb - skb_network_header rb + Z.of_nat (length hdr)).
  assert (off = Z.of_nat (length (b ++ hdr))) as Eoff by (rewrite length_app; unfold off; lia).
  pose proof (holds_pull _ _ _ _ _ off Hh1 Eoff) as Hh2. rewrite (holds_contents _ _ _ _ Hh2). unfold ct at 1. rewrite aead_open.
  destruct (split_at_end ct 16) as (c1 & c2 & Ec & Hc2).
  { unfold ct. rewrite aead_length. unfold noise_encrypted_len, NOISE_AUTHTAG_LEN, CHACHA20POLY1305_AUTHTAG_SIZE. lia. }
  assert (length c1 = length text) as Hc1.
  { assert (length ct = (length text + 16)%nat) as Hl by (unfold ct; apply aead_length). rewrite Ec, length_app in Hl. lia. }
  rewrite Ec in Hh2. pose proof (holds_write_data _ _ _ _ _ text Hh2 Hc1) as Hh3.
  destruct (holds_push _ _ _ _ _ off Hh3 Eoff) as (b4 & -> & Hh4 & Eb4). cbn [mbind option_bind].
  rewrite app_assoc in Hh4.
  assert (skb_len b4 - Z.of_nat (noise_encrypted_len 0) = Z.of_nat (length ((b ++ hdr) ++ text))) as El.
  { rewrite (ho_len _ _ _ _ Hh4), (length_app _ c2), Hc2. change (noise_encrypted_len 0) with 16%nat. lia. }
  rewrite El. pose proof (holds_trim _ _ _ _ _ _ Hh4 eq_refl) as Hh5.
  eexists _, _, _. split; [reflexivity|]. split; [exact (holds_pull _ _ _ _ _ off Hh5 Eoff)|].
  rewrite skb_pull_nonce, pskb_trim_nonce, Eb4.
  change (cb_nonce (skb_pull off b1) = nonce). by rewrite skb_pull_nonce, Eb1.
Qed.

End RoundTrip.

(** A packet of five bytes on its way out, and the buffer a message arrives in. *)
Definition demo_packet : sk_buff := mk_skb (zeros 20 ++ [69; 1; 2; 3; 4] ++ zeros 10) 20 5 20 20 ETH_P_IP 0 0 None 9 None PACKET_STATE_UNCRYPTED 1420 0.
Definition demo_tx : world := demo_a <| w_keypairs := {[3%nat := demo_keypair 40]} |> <| w_skbs := {[7%nat := demo_packet]} |>.
Definition received (m : bytes) : sk_buff :=
  mk_skb (zeros 28 ++ m) 28 (Z.of_nat (length m)) 0 20 ETH_P_IP 2 0 None 0 None PACKET_STATE_UNCRYPTED 0 0.

Lemma received_holds m : holds (received m) (zeros 28) m [].
Proof. split; [|done|done]. by rewrite app_nil_r. Qed.


(** ** Parsing *)

Section Parsing.
Context `{NetCore}.

(** What an accepted packet is: the UDP payload of the datagram, one of the four messages. *)
Record parsed (b b' : sk_buff) : Prop := {
  pa_udp : skb_data b <= skb_transport_header b;
  pa_data : skb_data b' = skb_transport_header b + sizeof_udphdr;
  pa_len : skb_len b' = be_combine (skb_bytes b (skb_transport_header b + 4) 2) - sizeof_udphdr;
  pa_tail : skb_tail b' <= skb_tail b;
  pa_message : ∃ ty hdr, is_message (skb_contents b') ty hdr;
}.

Lemma u64_diff_small x y : 0 <= x < 2 ^ 62 → 0 <= y < 2 ^ 62 → u64 (x - y) <= U16_MAX → y <= x ∧ u64 (x - y) = x - y.
Proof using.
  intros Hx Hy Hle. destruct (decide (y <= x)) as [Hxy|Hxy].
  - split; [done|]. apply wrap_id. split; lia.
  - exfalso. assert (u64 (x - y) = x - y + 2 ^ 64) as E; [|unfold U16_MAX in Hle; lia].
    unfold wrap. symmetry. apply (Z.mod_unique _ _ (-1)); lia.
Qed.

(** The buffer after the checks on the UDP header, at the payload. *)
Definition payload (b : sk_buff) (off n : Z) : sk_buff := skb_pull off (pskb_trim (n + off) b).

Lemma payload_fields b off n :
  skb_ok b → 0 <= off → 0 <= n → off + n <= skb_len b →
  let b' := payload b off n in skb_ok b' ∧ skb_head b' = skb_head b ∧ skb_data b' = skb_data b + off ∧ skb_len b' = n.
Proof using.
  intros [Hd Hl He] Ho Hn Hle. unfold payload, skb_pull, pskb_trim, skb_tail, skb_end in *.
  destruct (Z.ltb_spec (n + off) (skb_len b)); cbn -[Z.add Z.sub Z.leb];
    [destruct (Z.leb_spec off (n + off)); [|lia]|destruct (Z.leb_spec off (skb_len b)); [|lia]];
    (split; [split; unfold skb_tail, skb_end; cbn -[Z.add Z.sub]; lia|cbn -[Z.add Z.sub]; split_and!; done || lia]).
Qed.

Lemma push_pull b n :
  skb_ok b → 0 <= n → n <= skb_data b →
  ∃ b', skb_push n b = Some b' ∧ skb_ok b' ∧ skb_head b' = skb_head b ∧ __skb_pull n b' = Some b.
Proof using.
  intros [Hd Hl He] Hn Hle. unfold skb_push. destruct (Z.leb_spec n (skb_data b)); [|lia]. eexists. split; [reflexivity|].
  split; [split; unfold skb_tail, skb_end in *; cbn -[Z.add Z.sub]; lia|]. split; [done|].
  unfold __skb_pull. cbn -[Z.add Z.sub Z.leb]. destruct (Z.leb_spec n (n + skb_len b)); [|lia].
  f_equal. destruct b. unfold upd. cbn -[Z.add Z.sub] in *. f_equal; lia.
Qed.

Lemma prepare_run b :
  skb_ok b → skb_tail b < 2 ^ 62 →
  ∃ r b', prepare_skb_header b = Some (r, b') ∧ skb_ok b' ∧ skb_head b' = skb_head b ∧
    (r = - EINVAL ∨ r = 0 ∧ parsed b b').
Proof using.
  intros Hok Ht. pose proof Hok as [Hd Hl He]. unfold prepare_skb_header.
  destruct (negb _ || _ || _) eqn:E1; [eauto 10|]. apply orb_false_iff in E1 as [E1 Eu2]. apply orb_false_iff in E1 as [_ Eu1].
  apply Z.ltb_ge in Eu1, Eu2. set (udp := skb_transport_header b) in *.
  destruct (_ || _) eqn:E2; [eauto 10|]. apply orb_false_iff in E2 as [E2 E3]. apply Z.ltb_ge in E2, E3.
  unfold skb_tail in *.
  destruct (u64_diff_small udp (skb_data b)) as [Hle Eo]; [unfold sizeof_udphdr in *; lia|lia|done|]. rewrite Eo in *.
  assert (skb_read b (udp + 4) 2 = Some (skb_bytes b (udp + 4) 2)) as ->.
  { apply skb_read_Some. unfold skb_tail, sizeof_udphdr in *. split_and!; [lia..|done]. }
  cbn [fmap option_fmap option_map mbind option_bind]. set (n := be_combine _).
  destruct (_ || _) eqn:E4; [eauto 10|]. apply orb_false_iff in E4 as [E4 E5]. apply Z.ltb_ge in E4, E5.
  rewrite wrap_id by (split; unfold sizeof_udphdr in *; lia). set (off := udp + sizeof_udphdr - skb_data b).
  destruct (pskb_may_pull _ b) eqn:E6; cbn [negb]; [|eauto 10].
  fold (payload b off (n - sizeof_udphdr)).
  destruct (payload_fields b off (n - sizeof_udphdr)) as (Hok1 & Hh1 & Hd1 & Hl1); [done|unfold off, sizeof_udphdr in *; lia..|].
  set (b1 := payload b off (n - sizeof_udphdr)) in *. rewrite Hl1, Z.eqb_refl. cbn [negb].
  destruct (Z.eqb_spec (Z.of_nat (validate_header_len (skb_contents b1))) 0) as [E7|E7]; [eauto 10|].
  destruct (push_pull b1 off Hok1) as (b2 & -> & Hok2 & Hh2 & Hp2); [unfold off, sizeof_udphdr in *; lia..|].
  cbn [mbind option_bind]. destruct (pskb_may_pull _ b2); cbn [negb]; [|rewrite Hh1 in Hh2; eauto 10].
  rewrite Hp2. exists 0, b1. split_and!; [done..|]. right. split; [done|].
  split; fold udp; [done|unfold off in Hd1; lia|done|unfold skb_tail, off in *; lia|].
  destruct (validate_header_len_sound (skb_contents b1)) as [ty Hm]; [lia|eauto].
Qed.

(** C30: parsing a packet never reads outside the buffer, whatever its headers say, and leaves a well-formed buffer
    over the same bytes; it refuses with [-EINVAL] or leaves exactly the payload that the UDP header announces, which
    lies inside the packet and is one of the four messages. *)
Theorem prepare_skb_header_spec b :
  skb_ok b → skb_tail b < 2 ^ 62 →
  ∃ r b', prepare_skb_header b = Some (r, b') ∧ skb_ok b' ∧ skb_head b' = skb_head b ∧
    (r = - EINVAL ∨ r = 0 ∧ parsed b b').
Proof using. apply prepare_run. Qed.
End Parsing.

(** A handshake response from 10.0.0.2, port 51820. *)
Definition demo_datagram : sk_buff :=
  let message := 2 :: zeros 91 in
  mk_skb ([69; 0; 0; 120] ++ zeros 8 ++ [10; 0; 0; 2] ++ [10; 0; 0; 1] ++ [202; 108; 202; 108; 0; 100; 0; 0] ++ message)
    0 120 0 20 ETH_P_IP 2 0 None 0 None PACKET_STATE_UNCRYPTED 0 0.

Lemma prepare_skb_header_spec_witness :
  skb_ok demo_datagram ∧ ∃ b', prepare_skb_header demo_datagram = Some (0, b') ∧ parsed demo_datagram b' ∧ skb_len b' = 92.
Proof.
  assert (skb_ok demo_datagram) as Hok by (split; by vm_compute). split; [done|].
  destruct (prepare_skb_header_spec demo_datagram Hok ltac:(by vm_compute)) as (r & b' & E & _ & _ & [->|[-> Hp]]).
  - by vm_compute in E.
  - exists b'. split; [done|]. split; [done|]. rewrite (pa_len _ _ Hp). by vm_compute.
Defined.
