(* ===== verification/Expiry.v ===== *)
(** * Timers: what happens when they expire (timers.c)

    The callbacks of the five timers, the work that clears a peer's keys, and
    stopping a peer's timers. *)
From S2P Require Import Prelude Messages Counter PeerLookup AllowedIPs Ratelimiter World Skb Noise Timers Cookie Socket Send.

Section Expiry.
Context `{Crypto} `{HSipHash} `{Ticks} `{Routing} `{NetCore}.

Definition wg_expired_retransmit_handshake (p : nat) : M unit :=
  x ← get_peer p;
  if MAX_TIMER_HANDSHAKES <? timer_handshake_attempts x then
    timer_delete p Send_keepalive;;
    wg_packet_purge_staged_packets p;;
    pending ← timer_pending p Zero_key_material;
    when (negb pending) (now ← gets w_jiffies; mod_peer_timer p Zero_key_material (now + REJECT_AFTER_TIME * 3 * HZ))
  else
    set_peer p (fun x => x <| timer_handshake_attempts ::= Z.succ |>);;
    wg_socket_clear_peer_endpoint_src p;;
    wg_packet_send_queued_handshake_initiation p true.

Definition wg_expired_send_keepalive (p : nat) : M unit :=
  wg_packet_send_keepalive p;;
  x ← get_peer p;
  when (timer_need_another_keepalive x)
    (set_peer p (fun x => x <| timer_need_another_keepalive := false |>);;
     now ← gets w_jiffies; mod_peer_timer p Send_keepalive (now + KEEPALIVE_TIMEOUT * HZ)).

Definition wg_expired_new_handshake (p : nat) : M unit :=
  wg_socket_clear_peer_endpoint_src p;;
  wg_packet_send_queued_handshake_initiation p false.

Definition wg_expired_zero_key_material (p : nat) : M unit :=
  x ← get_peer p;
  when (negb (is_dead x))
    (wg_peer_get p;;
     queued ← queue_work (Clear_peer_work p);
     when (negb queued) (wg_peer_put (Some p))).

Definition wg_queued_expired_zero_key_material (p : nat) : M unit :=
  wg_noise_handshake_clear p;;
  wg_noise_keypairs_clear p;;
  wg_peer_put (Some p).

Definition wg_expired_send_persistent_keepalive (p : nat) : M unit :=
  x ← get_peer p;
  when (negb (persistent_keepalive_interval x =? 0)) (wg_packet_send_keepalive p).

(** [timer_setup]: the callback of each timer. *)
Definition timer_function (t : timer) : nat -> M unit :=
  match t with
  | Retransmit_handshake => wg_expired_retransmit_handshake
  | Send_keepalive => wg_expired_send_keepalive
  | New_handshake => wg_expired_new_handshake
  | Zero_key_material => wg_expired_zero_key_material
  | Persistent_keepalive => wg_expired_send_persistent_keepalive
  end.

(** A timer that is due is taken off the wheel, then its callback runs. *)
Definition timer_fires (p : nat) (t : timer) : M unit :=
  x ← get_peer p; now ← gets w_jiffies;
  match timer_expiry t (timers x) with
  | Some at_ => when (at_ <=? now) (timer_delete p t;; timer_function t p)
  | None => mret tt
  end.

(** [flush_work]: a queued item is run, now. *)
Definition flush_clear_peer_work (p : nat) : M unit :=
  ws ← gets w_works;
  when (bool_decide (Clear_peer_work p ∈ ws))
    (modify (fun w => w <| w_works ::= filter (fun k => k ≠ Clear_peer_work p) |>);;
     wg_queued_expired_zero_key_material p).

Definition wg_timers_stop (p : nat) : M unit :=
  timer_delete p Retransmit_handshake;;
  timer_delete p Send_keepalive;;
  timer_delete p New_handshake;;
  timer_delete p Zero_key_material;;
  timer_delete p Persistent_keepalive;;
  flush_clear_peer_work p.
End Expiry.
