(* ===== verification/Peer.v ===== *)
(** * The life of a peer (peer.c), and the work queues

    Creation, marking dead, removal.  Removal flushes the work queues, so this
    file also dispatches every kind of queued work to its function. *)
From S2P Require Import Prelude Messages Counter PeerLookup AllowedIPs Ratelimiter World Skb Noise Timers Cookie Socket Send Receive Expiry.

Definition NAPI_POLL_WEIGHT : nat := 64.

Section Peer.
Context `{Crypto} `{SipHash} `{HSipHash} `{Ticks} `{Routing} `{NetCore}.

(** ** Work *)

(** A poll that used up its budget stays scheduled. *)
Definition napi_poll (p : nat) : M unit :=
  n ← rx_loop NAPI_POLL_WEIGHT p 0;
  when (bool_decide (n = NAPI_POLL_WEIGHT)) (queue_work (Napi_poll p);; mret tt).

Definition run_work (k : work) : M unit :=
  match k with
  | Transmit_handshake_work p => wg_packet_handshake_send_worker p
  | Clear_peer_work p => wg_queued_expired_zero_key_material p
  | Transmit_packet_work p => wg_packet_tx_worker p
  | Encrypt_work => wg_packet_encrypt_worker
  | Decrypt_work => decrypt_worker
  | Handshake_receive_work => wg_packet_handshake_receive_worker
  | Napi_poll p => napi_poll p
  end.

Inductive workqueue := Packet_crypt_wq | Handshake_receive_wq | Handshake_send_wq.
#[global] Instance workqueue_eq : EqDecision workqueue.
Proof. solve_decision. Defined.

Definition queue_of (k : work) : option workqueue :=
  match k with
  | Transmit_handshake_work _ | Clear_peer_work _ => Some Handshake_send_wq
  | Transmit_packet_work _ | Encrypt_work | Decrypt_work => Some Packet_crypt_wq
  | Handshake_receive_work => Some Handshake_receive_wq
  | Napi_poll _ => None
  end.

(** An item leaves the queue before its function runs. *)
Definition take_and_run (k : work) : M unit :=
  ws ← gets w_works;
  when (bool_decide (k ∈ ws))
    (modify (fun w => w <| w_works ::= filter (fun j => j ≠ k) |>);; run_work k).

(** [flush_workqueue]: the items queued by now are run. *)
Definition flush_workqueue (q : workqueue) : M unit :=
  ws ← gets w_works;
  for_each (filter (fun k => queue_of k = Some q) ws) take_and_run.

(** [napi_disable] waits for the poll to come to an end. *)
Fixpoint napi_disable (fuel p : nat) : M unit :=
  ws ← gets w_works;
  if negb (bool_decide (Napi_poll p ∈ ws)) then mret tt
  else match fuel with O => stuck | S fuel => take_and_run (Napi_poll p);; napi_disable fuel p end.

(** ** Creation *)

Definition zeroed_peer : wg_peer :=
  mk_peer (mk_fifo [] None) (mk_fifo [] None) [] false (mk_keypairs None None None) zeroed_endpoint None
    (zeroed_handshake (zeros NOISE_PUBLIC_KEY_LEN) (zeros NOISE_SYMMETRIC_KEY_LEN)) 0 wg_cookie_init 0 0
    (mk_timers None None None None None) 0 0 false false (0, 0) 0.

Definition pubkey_add (p : nat) : M unit :=
  modify (fun w => w <| w_peer_hashtable ::= fun T =>
    wg_pubkey_hashtable_add (fun p => hs_remote_static ∘ handshake <$> w_peers w !! p) T p |>).
Definition pubkey_remove (p : nat) : M unit :=
  modify (fun w => w <| w_peer_hashtable ::= fun T => wg_pubkey_hashtable_remove T p |>).

Definition wg_peer_create (public_key : bytes) (preshared_key : option bytes) : M (Z + nat) :=
  n ← gets w_num_peers;
  if MAX_PEERS_PER_DEVICE <=? n then mret (inl (- ENOMEM))
  else
    ok ← alloc_ok;
    if negb ok then mret (inl (- ENOMEM))
    else
      peers ← gets w_peers;
      let p := fresh (dom peers) in
      modify (fun w => w <| w_peers ::= <[p := zeroed_peer]> |>);;
      ok ← alloc_ok;
      if negb ok then modify (fun w => w <| w_peers ::= delete p |>);; mret (inl (- ENOMEM))
      else
        wg_noise_handshake_init p public_key preshared_key;;
        id ← gets w_peer_counter;
        modify (fun w => w <| w_peer_counter := id + 1 |>);;
        set_peer p (fun x => x <| internal_id := id + 1 |> <| latest_cookie := wg_cookie_init |>);;
        wg_timers_init p;;
        wg_cookie_checker_precompute_peer_keys p;;
        modify (fun w => w <| w_refs ::= <[p := 1]> |>);;
        wg_noise_reset_last_sent_handshake p;;
        modify (fun w => w <| w_peer_list ::= fun l => l ++ [p] |>);;
        pubkey_add p;;
        modify (fun w => w <| w_num_peers := n + 1 |>);;
        mret (inr p).

(** ** Removal *)

Definition peer_make_dead (p : nat) : M unit :=
  modify (fun w => w <| w_peer_list ::= filter (fun q => q ≠ p) |>);;
  t ← gets w_peer_allowedips;
  t ← lift (wg_allowedips_remove_by_peer t p);
  modify (fun w => w <| w_peer_allowedips := t |>);;
  pubkey_remove p;;
  set_peer p (fun x => x <| is_dead := true |>).

Definition peer_remove_after_dead (p : nat) : M unit :=
  wg_noise_keypairs_clear p;;
  wg_timers_stop p;;
  flush_workqueue Packet_crypt_wq;;
  flush_workqueue Packet_crypt_wq;;
  x ← get_peer p;
  napi_disable (S (length (fq_queued (rx_queue x)))) p;;
  flush_workqueue Handshake_send_wq;;
  modify (fun w => w <| w_num_peers ::= Z.pred |>);;
  wg_peer_put (Some p).

Definition wg_peer_remove (o : option nat) : M unit :=
  match o with
  | None => mret tt
  | Some p => peer_make_dead p;; peer_remove_after_dead p
  end.

Definition wg_peer_remove_all : M unit :=
  t ← gets w_peer_allowedips;
  t ← lift (wg_allowedips_free t);
  modify (fun w => w <| w_peer_allowedips := t |>);;
  l ← gets w_peer_list;
  for_each l peer_make_dead;;
  for_each l peer_remove_after_dead.
End Peer.
