(* ===== verification/Device.v ===== *)
(** * The network device (device.c)

    Opening, stopping, transmitting, the notifications and the destructor act on
    the device of World.v.  Creating a link and initialising the module acquire
    resources one after the other and give them back in reverse when one fails;
    there the state is the set of resources held. *)
From S2P Require Import Prelude Messages Counter PeerLookup AllowedIPs Ratelimiter World Skb Noise Timers Cookie Socket Send Receive Expiry Peer.

Section Device.
Context `{Crypto} `{SipHash} `{HSipHash} `{Ticks} `{Routing} `{NetCore}.

Definition wg_open : M Z :=
  port ← gets w_incoming_port;
  ret ← wg_socket_init port;
  if ret <? 0 then mret ret
  else
    l ← gets w_peer_list;
    for_each l (fun p =>
      wg_packet_send_staged_packets p;;
      x ← get_peer p;
      when (negb (persistent_keepalive_interval x =? 0)) (wg_packet_send_keepalive p));;
    mret ret.

Inductive pm_action := PM_HIBERNATION_PREPARE | PM_SUSPEND_PREPARE | PM_OTHER.

(** [autosleep]: CONFIG_PM_AUTOSLEEP or CONFIG_PM_USERSPACE_AUTOSLEEP. *)
Definition wg_pm_notification (autosleep : bool) (action : pm_action) : M Z :=
  if autosleep then mret 0
  else
    match action with
    | PM_OTHER => mret 0
    | _ =>
      l ← gets w_peer_list;
      for_each l (fun p =>
        timer_delete p Zero_key_material;;
        wg_noise_handshake_clear p;;
        wg_noise_keypairs_clear p);;
      mret 0
    end.

Definition wg_vm_notification : M Z :=
  l ← gets w_peer_list; for_each l wg_noise_expire_current_peer_keypairs;; mret 0.

Definition wg_stop : M Z :=
  l ← gets w_peer_list;
  for_each l (fun p =>
    wg_packet_purge_staged_packets p;;
    wg_timers_stop p;;
    wg_noise_handshake_clear p;;
    wg_noise_keypairs_clear p;;
    wg_noise_reset_last_sent_handshake p);;
  ring ← gets w_handshake_queue;
  modify (fun w => w <| w_handshake_queue := [] |>);;
  for_each ring kfree_skb;;
  modify (fun w => w <| w_handshake_queue_len := 0 |>);;
  wg_socket_reinit None None;;
  mret 0.

(** ** Transmission *)

Definition dst_addr (b : sk_buff) : packet_addr :=
  if skb_protocol b =? ETH_P_IP then Addr_v4 (ip_daddr b)
  else if skb_protocol b =? ETH_P_IPV6 then Addr_v6 (ipv6_daddr b) else Addr_none.

Definition lookup_dst (a : packet_addr) : M (option nat) :=
  t ← gets w_peer_allowedips; refs ← gets w_refs;
  '(refs, o) ← lift (wg_allowedips_lookup_dst t refs a);
  modify (fun w => w <| w_refs := refs |>);; mret o.

(** [err] and [err_icmp]; the ICMP message goes back into the stack. *)
Definition xmit_err (s : nat) (ret : Z) : M Z :=
  modify (fun w => w <| w_stats ::= fun st => st <| st_tx_errors ::= Z.succ |> |>);; kfree_skb s;; mret ret.

(** The packet, or its segments as buffers of their own. *)
Fixpoint add_segments (segs : list sk_buff) : M (list nat) :=
  match segs with
  | [] => mret []
  | b :: segs => s ← add_skb b; l ← add_segments segs; mret (s :: l)
  end.

Definition segments (s : nat) (b : sk_buff) : M (Z + list nat) :=
  if negb (skb_is_gso b) then mret (inr [s])
  else
    match skb_gso_segment b with
    | inl err => mret (inl err)
    | inr segs => l ← add_segments segs; kfree_skb s;; mret (inr l)
    end.

(** The oldest staged packets make way until [MAX_STAGED_PACKETS] are left. *)
Definition trim_staged (p : nat) : M unit :=
  x ← get_peer p;
  let excess := (length (staged_packet_queue x) - Z.to_nat MAX_STAGED_PACKETS)%nat in
  for_each (take excess (staged_packet_queue x)) (fun s =>
    kfree_skb s;; modify (fun w => w <| w_stats ::= fun st => st <| st_tx_dropped ::= Z.succ |> |>));;
  set_peer p (fun x => x <| staged_packet_queue ::= drop excess |>).

(** Buffers are not shared between owners here, so [skb_share_check] keeps each. *)
Definition wg_xmit (s : nat) : M Z :=
  b ← get_skb s; dev_mtu ← gets w_dev_mtu;
  if negb (wg_check_packet_protocol b) then xmit_err s (- EPROTONOSUPPORT)
  else
    peer ← lookup_dst (dst_addr b);
    match peer with
    | None => xmit_err s (- ENOKEY)
    | Some p =>
      x ← get_peer p;
      if bool_decide (ep_addr (peer_endpoint x) = AF_UNSPEC) then
        wg_peer_put (Some p);; xmit_err s (- EDESTADDRREQ)
      else
        let mtu := default dev_mtu (dst_mtu b) in
        r ← segments s b;
        match r with
        | inl err => wg_peer_put (Some p);; xmit_err s err
        | inr packets =>
          for_each packets (fun s => set_skb s (fun b => b <| skb_next := None |> <| cb_mtu := mtu |>));;
          trim_staged p;;
          set_peer p (fun x => x <| staged_packet_queue ::= fun l => l ++ packets |>);;
          wg_packet_send_staged_packets p;;
          wg_peer_put (Some p);;
          mret 0
        end
    end.

(** ** Destruction *)

(** [destroy_workqueue] drains the queue first; an item queues at most one more on
    the same queue (encryption, then transmission), so three rounds suffice. *)
Fixpoint drain_workqueue (fuel : nat) (q : workqueue) : M unit :=
  ws ← gets w_works;
  match filter (fun k => queue_of k = Some q) ws, fuel with
  | [], _ => mret tt
  | _, O => stuck
  | _, S fuel => flush_workqueue q;; drain_workqueue fuel q
  end.
Definition destroy_workqueue : workqueue -> M unit := drain_workqueue 3.

Definition wg_destruct : M unit :=
  modify (fun w => w <| w_creating_net := None |> <| w_incoming_port := 0 |>);;
  wg_socket_reinit None None;;
  wg_peer_remove_all;;
  destroy_workqueue Handshake_receive_wq;;
  destroy_workqueue Handshake_send_wq;;
  destroy_workqueue Packet_crypt_wq;;
  ring ← gets w_handshake_queue;
  modify (fun w => w <| w_handshake_queue := [] |>);;
  for_each ring kfree_skb;;
  modify (fun w => w <| w_ratelimiter := wg_ratelimiter_uninit (w_now w) (w_ratelimiter w) |>
    <| w_static_identity := mk_static_identity (zeros NOISE_PUBLIC_KEY_LEN) (zeros NOISE_PUBLIC_KEY_LEN) false |>).

(** For this device; the carrier is the network core's. *)
Definition wg_netns_exit_rtnl (net : Z) : M unit :=
  creating ← gets w_creating_net;
  when (bool_decide (creating = Some net))
    (modify (fun w => w <| w_creating_net := None |>);;
     wg_socket_reinit None None;;
     l ← gets w_peer_list;
     for_each l wg_socket_clear_peer_endpoint_src).

(** ** [wg_setup]: the sizes *)

Definition ETH_DATA_LEN : Z := 1500.
Definition INT_MAX : Z := 2 ^ 31 - 1.
Definition overhead : Z := Z.of_nat MESSAGE_MINIMUM_LENGTH + sizeof_udphdr + Z.max sizeof_ipv6hdr sizeof_iphdr.
Definition needed_headroom : Z := DATA_PACKET_HEAD_ROOM.
Definition needed_tailroom : Z := Z.of_nat (noise_encrypted_len (Z.to_nat MESSAGE_PADDING_MULTIPLE)).
Definition setup_mtu : Z := ETH_DATA_LEN - overhead.
Definition setup_max_mtu : Z := INT_MAX / MESSAGE_PADDING_MULTIPLE * MESSAGE_PADDING_MULTIPLE - overhead.
End Device.

(** ** Links and the module *)

Inductive queue_name := Encrypt_queue | Decrypt_queue | Handshake_queue.
Inductive resource :=
  | Peer_hashtable | Index_hashtable
  | Workqueue (q : workqueue)
  | Ring (q : queue_name) | Workers (q : queue_name)
  | Ratelimiter_ref | Registered_device | On_device_list
  | Pm_notifier | Vm_notifier | Pernet_device | Link_ops
  | Node_cache | Peer_cache | Genl_family.
#[global] Instance queue_name_eq : EqDecision queue_name.
Proof. solve_decision. Defined.
#[global] Instance resource_eq : EqDecision resource.
Proof. solve_decision. Defined.

(** Giving back what is not held has no result. *)
Abbreviation held := (list resource).
Definition release (r : resource) (h : held) : option held :=
  if bool_decide (r ∈ h) then Some (filter (fun x => x ≠ r) h) else None.

Section Links.
(** The outcome of each acquisition: its error, if it fails. *)
Context (fails : resource -> option Z).

Definition wg_packet_queue_init (q : queue_name) (h : held) : option (Z * held) :=
  match fails (Ring q) with
  | Some err => Some (err, h)
  | None =>
    let h := Ring q :: h in
    match fails (Workers q) with
    | Some _ => h ← release (Ring q) h; Some (- ENOMEM, h)
    | None => Some (0, Workers q :: h)
    end
  end.
Definition wg_packet_queue_free (q : queue_name) (h : held) : option held :=
  h ← release (Workers q) h; release (Ring q) h.

(** The labels of [wg_newlink], each falling through to the next. *)
Definition err_free_peer_hashtable (h : held) : option held := release Peer_hashtable h.
Definition err_free_index_hashtable (h : held) : option held := h ← release Index_hashtable h; err_free_peer_hashtable h.
Definition err_destroy_handshake_receive (h : held) : option held :=
  h ← release (Workqueue Handshake_receive_wq) h; err_free_index_hashtable h.
Definition err_destroy_handshake_send (h : held) : option held :=
  h ← release (Workqueue Handshake_send_wq) h; err_destroy_handshake_receive h.
Definition err_destroy_packet_crypt (h : held) : option held :=
  h ← release (Workqueue Packet_crypt_wq) h; err_destroy_handshake_send h.
Definition err_free_encrypt_queue (h : held) : option held :=
  h ← wg_packet_queue_free Encrypt_queue h; err_destroy_packet_crypt h.
Definition err_free_decrypt_queue (h : held) : option held :=
  h ← wg_packet_queue_free Decrypt_queue h; err_free_encrypt_queue h.
Definition err_free_handshake_queue (h : held) : option held :=
  h ← wg_packet_queue_free Handshake_queue h; err_free_decrypt_queue h.
Definition err_uninit_ratelimiter (h : held) : option held :=
  h ← release Ratelimiter_ref h; err_free_handshake_queue h.

Definition failed (ret : Z) (o : option held) : option (Z * held) := h ← o; Some (ret, h).

Definition wg_newlink (h : held) : option (Z * held) :=
  if bool_decide (is_Some (fails Peer_hashtable)) then Some (- ENOMEM, h)
  else let h := Peer_hashtable :: h in
  if bool_decide (is_Some (fails Index_hashtable)) then failed (- ENOMEM) (err_free_peer_hashtable h)
  else let h := Index_hashtable :: h in
  if bool_decide (is_Some (fails (Workqueue Handshake_receive_wq))) then failed (- ENOMEM) (err_free_index_hashtable h)
  else let h := Workqueue Handshake_receive_wq :: h in
  if bool_decide (is_Some (fails (Workqueue Handshake_send_wq))) then failed (- ENOMEM) (err_destroy_handshake_receive h)
  else let h := Workqueue Handshake_send_wq :: h in
  if bool_decide (is_Some (fails (Workqueue Packet_crypt_wq))) then failed (- ENOMEM) (err_destroy_handshake_send h)
  else let h := Workqueue Packet_crypt_wq :: h in
  '(ret, h) ← wg_packet_queue_init Encrypt_queue h;
  if ret <? 0 then failed ret (err_destroy_packet_crypt h)
  else
  '(ret, h) ← wg_packet_queue_init Decrypt_queue h;
  if ret <? 0 then failed ret (err_free_encrypt_queue h)
  else
  '(ret, h) ← wg_packet_queue_init Handshake_queue h;
  if ret <? 0 then failed ret (err_free_decrypt_queue h)
  else
  match fails Ratelimiter_ref with
  | Some err => failed err (err_free_handshake_queue h)
  | None =>
    let h := Ratelimiter_ref :: h in
    match fails Registered_device with
    | Some err => failed err (err_uninit_ratelimiter h)
    | None => Some (0, On_device_list :: Registered_device :: h)
    end
  end.

(** What [wg_destruct] gives back, in its order.  The device is unregistered by the
    network core before it calls the destructor. *)
Definition wg_destruct_release (h : held) : option held :=
  h ← release On_device_list h;
  h ← release (Workqueue Handshake_receive_wq) h;
  h ← release (Workqueue Handshake_send_wq) h;
  h ← release (Workqueue Packet_crypt_wq) h;
  h ← wg_packet_queue_free Handshake_queue h;
  h ← wg_packet_queue_free Decrypt_queue h;
  h ← wg_packet_queue_free Encrypt_queue h;
  h ← release Ratelimiter_ref h;
  h ← release Index_hashtable h;
  release Peer_hashtable h.

Definition error_pm (h : held) : option held := release Pm_notifier h.
Definition error_vm (h : held) : option held := h ← release Vm_notifier h; error_pm h.
Definition error_pernet (h : held) : option held := h ← release Pernet_device h; error_vm h.

Definition wg_device_init (h : held) : option (Z * held) :=
  match fails Pm_notifier with
  | Some err => Some (err, h)
  | None =>
    let h := Pm_notifier :: h in
    match fails Vm_notifier with
    | Some err => failed err (error_pm h)
    | None =>
      let h := Vm_notifier :: h in
      match fails Pernet_device with
      | Some err => failed err (error_vm h)
      | None =>
        let h := Pernet_device :: h in
        match fails Link_ops with
        | Some err => failed err (error_pernet h)
        | None => Some (0, Link_ops :: h)
        end
      end
    end
  end.

Definition wg_device_uninit (h : held) : option held :=
  h ← release Link_ops h; h ← release Pernet_device h; h ← release Vm_notifier h; release Pm_notifier h.

(** The caches of [allowedips.c] and [peer.c], the generic netlink family, and the module.  [wg_noise_init] acquires
    nothing (its two constants are in Noise.v), and the self-tests of a debugging build are left out. *)
Definition slab_init (r : resource) (h : held) : Z * held :=
  if bool_decide (is_Some (fails r)) then (- ENOMEM, h) else (0, r :: h).
Definition wg_allowedips_slab_init : held -> Z * held := slab_init Node_cache.
Definition wg_allowedips_slab_uninit (h : held) : option held := release Node_cache h.
Definition wg_peer_init : held -> Z * held := slab_init Peer_cache.
Definition wg_peer_uninit (h : held) : option held := release Peer_cache h.
Definition wg_genetlink_init (h : held) : Z * held :=
  match fails Genl_family with Some err => (err, h) | None => (0, Genl_family :: h) end.
Definition wg_genetlink_uninit (h : held) : option held := release Genl_family h.

Definition err_peer (h : held) : option held := wg_allowedips_slab_uninit h.
Definition err_device (h : held) : option held := h ← wg_peer_uninit h; err_peer h.
Definition err_netlink (h : held) : option held := h ← wg_device_uninit h; err_device h.

Definition mod_init (h : held) : option (Z * held) :=
  let '(ret, h) := wg_allowedips_slab_init h in
  if ret <? 0 then Some (ret, h)
  else
  let '(ret, h) := wg_peer_init h in
  if ret <? 0 then failed ret (err_peer h)
  else
  '(ret, h) ← wg_device_init h;
  if ret <? 0 then failed ret (err_device h)
  else
  let '(ret, h) := wg_genetlink_init h in
  if ret <? 0 then failed ret (err_netlink h)
  else Some (0, h).

Definition mod_exit (h : held) : option held :=
  h ← wg_genetlink_uninit h; h ← wg_device_uninit h; h ← wg_peer_uninit h; wg_allowedips_slab_uninit h.
End Links.

(** ** Creating and destroying links *)

(** What a link holds, latest first. *)
Definition link_resources : list resource :=
  [On_device_list; Registered_device; Ratelimiter_ref; Workers Handshake_queue; Ring Handshake_queue;
   Workers Decrypt_queue; Ring Decrypt_queue; Workers Encrypt_queue; Ring Encrypt_queue; Workqueue Packet_crypt_wq;
   Workqueue Handshake_send_wq; Workqueue Handshake_receive_wq; Index_hashtable; Peer_hashtable].
Definition device_resources : list resource := [Link_ops; Pernet_device; Vm_notifier; Pm_notifier].
Definition module_resources : list resource := Genl_family :: device_resources ++ [Peer_cache; Node_cache].

Lemma filter_absent (r : resource) (h : held) : r ∉ h → filter (fun x => x ≠ r) h = h.
Proof. intros Hr. induction h as [|x h IH]; [done|]. rewrite elem_of_cons in Hr. rewrite filter_cons_True by naive_solver. f_equal. naive_solver. Qed.

Lemma release_head r h : r ∉ h → release r (r :: h) = Some h.
Proof.
  intros Hr. unfold release. rewrite bool_decide_true by left. rewrite filter_cons_False by naive_solver. by rewrite filter_absent.
Qed.

Lemma release_skip r x h : x ≠ r → release r (x :: h) = cons x <$> release r h.
Proof.
  intros Hx. unfold release. destruct (decide (r ∈ h)).
  - rewrite !bool_decide_true by (done || by right). rewrite filter_cons_True by done. done.
  - rewrite !bool_decide_false; [done|done|]. rewrite elem_of_cons. naive_solver.
Qed.

(** The resources held on top of [h] are released one by one. *)
Ltac unwind :=
  repeat first [rewrite release_head by set_solver | rewrite release_skip by done
    | progress cbn [fmap option_fmap option_map mbind option_bind]].

Section Unwinding.
Context (fails : resource -> option Z) (h : held).
Context (Herr : ∀ r e, fails r = Some e → e < 0).

Lemma destruct_releases :
  Forall (fun r => r ∉ h) link_resources →
  (h ← release Registered_device (link_resources ++ h); wg_destruct_release h) = Some h.
Proof using.
  clear Herr. intros Hh. unfold link_resources in *. rewrite !Forall_cons in Hh. destruct_and! Hh. cbn [app].
  rewrite release_skip by done. unwind.
  unfold wg_destruct_release, wg_packet_queue_free. unwind. done.
Qed.

(** Either all of these are held on top of [h], or an error leaves [h]. *)
Definition unwound (all : list resource) (r : option (Z * held)) : Prop :=
  r = Some (0, all ++ h) ∨ ∃ err, err < 0 ∧ r = Some (err, h).

(** An acquisition that is tested for NULL, one that returns its error, a queue:
    the cleanup gives back what was held before, or the rest follows. *)
Lemma null_case r all c (k : option (Z * held)) :
  c = Some h → unwound all k → unwound all (if bool_decide (is_Some (fails r)) then failed (- ENOMEM) c else k).
Proof using. intros -> Hk. case_bool_decide; [|done]. right. by exists (- ENOMEM). Qed.

Lemma error_case r all c (k : option (Z * held)) :
  c = Some h → unwound all k → unwound all (match fails r with Some err => failed err c | None => k end).
Proof using Herr. intros -> Hk. destruct (fails r) as [e|] eqn:E; [|done]. right. exists e. eauto. Qed.

Lemma queue_case q all g cleanup (k : held -> option (Z * held)) :
  Ring q ∉ g → cleanup g = Some h → unwound all (k (Workers q :: Ring q :: g)) →
  unwound all ('(ret, h) ← wg_packet_queue_init fails q g; if ret <? 0 then failed ret (cleanup h) else k h).
Proof using Herr.
  intros Hg Hc Hk. unfold wg_packet_queue_init. destruct (fails (Ring q)) as [e|] eqn:E.
  - pose proof (Herr _ _ E). cbn [mbind option_bind]. destruct (Z.ltb_spec e 0); [|lia]. rewrite Hc. right. by exists e.
  - destruct (fails (Workers q)) as [e|] eqn:E'; [|done]. rewrite release_head by done. cbn. rewrite Hc. right.
    by exists (- ENOMEM).
Qed.

Ltac acquired :=
  unfold err_uninit_ratelimiter, err_free_handshake_queue, err_free_decrypt_queue, err_free_encrypt_queue, err_destroy_packet_crypt,
    err_destroy_handshake_send, err_destroy_handshake_receive, err_free_index_hashtable, err_free_peer_hashtable,
    error_pernet, error_vm, error_pm, wg_packet_queue_free; by unwind.

Lemma newlink_cases :
  Forall (fun r => r ∉ h) link_resources → unwound link_resources (wg_newlink fails h).
Proof using Herr.
  intros Hh. unfold link_resources in *. rewrite !Forall_cons in Hh. destruct_and! Hh. unfold wg_newlink.
  apply (null_case _ _ (Some h)); [done|].
  do 4 (apply null_case; [acquired|]).
  do 3 (apply queue_case; [set_solver|acquired|]).
  do 2 (apply error_case; [acquired|]).
  by left.
Qed.

Lemma device_init_cases :
  Forall (fun r => r ∉ h) device_resources → unwound device_resources (wg_device_init fails h).
Proof using Herr.
  intros Hh. unfold device_resources in *. rewrite !Forall_cons in Hh. destruct_and! Hh. unfold wg_device_init.
  apply (error_case _ _ (Some h)); [done|].
  do 3 (apply error_case; [acquired|]). by left.
Qed.

Lemma device_uninit_releases :
  Forall (fun r => r ∉ h) device_resources → wg_device_uninit (device_resources ++ h) = Some h.
Proof using.
  clear Herr. intros Hh. unfold device_resources in *. rewrite !Forall_cons in Hh. destruct_and! Hh. cbn [app]. unfold wg_device_uninit. by unwind.
Qed.
End Unwinding.

(** Creating a link either succeeds, and then the network core's unregistering and [wg_destruct] give back
    exactly what was acquired, or fails with a negative error and everything acquired on the way is given back,
    once and nothing else; it succeeds when no acquisition fails. *)
Theorem link_lifecycle (fails : resource -> option Z) (h : held) :
  (∀ r e, fails r = Some e → e < 0) → Forall (fun r => r ∉ h) link_resources →
  (wg_newlink fails h = Some (0, link_resources ++ h) ∧
     (h' ← release Registered_device (link_resources ++ h); wg_destruct_release h') = Some h ∨
   ∃ err, err < 0 ∧ wg_newlink fails h = Some (err, h)) ∧
  ((∀ r, fails r = None) → ∃ h', wg_newlink fails h = Some (0, h')).
Proof.
  intros Herr Hh. pose proof (newlink_cases fails h Herr Hh) as Hc. split.
  - destruct Hc as [Hc|Hc]; [left|by right]. split; [done|by apply destruct_releases].
  - intros Hf. unfold wg_newlink, wg_packet_queue_init. rewrite !Hf. cbn. by eexists.
Qed.

Lemma mod_init_cases (fails : resource -> option Z) (h : held) :
  (∀ r e, fails r = Some e → e < 0) → Forall (fun r => r ∉ h) module_resources →
  unwound h module_resources (mod_init fails h).
Proof.
  intros Herr Hh. unfold module_resources in Hh |- *. rewrite Forall_cons, Forall_app, !Forall_cons in Hh. destruct Hh as (Hg & Hd & Hp & Hn & _).
  assert (Forall (fun r => r ∉ Peer_cache :: Node_cache :: h) device_resources) as Hd'.
  { unfold device_resources in *. rewrite !Forall_cons in Hd |- *. set_solver. }
  unfold mod_init, wg_allowedips_slab_init, wg_peer_init, slab_init. case_bool_decide; [right; by exists (- ENOMEM)|].
  cbn [Z.ltb Z.compare]. case_bool_decide.
  { right. exists (- ENOMEM). split; [done|]. unfold err_peer, wg_allowedips_slab_uninit. cbn. by rewrite release_head. }
  cbn [Z.ltb Z.compare]. destruct (device_init_cases fails _ Herr Hd') as [->|(err & He & ->)]; cbn [mbind option_bind].
  - unfold wg_genetlink_init. destruct (fails Genl_family) as [err|] eqn:Ef; [right|by left].
    pose proof (Herr _ _ Ef). exists err. split; [done|]. destruct (Z.ltb_spec err 0); [|lia].
    unfold err_netlink, failed. rewrite (device_uninit_releases _ Hd'). unfold err_device, err_peer, wg_peer_uninit, wg_allowedips_slab_uninit. by unwind.
  - destruct (Z.ltb_spec err 0); [|lia]. right. exists err. split; [done|].
    unfold failed, err_device, err_peer, wg_peer_uninit, wg_allowedips_slab_uninit. by unwind.
Qed.

(** Loading the module registers everything it needs or, when any of it fails, nothing and returns a negative
    error; unloading it gives back exactly what loading acquired. *)
Theorem module_lifecycle (fails : resource -> option Z) (h : held) :
  (∀ r e, fails r = Some e → e < 0) → Forall (fun r => r ∉ h) module_resources →
  (mod_init fails h = Some (0, module_resources ++ h) ∧ mod_exit (module_resources ++ h) = Some h) ∨
  ∃ err, err < 0 ∧ mod_init fails h = Some (err, h).
Proof.
  intros Herr Hh. destruct (mod_init_cases fails h Herr Hh) as [Hc|Hc]; [left|by right]. split; [done|].
  unfold module_resources, device_resources in *. cbn [app] in *. rewrite !Forall_cons in Hh. destruct_and! Hh.
  unfold mod_exit, wg_genetlink_uninit, wg_device_uninit, wg_peer_uninit, wg_allowedips_slab_uninit. by unwind.
Qed.

Definition out_of_memory (r : resource) : option Z :=
  if bool_decide (r = Workers Decrypt_queue) then Some (- ENOMEM) else None.

Lemma link_lifecycle_witness :
  wg_newlink (fun _ => None) [] = Some (0, link_resources) ∧ wg_newlink out_of_memory [] = Some (- ENOMEM, []).
Proof.
  split.
  - destruct (link_lifecycle (fun _ => None) []) as [[[H _]|(err & He & H)] _];
      [done|repeat constructor; apply not_elem_of_nil|exact H|]. by vm_compute in H.
  - destruct (link_lifecycle out_of_memory []) as [[[H _]|(err & He & H)] _];
      [unfold out_of_memory; intros r e; case_bool_decide; naive_solver lia|repeat constructor; apply not_elem_of_nil| |].
    + by vm_compute in H.
    + vm_compute in H. by vm_compute.
Defined.

Lemma module_lifecycle_witness : mod_init (fun _ => None) [] = Some (0, module_resources).
Proof.
  destruct (module_lifecycle (fun _ => None) []) as [[H _]|(err & He & H)];
    [done|repeat constructor; apply not_elem_of_nil|exact H|]. by vm_compute in H.
Defined.
