(* ===== verification/Netlink.v ===== *)
(** * Configuration over netlink (netlink.c)

    Setting a device's key, port, mark and peers, a peer's keys, endpoint, allowed
    prefixes and keepalive interval, and reading all of it back in messages of
    limited room.  Attributes arrive parsed and checked against the family's
    policy, which is generated code: a table of attributes is a record with an
    optional field for each, and a nested table that could not be parsed is its
    error. *)
From stdpp Require Import strings.
From S2P Require Import Prelude Messages Counter PeerLookup AllowedIPs Ratelimiter World Skb Noise Timers Cookie Socket Send Receive Expiry Peer Device.

(** ** The interfaces it is written against *)

(** The flags of uapi/linux/wireguard.h and the numbers of the address families. *)
Class Uapi := {
  WGDEVICE_F_REPLACE_PEERS : Z;
  WGPEER_F_REMOVE_ME : Z;
  WGPEER_F_REPLACE_ALLOWEDIPS : Z;
  WGPEER_F_UPDATE_ONLY : Z;
  WGALLOWEDIP_F_REMOVE_ME : Z;
  NUM_AF_INET : Z;
  NUM_AF_INET6 : Z;
}.
Definition has_flag (flags f : Z) : bool := negb (Z.land flags f =? 0).

(** The net devices of a namespace, by index and by name, with the kind their link
    operations name; who may administer a namespace. *)
Record net_device := mk_net_device { nd_id : nat; nd_kind : option string }.
Class NetDevs := {
  dev_get_by_index : Z -> option net_device;
  dev_get_by_name : bytes -> option net_device;
  ns_capable : Z -> bool;
  dev_ifindex : Z;
  dev_name : bytes;
}.
Definition KBUILD_MODNAME : string := "wireguard".

(** The room an attribute with a payload of so many bytes takes in a message, a
    64-bit one aligned, and the headers of a message. *)
Class NlSizes := {
  nla_total_size : Z -> Z;
  nla_total_size_64bit : Z -> Z;
  genl_hdr_size : Z;
}.

(** ** Attributes *)

Record allowedip_attrs := mk_allowedip_attrs {
  WGALLOWEDIP_A_FAMILY : option Z;
  WGALLOWEDIP_A_IPADDR : option bytes;
  WGALLOWEDIP_A_CIDR_MASK : option Z;
  WGALLOWEDIP_A_FLAGS : option Z;
}.

Record peer_attrs := mk_peer_attrs {
  WGPEER_A_PUBLIC_KEY : option bytes;
  WGPEER_A_PRESHARED_KEY : option bytes;
  WGPEER_A_FLAGS : option Z;
  WGPEER_A_PROTOCOL_VERSION : option Z;
  WGPEER_A_ENDPOINT : option bytes;
  WGPEER_A_ALLOWEDIPS : option (list (Z + allowedip_attrs));
  WGPEER_A_PERSISTENT_KEEPALIVE_INTERVAL : option Z;
}.
#[export] Instance settable_peer_attrs : Settable peer_attrs := fun a =>
  mk_peer_attrs (WGPEER_A_PUBLIC_KEY a) (WGPEER_A_PRESHARED_KEY a) (WGPEER_A_FLAGS a) (WGPEER_A_PROTOCOL_VERSION a)
    (WGPEER_A_ENDPOINT a) (WGPEER_A_ALLOWEDIPS a) (WGPEER_A_PERSISTENT_KEEPALIVE_INTERVAL a).

Record device_attrs := mk_device_attrs {
  WGDEVICE_A_IFINDEX : option Z;
  WGDEVICE_A_IFNAME : option bytes;
  WGDEVICE_A_PRIVATE_KEY : option bytes;
  WGDEVICE_A_FLAGS : option Z;
  WGDEVICE_A_LISTEN_PORT : option Z;
  WGDEVICE_A_FWMARK : option Z;
  WGDEVICE_A_PEERS : option (list (Z + peer_attrs));
}.
#[export] Instance settable_device_attrs : Settable device_attrs := fun a =>
  mk_device_attrs (WGDEVICE_A_IFINDEX a) (WGDEVICE_A_IFNAME a) (WGDEVICE_A_PRIVATE_KEY a) (WGDEVICE_A_FLAGS a)
    (WGDEVICE_A_LISTEN_PORT a) (WGDEVICE_A_FWMARK a) (WGDEVICE_A_PEERS a).

(** [memzero_explicit] on the payload of an attribute. *)
Definition memzero (o : option bytes) : option bytes := (fun b => zeros (length b)) <$> o.

(** The references held on net devices. *)
Abbreviation dev_refs := (gmap nat Z).
Definition dev_hold (d : nat) (refs : dev_refs) : dev_refs := <[d := default 0 (refs !! d) + 1]> refs.
Definition dev_put (d : nat) (refs : dev_refs) : dev_refs := <[d := default 0 (refs !! d) - 1]> refs.

Definition lookup_interface `{NetDevs} (a : device_attrs) (refs : dev_refs) : dev_refs * (Z + nat) :=
  if Bool.eqb (bool_decide (WGDEVICE_A_IFINDEX a = None)) (bool_decide (WGDEVICE_A_IFNAME a = None)) then (refs, inl (- EBADR))
  else
    let dev :=
      match WGDEVICE_A_IFINDEX a, WGDEVICE_A_IFNAME a with
      | Some i, _ => dev_get_by_index i
      | None, Some n => dev_get_by_name n
      | None, None => None
      end in
    match dev with
    | None => (refs, inl (- ENODEV))
    | Some d =>
      let refs := dev_hold (nd_id d) refs in
      if bool_decide (nd_kind d = Some KBUILD_MODNAME) then (refs, inr (nd_id d))
      else (dev_put (nd_id d) refs, inl (- EOPNOTSUPP))
    end.

(** [struct sockaddr_in] and [sockaddr_in6] as they lie in the attribute; the family
    and the scope are in host order. *)
Definition sockaddr_of `{Uapi} (b : bytes) : option sockaddr :=
  let family := le_combine (take 2 b) in
  let port := be_combine (slice 2 2 b) in
  if (length b =? 16)%nat && (family =? NUM_AF_INET) then Some (AF_INET (slice 4 4 b) port)
  else if (length b =? 28)%nat && (family =? NUM_AF_INET6) then
    Some (AF_INET6 (slice 8 16 b) port (le_combine (slice 24 4 b)))
  else None.

Section Setting.
Context `{Crypto} `{SipHash} `{HSipHash} `{Ticks} `{Routing} `{NetCore} `{Uapi} `{NetDevs}.

Definition set_port (port : Z) : M Z :=
  old ← gets w_incoming_port;
  if old =? port then mret 0
  else
    l ← gets w_peer_list;
    for_each l wg_socket_clear_peer_endpoint_src;;
    running ← gets w_running;
    if negb running then modify (fun w => w <| w_incoming_port := port |>);; mret 0
    else wg_socket_init port.

(** ** Peers *)

(** The two nodes an insertion may need, if memory is given for them. *)
Definition alloc_nodes : M (option nat * option nat) :=
  t ← gets w_peer_allowedips;
  ok1 ← alloc_ok; ok2 ← alloc_ok;
  let n1 := fresh (dom (nodes t)) in
  let n2 := fresh ({[n1]} ∪ dom (nodes t)) in
  mret (if ok1 : bool then Some n1 else None, if ok2 : bool then Some n2 else None).

Definition insert_or_remove (v6 : bool) (p : nat) (flags : Z) (ip : bytes) (cidr : Z) : M Z :=
  t ← gets w_peer_allowedips;
  '(t, ret) ← (if has_flag flags WGALLOWEDIP_F_REMOVE_ME then lift (wg_allowedips_remove v6 t ip cidr (Some p))
               else '(n1, n2) ← alloc_nodes; lift (wg_allowedips_insert v6 t ip cidr (Some p) n1 n2));
  modify (fun w => w <| w_peer_allowedips := t |>);;
  mret ret.

Definition set_allowedip (p : nat) (a : allowedip_attrs) : M Z :=
  match WGALLOWEDIP_A_FAMILY a, WGALLOWEDIP_A_IPADDR a, WGALLOWEDIP_A_CIDR_MASK a with
  | Some family, Some ip, Some cidr =>
    let flags := default 0 (WGALLOWEDIP_A_FLAGS a) in
    if (family =? NUM_AF_INET) && (cidr <=? 32) && (length ip =? 4)%nat then insert_or_remove false p flags ip cidr
    else if (family =? NUM_AF_INET6) && (cidr <=? 128) && (length ip =? 16)%nat then insert_or_remove true p flags ip cidr
    else mret (- EINVAL)
  | _, _, _ => mret (- EINVAL)
  end.

Fixpoint set_allowedips (p : nat) (l : list (Z + allowedip_attrs)) (ret : Z) : M Z :=
  match l with
  | [] => mret ret
  | inl err :: _ => mret err
  | inr a :: l =>
    ret ← set_allowedip p a;
    if ret <? 0 then mret ret else set_allowedips p l ret
  end.

(** The peer that the message names, made if need be; or the end, with the result. *)
Definition peer_of_key (public_key : bytes) (preshared_key : option bytes) (flags : Z) : M (Z + nat * Z) :=
  o ← pubkey_lookup public_key;
  match o with
  | Some p => mret (inr (p, flags))
  | None =>
    if has_flag flags (Z.lor WGPEER_F_REMOVE_ME WGPEER_F_UPDATE_ONLY) then mret (inl 0)
    else
      let flags := Z.ldiff flags WGPEER_F_REPLACE_ALLOWEDIPS in
      i ← gets w_static_identity;
      if has_identity i && bool_decide (public_key = static_public i) then mret (inl 0)
      else
        r ← wg_peer_create public_key preshared_key;
        match r with
        | inl err => mret (inl err)
        | inr p => wg_peer_get p;; mret (inr (p, flags))
        end
  end.

Definition set_keepalive (p : nat) (o : option Z) : M unit :=
  match o with
  | None => mret tt
  | Some interval =>
    x ← get_peer p; running ← gets w_running;
    let send_keepalive := (persistent_keepalive_interval x =? 0) && negb (interval =? 0) && running in
    set_peer p (fun x => x <| persistent_keepalive_interval := interval |>);;
    when send_keepalive (wg_packet_send_keepalive p)
  end.

Definition replace_allowedips (p : nat) : M unit :=
  t ← gets w_peer_allowedips;
  t ← lift (wg_allowedips_remove_by_peer t p);
  modify (fun w => w <| w_peer_allowedips := t |>).

Definition set_endpoint (p : nat) (o : option bytes) : M unit :=
  match o ≫= sockaddr_of with
  | Some addr => wg_socket_set_peer_endpoint p (mk_endpoint addr (zeros 16))
  | None => mret tt
  end.

Definition update_peer (p : nat) (a : peer_attrs) (preshared_key : option bytes) (flags : Z) : M Z :=
  match preshared_key with
  | Some psk => set_handshake p (fun h => h <| hs_preshared_key := psk |>)
  | None => mret tt
  end;;
  set_endpoint p (WGPEER_A_ENDPOINT a);;
  when (has_flag flags WGPEER_F_REPLACE_ALLOWEDIPS) (replace_allowedips p);;
  ret ← set_allowedips p (default [] (WGPEER_A_ALLOWEDIPS a)) 0;
  if ret <? 0 then mret ret
  else
    set_keepalive p (WGPEER_A_PERSISTENT_KEEPALIVE_INTERVAL a);;
    running ← gets w_running;
    when running (wg_packet_send_staged_packets p);;
    mret ret.

(** [set_peer] of netlink.c: the result, and the attributes as they are left in
    the message. *)
Definition key_of_len (n : nat) (o : option bytes) : option bytes :=
  k ← o; if (length k =? n)%nat then Some k else None.

Definition nl_set_peer (a : peer_attrs) : M (Z * peer_attrs) :=
  ret ← match key_of_len NOISE_PUBLIC_KEY_LEN (WGPEER_A_PUBLIC_KEY a) with
    | None => mret (- EINVAL)
    | Some public_key =>
      let preshared_key := key_of_len NOISE_SYMMETRIC_KEY_LEN (WGPEER_A_PRESHARED_KEY a) in
      let flags := default 0 (WGPEER_A_FLAGS a) in
      if negb (default 1 (WGPEER_A_PROTOCOL_VERSION a) =? 1) then mret (- EPFNOSUPPORT)
      else
        r ← peer_of_key public_key preshared_key flags;
        match r with
        | inl ret => mret ret
        | inr (p, flags) =>
          ret ← (if has_flag flags WGPEER_F_REMOVE_ME then wg_peer_remove (Some p);; mret 0
                 else update_peer p a preshared_key flags);
          wg_peer_put (Some p);;
          mret ret
        end
    end;
  mret (ret, a <| WGPEER_A_PRESHARED_KEY ::= memzero |>).

Fixpoint set_peers (l : list (Z + peer_attrs)) : M (Z * list (Z + peer_attrs)) :=
  match l with
  | [] => mret (0, [])
  | inl err :: l => mret (err, inl err :: l)
  | inr a :: l =>
    '(ret, a) ← nl_set_peer a;
    if ret <? 0 then mret (ret, inr a :: l)
    else '(ret, l) ← set_peers l; mret (ret, inr a :: l)
  end.

(** ** The device *)

Definition may_administer : M bool :=
  net ← gets w_creating_net;
  mret (match net with Some net => ns_capable net | None => false end).

Definition set_fwmark (o : option Z) : M unit :=
  match o with
  | None => mret tt
  | Some mark =>
    modify (fun w => w <| w_fwmark := mark |>);;
    l ← gets w_peer_list;
    for_each l wg_socket_clear_peer_endpoint_src
  end.

Definition set_private_key (private_key : bytes) : M unit :=
  i ← gets w_static_identity;
  if bool_decide (static_private i = private_key) then mret tt
  else
    match curve25519_generate_public private_key with
    | None => mret tt
    | Some public_key =>
      peer ← pubkey_lookup public_key;
      match peer with
      | None => mret tt
      | Some p => wg_peer_put (Some p);; wg_peer_remove (Some p)
      end
    end;;
    i ← gets w_static_identity; running ← gets w_running;
    wg_noise_set_static_identity_private_key private_key;;
    i' ← gets w_static_identity;
    let send_staged_packets := negb (has_identity i) && running && has_identity i' in
    wg_cookie_checker_precompute_device_keys;;
    l ← gets w_peer_list;
    for_each l (fun p =>
      wg_noise_precompute_static_static p;;
      wg_noise_expire_current_peer_keypairs p;;
      when send_staged_packets (wg_packet_send_staged_packets p)).

(** From [device_update_gen] on. *)
Definition set_device (a : device_attrs) : M (Z * list (Z + peer_attrs)) :=
  let peers := default [] (WGDEVICE_A_PEERS a) in
  modify (fun w => w <| w_device_update_gen ::= fun n => u32 (n + 1) |>);;
  set_fwmark (WGDEVICE_A_FWMARK a);;
  ret ← match WGDEVICE_A_LISTEN_PORT a with Some port => set_port port | None => mret 0 end;
  if negb (ret =? 0) then mret (ret, peers)
  else
    when (has_flag (default 0 (WGDEVICE_A_FLAGS a)) WGDEVICE_F_REPLACE_PEERS) wg_peer_remove_all;;
    match key_of_len NOISE_PUBLIC_KEY_LEN (WGDEVICE_A_PRIVATE_KEY a) with
    | Some private_key => set_private_key private_key
    | None => mret tt
    end;;
    set_peers peers.

Definition wg_set_device_doit (a : device_attrs) (refs : dev_refs) : M (Z * device_attrs * dev_refs) :=
  let wiped := a <| WGDEVICE_A_PRIVATE_KEY ::= memzero |> in
  match lookup_interface a refs with
  | (refs, inl err) => mret (err, wiped, refs)
  | (refs, inr d) =>
    ok ← may_administer;
    if negb (bool_decide (WGDEVICE_A_LISTEN_PORT a = None) && bool_decide (WGDEVICE_A_FWMARK a = None)) && negb ok
    then mret (- EPERM, wiped, dev_put d refs)
    else
      '(ret, peers) ← set_device a;
      mret (ret, wiped <| WGDEVICE_A_PEERS ::= fmap (fun _ => peers) |>, dev_put d refs)
  end.
End Setting.

(** ** Reading the configuration *)

(** What a dump says of a peer; of a peer that did not fit into one message the
    later ones say only the key and further prefixes. *)
Abbreviation read_prefix := (bytes * Z * bool)%type.
Record peer_head := mk_peer_head {
  ph_preshared_key : bytes;
  ph_last_handshake_time : Z * Z;
  ph_persistent_keepalive_interval : Z;
  ph_tx_bytes : Z;
  ph_rx_bytes : Z;
  ph_endpoint : option sockaddr;
}.
Record peer_dump := mk_peer_dump {
  pd_public_key : bytes;
  pd_head : option peer_head;
  pd_allowedips : option (list read_prefix);
}.
Record device_dump := mk_device_dump {
  dd_listen_port : Z;
  dd_fwmark : Z;
  dd_ifindex : Z;
  dd_ifname : bytes;
  dd_keys : option (bytes * bytes);
}.
Record message := mk_message { msg_device : option device_dump; msg_peers : option (list peer_dump) }.

(** [struct dump_ctx], without the device. *)
Record dump_ctx := mk_dump_ctx {
  next_peer : option nat;
  allowedips_seq : Z;
  next_allowedip : option nat;
}.
#[export] Instance settable_dump_ctx : Settable dump_ctx := fun c =>
  mk_dump_ctx (next_peer c) (allowedips_seq c) (next_allowedip c).
Definition dump_start : dump_ctx := mk_dump_ctx None 0 None.

(** The rest of a list from an element on, and after it. *)
Fixpoint entries_from (n : nat) (l : list nat) : option (list nat) :=
  match l with [] => None | x :: l' => if bool_decide (x = n) then Some l else entries_from n l' end.
Definition entries_after (n : nat) (l : list nat) : option (list nat) := tail <$> entries_from n l.

Section Getting.
Context `{NlSizes}.

(** The room left after an attribute, or after several. *)
Definition put (n room : Z) : option Z := if room <? n then None else Some (room - n).
Fixpoint puts (l : list Z) (room : Z) : option Z :=
  match l with [] => Some room | n :: l => room ← put n room; puts l room end.
Definition nest_size : Z := nla_total_size 0.

Definition allowedip_size (r : read_prefix) : list Z :=
  [nest_size; nla_total_size 1; nla_total_size 2; nla_total_size (if r.2 then 4 else 16)].

(** [get_allowedips]: a prefix that does not fit leaves nothing behind. *)
Definition get_allowedips (r : read_prefix) (room : Z) : option Z := puts (allowedip_size r) room.

(** The prefixes that fit, and the node of the first that does not. *)
Fixpoint put_allowedips (t : allowedips) (l : list nat) (room : Z) : option (Z * list read_prefix * option nat) :=
  match l with
  | [] => Some (room, [], None)
  | a :: l =>
    n ← nodes t !! a;
    let r := wg_allowedips_read_node n in
    match get_allowedips r room with
    | None => Some (room, [], Some a)
    | Some room => '(room, rs, stop) ← put_allowedips t l room; Some (room, r :: rs, stop)
    end
  end.

Definition endpoint_size (e : endpoint) : list Z :=
  match ep_addr e with
  | AF_INET _ _ => [nla_total_size 16]
  | AF_INET6 _ _ _ => [nla_total_size 28]
  | AF_UNSPEC => []
  end.
Definition endpoint_of (e : endpoint) : option sockaddr :=
  match ep_addr e with AF_UNSPEC => None | addr => Some addr end.

Definition head_size (x : wg_peer) : list Z :=
  [nla_total_size (Z.of_nat NOISE_SYMMETRIC_KEY_LEN); nla_total_size 16; nla_total_size 2; nla_total_size_64bit 8;
   nla_total_size_64bit 8; nla_total_size 4] ++ endpoint_size (peer_endpoint x).
Definition head_of (x : wg_peer) : peer_head :=
  mk_peer_head (hs_preshared_key (handshake x)) (walltime_last_handshake x) (persistent_keepalive_interval x)
    (tx_bytes x) (rx_bytes x) (endpoint_of (peer_endpoint x)).

(** [get_peer]: its result, the room left, the context, and what was said. *)
Abbreviation got := (Z * Z * dump_ctx * option peer_dump)%type.

Definition no_allowedips (ctx : dump_ctx) (room : Z) (d : peer_dump) : got :=
  (0, room, ctx <| next_allowedip := None |> <| allowedips_seq := 0 |>, Some d).

(** From the first prefix of this message on; [room0] is the room before the peer. *)
Definition get_peer_allowedips (t : allowedips) (l : list nat) (ctx : dump_ctx) (key : bytes) (head : option peer_head)
    (node : option nat) (room0 room : Z) : option got :=
  match node with
  | None => Some (no_allowedips ctx room (mk_peer_dump key head None))
  | Some n =>
    let stale := negb (allowedips_seq ctx =? 0) && negb (allowedips_seq ctx =? seq t) in
    let ctx := if allowedips_seq ctx =? 0 then ctx <| allowedips_seq := seq t |> else ctx in
    if stale then Some (no_allowedips ctx room (mk_peer_dump key head None))
    else
      match put nest_size room with
      | None => Some (- EMSGSIZE, room0, ctx, None)
      | Some room =>
        l ← entries_from n l;
        '(room, rs, stop) ← put_allowedips t l room;
        let d := mk_peer_dump key head (Some rs) in
        match stop with
        | Some a => Some (- EMSGSIZE, room, ctx <| next_allowedip := Some a |>, Some d)
        | None => Some (no_allowedips ctx room d)
        end
      end
  end.

Definition nl_get_peer (w : world) (p : nat) (room0 : Z) (ctx : dump_ctx) : option got :=
  x ← w_peers w !! p;
  let key := hs_remote_static (handshake x) in
  let t := w_peer_allowedips w in
  let l := default [] (peer_lists t !! p) in
  match puts [nest_size; nla_total_size (Z.of_nat NOISE_PUBLIC_KEY_LEN)] room0 with
  | None => Some (- EMSGSIZE, room0, ctx, None)
  | Some room =>
    match next_allowedip ctx with
    | None =>
      match puts (head_size x) room with
      | None => Some (- EMSGSIZE, room0, ctx, None)
      | Some room => get_peer_allowedips t l ctx key (Some (head_of x)) (head l) room0 room
      end
    | Some n => get_peer_allowedips t l ctx key None (Some n) room0 room
    end
  end.

(** The peers that fit, the last that is complete, and whether that were all. *)
Fixpoint get_peers (w : world) (l : list nat) (room : Z) (ctx : dump_ctx) (cursor : option nat) :
    option (Z * list peer_dump * dump_ctx * option nat * bool) :=
  match l with
  | [] => Some (room, [], ctx, cursor, true)
  | p :: l =>
    '(ret, room, ctx, o) ← nl_get_peer w p room ctx;
    let said := match o with Some d => [d] | None => [] end in
    if negb (ret =? 0) then Some (room, said, ctx, cursor, false)
    else '(room, ds, ctx, cursor, done) ← get_peers w l room ctx (Some p); Some (room, said ++ ds, ctx, cursor, done)
  end.

Context `{NetDevs}.

Definition device_size (w : world) : list Z :=
  [nla_total_size 2; nla_total_size 4; nla_total_size 4; nla_total_size (Z.of_nat (length dev_name) + 1)] ++
  (if has_identity (w_static_identity w) then
     [nla_total_size (Z.of_nat NOISE_PUBLIC_KEY_LEN); nla_total_size (Z.of_nat NOISE_PUBLIC_KEY_LEN)] else []).
Definition device_of (w : world) : device_dump :=
  let i := w_static_identity w in
  mk_device_dump (w_incoming_port w) (w_fwmark w) dev_ifindex dev_name
    (if has_identity i then Some (static_private i, static_public i) else None).

(** The message, with the context as [get_peer] left it, the cursor and whether the
    dump is complete; or an error. *)
Definition dump_message (w : world) (room : Z) (ctx : dump_ctx) :
    option (Z + Z * message * dump_ctx * option nat * bool) :=
  match put genl_hdr_size room with
  | None => Some (inl (- EMSGSIZE))
  | Some r =>
    let device := if bool_decide (next_peer ctx = None) then Some (device_of w) else None in
    match puts ((if bool_decide (next_peer ctx = None) then device_size w else []) ++ [nest_size]) r with
    | None => Some (inl (- EMSGSIZE))
    | Some r' =>
      dead ← match next_peer ctx with Some p => is_dead <$> w_peers w !! p | None => Some false end;
      if bool_decide (w_peer_list w = []) || dead
      then Some (inr (r' + nest_size, mk_message device None, ctx, next_peer ctx, true))
      else
        l ← match next_peer ctx with Some p => entries_after p (w_peer_list w) | None => Some (w_peer_list w) end;
        '(r, ds, ctx, cursor, done) ← get_peers w l r' ctx (next_peer ctx);
        Some (inr (r, mk_message device (Some ds), ctx, cursor, done))
    end
  end.

(** The sequence number a message is stamped with, its length or error, and the
    message. *)
Definition wg_get_device_dumpit (room : Z) (ctx : dump_ctx) : M (Z * Z * dump_ctx * option message) :=
  cb_seq ← gets w_device_update_gen;
  r ← (fun w => r ← dump_message w room ctx; Some (r, w));
  match r with
  | inl err => wg_peer_put (next_peer ctx);; mret (cb_seq, err, ctx, None)
  | inr (room', m, ctx', cursor, done) =>
    match cursor with Some p => when (negb done) (wg_peer_get p) | None => mret tt end;;
    wg_peer_put (next_peer ctx);;
    if done : bool then mret (cb_seq, 0, ctx' <| next_peer := None |>, Some m)
    else mret (cb_seq, room - room', ctx' <| next_peer := cursor |>, Some m)
  end.

Definition wg_get_device_start (a : device_attrs) (refs : dev_refs) : dev_refs * (Z + dump_ctx) :=
  match lookup_interface a refs with
  | (refs, inl err) => (refs, inl err)
  | (refs, inr _) => (refs, inr dump_start)
  end.

Definition wg_get_device_done (d : nat) (ctx : dump_ctx) (refs : dev_refs) : M dev_refs :=
  wg_peer_put (next_peer ctx);; mret (dev_put d refs).
End Getting.
