(* ===== verification/Guarantee.v ===== *)
(** * What every handler guarantees

    A relation [G] between the world before and after, reflexive and transitive,
    that allows the atomic changes the handlers make, is guaranteed by every
    handler of the device, whatever it is called with.  [Guarantee] lists those
    changes; the lemmas below go through the handlers once, and Invariants.v
    instantiates [G]. *)
From S2P Require Import Prelude Messages Counter PeerLookup AllowedIPs Ratelimiter World Skb Noise Timers Cookie Socket Send Receive Expiry Peer Device.

(** Worlds that agree on the peers, the queues, what was delivered, the routing
    table and whether the interface is up. *)
Record quiet (w w' : world) : Prop := {
  qu_peers : w_peers w' = w_peers w;
  qu_encrypt : w_encrypt_queue w' = w_encrypt_queue w;
  qu_decrypt : w_decrypt_queue w' = w_decrypt_queue w;
  qu_handshake : w_handshake_queue w' = w_handshake_queue w;
  qu_delivered : w_delivered w' = w_delivered w;
  qu_allowedips : w_peer_allowedips w' = w_peer_allowedips w;
  qu_running : w_running w' = w_running w;
}.

Abbreviation queue_bounded l := (Z.of_nat (length l) <= MAX_QUEUED_PACKETS).
Abbreviation keeps_bound l l' := (queue_bounded l -> queue_bounded l').

(** The changes to a peer: it stays dead, its timers are armed only while it is
    alive and the interface up, and its queues stay within their bound. *)
Record calm (running : bool) (x y : wg_peer) : Prop := {
  ca_dead : is_dead x = true → is_dead y = true;
  ca_timers t : timer_expiry t (timers y) = timer_expiry t (timers x) ∨ timer_expiry t (timers y) = None ∨
    running = true ∧ is_dead x = false;
  ca_fifo d : keeps_bound (fq_queued (fifo_of d x)) (fq_queued (fifo_of d y));
}.

Class Guarantee (G : world -> world -> Prop) : Prop := {
  g_preorder :: PreOrder G;
  g_quiet w w' : quiet w w' → G w w';
  g_peer w p x y : w_peers w !! p = Some x → calm (w_running w) x y → G w (w <| w_peers := <[p := y]> (w_peers w) |>);
  g_free w p : G w (w <| w_peers := delete p (w_peers w) |>);
  g_ring w d l : keeps_bound (ring_of d w) l → G w (set_ring d l w);
  g_handshakes w l :
    (Z.of_nat (length (w_handshake_queue w)) <= MAX_QUEUED_INCOMING_HANDSHAKES →
     Z.of_nat (length l) <= MAX_QUEUED_INCOMING_HANDSHAKES) → G w (w <| w_handshake_queue := l |>);
}.

Lemma g_refl {G : world -> world -> Prop} `{PreOrder _ G} w : G w w.
Proof. reflexivity. Qed.
Lemma g_trans {G : world -> world -> Prop} `{PreOrder _ G} w1 w2 w3 : G w1 w2 → G w2 w3 → G w1 w3.
Proof. apply transitivity. Qed.

Definition guaranteed (G : world -> world -> Prop) {A} (m : M A) : Prop := ∀ w x w', m w = Some (x, w') → G w w'.

Create HintDb guar.

(** ** The monad, for any preorder *)

Section Monad.
Context (G : world -> world -> Prop) `{!PreOrder G}.

Lemma guar_bind {A B} (m : M A) (f : A -> M B) : guaranteed G m → (∀ x, guaranteed G (f x)) → guaranteed G (m ≫= f).
Proof. intros Hm Hf w y w' E. apply bind_inv in E as (x & w1 & E1 & E2). eapply g_trans; [by eapply Hm|by eapply Hf]. Qed.

Lemma guar_same {A} (m : M A) : (∀ w x w', m w = Some (x, w') → w' = w) → guaranteed G m.
Proof. intros Hm w x w' E. rewrite (Hm _ _ _ E). apply g_refl. Qed.

Lemma guar_ret {A} (a : A) : guaranteed G (mret a).
Proof. apply guar_same. intros w x w' E. by apply ret_inv in E as [_ ->]. Qed.
Lemma guar_gets {A} (f : world -> A) : guaranteed G (gets f).
Proof. apply guar_same. intros w x w' E. by apply gets_inv in E as [_ ->]. Qed.
Lemma guar_lift {A} (o : option A) : guaranteed G (lift o).
Proof. apply guar_same. intros w x w' E. unfold lift in E. destruct o; by simplify_eq. Qed.
Lemma guar_stuck {A} : guaranteed G (stuck (A := A)).
Proof. intros w x w' E. done. Qed.
Lemma guar_get_peer p : guaranteed G (get_peer p).
Proof. apply guar_same. intros w x w' E. by apply get_peer_inv in E as [_ ->]. Qed.
Lemma guar_get_keypair k : guaranteed G (get_keypair k).
Proof. apply guar_same. intros w x w' E. by apply get_keypair_inv in E as [_ ->]. Qed.
Lemma guar_get_skb s : guaranteed G (get_skb s).
Proof. apply guar_same. intros w x w' E. unfold get_skb in E. case_match; by simplify_eq. Qed.

Lemma guar_when b m : guaranteed G m → guaranteed G (when b m).
Proof. intros Hm. destruct b; [done|apply guar_ret]. Qed.
Lemma guar_for_each {A} (l : list A) f : (∀ x, guaranteed G (f x)) → guaranteed G (for_each l f).
Proof. intros Hf. induction l as [|x l IH]; cbn [for_each]; [apply guar_ret|]. by apply guar_bind. Qed.

Lemma guar_modify f : (∀ w, G w (f w)) → guaranteed G (modify f).
Proof. intros Hf w x w' E. apply modify_inv in E as ->. apply Hf. Qed.
End Monad.

(** ** The changes to the world *)

Section Changes.
Context (G : world -> world -> Prop) `{Guarantee G}.

Lemma guar_set_peer p f : (∀ b x, calm b x (f x)) → guaranteed G (set_peer p f).
Proof. intros Hf w u w' E. apply set_peer_inv in E as (x & Ex & ->). by eapply g_peer. Qed.
Lemma guar_set_keypair k f : guaranteed G (set_keypair k f).
Proof. intros w u w' E. apply set_keypair_inv in E as (x & Ex & ->). by apply g_quiet. Qed.
Lemma guar_set_skb s f : guaranteed G (set_skb s f).
Proof. intros w u w' E. unfold set_skb in E. case_match; simplify_eq. by apply g_quiet. Qed.
Lemma guar_kfree_skb s : guaranteed G (kfree_skb s).
Proof. intros w u w' E. unfold kfree_skb in E. case_match; simplify_eq. by apply g_quiet. Qed.
Lemma guar_random_u32 : guaranteed G get_random_u32.
Proof. intros w u w' E. unfold get_random_u32 in E. case_match; simplify_eq. by apply g_quiet. Qed.
Lemma guar_alloc_ok : guaranteed G alloc_ok.
Proof. intros w u w' E. unfold alloc_ok in E. case_match; simplify_eq; by apply g_quiet. Qed.
End Changes.

#[export] Hint Resolve guar_ret guar_gets guar_lift guar_stuck guar_get_peer guar_get_keypair guar_get_skb guar_set_keypair
  guar_set_skb guar_kfree_skb guar_random_u32 guar_alloc_ok : guar.

(** Through the code of a handler: sequencing and case analysis; the leaves are
    known handlers, quiet changes and calm changes to a peer. *)
Ltac calm := intros; split; cbn; first [done | intros []; cbn; by auto].
Ltac guar1 :=
  match goal with
  | |- guaranteed _ (_ ≫= _) => refine (guar_bind _ _ _ _ _); [|intros ?]
  | |- guaranteed _ (when _ _) => refine (guar_when _ _ _ _)
  | |- guaranteed _ (for_each _ _) => refine (guar_for_each _ _ _ _); intros ?
  | |- guaranteed _ (modify _) => refine (guar_modify _ _ _); intros ?; (by apply g_quiet)
  | |- guaranteed _ (set_peer _ _) => refine (guar_set_peer _ _ _ _); calm
  | |- guaranteed _ (let '(_, _) := ?x in _) => destruct x
  | |- guaranteed _ (match ?x with _ => _ end) => destruct x
  | |- guaranteed _ (if ?x then _ else _) => destruct x
  end.
Ltac guar := repeat first [solve [eauto with guar typeclass_instances] | progress cbv zeta | guar1].

Section Handlers.
Context `{Crypto} `{SipHash} `{HSipHash} `{Ticks} `{Routing} `{NetCore}.
Context (G : world -> world -> Prop) `{Guarantee G}.
#[local] Hint Extern 1 (Guarantee _) => assumption : guar.

(** ** noise.c and peer.c *)

Lemma random_below_guar c : guaranteed G (get_random_u32_below c).
Proof. unfold get_random_u32_below. guar. Qed.
Lemma random_bytes_guar n : guaranteed G (get_random_bytes n).
Proof. induction n; cbn [get_random_bytes]; guar. Qed.
Lemma queue_work_guar k : guaranteed G (queue_work k).
Proof. unfold queue_work. guar. Qed.
Lemma add_skb_guar b : guaranteed G (add_skb b).
Proof. unfold add_skb. guar. Qed.
#[local] Hint Resolve random_below_guar random_bytes_guar queue_work_guar add_skb_guar : guar.
Lemma alloc_skb_guar n : guaranteed G (alloc_skb n).
Proof. unfold alloc_skb. guar. Qed.
Lemma purge_staged_guar p : guaranteed G (wg_packet_purge_staged_packets p).
Proof. unfold wg_packet_purge_staged_packets. guar. Qed.
#[local] Hint Resolve alloc_skb_guar purge_staged_guar : guar.
Lemma rcu_release_guar p : guaranteed G (rcu_release p).
Proof.
  unfold rcu_release. refine (guar_modify _ _ _). intros w. eapply g_trans; [apply (g_free w p)|]. by apply g_quiet.
Qed.
#[local] Hint Resolve rcu_release_guar : guar.
Lemma kref_release_guar p : guaranteed G (kref_release p).
Proof. unfold kref_release. guar. Qed.
#[local] Hint Resolve kref_release_guar : guar.
Lemma wg_peer_put_guar o : guaranteed G (wg_peer_put o).
Proof. unfold wg_peer_put. guar. Qed.
#[local] Hint Resolve wg_peer_put_guar : guar.
Lemma pubkey_lookup_guar key : guaranteed G (pubkey_lookup key).
Proof. intros w x w' E. unfold pubkey_lookup in E. case_match; simplify_eq. by apply g_quiet. Qed.
Lemma index_lookup_guar mask i : guaranteed G (index_lookup mask i).
Proof. intros w x w' E. unfold index_lookup in E. repeat case_match; simplify_eq. by apply g_quiet. Qed.
Lemma index_insert_guar e : guaranteed G (index_insert e).
Proof. intros w x w' E. unfold index_insert in E. repeat case_match; simplify_eq. by apply g_quiet. Qed.
Lemma index_replace_guar old new : guaranteed G (index_replace old new).
Proof. intros w x w' E. unfold index_replace in E. repeat case_match; simplify_eq. by apply g_quiet. Qed.
#[local] Hint Resolve pubkey_lookup_guar index_lookup_guar index_insert_guar index_replace_guar : guar.
Lemma index_remove_guar e : guaranteed G (index_remove e).
Proof. unfold index_remove. guar. Qed.
#[local] Hint Resolve index_remove_guar : guar.
Lemma entry_init_guar e ty p : guaranteed G (entry_init e ty p).
Proof. unfold entry_init. guar. Qed.
#[local] Hint Resolve entry_init_guar : guar.
Lemma entry_fini_guar e : guaranteed G (entry_fini e).
Proof. unfold entry_fini. guar. Qed.
#[local] Hint Resolve entry_fini_guar : guar.
Lemma set_handshake_guar p f : guaranteed G (set_handshake p f).
Proof. unfold set_handshake. guar. Qed.
#[local] Hint Resolve set_handshake_guar : guar.
Lemma set_keypairs_guar p f : guaranteed G (set_keypairs p f).
Proof. unfold set_keypairs. guar. Qed.
#[local] Hint Resolve set_keypairs_guar : guar.
Lemma generate_secret_guar : guaranteed G (generate_secret).
Proof. unfold generate_secret. guar. Qed.
#[local] Hint Resolve generate_secret_guar : guar.
Lemma wg_noise_handshake_clear_guar p : guaranteed G (wg_noise_handshake_clear p).
Proof. unfold wg_noise_handshake_clear. guar. Qed.
#[local] Hint Resolve wg_noise_handshake_clear_guar : guar.
Lemma wg_noise_reset_last_sent_handshake_guar p : guaranteed G (wg_noise_reset_last_sent_handshake p).
Proof. unfold wg_noise_reset_last_sent_handshake. unfold ktime_get_coarse_boottime_ns. guar. Qed.
#[local] Hint Resolve wg_noise_reset_last_sent_handshake_guar : guar.
Lemma keypair_create_guar p : guaranteed G (keypair_create p).
Proof. unfold keypair_create. guar. Qed.
#[local] Hint Resolve keypair_create_guar : guar.
Lemma keypair_free_rcu_guar k : guaranteed G (keypair_free_rcu k).
Proof. unfold keypair_free_rcu. guar. Qed.
#[local] Hint Resolve keypair_free_rcu_guar : guar.
Lemma keypair_free_kref_guar k : guaranteed G (keypair_free_kref k).
Proof. unfold keypair_free_kref. guar. Qed.
#[local] Hint Resolve keypair_free_kref_guar : guar.
Lemma wg_noise_keypair_put_guar o b : guaranteed G (wg_noise_keypair_put o b).
Proof. unfold wg_noise_keypair_put. guar. Qed.
#[local] Hint Resolve wg_noise_keypair_put_guar : guar.
Lemma wg_noise_keypair_get_guar o : guaranteed G (wg_noise_keypair_get o).
Proof. unfold wg_noise_keypair_get. guar. Qed.
#[local] Hint Resolve wg_noise_keypair_get_guar : guar.
Lemma wg_noise_keypairs_clear_guar p : guaranteed G (wg_noise_keypairs_clear p).
Proof. unfold wg_noise_keypairs_clear. guar. Qed.
#[local] Hint Resolve wg_noise_keypairs_clear_guar : guar.
Lemma invalidate_sending_guar o : guaranteed G (invalidate_sending o).
Proof. unfold invalidate_sending. guar. Qed.
#[local] Hint Resolve invalidate_sending_guar : guar.
Lemma wg_noise_expire_current_peer_keypairs_guar p : guaranteed G (wg_noise_expire_current_peer_keypairs p).
Proof. unfold wg_noise_expire_current_peer_keypairs. guar. Qed.
#[local] Hint Resolve wg_noise_expire_current_peer_keypairs_guar : guar.
Lemma add_new_keypair_guar p k : guaranteed G (add_new_keypair p k).
Proof. unfold add_new_keypair. guar. Qed.
#[local] Hint Resolve add_new_keypair_guar : guar.
Lemma wg_noise_received_with_keypair_guar p o : guaranteed G (wg_noise_received_with_keypair p o).
Proof. unfold wg_noise_received_with_keypair. guar. Qed.
#[local] Hint Resolve wg_noise_received_with_keypair_guar : guar.
Lemma put_state_guar p ck h : guaranteed G (put_state p ck h).
Proof. unfold put_state. guar. Qed.
#[local] Hint Resolve put_state_guar : guar.
Lemma wg_noise_handshake_create_initiation_guar p : guaranteed G (wg_noise_handshake_create_initiation p).
Proof. unfold wg_noise_handshake_create_initiation. guar. Qed.
#[local] Hint Resolve wg_noise_handshake_create_initiation_guar : guar.
Lemma wg_noise_handshake_consume_initiation_guar src : guaranteed G (wg_noise_handshake_consume_initiation src).
Proof. unfold wg_noise_handshake_consume_initiation. guar. Qed.
#[local] Hint Resolve wg_noise_handshake_consume_initiation_guar : guar.
Lemma wg_noise_handshake_create_response_guar p : guaranteed G (wg_noise_handshake_create_response p).
Proof. unfold wg_noise_handshake_create_response. guar. Qed.
#[local] Hint Resolve wg_noise_handshake_create_response_guar : guar.
Lemma wg_noise_handshake_consume_response_guar src : guaranteed G (wg_noise_handshake_consume_response src).
Proof. unfold wg_noise_handshake_consume_response. guar. Qed.
#[local] Hint Resolve wg_noise_handshake_consume_response_guar : guar.
Lemma wg_noise_handshake_begin_session_guar p : guaranteed G (wg_noise_handshake_begin_session p).
Proof. unfold wg_noise_handshake_begin_session. guar. Qed.
#[local] Hint Resolve wg_noise_handshake_begin_session_guar : guar.

(** ** timers.c *)

Lemma timer_pending_guar p t : guaranteed G (timer_pending p t).
Proof. unfold timer_pending. guar. Qed.
#[local] Hint Resolve timer_pending_guar : guar.
Lemma timer_delete_guar p t : guaranteed G (timer_delete p t).
Proof.
  unfold timer_delete. refine (guar_set_peer _ _ _ _). intros b x. split; cbn; [done| |by intros []].
  intros t'. destruct (decide (t' = t)) as [->|Ht]; [right; left; by destruct t|left; by destruct t, t'].
Qed.
Lemma mod_peer_timer_guar p t e : guaranteed G (mod_peer_timer p t e).
Proof.
  intros w u w' E. unfold mod_peer_timer in E. apply bind_inv in E as (running & w1 & E1 & E).
  apply gets_inv in E1 as [-> ->]. apply bind_inv in E as (x & w1 & E1 & E). apply get_peer_inv in E1 as [Ex ->].
  destruct (w_running w && negb (is_dead x)) eqn:Eb; [|apply ret_inv in E as [_ ->]; apply g_refl].
  apply andb_true_iff in Eb as [Er Ed]. apply negb_true_iff in Ed.
  unfold when, mod_timer in E. apply set_peer_inv in E as (x' & Ex' & ->). rewrite Ex in Ex'. injection Ex' as <-.
  eapply g_peer; [done|]. split; cbn; [done| |by intros []]. intros t'. by right; right.
Qed.
#[local] Hint Resolve timer_delete_guar mod_peer_timer_guar : guar.
Lemma wg_timers_data_sent_guar p : guaranteed G (wg_timers_data_sent p).
Proof. unfold wg_timers_data_sent. guar. Qed.
#[local] Hint Resolve wg_timers_data_sent_guar : guar.
Lemma wg_timers_data_received_guar p : guaranteed G (wg_timers_data_received p).
Proof. unfold wg_timers_data_received. guar. Qed.
#[local] Hint Resolve wg_timers_data_received_guar : guar.
Lemma wg_timers_any_authenticated_packet_sent_guar p : guaranteed G (wg_timers_any_authenticated_packet_sent p).
Proof. unfold wg_timers_any_authenticated_packet_sent. guar. Qed.
#[local] Hint Resolve wg_timers_any_authenticated_packet_sent_guar : guar.
Lemma wg_timers_any_authenticated_packet_received_guar p : guaranteed G (wg_timers_any_authenticated_packet_received p).
Proof. unfold wg_timers_any_authenticated_packet_received. guar. Qed.
#[local] Hint Resolve wg_timers_any_authenticated_packet_received_guar : guar.
Lemma wg_timers_handshake_initiated_guar p : guaranteed G (wg_timers_handshake_initiated p).
Proof. unfold wg_timers_handshake_initiated. guar. Qed.
#[local] Hint Resolve wg_timers_handshake_initiated_guar : guar.
Lemma wg_timers_handshake_complete_guar p : guaranteed G (wg_timers_handshake_complete p).
Proof. unfold wg_timers_handshake_complete. guar. Qed.
#[local] Hint Resolve wg_timers_handshake_complete_guar : guar.
Lemma wg_timers_session_derived_guar p : guaranteed G (wg_timers_session_derived p).
Proof. unfold wg_timers_session_derived. guar. Qed.
#[local] Hint Resolve wg_timers_session_derived_guar : guar.
Lemma wg_timers_any_authenticated_packet_traversal_guar p : guaranteed G (wg_timers_any_authenticated_packet_traversal p).
Proof. unfold wg_timers_any_authenticated_packet_traversal. guar. Qed.
#[local] Hint Resolve wg_timers_any_authenticated_packet_traversal_guar : guar.

(** ** cookie.c *)

Lemma set_checker_guar f : guaranteed G (set_checker f).
Proof. unfold set_checker. guar. Qed.
#[local] Hint Resolve set_checker_guar : guar.
Lemma set_cookie_guar p f : guaranteed G (set_cookie p f).
Proof. unfold set_cookie. guar. Qed.
#[local] Hint Resolve set_cookie_guar : guar.
Lemma ratelimiter_allow_guar src : guaranteed G (ratelimiter_allow src).
Proof. unfold ratelimiter_allow. unfold ktime_get_coarse_boottime_ns. guar. Qed.
#[local] Hint Resolve ratelimiter_allow_guar : guar.
Lemma make_cookie_guar s : guaranteed G (make_cookie s).
Proof. unfold make_cookie. unfold ktime_get_coarse_boottime_ns. guar. Qed.
#[local] Hint Resolve make_cookie_guar : guar.
Lemma wg_cookie_validate_packet_guar s b : guaranteed G (wg_cookie_validate_packet s b).
Proof. unfold wg_cookie_validate_packet. guar. Qed.
#[local] Hint Resolve wg_cookie_validate_packet_guar : guar.
Lemma wg_cookie_add_mac_to_packet_guar m p : guaranteed G (wg_cookie_add_mac_to_packet m p).
Proof. unfold wg_cookie_add_mac_to_packet. unfold ktime_get_coarse_boottime_ns. guar. Qed.
#[local] Hint Resolve wg_cookie_add_mac_to_packet_guar : guar.
Lemma wg_cookie_message_create_guar s i : guaranteed G (wg_cookie_message_create s i).
Proof. unfold wg_cookie_message_create. guar. Qed.
#[local] Hint Resolve wg_cookie_message_create_guar : guar.
Lemma wg_cookie_message_consume_guar m : guaranteed G (wg_cookie_message_consume m).
Proof. unfold wg_cookie_message_consume. unfold ktime_get_coarse_boottime_ns. guar. Qed.
#[local] Hint Resolve wg_cookie_message_consume_guar : guar.

(** ** socket.c *)

Lemma mark_not_on_list_guar s : guaranteed G (mark_not_on_list s).
Proof. unfold mark_not_on_list. guar. Qed.
#[local] Hint Resolve mark_not_on_list_guar : guar.
Lemma put_skb_guar s o : guaranteed G (put_skb s o).
Proof. unfold put_skb. guar. Qed.
#[local] Hint Resolve put_skb_guar : guar.
Lemma udp_tunnel_xmit_skb_guar s a b c d : guaranteed G (udp_tunnel_xmit_skb s a b c d).
Proof. unfold udp_tunnel_xmit_skb. guar. Qed.
#[local] Hint Resolve udp_tunnel_xmit_skb_guar : guar.
Lemma send4_guar s e a b c d : guaranteed G (send4 s e a b c d).
Proof. unfold send4. guar. Qed.
#[local] Hint Resolve send4_guar : guar.
Lemma send6_guar s e a b c d f : guaranteed G (send6 s e a b c d f).
Proof. unfold send6. guar. Qed.
#[local] Hint Resolve send6_guar : guar.
Lemma wg_socket_send_skb_to_peer_guar p s ds : guaranteed G (wg_socket_send_skb_to_peer p s ds).
Proof. unfold wg_socket_send_skb_to_peer. guar. Qed.
#[local] Hint Resolve wg_socket_send_skb_to_peer_guar : guar.
Lemma skb_with_buffer_guar b : guaranteed G (skb_with_buffer b).
Proof. unfold skb_with_buffer. guar. Qed.
#[local] Hint Resolve skb_with_buffer_guar : guar.
Lemma wg_socket_send_buffer_to_peer_guar p b ds : guaranteed G (wg_socket_send_buffer_to_peer p b ds).
Proof. unfold wg_socket_send_buffer_to_peer. guar. Qed.
#[local] Hint Resolve wg_socket_send_buffer_to_peer_guar : guar.
Lemma wg_socket_send_buffer_as_reply_to_skb_guar s b : guaranteed G (wg_socket_send_buffer_as_reply_to_skb s b).
Proof. unfold wg_socket_send_buffer_as_reply_to_skb. guar. Qed.
#[local] Hint Resolve wg_socket_send_buffer_as_reply_to_skb_guar : guar.
Lemma wg_socket_set_peer_endpoint_guar p e : guaranteed G (wg_socket_set_peer_endpoint p e).
Proof. unfold wg_socket_set_peer_endpoint. guar. Qed.
#[local] Hint Resolve wg_socket_set_peer_endpoint_guar : guar.
Lemma wg_socket_set_peer_endpoint_from_skb_guar p s : guaranteed G (wg_socket_set_peer_endpoint_from_skb p s).
Proof. unfold wg_socket_set_peer_endpoint_from_skb. guar. Qed.
#[local] Hint Resolve wg_socket_set_peer_endpoint_from_skb_guar : guar.
Lemma wg_socket_clear_peer_endpoint_src_guar p : guaranteed G (wg_socket_clear_peer_endpoint_src p).
Proof. unfold wg_socket_clear_peer_endpoint_src. guar. Qed.
#[local] Hint Resolve wg_socket_clear_peer_endpoint_src_guar : guar.
Lemma sock_free_guar o : guaranteed G (sock_free o).
Proof. unfold sock_free. guar. Qed.
#[local] Hint Resolve sock_free_guar : guar.
Lemma wg_socket_reinit_guar a b : guaranteed G (wg_socket_reinit a b).
Proof. unfold wg_socket_reinit. guar. Qed.
#[local] Hint Resolve wg_socket_reinit_guar : guar.
Lemma socket_init_loop_guar fuel net port n : guaranteed G (socket_init_loop fuel net port n).
Proof. revert n. induction fuel as [|fuel IH]; intros n; cbn [socket_init_loop]; guar. Qed.
#[local] Hint Resolve socket_init_loop_guar : guar.
Lemma wg_socket_init_guar port : guaranteed G (wg_socket_init port).
Proof. unfold wg_socket_init. guar. Qed.
#[local] Hint Resolve wg_socket_init_guar : guar.

(** ** send.c and queueing.h *)

Lemma ptr_ring_produce_guar d s : guaranteed G (ptr_ring_produce_bh d s).
Proof.
  intros w u w' E. unfold ptr_ring_produce_bh in E. apply bind_inv in E as (l & w1 & E1 & E). apply gets_inv in E1 as [-> ->].
  destruct (Z.ltb_spec (Z.of_nat (length (ring_of d w))) MAX_QUEUED_PACKETS); [|apply ret_inv in E as [_ ->]; apply g_refl].
  apply bind_inv in E as (u1 & w1 & E1 & E). apply modify_inv in E1 as ->. apply ret_inv in E as [_ ->].
  apply g_ring. intros _. rewrite length_app. cbn. lia.
Qed.
Lemma ptr_ring_consume_guar d : guaranteed G (ptr_ring_consume_bh d).
Proof.
  intros w u w' E. unfold ptr_ring_consume_bh in E. apply bind_inv in E as (l & w1 & E1 & E). apply gets_inv in E1 as [-> ->].
  destruct (ring_of d w) as [|s l] eqn:El; [apply ret_inv in E as [_ ->]; apply g_refl|].
  apply bind_inv in E as (u1 & w1 & E1 & E). apply modify_inv in E1 as ->. apply ret_inv in E as [_ ->].
  apply g_ring. rewrite El. cbn. lia.
Qed.
Lemma calm_fifo b d q x : keeps_bound (fq_queued (fifo_of d x)) (fq_queued q) → calm b x (set_fifo d q x).
Proof. intros Hq. split; [by destruct d|intros t; left; by destruct d|intros d'; destruct d, d'; cbn; auto]. Qed.
Lemma prev_queue_enqueue_guar p d s : guaranteed G (prev_queue_enqueue p d s).
Proof.
  intros w u w' E. unfold prev_queue_enqueue in E. apply bind_inv in E as (x & w1 & E1 & E). apply get_peer_inv in E1 as [Ex ->].
  cbv zeta in E. destruct (Z.eqb_spec (Z.of_nat (length (fq_queued (fifo_of d x)))) MAX_QUEUED_PACKETS);
    [apply ret_inv in E as [_ ->]; apply g_refl|].
  apply bind_inv in E as (u1 & w1 & E1 & E). apply ret_inv in E as [_ ->].
  apply set_peer_inv in E1 as (x' & Ex' & ->). rewrite Ex in Ex'. injection Ex' as <-.
  eapply g_peer; [done|]. apply calm_fifo. cbn. rewrite length_app. cbn. lia.
Qed.
Lemma prev_queue_peek_guar p d : guaranteed G (prev_queue_peek p d).
Proof.
  intros w u w' E. unfold prev_queue_peek in E. apply bind_inv in E as (x & w1 & E1 & E). apply get_peer_inv in E1 as [Ex ->].
  cbv zeta in E. destruct (fq_peeked _); [apply ret_inv in E as [_ ->]; apply g_refl|].
  destruct (fq_queued (fifo_of d x)) as [|s l] eqn:El; [apply ret_inv in E as [_ ->]; apply g_refl|].
  apply bind_inv in E as (u1 & w1 & E1 & E). apply ret_inv in E as [_ ->].
  apply set_peer_inv in E1 as (x' & Ex' & ->). rewrite Ex in Ex'. injection Ex' as <-.
  eapply g_peer; [done|]. apply calm_fifo. rewrite El. cbn. lia.
Qed.
Lemma prev_queue_drop_peeked_guar p d : guaranteed G (prev_queue_drop_peeked p d).
Proof. unfold prev_queue_drop_peeked. refine (guar_set_peer _ _ _ _). intros b x. by apply calm_fifo. Qed.
#[local] Hint Resolve ptr_ring_produce_guar ptr_ring_consume_guar prev_queue_enqueue_guar prev_queue_peek_guar
  prev_queue_drop_peeked_guar : guar.
Lemma wg_peer_get_guar p : guaranteed G (wg_peer_get p).
Proof. unfold wg_peer_get. guar. Qed.
#[local] Hint Resolve wg_peer_get_guar : guar.
Lemma wg_queue_enqueue_per_device_and_peer_guar d p s : guaranteed G (wg_queue_enqueue_per_device_and_peer d p s).
Proof. unfold wg_queue_enqueue_per_device_and_peer. guar. Qed.
#[local] Hint Resolve wg_queue_enqueue_per_device_and_peer_guar : guar.
Lemma PACKET_PEER_guar s : guaranteed G (PACKET_PEER s).
Proof. unfold PACKET_PEER. guar. Qed.
#[local] Hint Resolve PACKET_PEER_guar : guar.
Lemma wg_queue_enqueue_per_peer_tx_guar s state : guaranteed G (wg_queue_enqueue_per_peer_tx s state).
Proof. unfold wg_queue_enqueue_per_peer_tx. guar. Qed.
#[local] Hint Resolve wg_queue_enqueue_per_peer_tx_guar : guar.
Lemma now_to_last_sent_guar p : guaranteed G (now_to_last_sent p).
Proof. unfold now_to_last_sent. unfold ktime_get_coarse_boottime_ns. guar. Qed.
#[local] Hint Resolve now_to_last_sent_guar : guar.
Lemma wg_packet_send_handshake_initiation_guar p : guaranteed G (wg_packet_send_handshake_initiation p).
Proof. unfold wg_packet_send_handshake_initiation. unfold ktime_get_coarse_boottime_ns. guar. Qed.
#[local] Hint Resolve wg_packet_send_handshake_initiation_guar : guar.
Lemma wg_packet_handshake_send_worker_guar p : guaranteed G (wg_packet_handshake_send_worker p).
Proof. unfold wg_packet_handshake_send_worker. guar. Qed.
#[local] Hint Resolve wg_packet_handshake_send_worker_guar : guar.
Lemma wg_packet_send_queued_handshake_initiation_guar p r : guaranteed G (wg_packet_send_queued_handshake_initiation p r).
Proof. unfold wg_packet_send_queued_handshake_initiation. unfold ktime_get_coarse_boottime_ns. guar. Qed.
#[local] Hint Resolve wg_packet_send_queued_handshake_initiation_guar : guar.
Lemma wg_packet_send_handshake_response_guar p : guaranteed G (wg_packet_send_handshake_response p).
Proof. unfold wg_packet_send_handshake_response. guar. Qed.
#[local] Hint Resolve wg_packet_send_handshake_response_guar : guar.
Lemma wg_packet_send_handshake_cookie_guar s i : guaranteed G (wg_packet_send_handshake_cookie s i).
Proof. unfold wg_packet_send_handshake_cookie. guar. Qed.
#[local] Hint Resolve wg_packet_send_handshake_cookie_guar : guar.
Lemma keep_key_fresh_guar p : guaranteed G (keep_key_fresh p).
Proof. unfold keep_key_fresh. unfold ktime_get_coarse_boottime_ns. guar. Qed.
#[local] Hint Resolve keep_key_fresh_guar : guar.
Lemma encrypt_packet_guar s k : guaranteed G (encrypt_packet s k).
Proof. unfold encrypt_packet. guar. Qed.
#[local] Hint Resolve encrypt_packet_guar : guar.
Lemma wg_reset_packet_guar s : guaranteed G (wg_reset_packet s).
Proof. unfold wg_reset_packet. guar. Qed.
#[local] Hint Resolve wg_reset_packet_guar : guar.
Lemma link_chain_guar l : guaranteed G (link_chain l).
Proof. induction l; cbn [link_chain]; guar. Qed.
Lemma walk_chain_guar s : guaranteed G (walk_chain s).
Proof. unfold walk_chain. guar. Qed.
Lemma kfree_skb_list_guar s : guaranteed G (kfree_skb_list s).
Proof. unfold kfree_skb_list. refine (guar_bind _ _ _ _ _); [apply walk_chain_guar|]. intros l. guar. Qed.
Lemma encrypt_chain_guar l k : guaranteed G (encrypt_chain l k).
Proof. induction l; cbn [encrypt_chain]; guar. Qed.
#[local] Hint Resolve link_chain_guar walk_chain_guar kfree_skb_list_guar encrypt_chain_guar : guar.
Lemma encrypt_one_guar s : guaranteed G (encrypt_one s).
Proof. unfold encrypt_one. guar. Qed.
#[local] Hint Resolve encrypt_one_guar : guar.
Lemma encrypt_loop_guar n : guaranteed G (encrypt_loop n).
Proof. induction n; cbn [encrypt_loop]; guar. Qed.
#[local] Hint Resolve encrypt_loop_guar : guar.
Lemma wg_packet_encrypt_worker_guar : guaranteed G (wg_packet_encrypt_worker).
Proof. unfold wg_packet_encrypt_worker. guar. Qed.
#[local] Hint Resolve wg_packet_encrypt_worker_guar : guar.
Lemma send_chain_guar p l b : guaranteed G (send_chain p l b).
Proof. revert b. induction l; intros b; cbn [send_chain]; guar. Qed.
#[local] Hint Resolve send_chain_guar : guar.
Lemma wg_packet_create_data_done_guar p s : guaranteed G (wg_packet_create_data_done p s).
Proof. unfold wg_packet_create_data_done. guar. Qed.
#[local] Hint Resolve wg_packet_create_data_done_guar : guar.
Lemma tx_loop_guar n p : guaranteed G (tx_loop n p).
Proof. induction n; cbn [tx_loop]; guar. Qed.
#[local] Hint Resolve tx_loop_guar : guar.
Lemma wg_packet_tx_worker_guar p : guaranteed G (wg_packet_tx_worker p).
Proof. unfold wg_packet_tx_worker. guar. Qed.
#[local] Hint Resolve wg_packet_tx_worker_guar : guar.
Lemma wg_packet_create_data_guar p s : guaranteed G (wg_packet_create_data p s).
Proof. unfold wg_packet_create_data. guar. Qed.
#[local] Hint Resolve wg_packet_create_data_guar : guar.
Lemma assign_nonces_guar l k : guaranteed G (assign_nonces l k).
Proof. induction l; cbn [assign_nonces]; guar. Qed.
#[local] Hint Resolve assign_nonces_guar : guar.
Lemma out_nokey_guar p k l : guaranteed G (out_nokey p k l).
Proof. unfold out_nokey. guar. Qed.
#[local] Hint Resolve out_nokey_guar : guar.
Lemma out_invalid_guar p k l : guaranteed G (out_invalid p k l).
Proof. unfold out_invalid. guar. Qed.
#[local] Hint Resolve out_invalid_guar : guar.
Lemma wg_packet_send_staged_packets_guar p : guaranteed G (wg_packet_send_staged_packets p).
Proof. unfold wg_packet_send_staged_packets. unfold ktime_get_coarse_boottime_ns. guar. Qed.
#[local] Hint Resolve wg_packet_send_staged_packets_guar : guar.
Lemma wg_packet_send_keepalive_guar p : guaranteed G (wg_packet_send_keepalive p).
Proof. unfold wg_packet_send_keepalive. guar. Qed.
#[local] Hint Resolve wg_packet_send_keepalive_guar : guar.

(** ** receive.c *)

Lemma update_rx_stats_guar p n : guaranteed G (update_rx_stats p n).
Proof. unfold update_rx_stats. guar. Qed.
#[local] Hint Resolve update_rx_stats_guar : guar.
Lemma under_load_guar : guaranteed G (under_load).
Proof. unfold under_load. unfold ktime_get_coarse_boottime_ns. guar. Qed.
#[local] Hint Resolve under_load_guar : guar.
Lemma receive_initiation_guar s b : guaranteed G (receive_initiation s b).
Proof. unfold receive_initiation. guar. Qed.
#[local] Hint Resolve receive_initiation_guar : guar.
Lemma receive_response_guar s b : guaranteed G (receive_response s b).
Proof. unfold receive_response. guar. Qed.
#[local] Hint Resolve receive_response_guar : guar.
Lemma wg_receive_handshake_packet_guar s : guaranteed G (wg_receive_handshake_packet s).
Proof. unfold wg_receive_handshake_packet. guar. Qed.
#[local] Hint Resolve wg_receive_handshake_packet_guar : guar.
Lemma handshake_loop_guar n : guaranteed G (handshake_loop n).
Proof.
  induction n as [|n IH]; cbn [handshake_loop]; intros w u w' E; apply bind_inv in E as (l & w1 & E1 & E);
    apply gets_inv in E1 as [-> ->]; destruct (w_handshake_queue w) as [|s l] eqn:El;
    try (apply ret_inv in E as [_ ->]; apply g_refl); [done|].
  apply bind_inv in E as (u1 & w1 & E1 & E). apply modify_inv in E1 as ->.
  eapply g_trans; [apply (g_handshakes w l); rewrite El; cbn; lia|]. revert E. revert u w'.
  match goal with |- ∀ u w', ?m _ = _ → _ => assert (guaranteed G m) as Hm by guar; exact (Hm _) end.
Qed.
#[local] Hint Resolve handshake_loop_guar : guar.
Lemma wg_packet_handshake_receive_worker_guar : guaranteed G (wg_packet_handshake_receive_worker).
Proof. unfold wg_packet_handshake_receive_worker. guar. Qed.
#[local] Hint Resolve wg_packet_handshake_receive_worker_guar : guar.
Lemma rx_keep_key_fresh_guar p : guaranteed G (rx_keep_key_fresh p).
Proof. unfold rx_keep_key_fresh. unfold ktime_get_coarse_boottime_ns. guar. Qed.
#[local] Hint Resolve rx_keep_key_fresh_guar : guar.
Lemma decrypt_packet_guar s k : guaranteed G (decrypt_packet s k).
Proof. unfold decrypt_packet. unfold ktime_get_coarse_boottime_ns. guar. Qed.
#[local] Hint Resolve decrypt_packet_guar : guar.
Lemma enqueue_per_peer_rx_guar s state : guaranteed G (enqueue_per_peer_rx s state).
Proof. unfold enqueue_per_peer_rx. guar. Qed.
#[local] Hint Resolve enqueue_per_peer_rx_guar : guar.
Lemma decrypt_loop_guar n : guaranteed G (decrypt_loop n).
Proof. induction n; cbn [decrypt_loop]; guar. Qed.
#[local] Hint Resolve decrypt_loop_guar : guar.
Lemma decrypt_worker_guar : guaranteed G (decrypt_worker).
Proof. unfold decrypt_worker. guar. Qed.
#[local] Hint Resolve decrypt_worker_guar : guar.
Lemma rx_error_guar f : guaranteed G (rx_error f).
Proof. unfold rx_error. guar. Qed.
#[local] Hint Resolve rx_error_guar : guar.
Lemma lookup_src_guar a : guaranteed G (lookup_src a).
Proof. unfold lookup_src. guar. Qed.
#[local] Hint Resolve lookup_src_guar : guar.
Lemma wg_packet_consume_data_guar s : guaranteed G (wg_packet_consume_data s).
Proof. unfold wg_packet_consume_data. guar. Qed.
#[local] Hint Resolve wg_packet_consume_data_guar : guar.
Lemma receive_handshake_guar s : guaranteed G (receive_handshake s).
Proof.
  intros w u w' E. unfold receive_handshake in E. apply bind_inv in E as (l & w1 & E1 & E). apply gets_inv in E1 as [-> ->].
  destruct (_ || _) eqn:Eb; [exact (guar_kfree_skb G s _ _ _ E)|]. apply orb_false_iff in Eb as [_ Eb]. apply Z.leb_gt in Eb.
  apply bind_inv in E as (u1 & w1 & E1 & E). apply modify_inv in E1 as ->.
  eapply g_trans; [apply (g_handshakes w (w_handshake_queue w ++ [s])); rewrite length_app; cbn; lia|].
  eapply g_trans; [|assert (guaranteed G (queue_work Handshake_receive_work;; mret tt)) as Hm by guar; exact (Hm _ _ _ E)].
  by apply g_quiet.
Qed.
#[local] Hint Resolve receive_handshake_guar : guar.
Lemma wg_packet_receive_guar s : guaranteed G (wg_packet_receive s).
Proof. unfold wg_packet_receive. guar. Qed.
#[local] Hint Resolve wg_packet_receive_guar : guar.
Lemma wg_receive_guar b s : guaranteed G (wg_receive b s).
Proof. unfold wg_receive. guar. Qed.
#[local] Hint Resolve wg_receive_guar : guar.

(** ** The timers' callbacks *)

Lemma wg_expired_retransmit_handshake_guar p : guaranteed G (wg_expired_retransmit_handshake p).
Proof. unfold wg_expired_retransmit_handshake. guar. Qed.
#[local] Hint Resolve wg_expired_retransmit_handshake_guar : guar.
Lemma wg_expired_send_keepalive_guar p : guaranteed G (wg_expired_send_keepalive p).
Proof. unfold wg_expired_send_keepalive. guar. Qed.
#[local] Hint Resolve wg_expired_send_keepalive_guar : guar.
Lemma wg_expired_new_handshake_guar p : guaranteed G (wg_expired_new_handshake p).
Proof. unfold wg_expired_new_handshake. guar. Qed.
#[local] Hint Resolve wg_expired_new_handshake_guar : guar.
Lemma wg_expired_zero_key_material_guar p : guaranteed G (wg_expired_zero_key_material p).
Proof. unfold wg_expired_zero_key_material. guar. Qed.
#[local] Hint Resolve wg_expired_zero_key_material_guar : guar.
Lemma wg_queued_expired_zero_key_material_guar p : guaranteed G (wg_queued_expired_zero_key_material p).
Proof. unfold wg_queued_expired_zero_key_material. guar. Qed.
#[local] Hint Resolve wg_queued_expired_zero_key_material_guar : guar.
Lemma wg_expired_send_persistent_keepalive_guar p : guaranteed G (wg_expired_send_persistent_keepalive p).
Proof. unfold wg_expired_send_persistent_keepalive. guar. Qed.
#[local] Hint Resolve wg_expired_send_persistent_keepalive_guar : guar.
Lemma timer_function_guar t p : guaranteed G (timer_function t p).
Proof. unfold timer_function. destruct t; guar. Qed.
#[local] Hint Resolve timer_function_guar : guar.
Lemma timer_fires_guar p t : guaranteed G (timer_fires p t).
Proof. unfold timer_fires. guar. Qed.
#[local] Hint Resolve timer_fires_guar : guar.
Lemma flush_clear_peer_work_guar p : guaranteed G (flush_clear_peer_work p).
Proof. unfold flush_clear_peer_work. guar. Qed.
#[local] Hint Resolve flush_clear_peer_work_guar : guar.
Lemma wg_timers_stop_guar p : guaranteed G (wg_timers_stop p).
Proof. unfold wg_timers_stop. guar. Qed.
#[local] Hint Resolve wg_timers_stop_guar : guar.

(** ** Delivery, work, peers and the device *)

Context (Hdelivers : ∀ w l, G w (w <| w_delivered := l |>)) (Hreroutes : ∀ w t, G w (w <| w_peer_allowedips := t |>)).

Lemma napi_gro_receive_guar p s : guaranteed G (napi_gro_receive p s).
Proof. unfold napi_gro_receive. refine (guar_modify _ _ _). intros w. exact (Hdelivers w _). Qed.
#[local] Hint Resolve napi_gro_receive_guar : guar.
Lemma deliver_guar p s b : guaranteed G (deliver p s b).
Proof. unfold deliver. guar. Qed.
#[local] Hint Resolve deliver_guar : guar.
Lemma wg_packet_consume_data_done_guar p s e : guaranteed G (wg_packet_consume_data_done p s e).
Proof. unfold wg_packet_consume_data_done. guar. Qed.
#[local] Hint Resolve wg_packet_consume_data_done_guar : guar.
Lemma rx_packet_guar p s : guaranteed G (rx_packet p s).
Proof. unfold rx_packet. guar. Qed.
#[local] Hint Resolve rx_packet_guar : guar.
Lemma rx_loop_guar n p done : guaranteed G (rx_loop n p done).
Proof. revert done. induction n; intros done; cbn [rx_loop]; guar. Qed.
#[local] Hint Resolve rx_loop_guar : guar.
Lemma napi_poll_guar p : guaranteed G (napi_poll p).
Proof. unfold napi_poll. guar. Qed.
#[local] Hint Resolve napi_poll_guar : guar.
Lemma run_work_guar k : guaranteed G (run_work k).
Proof. unfold run_work. destruct k; guar. Qed.
#[local] Hint Resolve run_work_guar : guar.
Lemma take_and_run_guar k : guaranteed G (take_and_run k).
Proof. unfold take_and_run. guar. Qed.
#[local] Hint Resolve take_and_run_guar : guar.
Lemma flush_workqueue_guar q : guaranteed G (flush_workqueue q).
Proof. unfold flush_workqueue. guar. Qed.
#[local] Hint Resolve flush_workqueue_guar : guar.
Lemma napi_disable_guar n p : guaranteed G (napi_disable n p).
Proof. induction n; cbn [napi_disable]; guar. Qed.
#[local] Hint Resolve napi_disable_guar : guar.
Lemma set_allowedips_guar t : guaranteed G (modify (fun w => w <| w_peer_allowedips := t |>)).
Proof. refine (guar_modify _ _ _). intros w. apply Hreroutes. Qed.
#[local] Hint Resolve set_allowedips_guar : guar.
Lemma pubkey_remove_guar p : guaranteed G (pubkey_remove p).
Proof. unfold pubkey_remove. guar. Qed.
#[local] Hint Resolve pubkey_remove_guar : guar.
Lemma peer_make_dead_guar p : guaranteed G (peer_make_dead p).
Proof. unfold peer_make_dead. guar. Qed.
#[local] Hint Resolve peer_make_dead_guar : guar.
Lemma peer_remove_after_dead_guar p : guaranteed G (peer_remove_after_dead p).
Proof. unfold peer_remove_after_dead. guar. Qed.
#[local] Hint Resolve peer_remove_after_dead_guar : guar.
Lemma wg_peer_remove_guar o : guaranteed G (wg_peer_remove o).
Proof. unfold wg_peer_remove. guar. Qed.
#[local] Hint Resolve wg_peer_remove_guar : guar.
Lemma wg_peer_remove_all_guar : guaranteed G (wg_peer_remove_all).
Proof. unfold wg_peer_remove_all. guar. Qed.
#[local] Hint Resolve wg_peer_remove_all_guar : guar.
Lemma wg_open_guar : guaranteed G (wg_open).
Proof. unfold wg_open. guar. Qed.
#[local] Hint Resolve wg_open_guar : guar.
Lemma wg_pm_notification_guar a k : guaranteed G (wg_pm_notification a k).
Proof. unfold wg_pm_notification. guar. Qed.
#[local] Hint Resolve wg_pm_notification_guar : guar.
Lemma wg_vm_notification_guar : guaranteed G (wg_vm_notification).
Proof. unfold wg_vm_notification. guar. Qed.
#[local] Hint Resolve wg_vm_notification_guar : guar.
Lemma clear_handshakes_guar : guaranteed G (modify (fun w => w <| w_handshake_queue := [] |>)).
Proof. refine (guar_modify _ _ _). intros w. by apply g_handshakes. Qed.
#[local] Hint Resolve clear_handshakes_guar : guar.
Lemma wg_stop_guar : guaranteed G (wg_stop).
Proof. unfold wg_stop. guar. Qed.
#[local] Hint Resolve wg_stop_guar : guar.
Lemma lookup_dst_guar a : guaranteed G (lookup_dst a).
Proof. unfold lookup_dst. guar. Qed.
#[local] Hint Resolve lookup_dst_guar : guar.
Lemma xmit_err_guar s r : guaranteed G (xmit_err s r).
Proof. unfold xmit_err. guar. Qed.
#[local] Hint Resolve xmit_err_guar : guar.
Lemma add_segments_guar segs : guaranteed G (add_segments segs).
Proof. induction segs; cbn [add_segments]; guar. Qed.
#[local] Hint Resolve add_segments_guar : guar.
Lemma segments_guar s b : guaranteed G (segments s b).
Proof. unfold segments. guar. Qed.
#[local] Hint Resolve segments_guar : guar.
Lemma trim_staged_guar p : guaranteed G (trim_staged p).
Proof. unfold trim_staged. guar. Qed.
#[local] Hint Resolve trim_staged_guar : guar.
Lemma wg_xmit_guar s : guaranteed G (wg_xmit s).
Proof. unfold wg_xmit. guar. Qed.
#[local] Hint Resolve wg_xmit_guar : guar.
Lemma drain_workqueue_guar n q : guaranteed G (drain_workqueue n q).
Proof. induction n; cbn [drain_workqueue]; guar. Qed.
#[local] Hint Resolve drain_workqueue_guar : guar.
Lemma destroy_workqueue_guar q : guaranteed G (destroy_workqueue q).
Proof. unfold destroy_workqueue. guar. Qed.
#[local] Hint Resolve destroy_workqueue_guar : guar.
Lemma wg_destruct_guar : guaranteed G (wg_destruct).
Proof. unfold wg_destruct. guar. Qed.
#[local] Hint Resolve wg_destruct_guar : guar.
Lemma wg_netns_exit_rtnl_guar n : guaranteed G (wg_netns_exit_rtnl n).
Proof. unfold wg_netns_exit_rtnl. guar. Qed.
#[local] Hint Resolve wg_netns_exit_rtnl_guar : guar.
End Handlers.

#[export] Hint Resolve random_below_guar random_bytes_guar queue_work_guar add_skb_guar alloc_skb_guar purge_staged_guar
  rcu_release_guar kref_release_guar wg_peer_put_guar pubkey_lookup_guar index_lookup_guar index_insert_guar
  index_replace_guar index_remove_guar entry_init_guar entry_fini_guar set_handshake_guar set_keypairs_guar
  generate_secret_guar wg_noise_handshake_clear_guar wg_noise_reset_last_sent_handshake_guar keypair_create_guar
  keypair_free_rcu_guar keypair_free_kref_guar wg_noise_keypair_put_guar wg_noise_keypair_get_guar
  wg_noise_keypairs_clear_guar invalidate_sending_guar wg_noise_expire_current_peer_keypairs_guar add_new_keypair_guar
  wg_noise_received_with_keypair_guar put_state_guar wg_noise_handshake_create_initiation_guar
  wg_noise_handshake_consume_initiation_guar wg_noise_handshake_create_response_guar wg_noise_handshake_consume_response_guar
  wg_noise_handshake_begin_session_guar timer_pending_guar timer_delete_guar mod_peer_timer_guar wg_timers_data_sent_guar
  wg_timers_data_received_guar wg_timers_any_authenticated_packet_sent_guar wg_timers_any_authenticated_packet_received_guar
  wg_timers_handshake_initiated_guar wg_timers_handshake_complete_guar wg_timers_session_derived_guar
  wg_timers_any_authenticated_packet_traversal_guar set_checker_guar set_cookie_guar ratelimiter_allow_guar make_cookie_guar
  wg_cookie_validate_packet_guar wg_cookie_add_mac_to_packet_guar wg_cookie_message_create_guar
  wg_cookie_message_consume_guar mark_not_on_list_guar put_skb_guar udp_tunnel_xmit_skb_guar send4_guar send6_guar
  wg_socket_send_skb_to_peer_guar skb_with_buffer_guar wg_socket_send_buffer_to_peer_guar
  wg_socket_send_buffer_as_reply_to_skb_guar wg_socket_set_peer_endpoint_guar wg_socket_set_peer_endpoint_from_skb_guar
  wg_socket_clear_peer_endpoint_src_guar sock_free_guar wg_socket_reinit_guar socket_init_loop_guar wg_socket_init_guar
  ptr_ring_produce_guar ptr_ring_consume_guar prev_queue_enqueue_guar prev_queue_peek_guar prev_queue_drop_peeked_guar
  wg_peer_get_guar wg_queue_enqueue_per_device_and_peer_guar PACKET_PEER_guar wg_queue_enqueue_per_peer_tx_guar
  now_to_last_sent_guar wg_packet_send_handshake_initiation_guar wg_packet_handshake_send_worker_guar
  wg_packet_send_queued_handshake_initiation_guar wg_packet_send_handshake_response_guar wg_packet_send_handshake_cookie_guar
  keep_key_fresh_guar encrypt_packet_guar wg_reset_packet_guar link_chain_guar walk_chain_guar kfree_skb_list_guar
  encrypt_chain_guar encrypt_one_guar encrypt_loop_guar wg_packet_encrypt_worker_guar send_chain_guar
  wg_packet_create_data_done_guar tx_loop_guar wg_packet_tx_worker_guar wg_packet_create_data_guar assign_nonces_guar
  out_nokey_guar out_invalid_guar wg_packet_send_staged_packets_guar wg_packet_send_keepalive_guar update_rx_stats_guar
  under_load_guar receive_initiation_guar receive_response_guar wg_receive_handshake_packet_guar handshake_loop_guar
  wg_packet_handshake_receive_worker_guar rx_keep_key_fresh_guar decrypt_packet_guar enqueue_per_peer_rx_guar
  decrypt_loop_guar decrypt_worker_guar rx_error_guar lookup_src_guar wg_packet_consume_data_guar receive_handshake_guar
  wg_packet_receive_guar wg_receive_guar wg_expired_retransmit_handshake_guar wg_expired_send_keepalive_guar
  wg_expired_new_handshake_guar wg_expired_zero_key_material_guar wg_queued_expired_zero_key_material_guar
  wg_expired_send_persistent_keepalive_guar timer_function_guar timer_fires_guar flush_clear_peer_work_guar
  wg_timers_stop_guar : guar.
