(* ===== verification/Invariants.v ===== *)
(** * Invariants of the running device

    Any sequence of the device's events (packets in and out, queued work, timers,
    opening and stopping, notifications, removal of peers), with the clocks, the
    buffers and the rest of the environment changing in between, keeps every
    queue within its bound ([queues_bounded]); once a peer was removed none of its
    timers is ever armed again ([removed_peer_silent]).  Creating a peer is not
    among the events: it may take the place of one that was freed. *)
From stdpp Require Import relations.
From S2P Require Import Prelude Messages Counter PeerLookup AllowedIPs Ratelimiter World Skb Noise NoiseProofs Demo Timers Cookie Socket Send Receive Expiry Peer Device Guarantee.

(** ** Runs of the device *)

Inductive event :=
  | Packet_in (wg : bool) (s : nat)
  | Packet_out (s : nat)
  | Work (k : work)
  | Timer (p : nat) (t : timer)
  | Open
  | Stop
  | Pm_notification (autosleep : bool) (action : pm_action)
  | Vm_notification
  | Netns_exit (net : Z)
  | Remove_peer (p : nat)
  | Remove_all.

Lemma peers_after w P : w_peers (w <| w_peers := P |>) = P.
Proof. done. Qed.

Section Runs.
Context `{Crypto} `{SipHash} `{HSipHash} `{Ticks} `{Routing} `{NetCore}.

Definition handle (e : event) : M unit :=
  match e with
  | Packet_in wg s => wg_receive wg s;; mret tt
  | Packet_out s => wg_xmit s;; mret tt
  | Work k => take_and_run k
  | Timer p t => timer_fires p t
  | Open => wg_open;; mret tt
  | Stop => wg_stop;; mret tt
  | Pm_notification autosleep action => wg_pm_notification autosleep action;; mret tt
  | Vm_notification => wg_vm_notification;; mret tt
  | Netns_exit net => wg_netns_exit_rtnl net
  | Remove_peer p => wg_peer_remove (Some p)
  | Remove_all => wg_peer_remove_all
  end.

Inductive dev_step : world -> world -> Prop :=
  | step_event e w u w' : handle e w = Some (u, w') → dev_step w w'
  | step_environment w w' : quiet w w' → dev_step w w'.

(** ** The guarantees *)

(** Every queue is within its bound. *)
Record bounded (w : world) : Prop := {
  bo_ring d : queue_bounded (ring_of d w);
  bo_handshakes : Z.of_nat (length (w_handshake_queue w)) <= MAX_QUEUED_INCOMING_HANDSHAKES;
  bo_fifo p x d : w_peers w !! p = Some x → queue_bounded (fq_queued (fifo_of d x));
}.

(** The peer is gone, or it is dead or the interface down and no timer of it is pending. *)
Definition silent (p : nat) (w : world) : Prop :=
  ∀ x, w_peers w !! p = Some x → (is_dead x = true ∨ w_running w = false) ∧ ∀ t, timer_expiry t (timers x) = None.

Definition keeps (p : nat) (w w' : world) : Prop :=
  w_running w' = w_running w ∧ (bounded w → bounded w') ∧ (silent p w → silent p w').

Lemma keeps_quiet p w w' : quiet w w' → keeps p w w'.
Proof using.
  intros Hq. split; [apply Hq|]. split.
  - intros [Br Bh Bf]. split; [intros []; cbn|..].
    + rewrite (qu_encrypt _ _ Hq). apply (Br Tx).
    + rewrite (qu_decrypt _ _ Hq). apply (Br Rx).
    + by rewrite (qu_handshake _ _ Hq).
    + intros p' x d. rewrite (qu_peers _ _ Hq). apply Bf.
  - intros Hs x. rewrite (qu_peers _ _ Hq), (qu_running _ _ Hq). apply Hs.
Qed.

Lemma keeps_peer p w q x y :
  w_peers w !! q = Some x → calm (w_running w) x y → keeps p w (w <| w_peers := <[q := y]> (w_peers w) |>).
Proof using.
  intros Hx [Hd Ht Hf]. split; [done|]. split.
  - intros [Br Bh Bf]. split; [intros []; [apply (Br Tx)|apply (Br Rx)]|done|]. intros p' z d Hz.
    rewrite peers_after in Hz. apply lookup_insert_Some in Hz as [[<- <-]|[_ Hz]]; [|by eapply Bf].
    apply Hf. by eapply Bf.
  - intros Hs z Hz. rewrite peers_after in Hz.
    apply lookup_insert_Some in Hz as [[-> <-]|[_ Hz]]; [|by apply Hs]. destruct (Hs x Hx) as [Hdr Hoff].
    split; [destruct Hdr; [left; auto|by right]|]. intros t. destruct (Ht t) as [->|[?|[? ?]]]; [done|done|].
    destruct Hdr as [E|E]; change (w_running _) with (w_running w) in *; congruence.
Qed.

#[local] Instance keeps_guarantee p : Guarantee (keeps p).
Proof.
  split.
  - split; [by intros w|]. intros w1 w2 w3 (E1 & B1 & S1) (E2 & B2 & S2). split; [congruence|]. auto.
  - apply keeps_quiet.
  - apply keeps_peer.
  - intros w q. split; [done|]. split.
    + intros [Br Bh Bf]. split; [intros []; [apply (Br Tx)|apply (Br Rx)]|done|]. intros p' z d Hz.
      rewrite peers_after in Hz. apply lookup_delete_Some in Hz as [_ Hz]. by eapply Bf.
    + intros Hs z Hz. rewrite peers_after in Hz. apply lookup_delete_Some in Hz as [_ Hz]. by apply Hs.
  - intros w d l Hl. split; [by destruct d|]. split; [|by destruct d].
    intros [Br Bh Bf]. specialize (Hl (Br d)). split; [|by destruct d|by destruct d].
    intros d'. destruct d, d'; first [exact Hl|exact (Br Tx)|exact (Br Rx)].
  - intros w l Hl. split; [done|]. split; [|done]. intros [Br Bh Bf].
    split; [intros []; [apply (Br Tx)|apply (Br Rx)]|by apply Hl|done].
Qed.

Lemma delivered_keeps p w l : keeps p w (w <| w_delivered := l |>).
Proof using. split; [done|]. split; [|done]. intros [Br Bh Bf]. split; [intros []; [apply (Br Tx)|apply (Br Rx)]|done|done]. Qed.
Lemma rerouted_keeps p w t : keeps p w (w <| w_peer_allowedips := t |>).
Proof using. split; [done|]. split; [|done]. intros [Br Bh Bf]. split; [intros []; [apply (Br Tx)|apply (Br Rx)]|done|done]. Qed.

Lemma handle_guar G `{Guarantee G} :
  (∀ w l, G w (w <| w_delivered := l |>)) → (∀ w t, G w (w <| w_peer_allowedips := t |>)) → ∀ e, guaranteed G (handle e).
Proof.
  intros Hd Hr []; cbn [handle]; guar;
    eauto using wg_xmit_guar, take_and_run_guar, wg_open_guar, wg_stop_guar, wg_pm_notification_guar, wg_vm_notification_guar,
      wg_netns_exit_rtnl_guar, wg_peer_remove_guar, wg_peer_remove_all_guar.
Qed.

Lemma run_keeps p w w' : rtc dev_step w w' → keeps p w w'.
Proof using.
  induction 1 as [w|w w1 w2 Hs _ IH]; [apply g_refl|]. eapply g_trans; [|exact IH].
  destruct Hs as [e w u w' E|w w' Hq]; [|by apply keeps_quiet].
  exact (handle_guar (keeps p) (delivered_keeps p) (rerouted_keeps p) e w u w' E).
Qed.

(** C29: no run of the device makes a queue grow beyond its bound: the encryption and decryption rings and every
    peer's transmit and receive queue hold at most [MAX_QUEUED_PACKETS], and the handshake queue at most
    [MAX_QUEUED_INCOMING_HANDSHAKES]. *)
Theorem queues_bounded w w' : bounded w → rtc dev_step w w' → bounded w'.
Proof using. intros Hb Hr. by apply (run_keeps 0 _ _ Hr). Qed.

(** ** Removal *)

Lemma timer_delete_inv p t w u w' :
  timer_delete p t w = Some (u, w') →
  ∃ x, w_peers w !! p = Some x ∧ w_peers w' !! p = Some (x <| timers ::= timer_set t None |>).
Proof using.
  intros E. apply set_peer_inv in E as (x & Ex & ->). exists x. split; [done|]. apply lookup_insert_eq.
Qed.

(** One [timer_delete] off the front of a run that had the peer as [Hx] says. *)
Ltac next_delete E Hx :=
  let E1 := fresh in let Hx' := fresh in let Hy := fresh in
  apply bind_inv in E as (? & ? & E1 & E); apply timer_delete_inv in E1 as (? & Hx' & Hy);
  rewrite Hx in Hx'; injection Hx' as <-; clear Hx; rename Hy into Hx.

(** Stopping a dead peer's timers silences it. *)
Lemma timers_stop_silent p w x u w' :
  w_peers w !! p = Some x → is_dead x = true → wg_timers_stop p w = Some (u, w') → silent p w'.
Proof using.
  intros Hx Hd E. unfold wg_timers_stop in E. do 5 next_delete E Hx.
  apply (flush_clear_peer_work_guar (keeps p) p _ _ _ E). intros y Hy. rewrite Hx in Hy. injection Hy as <-.
  split; [left; exact Hd|]. intros []; reflexivity.
Qed.

(** Marking the peer dead is the first step of removing it, and it stays dead. *)
Definition dead_or_gone (p : nat) (w : world) : Prop := ∀ x, w_peers w !! p = Some x → is_dead x = true.
Definition stays_dead (p : nat) (w w' : world) : Prop := dead_or_gone p w → dead_or_gone p w'.

#[local] Instance stays_dead_guarantee p : Guarantee (stays_dead p).
Proof.
  split; unfold stays_dead, dead_or_gone; try (intros; by auto).
  - split; [by intros w|]. intros w1 w2 w3. auto.
  - intros w w' Hq. by rewrite (qu_peers _ _ Hq).
  - intros w q x y Hx [Hd _ _] Hp z Hz. rewrite peers_after in Hz.
    apply lookup_insert_Some in Hz as [[-> <-]|[_ Hz]]; eauto.
  - intros w q Hp z Hz. rewrite peers_after in Hz. apply lookup_delete_Some in Hz as [_ Hz]. eauto.
  - intros w [] l; done.
Qed.

Lemma run_stays_dead p w w' : rtc dev_step w w' → stays_dead p w w'.
Proof using.
  induction 1 as [w|w w1 w2 Hs _ IH]; [apply g_refl|]. eapply g_trans; [|exact IH].
  destruct Hs as [e w u w' E|w w' Hq]; [|by apply g_quiet].
  apply (handle_guar (stays_dead p) (fun _ _ Hp => Hp) (fun _ _ Hp => Hp) e w u w' E).
Qed.

Lemma make_dead p w u w' : peer_make_dead p w = Some (u, w') → dead_or_gone p w'.
Proof using.
  intros E. unfold peer_make_dead in E. do 5 (apply bind_inv in E as (? & ? & _ & E)).
  apply set_peer_inv in E as (y & Ey & ->). intros z Hz. rewrite peers_after, lookup_insert_eq in Hz. by injection Hz as <-.
Qed.

Lemma remove_dead p w u w' : wg_peer_remove (Some p) w = Some (u, w') → dead_or_gone p w'.
Proof using.
  intros E. unfold wg_peer_remove in E. apply bind_inv in E as (u1 & w1 & E1 & E).
  apply (peer_remove_after_dead_guar (stays_dead p) (fun _ _ Hp => Hp)) in E. by apply E, (make_dead p _ _ _ E1).
Qed.

Lemma remove_silent p w u w' : wg_peer_remove (Some p) w = Some (u, w') → silent p w'.
Proof using.
  intros E. unfold wg_peer_remove in E. apply bind_inv in E as (u1 & w1 & E1 & E).
  pose proof (make_dead p _ _ _ E1) as Hd1.
  unfold peer_remove_after_dead in E. apply bind_inv in E as (u2 & w2 & E2 & E).
  apply (wg_noise_keypairs_clear_guar (stays_dead p)) in E2. specialize (E2 Hd1).
  apply bind_inv in E as (u3 & w3 & E3 & E).
  assert (silent p w3) as Hs.
  { destruct (w_peers w2 !! p) as [x|] eqn:Ex; [by eapply timers_stop_silent; eauto|].
    exfalso. unfold wg_timers_stop in E3. apply bind_inv in E3 as (? & ? & E3 & _). apply timer_delete_inv in E3 as (y & ? & _). congruence. }
  match type of E with ?m _ = _ => assert (guaranteed (keeps p) m) as Hg end; [|by apply (Hg _ _ _ E)].
  pose proof (delivered_keeps p). pose proof (rerouted_keeps p). guar;
    first [by apply (flush_workqueue_guar (keeps p))|by apply (napi_disable_guar (keeps p))|by apply (wg_peer_put_guar (keeps p))].
Qed.

(** C17: once a peer was removed, no event makes one of its timers pending again, and it never comes back to life:
    the callbacks, the queued work and the packets still under way find it dead. *)
Theorem removed_peer_silent p w u w1 w2 :
  wg_peer_remove (Some p) w = Some (u, w1) → rtc dev_step w1 w2 →
  ∀ x, w_peers w2 !! p = Some x → is_dead x = true ∧ ∀ t, timer_expiry t (timers x) = None.
Proof using.
  intros E Hr x Hx. destruct (run_keeps p w1 w2 Hr) as (_ & _ & Hk). split; [|by apply (Hk (remove_silent _ _ _ _ E))].
  by apply (run_stays_dead p w1 w2 Hr (remove_dead p w u w1 E)).
Qed.
End Runs.

#[export] Instance demo_ticks : Ticks := 250.
#[export] Existing Instance sum_hash.

Lemma demo_bounded : bounded demo_a.
Proof.
  split; [by intros []|done|]. intros p x d. change (w_peers demo_a) with (<[0%nat := demo_peer (demo_handshake 1 2)]> (∅ : gmap nat wg_peer)).
  intros [[_ <-]|[_ ?]]%lookup_insert_Some; [by destruct d|done].
Qed.

Lemma queues_bounded_witness : bounded demo_a ∧ ∃ w', handle Open demo_a = Some (tt, w') ∧ bounded w'.
Proof.
  split; [exact demo_bounded|].
  destruct (handle Open demo_a) as [[[] w']|] eqn:E; [|vm_compute in E; discriminate E].
  exists w'. split; [done|]. exact (queues_bounded demo_a w' demo_bounded (rtc_once _ _ (step_event _ _ _ _ E))).
Defined.

(** A peer with two timers pending that somebody else still holds a reference to. *)
Definition demo_busy : world :=
  demo_a <| w_refs := {[0%nat := 2]} |>
    <| w_peers := {[0%nat := (demo_peer (demo_handshake 1 2)) <| timers := mk_timers (Some 6000) None (Some 7000) None None |>
                                <| persistent_keepalive_interval := 25 |>]} |>.

Lemma removed_peer_silent_witness :
  ∃ w1 w2 x, wg_peer_remove (Some 0%nat) demo_busy = Some (tt, w1) ∧ handle Vm_notification w1 = Some (tt, w2) ∧
    w_peers w2 !! 0%nat = Some x ∧ is_dead x = true ∧ ∀ t, timer_expiry t (timers x) = None.
Proof.
  destruct (wg_peer_remove (Some 0%nat) demo_busy) as [[[] w1]|] eqn:E1; [|vm_compute in E1; discriminate E1].
  destruct (handle Vm_notification w1) as [[[] w2]|] eqn:E2;
    [|vm_compute in E1; injection E1 as <-; vm_compute in E2; discriminate E2].
  destruct (w_peers w2 !! 0%nat) as [x|] eqn:Ex;
    [|vm_compute in E1; injection E1 as <-; vm_compute in E2; injection E2 as <-; vm_compute in Ex; discriminate Ex].
  exists w1, w2, x. split; [done|]. split; [done|]. split; [done|].
  exact (removed_peer_silent 0 demo_busy tt w1 w2 E1 (rtc_once _ _ (step_event _ _ _ _ E2)) x Ex).
Defined.
