(* ===== verification/Delivery.v ===== *)
(** * Cryptokey routing

    What reaches the networking stack ([inbound_source_allowed]) and where an
    outgoing packet goes ([outbound_route]): the inner source address of a
    delivered packet is routed, by the longest matching prefix, to the very peer
    whose key decrypted it; a packet is staged for the peer its destination
    address is routed to, and is refused with an error otherwise. *)
From S2P Require Import Prelude Messages Counter PeerLookup AllowedIPs AllowedIPsKeys AllowedIPsTree AllowedIPsHeap AllowedIPsProofs AllowedIPsSpec Ratelimiter World Skb Noise NoiseProofs Demo Timers Cookie Socket Send Receive Expiry Peer Device Guarantee Invariants.

(** The routing decision for an address, in a table of prefixes. *)
Definition wf_packet_addr (a : packet_addr) : Prop :=
  match a with Addr_v4 ip => wf_addr false ip | Addr_v6 ip => wf_addr true ip | Addr_none => True end.
Definition routes (m : ptable) (a : packet_addr) (o : option nat) : Prop :=
  match a with
  | Addr_v4 ip => longest false (m false) (be_combine ip) o
  | Addr_v6 ip => longest true (m true) (be_combine ip) o
  | Addr_none => o = None
  end.

Lemma lookup_routes t m refs a refs' o :
  represents t m → wf_packet_addr a → wg_allowedips_lookup t refs a = Some (refs', o) → routes m a o.
Proof.
  intros Hm Ha E. destruct a as [ip|ip|]; cbn [wf_packet_addr wg_allowedips_lookup routes] in *; [by eapply lookup_sound|by eapply lookup_sound|by simplify_eq].
Qed.

(** What was delivered and the table are the same. *)
Record unrouted (w w' : world) : Prop := {
  ur_delivered : w_delivered w' = w_delivered w;
  ur_allowedips : w_peer_allowedips w' = w_peer_allowedips w;
}.

#[export] Instance unrouted_guarantee : Guarantee unrouted.
Proof.
  split; try done.
  - split; [by intros w|]. intros w1 w2 w3 [] []. split; congruence.
  - intros w w' Hq. split; apply Hq.
  - by intros w [].
Qed.

Section Inbound.
Context `{Crypto} `{SipHash} `{HSipHash} `{Ticks} `{Routing} `{NetCore}.

(** The packet was sent on, as [b'], after the table was asked about its source. *)
Definition sent_on (p s : nat) (m : ptable) (b : sk_buff) (w w' : world) : Prop :=
  w_delivered w' = w_delivered w ++ [(p, s)] ∧
  ∃ b', inner_packet b = Inner b' ∧ (wf_packet_addr (src_addr b') → routes m (src_addr b') (Some p)).

(** Moving the end points of a run across steps that deliver nothing. *)
Lemma sent_on_before p s m b w1 w w' : unrouted w1 w → sent_on p s m b w w' → sent_on p s m b w1 w'.
Proof using. intros [Hd _] [Hs Hi]. split; [by rewrite Hs, Hd|done]. Qed.
Lemma sent_on_after p s m b w w' w1 : sent_on p s m b w w' → unrouted w' w1 → sent_on p s m b w w1.
Proof using. intros [Hs Hi] [Hd _]. split; [by rewrite Hd, Hs|done]. Qed.

Lemma lookup_src_inv a w o w' :
  lookup_src a w = Some (o, w') →
  unrouted w w' ∧ ∃ refs, wg_allowedips_lookup (w_peer_allowedips w) (w_refs w) a = Some (refs, o).
Proof using.
  intros E. split; [by apply (lookup_src_guar unrouted) in E|]. unfold lookup_src in E.
  apply bind_inv in E as (t & w1 & E1 & E). apply gets_inv in E1 as [-> ->].
  apply bind_inv in E as (r & w1 & E1 & E). apply gets_inv in E1 as [-> ->].
  apply bind_inv in E as ([refs o'] & w1 & E1 & E). unfold lift, wg_allowedips_lookup_src in E1. case_match; simplify_eq.
  apply bind_inv in E as (u & w2 & E2 & E). apply ret_inv in E as [-> _]. by exists refs.
Qed.

Lemma deliver_inv p s b w u w' m :
  represents (w_peer_allowedips w) m → deliver p s b w = Some (u, w') → unrouted w w' ∨ sent_on p s m b w w'.
Proof using.
  intros Hm E. unfold deliver in E. destruct (inner_packet b) as [| |b'] eqn:Ei.
  1,2: left; apply bind_inv in E as (u1 & w1 & E1 & E); apply (rx_error_guar unrouted) in E1;
    apply (guar_kfree_skb unrouted) in E; by eapply g_trans.
  apply bind_inv in E as (u1 & w1 & E1 & E). apply (guar_set_skb unrouted) in E1.
  apply bind_inv in E as (o & w2 & E2 & E). apply lookup_src_inv in E2 as [E2 (refs & El)].
  rewrite (ur_allowedips _ _ E1) in El.
  apply bind_inv in E as (u3 & w3 & E3 & E). apply (wg_peer_put_guar unrouted) in E3.
  pose proof (g_trans _ _ _ E1 (g_trans _ _ _ E2 E3)) as E13.
  case_bool_decide as Ho; cbn [negb] in E.
  - right. apply bind_inv in E as (u4 & w4 & E4 & E). unfold napi_gro_receive in E4. apply modify_inv in E4 as ->.
    apply (update_rx_stats_guar unrouted) in E.
    eapply sent_on_before; [exact E13|]. eapply sent_on_after; [|exact E]. split; [done|]. exists b'. split; [done|]. intros Ha.
    rewrite <- Ho. by eapply lookup_routes.
  - left. apply bind_inv in E as (u4 & w4 & E4 & E). apply (rx_error_guar unrouted) in E4.
    apply (guar_kfree_skb unrouted) in E. by eapply g_trans, g_trans.
Qed.
(** A step that delivers nothing, off the front of a run that came from [w] as [Hw] says. *)
Ltac step_over E Hw :=
  match type of E with
  | (?m ≫= _) _ = _ =>
    let Hm := fresh in let E1 := fresh in let Hn := fresh in
    assert (guaranteed unrouted m) as Hm by guar; apply bind_inv in E as (? & ? & E1 & E);
    pose proof (g_trans _ _ _ Hw (Hm _ _ _ E1)) as Hn; clear Hw Hm E1; rename Hn into Hw
  end.

Lemma consume_inv p s e b w u w' m :
  represents (w_peer_allowedips w) m → w_skbs w !! s = Some b → wg_packet_consume_data_done p s e w = Some (u, w') →
  unrouted w w' ∨ sent_on p s m b w w'.
Proof using.
  intros Hm Hb E. unfold wg_packet_consume_data_done in E. erewrite bind_run in E by (apply get_skb_run; exact Hb).
  pose proof (g_refl w : unrouted w w) as Hw. do 6 step_over E Hw.
  destruct (skb_len b =? 0).
  - left. step_over E Hw. eapply g_trans; [exact Hw|]. by apply (guar_kfree_skb unrouted) in E.
  - step_over E Hw. apply (deliver_inv _ _ _ _ _ _ m) in E as [E|E]; [left; by eapply g_trans|right|by rewrite (ur_allowedips _ _ Hw)].
    by eapply sent_on_before.
Qed.

End Inbound.

(** A packet from 10.2.3.4, decrypted with the key of peer 1, which is allowed 10.0.0.0/8. *)
Definition demo_inner (d : Z) : bytes := [69; 0; 0; 20] ++ zeros 8 ++ [10; d; 3; 4] ++ [10; 0; 0; 1].
Definition demo_decrypted (d : Z) : sk_buff :=
  let outer := [69; 0; 0; 76] ++ zeros 8 ++ [192; 0; 2; 1] ++ [192; 0; 2; 2] ++ [202; 108; 202; 108; 0; 56; 0; 0] in
  mk_skb (outer ++ zeros 16 ++ demo_inner d ++ zeros 28) 44 32 0 20 ETH_P_IP 2 0 None 5 (Some 3%nat) PACKET_STATE_CRYPTED 0 0.
Definition demo_rx (d : Z) : world :=
  demo_a <| w_peers := {[1%nat := demo_peer (demo_handshake 1 2)]} |> <| w_refs := {[1%nat := 3; 2%nat := 1]} |>
    <| w_keypairs := {[3%nat := (demo_keypair 40) <| kp_refcount := 2 |>]} |> <| w_skbs := {[7%nat := demo_decrypted d]} |>
    <| w_peer_allowedips := demo |>.


(** ** Outbound *)

Section Outbound.
Context `{Crypto} `{SipHash} `{HSipHash} `{Ticks} `{Routing} `{NetCore}.

(** The packet is freed and counted as an error; nothing is sent and no peer changes. *)
Definition refused (s : nat) (w : world) (r : Z) : Prop :=
  ∃ w', wg_xmit s w = Some (r, w') ∧ w_skbs w' = delete s (w_skbs w) ∧ w_peers w' = w_peers w ∧ w_sent w' = w_sent w ∧
    st_tx_errors (w_stats w') = st_tx_errors (w_stats w) + 1.

Lemma xmit_err_run s r w b :
  w_skbs w !! s = Some b → ∃ w', xmit_err s r w = Some (r, w') ∧ w_skbs w' = delete s (w_skbs w) ∧ w_peers w' = w_peers w ∧
    w_sent w' = w_sent w ∧ st_tx_errors (w_stats w') = st_tx_errors (w_stats w) + 1.
Proof using.
  intros Hb. unfold xmit_err. erewrite bind_run by done.
  set (w1 := w <| w_stats ::= _ |>).
  assert (kfree_skb s w1 = Some (tt, w1 <| w_skbs ::= delete s |>)) as E.
  { unfold kfree_skb. change (w_skbs w1) with (w_skbs w). by rewrite Hb. }
  erewrite bind_run by exact E. eexists. split; [reflexivity|]. done.
Qed.

(** Dropping the oldest packets of the staged queue. *)
Lemma drop_staged_run l w :
  NoDup l → Forall (fun s => is_Some (w_skbs w !! s)) l →
  ∃ w', for_each l (fun s =>
      kfree_skb s;; modify (fun w => w <| w_stats ::= fun st => st <| st_tx_dropped ::= Z.succ |> |>)) w = Some (tt, w') ∧
    w_peers w' = w_peers w ∧ w_refs w' = w_refs w ∧ ∀ s, s ∉ l → w_skbs w' !! s = w_skbs w !! s.
Proof using.
  intros Hd. revert w. induction Hd as [|s l Hs Hd IH]; intros w Hl; cbn [for_each]; [by exists w|].
  rewrite Forall_cons in Hl. destruct Hl as [[b Hb] Hl].
  assert (kfree_skb s w = Some (tt, w <| w_skbs ::= delete s |>)) as E by (unfold kfree_skb; by rewrite Hb).
  set (w1 := w <| w_skbs ::= delete s |> <| w_stats ::= fun st => st <| st_tx_dropped ::= Z.succ |> |>).
  destruct (IH w1) as (w' & E' & Hp & Hr & Hk).
  { eapply Forall_impl; [apply Forall_and; split; [exact Hl|apply Forall_forall; intros x Hx; exact Hx]|].
    intros s' [Hs' Hin]. change (is_Some (delete s (w_skbs w) !! s')). rewrite lookup_delete_ne; [done|]. by intros ->. }
  exists w'. split; [|split_and!; [done|done|]].
  - erewrite bind_run; [exact E'|]. erewrite bind_run by exact E. reflexivity.
  - intros s' Hs'. rewrite not_elem_of_cons in Hs'. destruct Hs' as [Hn Hs']. rewrite (Hk s' Hs').
    change (delete s (w_skbs w) !! s' = w_skbs w !! s'). by rewrite lookup_delete_ne.
Qed.
(** Every peer that the table names exists and is referenced. *)
Definition peers_live (w : world) (m : ptable) : Prop :=
  ∀ v q p, m v !! q = Some p → 0 < default 0 (w_refs w !! p) ∧ is_Some (w_peers w !! p).

Lemma lookup_dst_run a w m :
  represents (w_peer_allowedips w) m → wf_packet_addr a → peers_live w m →
  ∃ o refs, routes m a o ∧ lookup_dst a w = Some (o, w <| w_refs := refs |>) ∧
    match o with
    | Some p => 0 < default 0 (w_refs w !! p) ∧ is_Some (w_peers w !! p) ∧ default 0 (refs !! p) = default 0 (w_refs w !! p) + 1
    | None => True
    end.
Proof using.
  intros Hm Ha Hl.
  assert (∃ o, routes m a o ∧ (∀ p, o = Some p → ∃ v q, m v !! q = Some p) ∧ ∀ refs, wg_allowedips_lookup (w_peer_allowedips w) refs a =
    match o with
    | Some pr => if default 0 (refs !! pr) =? 0 then None else Some (<[pr := default 0 (refs !! pr) + 1]> refs, Some pr)
    | None => Some (refs, None)
    end) as (o & Hr & Ho & Hlook).
  { destruct a as [ip|ip|]; cbn [wf_packet_addr routes] in *; [| |by exists None];
      (destruct (lookup_owner _ _ m ip Hm Ha) as (o & Hlo & Hlook); exists o; split; [exact Hlo|]; split; [|exact Hlook]);
      intros p ->; destruct Hlo as (c & _ & Hc & _); eauto. }
  exists o. destruct o as [p|].
  - destruct (Ho p eq_refl) as (v & q & Hq). destruct (Hl _ _ _ Hq) as [Href Hp].
    exists (<[p := default 0 (w_refs w !! p) + 1]> (w_refs w)). split; [done|]. split; [|rewrite lookup_insert_eq; done].
    unfold lookup_dst, wg_allowedips_lookup_dst. do 2 erewrite bind_run by done.
    erewrite bind_run; [|unfold lift; rewrite Hlook; destruct (Z.eqb_spec (default 0 (w_refs w !! p)) 0); [lia|reflexivity]]. reflexivity.
  - exists (w_refs w). split; [done|]. split; [|done]. unfold lookup_dst, wg_allowedips_lookup_dst. do 2 erewrite bind_run by done.
    erewrite bind_run; [|unfold lift; rewrite Hlook; reflexivity]. reflexivity.
Qed.

(** The packet is the last of the peer's staged queue, which holds at most [MAX_STAGED_PACKETS] others, the
    newest ones; then the queue is sent. *)
Definition staged_for (p s : nat) (x : wg_peer) (w : world) : Prop :=
  ∃ w1 x1 n, wg_xmit s w = (wg_packet_send_staged_packets p;; wg_peer_put (Some p);; mret 0) w1 ∧
    w_peers w1 !! p = Some x1 ∧ staged_packet_queue x1 = drop n (staged_packet_queue x) ++ [s] ∧
    Z.of_nat (length (drop n (staged_packet_queue x))) <= MAX_STAGED_PACKETS ∧
    ∀ q, q ≠ p → w_peers w1 !! q = w_peers w !! q.

Lemma xmit_stages p s x w w0 :
  w_peers w0 = w_peers w → w_peers w !! p = Some x → NoDup (staged_packet_queue x) → s ∉ staged_packet_queue x →
  Forall (fun s => is_Some (w_skbs w0 !! s)) (staged_packet_queue x) →
  ∃ w1 x1 n, (trim_staged p;; set_peer p (fun x => x <| staged_packet_queue ::= fun l => l ++ [s] |>)) w0 = Some (tt, w1) ∧
    w_peers w1 !! p = Some x1 ∧ staged_packet_queue x1 = drop n (staged_packet_queue x) ++ [s] ∧
    Z.of_nat (length (drop n (staged_packet_queue x))) <= MAX_STAGED_PACKETS ∧
    ∀ q, q ≠ p → w_peers w1 !! q = w_peers w !! q.
Proof using.
  intros Hp0 Hx Hd Hs Hl. rewrite <- Hp0 in Hx.
  set (n := (length (staged_packet_queue x) - Z.to_nat MAX_STAGED_PACKETS)%nat).
  destruct (drop_staged_run (take n (staged_packet_queue x)) w0) as (w2 & E2 & Hp2 & _ & _).
  { eapply sublist_NoDup; [exact Hd|apply sublist_take]. }
  { by apply Forall_take. }
  rewrite Hp0 in Hp2.
  assert (trim_staged p w0 = Some (tt, w2 <| w_peers := <[p := x <| staged_packet_queue ::= drop n |>]> (w_peers w2) |>)) as Et.
  { unfold trim_staged. erewrite bind_run by (apply get_peer_run; exact Hx). cbv zeta. fold n. erewrite bind_run by exact E2.
    apply set_peer_run. rewrite Hp2, <- Hp0. done. }
  eexists _, _, n. split.
  - erewrite bind_run by exact Et. apply set_peer_run. apply lookup_insert_eq.
  - split; [apply lookup_insert_eq|]. split; [done|]. split.
    + rewrite length_drop. unfold n, MAX_STAGED_PACKETS. lia.
    + intros q Hq. rewrite !peers_after, !lookup_insert_ne, Hp2 by done. done.
Qed.
(** With the route known, [wg_xmit] in the three cases. *)
Lemma xmit_unrouted s b w refs :
  w_skbs w !! s = Some b → wg_check_packet_protocol b = true → lookup_dst (dst_addr b) w = Some (None, w <| w_refs := refs |>) →
  refused s w (- ENOKEY).
Proof using.
  intros Hb Hc El. set (w1 := w <| w_refs := refs |>) in El. destruct (xmit_err_run s (- ENOKEY) w1 b Hb) as (w' & E & Hr).
  exists w'. split; [|exact Hr]. unfold wg_xmit. erewrite bind_run by (apply get_skb_run; exact Hb). erewrite bind_run by done.
  rewrite Hc. cbn [negb]. erewrite bind_run by exact El. exact E.
Qed.

Lemma xmit_no_endpoint s b p x w refs :
  w_skbs w !! s = Some b → wg_check_packet_protocol b = true → lookup_dst (dst_addr b) w = Some (Some p, w <| w_refs := refs |>) →
  w_peers w !! p = Some x → 1 < default 0 (refs !! p) → ep_addr (peer_endpoint x) = AF_UNSPEC → refused s w (- EDESTADDRREQ).
Proof using.
  intros Hb Hc El Hx Hr He. set (w1 := w <| w_refs := refs |>).
  set (w2 := w1 <| w_refs ::= <[p := default 0 (w_refs w1 !! p) - 1]> |>).
  destruct (xmit_err_run s (- EDESTADDRREQ) w2 b Hb) as (w' & E & Hrest).
  exists w'. split; [|exact Hrest]. unfold wg_xmit. erewrite bind_run by (apply get_skb_run; exact Hb). erewrite bind_run by done.
  rewrite Hc. cbn [negb]. erewrite bind_run by exact El. cbv beta iota.
  erewrite bind_run by (apply get_peer_run; exact Hx). rewrite bool_decide_true by done.
  erewrite bind_run by (apply (peer_put_run p w1); exact Hr). exact E.
Qed.

Lemma xmit_routed s b p x w refs :
  w_skbs w !! s = Some b → wg_check_packet_protocol b = true → lookup_dst (dst_addr b) w = Some (Some p, w <| w_refs := refs |>) →
  w_peers w !! p = Some x → ep_addr (peer_endpoint x) ≠ AF_UNSPEC → skb_is_gso b = false →
  NoDup (staged_packet_queue x) → s ∉ staged_packet_queue x → Forall (fun s => is_Some (w_skbs w !! s)) (staged_packet_queue x) →
  staged_for p s x w.
Proof using.
  intros Hb Hc El Hx He Hg Hd Hs Hl. unfold staged_for, wg_xmit.
  set (mark := fun c => c <| skb_next := None |> <| cb_mtu := default (w_dev_mtu w) (dst_mtu b) |>).
  set (w0 := w <| w_refs := refs |> <| w_skbs := <[s := mark b]> (w_skbs w) |>).
  destruct (xmit_stages p s x w w0) as (w1 & x1 & n & E & Hr); [done|done|done|done| |].
  { eapply Forall_impl; [exact Hl|]. intros s' [c Hs']. change (is_Some (<[s := mark b]> (w_skbs w) !! s')).
    destruct (decide (s = s')) as [->|Hn]; [rewrite lookup_insert_eq|rewrite lookup_insert_ne by done]; eauto. }
  exists w1, x1, n. split; [|exact Hr].
  erewrite bind_run by (apply get_skb_run; exact Hb). erewrite bind_run by done. rewrite Hc. cbn [negb].
  erewrite bind_run by exact El. cbv beta iota. erewrite bind_run by (apply get_peer_run; exact Hx).
  rewrite bool_decide_false by done. unfold segments. rewrite Hg. cbn [negb]. erewrite bind_run by done. cbv beta iota.
  assert (for_each [s] (fun s => set_skb s mark) (w <| w_refs := refs |>) = Some (tt, w0)) as Em.
  { cbn [for_each]. erewrite bind_run by (apply set_skb_run; exact Hb). reflexivity. }
  erewrite bind_run by exact Em.
  unfold mbind, M_bind in E |- *. destruct (trim_staged p w0) as [[u w2]|]; [|done]. rewrite E. done.
Qed.

End Outbound.

(** A packet to 10.2.3.4 on a device with two peers. *)
Definition demo_out_packet : sk_buff :=
  mk_skb (zeros 64 ++ [69; 0; 0; 20] ++ zeros 8 ++ [10; 0; 0; 1] ++ [10; 2; 3; 4] ++ zeros 40) 64 20 64 64 ETH_P_IP 0 0 None 0 None
    PACKET_STATE_UNCRYPTED 0 0.
Definition demo_out : world :=
  demo_a <| w_peers := {[1%nat := demo_peer (demo_handshake 1 2); 2%nat := demo_peer (demo_handshake 1 3)]} |>
    <| w_refs := {[1%nat := 1; 2%nat := 1]} |> <| w_skbs := {[7%nat := demo_out_packet]} |> <| w_peer_allowedips := demo |>.

Lemma demo_out_live : peers_live demo_out demo_map.
Proof.
  intros v q p Hq. unfold demo_map in Hq. destruct v; [by rewrite lookup_empty in Hq|].
  destruct (entries_owner false demo_tree q p Hq) as [n Hn]. cbn [owners demo_tree app] in Hn.
  assert (p = 1%nat ∨ p = 2%nat) as [->| ->] by set_solver; split; first [done|by eexists].
Qed.


(** ** A removed peer *)

Section Removed.
Context `{SipHash}.

(** The peer that a public key names in this world. *)
Definition named_by (w : world) (key : bytes) : option nat :=
  find_pubkey (fun p => hs_remote_static ∘ handshake <$> w_peers w !! p) (w_peer_hashtable w) key.

Lemma drop_peer_unrouted p m a : ¬ routes (drop_peer p m) a (Some p).
Proof using.
  destruct a as [ip|ip|]; cbn [routes]; [| |done]; intros (c & _ & Hc & _); unfold drop_peer in Hc;
    by apply map_lookup_filter_Some in Hc as [_ Hc].
Qed.

Lemma removed_unnamed f T p key : find_pubkey f (wg_pubkey_hashtable_remove T p) key ≠ Some p.
Proof using.
  unfold find_pubkey. intros Hf. apply find_some in Hf as [Hin _]. apply list_elem_of_In in Hin.
  cbn [wg_pubkey_hashtable_remove ph_lists] in Hin. rewrite bucket_del, list_elem_of_filter in Hin. by destruct Hin.
Qed.

(** C18: marking a peer dead always succeeds, and takes it out of everything a packet or a handshake is looked up in: it
    is off the list of peers, no address is routed to it, no public key names it, and it is dead; the prefixes of all
    other peers stay as they were. *)
Theorem dead_peer_unreachable p x w m :
  represents (w_peer_allowedips w) m → w_peers w !! p = Some x →
  ∃ w', peer_make_dead p w = Some (tt, w') ∧ p ∉ w_peer_list w' ∧ w_peers w' = <[p := x <| is_dead := true |>]> (w_peers w) ∧
    represents (w_peer_allowedips w') (drop_peer p m) ∧
    (∀ a refs refs', wf_packet_addr a → wg_allowedips_lookup (w_peer_allowedips w') refs a ≠ Some (refs', Some p)) ∧
    (∀ key, named_by w' key ≠ Some p).
Proof using.
  intros Hm Hx. destruct (remove_by_peer_represents _ _ p Hm) as (t & Ht & Hm' & _).
  eexists. split; [|split_and!].
  - unfold peer_make_dead. do 2 erewrite bind_run by done. erewrite bind_run; [|unfold lift; cbn; rewrite Ht; reflexivity].
    do 2 erewrite bind_run by done. apply set_peer_run. exact Hx.
  - intros Hin. apply list_elem_of_filter in Hin as [Hn _]. by destruct Hn.
  - done.
  - exact Hm'.
  - intros a refs refs' Ha E. eapply drop_peer_unrouted. eapply lookup_routes; [exact Hm'|exact Ha|exact E].
  - intros key. apply removed_unnamed.
Qed.
End Removed.

Lemma dead_peer_unreachable_witness :
  ∃ w', peer_make_dead 1 demo_out = Some (tt, w') ∧ (∀ key, named_by w' key ≠ Some 1%nat) ∧
    represents (w_peer_allowedips w') (drop_peer 1 demo_map).
Proof.
  destruct (dead_peer_unreachable 1 (demo_peer (demo_handshake 1 2)) demo_out demo_map demo_represents eq_refl)
    as (w' & E & _ & _ & Hr & _ & Hk). by exists w'.
Defined.
