(* ===== verification/Flood.v ===== *)
(** * Handshake floods

    A handshake message with a wrong first code, or without a valid cookie while
    the device is under load, costs no handshake arithmetic and changes no peer,
    key, index, reference or queued work ([flood_shed]); the first is dropped in
    silence and the second is answered at most by one cookie message, which is
    shorter than what it answers and goes to where it came from. *)
From S2P Require Import Prelude Messages Counter PeerLookup AllowedIPs Ratelimiter World Skb Noise NoiseProofs Demo Timers Cookie Socket Send Receive Expiry Peer Device Guarantee Invariants.

(** Nothing of the protocol's state changes. *)
Record shed (w w' : world) : Prop := {
  sh_peers : w_peers w' = w_peers w;
  sh_keypairs : w_keypairs w' = w_keypairs w;
  sh_index : w_index_hashtable w' = w_index_hashtable w;
  sh_refs : w_refs w' = w_refs w;
  sh_works : w_works w' = w_works w;
  sh_encrypt : w_encrypt_queue w' = w_encrypt_queue w;
  sh_decrypt : w_decrypt_queue w' = w_decrypt_queue w;
}.
(** Nothing is sent either. *)
Definition idle (w w' : world) : Prop := shed w w' ∧ w_sent w' = w_sent w.

#[export] Instance shed_preorder : PreOrder shed.
Proof. split; [by intros w|]. intros w1 w2 w3 [] []. split; congruence. Qed.
#[export] Instance idle_preorder : PreOrder idle.
Proof. split; [by intros w|]. intros w1 w2 w3 [[] ?] [[] ?]. split; [split|]; congruence. Qed.

Create HintDb idle.
Lemma idle_set_skb s f : guaranteed idle (set_skb s f).
Proof. intros w u w' E. unfold set_skb in E. case_match; by simplify_eq. Qed.
Lemma idle_kfree_skb s : guaranteed idle (kfree_skb s).
Proof. intros w u w' E. unfold kfree_skb in E. case_match; by simplify_eq. Qed.
Lemma idle_random_u32 : guaranteed idle get_random_u32.
Proof. intros w u w' E. unfold get_random_u32 in E. case_match; by simplify_eq. Qed.
Lemma idle_alloc_ok : guaranteed idle alloc_ok.
Proof. intros w u w' E. unfold alloc_ok in E. case_match; by simplify_eq. Qed.
#[export] Hint Resolve idle_set_skb idle_kfree_skb idle_random_u32 idle_alloc_ok : idle.

Ltac idle1 :=
  match goal with
  | |- guaranteed _ (_ ≫= _) => refine (guar_bind _ _ _ _ _); [|intros ?]
  | |- guaranteed _ (when _ _) => refine (guar_when _ _ _ _)
  | |- guaranteed _ (modify _) => refine (guar_modify _ _ _); intros ?; done
  | |- guaranteed _ (mret _) => refine (guar_ret _ _)
  | |- guaranteed _ (gets _) => refine (guar_gets _ _)
  | |- guaranteed _ (lift _) => refine (guar_lift _ _)
  | |- guaranteed _ (get_skb _) => refine (guar_get_skb _ _)
  | |- guaranteed _ (let '(_, _) := ?x in _) => destruct x
  | |- guaranteed _ (match ?x with _ => _ end) => destruct x
  end.
Ltac idle := repeat first [solve [eauto with idle] | progress cbv zeta | idle1].

Section Flood.
Context `{CryptoOk} `{SipHash} `{HSipHash} `{Ticks} `{Routing} `{NetCore}.

Lemma idle_random_bytes n : guaranteed idle (get_random_bytes n).
Proof using. induction n; cbn [get_random_bytes]; idle. Qed.
Lemma idle_under_load : guaranteed idle under_load.
Proof using. unfold under_load, ktime_get_coarse_boottime_ns. idle. Qed.
#[local] Hint Resolve idle_random_bytes idle_under_load : idle.
Lemma idle_make_cookie b : guaranteed idle (make_cookie b).
Proof using. unfold make_cookie, set_checker, ktime_get_coarse_boottime_ns. idle. Qed.
Lemma idle_ratelimiter_allow src : guaranteed idle (ratelimiter_allow src).
Proof using. unfold ratelimiter_allow, ktime_get_coarse_boottime_ns. idle. Qed.
#[local] Hint Resolve idle_make_cookie idle_ratelimiter_allow : idle.
Lemma idle_validate s b : guaranteed idle (wg_cookie_validate_packet s b).
Proof using. unfold wg_cookie_validate_packet. idle. Qed.
Lemma idle_message_create s i : guaranteed idle (wg_cookie_message_create s i).
Proof using. unfold wg_cookie_message_create. idle. Qed.
#[local] Hint Resolve idle_validate idle_message_create : idle.

(** One datagram with these bytes to this address, or nothing. *)
Definition answered (dst : sockaddr) (data : bytes) (w w' : world) : Prop :=
  shed w w' ∧ (w_sent w' = w_sent w ∨ ∃ d, w_sent w' = w_sent w ++ [d] ∧ dg_dst d = dst ∧ dg_data d = data).

Lemma answered_before dst data w1 w w' : idle w1 w → answered dst data w w' → answered dst data w1 w'.
Proof using.
  intros [Hs Ht] [Hs' Ht']. split; [by etrans|]. rewrite Ht in Ht'. done.
Qed.
Lemma idle_answered dst data w w' : idle w w' → answered dst data w w'.
Proof using. intros [Hs Ht]. split; [done|by left]. Qed.

Lemma xmit_answered s b saddr sport dst ds w u w' :
  w_skbs w !! s = Some b → udp_tunnel_xmit_skb s saddr sport dst ds w = Some (u, w') → answered dst (skb_contents b) w w'.
Proof using.
  intros Hb E. unfold udp_tunnel_xmit_skb in E. erewrite bind_run in E by (apply get_skb_run; exact Hb).
  apply bind_inv in E as (u1 & w1 & E1 & E). apply modify_inv in E1 as ->.
  unfold kfree_skb in E. case_match; simplify_eq. split; [done|]. right. eexists. split; [reflexivity|]. done.
Qed.
Lemma mark_inv s b w u w' :
  w_skbs w !! s = Some b → mark_not_on_list s w = Some (u, w') →
  idle w w' ∧ ∃ b', w_skbs w' !! s = Some b' ∧ skb_contents b' = skb_contents b.
Proof using.
  intros Hb E. unfold mark_not_on_list in E. rewrite (set_skb_run _ _ _ _ Hb) in E. injection E as _ <-. split; [done|].
  eexists. split; [apply lookup_insert_eq|done].
Qed.

Lemma send4_answered s b e daddr dport ds cache w r w' :
  w_skbs w !! s = Some b → send4 s e daddr dport ds cache w = Some (r, w') → answered (AF_INET daddr dport) (skb_contents b) w w'.
Proof using.
  intros Hb E. unfold send4 in E. apply bind_inv in E as (u1 & w1 & E1 & E). apply (mark_inv _ _ _ _ _ Hb) in E1 as [Hw (b' & Hb' & Hc)].
  eapply answered_before; [exact Hw|]. rewrite <- Hc.
  do 4 (apply bind_inv in E as (? & ? & E1 & E); apply gets_inv in E1 as [-> ->]).
  destruct (w_sock4 w1); [destruct (route4 _ _ _ _ _ _ _ _) as [[[err|saddr] e'] c']|].
  2: { apply bind_inv in E as (u2 & w2 & E2 & E). apply ret_inv in E as [_ ->]. by eapply xmit_answered. }
  all: apply idle_answered; apply bind_inv in E as (u2 & w2 & E2 & E); apply ret_inv in E as [_ ->]; by apply idle_kfree_skb in E2.
Qed.

Lemma send6_answered s b e daddr dport scope ds cache w r w' :
  w_skbs w !! s = Some b → send6 s e daddr dport scope ds cache w = Some (r, w') →
  answered (AF_INET6 daddr dport scope) (skb_contents b) w w'.
Proof using.
  intros Hb E. unfold send6 in E. apply bind_inv in E as (u1 & w1 & E1 & E). apply (mark_inv _ _ _ _ _ Hb) in E1 as [Hw (b' & Hb' & Hc)].
  eapply answered_before; [exact Hw|]. rewrite <- Hc.
  do 4 (apply bind_inv in E as (? & ? & E1 & E); apply gets_inv in E1 as [-> ->]).
  destruct (w_sock6 w1); [destruct (route6 _ _ _ _ _ _ _ _ _) as [[[err|saddr] e'] c']|].
  2: { apply bind_inv in E as (u2 & w2 & E2 & E). apply ret_inv in E as [_ ->]. by eapply xmit_answered. }
  all: apply idle_answered; apply bind_inv in E as (u2 & w2 & E2 & E); apply ret_inv in E as [_ ->]; by apply idle_kfree_skb in E2.
Qed.

(** The buffer of a reply holds its bytes. *)
Lemma skb_with_buffer_inv data w o w' :
  skb_with_buffer data w = Some (o, w') →
  idle w w' ∧ ∀ s, o = Some s → ∃ b, w_skbs w' !! s = Some b ∧ skb_contents b = data.
Proof using.
  intros E. unfold skb_with_buffer, alloc_skb, add_skb in E.
  apply bind_inv in E as (o1 & w1 & E1 & E). apply bind_inv in E1 as (ok & w2 & E2 & E1).
  pose proof (idle_alloc_ok _ _ _ E2) as Hw2. destruct ok.
  2: { apply ret_inv in E1 as [-> ->]. apply ret_inv in E as [-> ->]. split; [done|]. intros s [=]. }
  apply bind_inv in E1 as (s & w3 & E3 & E1). apply ret_inv in E1 as [-> ->].
  apply bind_inv in E3 as (skbs & w4 & E4 & E3). apply gets_inv in E4 as [-> ->].
  apply bind_inv in E3 as (u4 & w4 & E4 & E3). apply modify_inv in E4 as ->. apply ret_inv in E3 as [-> ->].
  set (f := fresh (dom (w_skbs w2))) in *. set (n := Z.of_nat (length data) + SKB_HEADER_LEN) in *.
  set (w5 := w2 <| w_skbs ::= <[f := new_skb n]> |>) in *.
  assert (w_skbs w5 !! f = Some (new_skb n)) as Hf by apply lookup_insert_eq.
  erewrite bind_run in E by (apply set_skb_run; exact Hf).
  erewrite bind_run in E by (apply get_skb_run, lookup_insert_eq).
  assert (holds (new_skb n) [] [] (zeros (Z.to_nat n))) as Hh0 by by split.
  assert (holds (skb_reserve SKB_HEADER_LEN (new_skb n)) (zeros (Z.to_nat SKB_HEADER_LEN)) [] (zeros (length data))) as Hh.
  { split; [|by cbn|by cbn]. cbn. unfold zeros. rewrite <- replicate_add. f_equal. unfold n. change SKB_HEADER_LEN with 112. lia. }
  rewrite <- (app_nil_r (zeros (length data))) in Hh.
  pose proof (holds_write_tail _ _ _ _ _ data Hh ltac:(by rewrite length_zeros)) as Hh1.
  destruct (holds_put _ _ _ _ _ (Z.of_nat (length data)) Hh1 eq_refl) as (b & Eb & Hb & _).
  unfold put_skb, skb_put_data in E. rewrite Eb in E. erewrite bind_run in E; [|erewrite bind_run by done; apply set_skb_run, lookup_insert_eq].
  apply ret_inv in E as [-> ->]. split; [etrans; [exact Hw2|done]|]. intros s [= <-]. exists b.
  split; [apply lookup_insert_eq|]. by eapply holds_contents.
Qed.

Lemma reply_answered s b data w r w' e :
  w_skbs w !! s = Some b → wg_socket_endpoint_from_skb b = Some e →
  wg_socket_send_buffer_as_reply_to_skb s data w = Some (r, w') → answered (ep_addr e) data w w'.
Proof using.
  intros Hb He E. unfold wg_socket_send_buffer_as_reply_to_skb in E. erewrite bind_run in E by (apply get_skb_run; exact Hb).
  rewrite He in E. apply bind_inv in E as (o & w1 & E1 & E). apply skb_with_buffer_inv in E1 as [Hw Ho].
  eapply answered_before; [exact Hw|]. destruct o as [s'|]; [|apply ret_inv in E as [_ ->]; by apply idle_answered].
  destruct (Ho s' eq_refl) as (b' & Hb' & <-).
  destruct (ep_addr e) as [|daddr dport|daddr dport scope]; [apply ret_inv in E as [_ ->]; by apply idle_answered|..];
    apply bind_inv in E as (r' & w2 & E2 & E); apply ret_inv in E as [_ ->];
    [by eapply send4_answered|by eapply send6_answered].
Qed.

Lemma under_load_inv w load w' :
  under_load w = Some (load, w') →
  (∃ t, w' = w <| w_last_under_load := t |>) ∧ (MAX_QUEUED_INCOMING_HANDSHAKES / 8 <= w_handshake_queue_len w → load = true).
Proof using.
  assert (w = w <| w_last_under_load := w_last_under_load w |>) as Hid by by destruct w.
  intros E. unfold under_load in E. unfold ktime_get_coarse_boottime_ns in E.
  do 3 (apply bind_inv in E as (? & ? & E1 & E); apply gets_inv in E1 as [-> ->]).
  destruct (Z.leb_spec (MAX_QUEUED_INCOMING_HANDSHAKES / 8) (w_handshake_queue_len w)).
  { apply bind_inv in E as (? & ? & E1 & E). apply modify_inv in E1 as ->. apply ret_inv in E as [-> ->]. eauto. }
  split; [|lia]. destruct (w_last_under_load w =? 0); [apply ret_inv in E as [_ ->]; eauto|].
  apply bind_inv in E as (? & ? & E1 & E). apply ret_inv in E as [_ ->]. destruct (negb _); cbn [when] in E1.
  - apply modify_inv in E1 as ->. eauto.
  - apply ret_inv in E1 as [_ ->]. eauto.
Qed.

Lemma random_bytes_length n w l w' : get_random_bytes n w = Some (l, w') → length l = n.
Proof using.
  revert w l w'. induction n as [|n IH]; intros w l w' E; cbn [get_random_bytes] in E; [by apply ret_inv in E as [-> _]|].
  apply bind_inv in E as (r & w1 & E1 & E). apply bind_inv in E as (rs & w2 & E2 & E). apply ret_inv in E as [-> _].
  cbn [length]. f_equal. by eapply IH.
Qed.

Lemma make_cookie_length b w c w' : make_cookie b w = Some (c, w') → length c = COOKIE_LEN.
Proof using H H0.
  intros E. unfold make_cookie in E. do 4 (apply bind_inv in E as (? & ? & _ & E)). apply ret_inv in E as [-> _]. apply blake2s_length.
Qed.

(** A cookie message is 64 bytes long. *)
Lemma message_create_length s i w m w' :
  wg_cookie_message_create s i w = Some (m, w') → length (encode_cookie m) = sizeof_message_handshake_cookie.
Proof using H H0.
  intros E. unfold wg_cookie_message_create in E. apply bind_inv in E as (b & w1 & _ & E).
  apply bind_inv in E as (nonce & w2 & E2 & E). apply bind_inv in E as (c & w3 & E3 & E). apply bind_inv in E as (k & w4 & _ & E).
  apply ret_inv in E as [-> _]. unfold encode_cookie. cbn [ck_type ck_receiver_index ck_nonce ck_encrypted_cookie].
  rewrite !length_app, !length_le_split, xaead_length, (random_bytes_length _ _ _ _ E2), (make_cookie_length _ _ _ _ E3). done.
Qed.

(** Making the message leaves the buffers alone. *)
Definition same_skbs (w w' : world) : Prop := w_skbs w' = w_skbs w.
#[local] Instance same_skbs_preorder : PreOrder same_skbs.
Proof using. split; [by intros w|]. intros w1 w2 w3 E1 E2. unfold same_skbs in *. congruence. Qed.
Lemma same_skbs_random_bytes n : guaranteed same_skbs (get_random_bytes n).
Proof using.
  intros w l w' E. apply get_random_bytes_inv in E as [rs ->]. done.
Qed.
#[local] Hint Resolve same_skbs_random_bytes : idle.
Lemma same_skbs_message_create s i : guaranteed same_skbs (wg_cookie_message_create s i).
Proof using. unfold wg_cookie_message_create, make_cookie, set_checker, ktime_get_coarse_boottime_ns. idle. Qed.

(** What is sent instead of doing the handshake. *)
Definition cookie_reply (b : sk_buff) (w w' : world) : Prop :=
  shed w w' ∧ (w_sent w' = w_sent w ∨ ∃ e d, wg_socket_endpoint_from_skb b = Some e ∧ w_sent w' = w_sent w ++ [d] ∧
    dg_dst d = ep_addr e ∧ length (dg_data d) = sizeof_message_handshake_cookie).

Lemma send_cookie_inv s b i w u w' :
  w_skbs w !! s = Some b → wg_packet_send_handshake_cookie s i w = Some (u, w') → cookie_reply b w w'.
Proof using H H0.
  intros Hb E. unfold wg_packet_send_handshake_cookie in E. apply bind_inv in E as (m & w1 & E1 & E).
  pose proof (message_create_length _ _ _ _ _ E1) as Hl.
  pose proof (idle_message_create s i _ _ _ E1) as [Hs Ht].
  pose proof (same_skbs_message_create s i _ _ _ E1) as Hk. unfold same_skbs in Hk. rewrite <- Hk in Hb.
  apply bind_inv in E as (r & w2 & E2 & E). apply ret_inv in E as [_ ->].
  destruct (wg_socket_endpoint_from_skb b) as [e|] eqn:He.
  - apply (reply_answered _ _ _ _ _ _ _ Hb He) in E2 as [Hs2 Ht2]. rewrite Ht in Ht2. split; [by etrans|].
    destruct Ht2 as [?|(d & Hd & Hdst & Hdata)]; [by left|right]. exists e, d. by rewrite Hdata.
  - unfold wg_socket_send_buffer_as_reply_to_skb in E2. erewrite bind_run in E2 by (apply get_skb_run; exact Hb).
    rewrite He in E2. apply ret_inv in E2 as [_ ->]. split; [done|by left].
Qed.

(** The message is neither a cookie message nor properly authenticated. *)
Definition mac1_ok (b : sk_buff) (w : world) : Prop :=
  compute_mac1 (skb_contents b) (cc_message_mac1_key (w_cookie_checker w)) = mac1 (macs_of (skb_contents b)).
Definition mac2_ok (b : sk_buff) (w : world) : Prop :=
  compute_mac2 (skb_contents b) (blake2s COOKIE_LEN (cc_secret (w_cookie_checker w)) (cookie_input b)) = mac2 (macs_of (skb_contents b)).

Lemma validate_bad_mac1 s b w load st w' :
  w_skbs w !! s = Some b → ¬ mac1_ok b w → wg_cookie_validate_packet s load w = Some (st, w') → st = INVALID_MAC.
Proof using.
  intros Hb Hm E. unfold wg_cookie_validate_packet in E. erewrite bind_run in E by (apply get_skb_run; exact Hb).
  erewrite bind_run in E by done. cbv zeta in E. rewrite bool_decide_false in E by done. by apply ret_inv in E as [-> _].
Qed.

Lemma validate_no_cookie s b w st w' :
  w_skbs w !! s = Some b → ¬ mac2_ok b w →
  wg_birthdate_has_expired (w_now w) (cc_secret_birthdate (w_cookie_checker w)) COOKIE_SECRET_MAX_AGE = false →
  wg_cookie_validate_packet s true w = Some (st, w') → (st = INVALID_MAC ∨ st = VALID_MAC_BUT_NO_COOKIE) ∧ w_skbs w' = w_skbs w.
Proof using.
  intros Hb Hm Hx E. unfold wg_cookie_validate_packet in E. erewrite bind_run in E by (apply get_skb_run; exact Hb).
  erewrite bind_run in E by done. cbv zeta in E. case_bool_decide; cbn [negb] in E; [|apply ret_inv in E as [-> ->]; auto].
  erewrite bind_run in E by (by apply make_cookie_run). rewrite bool_decide_false in E by done. cbn [negb] in E.
  apply ret_inv in E as [-> ->]. auto.
Qed.

Lemma idle_cookie_reply b w w' : idle w w' → cookie_reply b w w'.
Proof using. intros [Hs Ht]. split; [done|by left]. Qed.
Lemma cookie_reply_before b w1 w w' : idle w1 w → cookie_reply b w w' → cookie_reply b w1 w'.
Proof using. intros [Hs Ht] [Hs' Ht']. rewrite Ht in Ht'. split; [by etrans|done]. Qed.

(** The switch on the type, for a packet that needs a cookie. *)
Lemma needs_cookie_inv s b ty w o w' :
  w_skbs w !! s = Some b →
  (if ty =? MESSAGE_HANDSHAKE_INITIATION then receive_initiation s true
   else if ty =? MESSAGE_HANDSHAKE_RESPONSE then receive_response s true else mret None) w = Some (o, w') →
  o = None ∧ cookie_reply b w w'.
Proof using H H0.
  intros Hb E. destruct (ty =? MESSAGE_HANDSHAKE_INITIATION); [|destruct (ty =? MESSAGE_HANDSHAKE_RESPONSE)].
  1,2: unfold receive_initiation, receive_response in E; erewrite bind_run in E by (apply get_skb_run; exact Hb); cbv zeta in E;
    apply bind_inv in E as (u1 & w1 & E1 & E); apply ret_inv in E as [-> ->]; split; [done|]; by eapply send_cookie_inv.
  apply ret_inv in E as [-> ->]. split; [done|]. by apply idle_cookie_reply.
Qed.

End Flood.

(** An initiation with a good [mac1] and no cookie, on a device with 512 handshakes waiting. *)
Definition demo_initiation : bytes :=
  let m := 1 :: zeros 147 in set_macs m (mk_message_macs (compute_mac1 m (zeros 32)) (zeros 16)).
Definition demo_initiation_packet : sk_buff :=
  let outer := [69; 0; 0; 176] ++ zeros 8 ++ [192; 0; 2; 1] ++ [192; 0; 2; 2] ++ [202; 108; 202; 108; 0; 156; 0; 0] in
  mk_skb (outer ++ demo_initiation) 28 148 0 20 ETH_P_IP 2 0 None 0 None PACKET_STATE_UNCRYPTED 0 0.
Definition demo_flooded : world :=
  demo_a <| w_handshake_queue_len := 512 |> <| w_skbs := {[7%nat := demo_initiation_packet]} |>.

