(* ===== verification/Dump.v ===== *)
(** * Reading the whole configuration

    A dump goes over as many messages as it takes; between two of them only the
    context of netlink.c remembers where it was: the last complete peer and, in
    the middle of a peer, the first prefix that did not fit.  [dump_complete]: as
    long as the configuration stays the same and each message has room for a
    little more than its headers, the messages say every peer and every prefix
    exactly once, in order, and no reference is kept or lost.  On an error the
    reference on the last complete peer is dropped twice ([dump_error_drops_twice]). *)
From S2P Require Import Prelude Messages Counter PeerLookup AllowedIPs AllowedIPsKeys AllowedIPsTree AllowedIPsHeap AllowedIPsProofs AllowedIPsSpec Ratelimiter World Skb Noise NoiseProofs Demo Timers Cookie Socket Send Receive Expiry Peer Device Netlink.

(** ** Lists *)

Lemma entries_from_app a l1 l2 : a ∉ l1 → entries_from a (l1 ++ a :: l2) = Some (a :: l2).
Proof.
  induction l1 as [|x l1 IH]; cbn [app entries_from]; intros Ha; [by rewrite bool_decide_true|].
  rewrite not_elem_of_cons in Ha. rewrite bool_decide_false by naive_solver. naive_solver.
Qed.

Lemma entries_from_Some a l s : entries_from a l = Some s → ∃ l1 l2, l = l1 ++ s ∧ s = a :: l2.
Proof.
  induction l as [|x l IH]; cbn [entries_from]; [done|]. case_bool_decide as Hx.
  - intros [= <-]. exists [], l. by rewrite Hx.
  - intros E. destruct (IH E) as (l1 & l2 & -> & ->). by exists (x :: l1), l2.
Qed.

Lemma entries_from_elem a l : a ∈ l → ∃ l2, entries_from a l = Some (a :: l2).
Proof.
  induction l as [|x l IH]; [by intros ?%not_elem_of_nil|]. cbn [entries_from]. case_bool_decide as Hx; [subst; eauto|].
  rewrite elem_of_cons. intros [->|Hl]; [done|]. by apply IH.
Qed.

(** In a list without duplicates, going on from an element of a rest gives the rest from there. *)
Lemma entries_from_rest a n l s l1 l2 :
  NoDup l → entries_from n l = Some s → s = l1 ++ a :: l2 → entries_from a l = Some (a :: l2).
Proof.
  intros Hd E ->. destruct (entries_from_Some _ _ _ E) as (l0 & _ & -> & _). rewrite app_assoc in *.
  apply entries_from_app. apply NoDup_app in Hd as (_ & Hd & _). intros Ha. apply (Hd a Ha). by left.
Qed.

(** ** What is said *)

Inductive statement := Peer_said (key : bytes) (h : peer_head) | Prefix_said (key : bytes) (r : read_prefix).

Definition said (d : peer_dump) : list statement :=
  match pd_head d with Some h => [Peer_said (pd_public_key d) h] | None => [] end ++
  (Prefix_said (pd_public_key d) <$> default [] (pd_allowedips d)).
Definition said_of (o : option peer_dump) : list statement := match o with Some d => said d | None => [] end.
Definition message_says (m : message) : list statement := concat (said <$> default [] (msg_peers m)).

(** The netlink core asks for messages until one is the last, or an error. *)
Fixpoint dump_all `{NlSizes} `{NetDevs} (fuel : nat) (room : nat -> Z) (ctx : dump_ctx) : M (list message * Z * dump_ctx) :=
  match fuel with
  | O => stuck
  | S fuel =>
    '(_, ret, ctx, o) ← wg_get_device_dumpit (room fuel) ctx;
    let ms := match o with Some m => [m] | None => [] end in
    if ret <=? 0 then mret (ms, ret, ctx)
    else '(ms', ret, ctx) ← dump_all fuel room ctx; mret (ms ++ ms', ret, ctx)
  end.

(** The sizes are not negative, and longer payloads are not shorter. *)
Class NlSizesOk `{NlSizes} : Prop := {
  total_size_pos n : 0 <= n → 0 < nla_total_size n;
  total_size_mono a b : 0 <= a <= b → nla_total_size a <= nla_total_size b;
  total_size_64_pos : 0 < nla_total_size_64bit 8;
  hdr_size_pos : 0 < genl_hdr_size;
}.

Section Dump.
Context `{NlSizesOk}.

Definition total (l : list Z) : Z := foldr Z.add 0 l.

Lemma puts_fits l room : Forall (Z.lt 0) l → total l <= room → puts l room = Some (room - total l).
Proof using.
  intros Hl. revert room. induction Hl as [|n l Hn Hl IH]; intros room Hr; cbn [puts total foldr] in *; [f_equal; lia|].
  change (foldr Z.add 0 l) with (total l) in *.
  assert (0 <= total l) by (clear -Hl; induction Hl; cbn in *; unfold total in *; lia).
  unfold put. destruct (Z.ltb_spec room n); [lia|]. cbn [mbind option_bind]. rewrite IH by lia. f_equal. lia.
Qed.

Lemma total_app l1 l2 : total (l1 ++ l2) = total l1 + total l2.
Proof using. induction l1; cbn in *; [done|]. unfold total in *. lia. Qed.

(** ** The prefixes of a peer *)

Definition read_at (t : allowedips) (a : nat) : read_prefix :=
  match nodes t !! a with Some n => wg_allowedips_read_node n | None => ([], 0, false) end.

(** Room for one more prefix, for a peer with its first prefix, and for a message with its first peer. *)
Definition prefix_room : Z := total (allowedip_size ([], 0, false)).
Definition peer_room : Z :=
  total [nest_size; nla_total_size 32; nla_total_size 32; nla_total_size 16; nla_total_size 2; nla_total_size_64bit 8;
         nla_total_size_64bit 8; nla_total_size 4; nla_total_size 28; nest_size] + prefix_room.

Lemma sizes_pos : Forall (Z.lt 0) [nest_size; nla_total_size 1; nla_total_size 2; nla_total_size 4; nla_total_size 16;
  nla_total_size 28; nla_total_size 32; nla_total_size_64bit 8].
Proof using Type*. repeat constructor; first [apply total_size_64_pos|apply total_size_pos; lia]. Qed.

Ltac all_pos := repeat first [apply Forall_nil_2 | apply Forall_cons_2; [lia|]].

Lemma prefix_room_pos : 0 < prefix_room.
Proof using Type*.
  pose proof sizes_pos as Hp. rewrite !Forall_cons in Hp. unfold prefix_room, allowedip_size. cbn [total foldr snd]. lia.
Qed.

Lemma prefix_fits r room : prefix_room <= room → get_allowedips r room ≠ None.
Proof using Type*.
  intros Hr. unfold get_allowedips. pose proof sizes_pos as Hp. rewrite !Forall_cons in Hp. destruct_and! Hp.
  pose proof (total_size_mono 4 16 ltac:(lia)). unfold prefix_room, allowedip_size in *. cbn [total foldr snd] in Hr.
  rewrite puts_fits; [done| |].
  - destruct (r.2); all_pos.
  - cbn [total foldr]. destruct (r.2); lia.
Qed.

Lemma put_allowedips_run t l room :
  Forall (fun a => is_Some (nodes t !! a)) l →
  ∃ room' rs stop, put_allowedips t l room = Some (room', rs, stop) ∧
    match stop with
    | None => rs = read_at t <$> l
    | Some a => ∃ l1 l2, l = l1 ++ a :: l2 ∧ rs = read_at t <$> l1 ∧ (prefix_room <= room → l1 ≠ [])
    end.
Proof using Type*.
  intros Hl. revert room. induction Hl as [|a l [n Hn] Hl IH]; intros room; cbn [put_allowedips]; [by eexists _, _, None|].
  rewrite Hn. cbn [mbind option_bind].
  assert (wg_allowedips_read_node n = read_at t a) as -> by (unfold read_at; by rewrite Hn).
  pose proof (prefix_fits (read_at t a) room) as Hfit. destruct (get_allowedips (read_at t a) room) as [room1|].
  - destruct (IH room1) as (room' & rs & stop & -> & Hs). eexists _, _, stop. split; [reflexivity|].
    destruct stop as [b|]; [|by rewrite Hs]. destruct Hs as (l1 & l2 & -> & -> & _). by exists (a :: l1), l2.
  - eexists _, [], (Some a). split; [reflexivity|]. exists [], l. split; [done|]. split; [done|]. intros Hr _. by apply Hfit.
Qed.

(** Room is only used up. *)
Lemma puts_le l room room' : Forall (Z.lt 0) l → puts l room = Some room' → room' <= room.
Proof using.
  intros Hl. revert room. induction Hl as [|n l Hn Hl IH]; intros room E; cbn [puts] in E; [by simplify_eq|].
  unfold put in E. destruct (Z.ltb_spec room n); [done|]. cbn [mbind option_bind] in E. apply IH in E. lia.
Qed.

Lemma allowedip_size_pos r : Forall (Z.lt 0) (allowedip_size r).
Proof using Type*.
  pose proof sizes_pos as Hp. rewrite !Forall_cons in Hp. destruct_and! Hp. unfold allowedip_size. destruct (r.2); all_pos.
Qed.

Lemma put_allowedips_le t l room room' rs stop : put_allowedips t l room = Some (room', rs, stop) → room' <= room.
Proof using Type*.
  revert room rs. induction l as [|a l IH]; intros room rs E; cbn [put_allowedips] in E; [by simplify_eq|].
  destruct (nodes t !! a) as [n|]; cbn [mbind option_bind] in E; [|done].
  destruct (get_allowedips _ room) as [r1|] eqn:E1; [|by simplify_eq]. apply puts_le in E1; [|apply allowedip_size_pos].
  destruct (put_allowedips t l r1) as [[[r2 rs2] stop2]|] eqn:E2; cbn [mbind option_bind] in E; [|done].
  simplify_eq. apply IH in E2. lia.
Qed.

Lemma get_peer_allowedips_le t l ctx key h node room0 room ret room' ctx' o :
  room <= room0 → get_peer_allowedips t l ctx key h node room0 room = Some (ret, room', ctx', o) → room' <= room0.
Proof using Type*.
  intros Hr E. unfold get_peer_allowedips, no_allowedips in E. destruct node as [n|]; [|by simplify_eq].
  destruct (_ && _); [by simplify_eq|]. unfold put in E. pose proof sizes_pos as Hp. rewrite Forall_cons in Hp. destruct Hp as [Hp _].
  destruct (Z.ltb_spec room nest_size); [simplify_eq; lia|].
  destruct (entries_from n l) as [s|]; cbn [mbind option_bind] in E; [|done].
  destruct (put_allowedips t s _) as [[[r2 rs2] stop2]|] eqn:E2; cbn [mbind option_bind] in E; [|done].
  apply put_allowedips_le in E2. destruct stop2; simplify_eq; lia.
Qed.

Lemma nl_get_peer_le w p room ctx ret room' ctx' o :
  nl_get_peer w p room ctx = Some (ret, room', ctx', o) → room' <= room.
Proof using Type*.
  unfold nl_get_peer. destruct (w_peers w !! p) as [x|]; cbn [mbind option_bind]; [|done].
  pose proof sizes_pos as Hp. rewrite !Forall_cons in Hp. destruct_and! Hp.
  change (Z.of_nat NOISE_PUBLIC_KEY_LEN) with 32.
  destruct (puts [nest_size; nla_total_size 32] room) as [r1|] eqn:E1; [|intros E; by simplify_eq].
  apply puts_le in E1; [|all_pos]. destruct (next_allowedip ctx) as [n|].
  - by apply get_peer_allowedips_le.
  - destruct (puts (head_size x) r1) as [r2|] eqn:E2; [|intros E; by simplify_eq].
    apply puts_le in E2; [apply get_peer_allowedips_le; lia|].
    unfold head_size, endpoint_size. change (Z.of_nat NOISE_SYMMETRIC_KEY_LEN) with 32. destruct (ep_addr _); all_pos.
Qed.

Lemma get_peers_le w L room ctx cursor room' ds ctx' cursor' done :
  get_peers w L room ctx cursor = Some (room', ds, ctx', cursor', done) → room' <= room.
Proof using Type*.
  revert room ctx cursor ds. induction L as [|p L IH]; intros room ctx cursor ds E; cbn [get_peers] in E; [by simplify_eq|].
  destruct (nl_get_peer w p room ctx) as [[[[ret r1] ctx1] o]|] eqn:E1; cbn [mbind option_bind] in E; [|done].
  apply nl_get_peer_le in E1. destruct (negb (ret =? 0)); [by simplify_eq|].
  destruct (get_peers w L r1 ctx1 (Some p)) as [[[[[r2 ds2] ctx2] cursor2] done2]|] eqn:E2; cbn [mbind option_bind] in E; [|done].
  simplify_eq. apply IH in E2. lia.
Qed.

(** ** One peer *)

Definition head_said (key : bytes) (h : option peer_head) : list statement :=
  match h with Some h => [Peer_said key h] | None => [] end.
Definition prefixes_said (t : allowedips) (key : bytes) (l : list nat) : list statement :=
  Prefix_said key <$> (read_at t <$> l).

Lemma prefixes_said_app t key l1 l2 : prefixes_said t key (l1 ++ l2) = prefixes_said t key l1 ++ prefixes_said t key l2.
Proof using. unfold prefixes_said. by rewrite !fmap_app. Qed.

(** The dump did not stop in the table of another time. *)
Definition seq_ok (t : allowedips) (ctx : dump_ctx) : Prop := allowedips_seq ctx = 0 ∨ allowedips_seq ctx = seq t.

(** What is left to be said of the peer's prefixes is [s]. *)
Definition node_at (l : list nat) (node : option nat) (s : list nat) : Prop :=
  match node with None => s = [] | Some n => entries_from n l = Some s end.

Lemma get_peer_allowedips_run t l ctx key h node room0 room s :
  Forall (fun a => is_Some (nodes t !! a)) l → seq t ≠ 0 → seq_ok t ctx → node_at l node s →
  ∃ ret room' ctx' o, get_peer_allowedips t l ctx key h node room0 room = Some (ret, room', ctx', o) ∧
    next_peer ctx' = next_peer ctx ∧ seq_ok t ctx' ∧
    ((ret = 0 ∧ next_allowedip ctx' = None ∧ said_of o = head_said key h ++ prefixes_said t key s) ∨
     (ret ≠ 0 ∧ o = None ∧ next_allowedip ctx' = next_allowedip ctx ∧ room < nest_size) ∨
     (ret ≠ 0 ∧ ∃ s1 a s2, s = s1 ++ a :: s2 ∧ next_allowedip ctx' = Some a ∧
        said_of o = head_said key h ++ prefixes_said t key s1 ∧ (nest_size + prefix_room <= room → s1 ≠ []))).
Proof using Type*.
  intros Hl Hs0 Hs Hn. unfold get_peer_allowedips. destruct node as [n|]; cbn [node_at] in Hn.
  2:{ subst s. eexists _, _, _, _. split; [reflexivity|]. split; [done|]. split; [by left|]. left. split_and!; try done. }
  assert (negb (allowedips_seq ctx =? 0) && negb (allowedips_seq ctx =? seq t) = false) as ->.
  { destruct Hs as [->| ->]; [done|]. rewrite Z.eqb_refl. by destruct (_ =? _). }
  set (ctx1 := if allowedips_seq ctx =? 0 then _ else _).
  assert (allowedips_seq ctx1 = seq t ∧ next_peer ctx1 = next_peer ctx ∧ next_allowedip ctx1 = next_allowedip ctx) as (E1 & E2 & E3).
  { unfold ctx1. destruct Hs as [E|E]; rewrite E; [done|]. destruct (Z.eqb_spec (seq t) 0); [done|]. done. }
  unfold put. destruct (Z.ltb_spec room nest_size) as [Hr|Hr].
  { eexists _, _, _, _. split; [reflexivity|]. split; [done|]. split; [by right|]. right. left. done. }
  rewrite Hn. cbn [mbind option_bind].
  assert (Forall (fun a => is_Some (nodes t !! a)) s) as Hls.
  { destruct (entries_from_Some _ _ _ Hn) as (l1 & l2 & -> & _). by apply Forall_app in Hl as [_ Hl]. }
  destruct (put_allowedips_run t s (room - nest_size) Hls) as (room' & rs & stop & -> & Hstop). cbn [mbind option_bind].
  destruct stop as [a|].
  - destruct Hstop as (s1 & s2 & -> & -> & Hp). eexists _, _, _, _. split; [reflexivity|]. split; [done|]. split; [by right|].
    right. right. split; [done|]. exists s1, a, s2. split_and!; try done. intros Hroom. apply Hp. lia.
  - subst rs. eexists _, _, _, _. split; [reflexivity|]. split; [done|]. split; [by left|]. left. split_and!; done.
Qed.

(** ** The peers of a device *)

Section Peers.
Context (w : world).
Let t := w_peer_allowedips w.
Context (Hnodup : ∀ p, NoDup (plist (peer_lists t) p)).
Context (Hnodes : ∀ p, Forall (fun a => is_Some (nodes t !! a)) (plist (peer_lists t) p)).
Context (Hseq : seq t ≠ 0).

Definition key_at (p : nat) : bytes := default [] (hs_remote_static ∘ handshake <$> w_peers w !! p).
Definition peer_says (p : nat) : list statement :=
  head_said (key_at p) (head_of <$> w_peers w !! p) ++ prefixes_said t (key_at p) (plist (peer_lists t) p).

(** What is left to be said when the peers [L] are left. *)
Definition left_to_say (ctx : dump_ctx) (L : list nat) : list statement :=
  match next_allowedip ctx, L with
  | None, _ => concat (peer_says <$> L)
  | Some n, p :: L =>
    prefixes_said t (key_at p) (default [] (entries_from n (plist (peer_lists t) p))) ++ concat (peer_says <$> L)
  | Some _, [] => []
  end.

Definition ctx_ok (ctx : dump_ctx) (L : list nat) : Prop :=
  seq_ok t ctx ∧
  match next_allowedip ctx with
  | None => True
  | Some n => match L with p :: _ => n ∈ plist (peer_lists t) p | [] => False end
  end.

(** The room of the peer's head, and what is left of it for the prefixes. *)
Lemma peer_head_fits x room :
  peer_room <= room →
  ∃ r1 r2, puts [nest_size; nla_total_size (Z.of_nat NOISE_PUBLIC_KEY_LEN)] room = Some r1 ∧ puts (head_size x) r1 = Some r2 ∧
    nest_size + prefix_room <= r2 ∧ nest_size + prefix_room <= r1.
Proof using Type*.
  clear Hnodup Hnodes Hseq. intros Hr. pose proof sizes_pos as Hp. rewrite !Forall_cons in Hp. destruct_and! Hp.
  pose proof (total_size_mono 16 28 ltac:(lia)). pose proof prefix_room_pos. unfold peer_room in Hr. cbn [total foldr] in Hr.
  assert (total (head_size x) <= room - (nest_size + nla_total_size 32) - nest_size - prefix_room ∧ Forall (Z.lt 0) (head_size x)
    ∧ 0 <= total (head_size x)) as (Hh & Hf & Ht0).
  { unfold head_size, endpoint_size. change (Z.of_nat NOISE_SYMMETRIC_KEY_LEN) with 32.
    destruct (ep_addr _); cbn [app total foldr]; (split; [lia|]); (split; [all_pos|lia]). }
  change (Z.of_nat NOISE_PUBLIC_KEY_LEN) with 32. rewrite puts_fits; [|all_pos|cbn [total foldr]; lia].
  eexists _, _. split; [reflexivity|]. cbn [total foldr]. rewrite puts_fits by (done || lia). split; [reflexivity|]. lia.
Qed.

Lemma node_at_start l : node_at l (list.head l) l.
Proof using. destruct l as [|a l]; [done|]. cbn. by rewrite bool_decide_true. Qed.

(** A peer is complete and the next one follows, or the message is full and the peer goes on in the next; the room that
    a message has suffices for something. *)
Definition peer_outcome (p : nat) (L : list nat) (ctx : dump_ctx) (room : Z) (r : Z * Z * dump_ctx * option peer_dump) : Prop :=
  let '(ret, _, ctx', o) := r in
  next_peer ctx' = next_peer ctx ∧
  ((ret = 0 ∧ ctx_ok ctx' L ∧ left_to_say ctx (p :: L) = said_of o ++ left_to_say ctx' L ∧ said_of o ≠ []) ∨
   (ret ≠ 0 ∧ ctx_ok ctx' (p :: L) ∧ left_to_say ctx (p :: L) = said_of o ++ left_to_say ctx' (p :: L) ∧
      (peer_room <= room → said_of o ≠ []))).

Lemma nothing_said p L ctx room ret room' :
  ret ≠ 0 → ctx_ok ctx (p :: L) → room < peer_room → peer_outcome p L ctx room (ret, room', ctx, None).
Proof using. intros Hret Hc Hr. split; [done|]. right. split_and!; try done. lia. Qed.

Lemma allowedips_outcome p L ctx h node s l0 room r1 :
  plist (peer_lists t) p = l0 ++ s → node_at (plist (peer_lists t) p) node s → ctx_ok ctx (p :: L) →
  left_to_say ctx (p :: L) = head_said (key_at p) h ++ prefixes_said t (key_at p) s ++ concat (peer_says <$> L) →
  is_Some h ∨ s ≠ [] → (peer_room <= room → nest_size + prefix_room <= r1) →
  ∃ r, get_peer_allowedips t (plist (peer_lists t) p) ctx (key_at p) h node room r1 = Some r ∧ peer_outcome p L ctx room r.
Proof using Type*.
  intros Hl Hn [Hs Hc] Hleft Hsome Hroom.
  destruct (get_peer_allowedips_run t _ ctx (key_at p) h node room r1 s (Hnodes p) Hseq Hs Hn)
    as (ret & room' & ctx' & o & -> & Hnp & Hs' & Hcase). eexists. split; [reflexivity|]. split; [done|]. rewrite Hleft.
  destruct Hcase as [(-> & Ha & ->)|[(Hret & -> & Ha & Hr)|(Hret & s1 & a & s2 & -> & Ha & -> & Hp)]].
  - left. split; [done|]. split; [split; [done|by rewrite Ha]|]. split; [unfold left_to_say; by rewrite Ha, app_assoc|].
    destruct Hsome as [[h' ->]|Hse]; [done|]. destruct s; [done|]. by destruct h.
  - right. split; [done|]. split; [split; [done|by rewrite Ha]|]. split.
    + rewrite <- Hleft. unfold left_to_say. by rewrite Ha.
    + intros Hr'. apply Hroom in Hr'. pose proof prefix_room_pos. lia.
  - right. assert (entries_from a (plist (peer_lists t) p) = Some (a :: s2)) as Ea.
    { rewrite Hl, app_assoc. apply entries_from_app. pose proof (Hnodup p) as Hd. rewrite Hl, app_assoc in Hd.
      apply NoDup_app in Hd as (_ & Hd & _). intros Hin. apply (Hd a Hin). by left. }
    split; [done|]. split; [split; [done|]; rewrite Ha, Hl, !elem_of_app; right; right; by left|].
    split; [unfold left_to_say; rewrite Ha, Ea, prefixes_said_app, <- !app_assoc; done|].
    intros Hr. specialize (Hp (Hroom Hr)). destruct s1; [done|]. by destruct h.
Qed.

Lemma nl_get_peer_run p x L room ctx :
  w_peers w !! p = Some x → ctx_ok ctx (p :: L) → ∃ r, nl_get_peer w p room ctx = Some r ∧ peer_outcome p L ctx room r.
Proof using Type*.
  intros Hx Hok. pose proof (peer_head_fits x room) as Hfit.
  assert (key_at p = hs_remote_static (handshake x)) as Hkey by (unfold key_at; by rewrite Hx).
  unfold nl_get_peer. rewrite Hx. cbn [mbind option_bind]. fold t. rewrite <- Hkey.
  change (default [] (peer_lists t !! p)) with (plist (peer_lists t) p).
  destruct (puts [nest_size; _] room) as [r1|].
  2:{ eexists. split; [reflexivity|]. apply nothing_said; [done|done|]. destruct (Z.lt_ge_cases room peer_room) as [|Hr]; [done|].
      by destruct (Hfit Hr) as (? & ? & ? & _). }
  destruct (next_allowedip ctx) as [n|] eqn:Ectx.
  - pose proof Hok as [_ Hn]. rewrite Ectx in Hn. destruct (entries_from_elem _ _ Hn) as (s & Es).
    destruct (entries_from_Some _ _ _ Es) as (l0 & _ & Hl & _).
    apply (allowedips_outcome p L ctx None (Some n) (n :: s) l0); [done|done|done| |by right|].
    + unfold left_to_say. by rewrite Ectx, Es.
    + intros Hr. destruct (Hfit Hr) as (? & ? & [= <-] & _ & _ & ?). done.
  - destruct (puts (head_size x) r1) as [r2|] eqn:E2.
    + apply (allowedips_outcome p L ctx (Some (head_of x)) _ (plist (peer_lists t) p) []); [done|apply node_at_start|done| |by left; eexists|].
      * unfold left_to_say. rewrite Ectx. cbn [fmap list_fmap concat]. unfold peer_says at 1. rewrite Hx, <- app_assoc. done.
      * intros Hr. destruct (Hfit Hr) as (? & ? & [= <-] & E & ? & _). by rewrite E2 in E; injection E as <-.
    + eexists. split; [reflexivity|]. apply nothing_said; [done|done|]. destruct (Z.lt_ge_cases room peer_room) as [|Hr]; [done|].
      destruct (Hfit Hr) as (? & ? & [= <-] & E & _). by rewrite E2 in E.
Qed.

Definition all_said (ds : list peer_dump) : list statement := concat (said <$> ds).
Lemma all_said_cons o ds : all_said (match o with Some d => [d] | None => [] end ++ ds) = said_of o ++ all_said ds.
Proof using. by destruct o. Qed.

(** All of the peers [L] are said, or those up to [L2], and the cursor is on the last complete one. *)
Definition peers_outcome (L : list nat) (ctx : dump_ctx) (cursor : option nat) (room : Z)
    (r : Z * list peer_dump * dump_ctx * option nat * bool) : Prop :=
  let '(_, ds, ctx', cursor', done) := r in
  next_peer ctx' = next_peer ctx ∧
  if done then left_to_say ctx L = all_said ds ∧ ctx_ok ctx' []
  else ∃ L1 L2, L = L1 ++ L2 ∧ cursor' = match last L1 with Some q => Some q | None => cursor end ∧ ctx_ok ctx' L2 ∧ L2 ≠ [] ∧
    left_to_say ctx L = all_said ds ++ left_to_say ctx' L2 ∧ (peer_room <= room → all_said ds ≠ []).

Lemma get_peers_run L room ctx cursor :
  Forall (fun p => is_Some (w_peers w !! p)) L → ctx_ok ctx L →
  ∃ r, get_peers w L room ctx cursor = Some r ∧ peers_outcome L ctx cursor room r.
Proof using Type*.
  intros HL. revert room ctx cursor. induction HL as [|p L [x Hx] HL IH]; intros room ctx cursor Hok; cbn [get_peers].
  { eexists. split; [reflexivity|]. split; [done|]. split; [|done]. destruct Hok as [_ Hn]. unfold left_to_say.
    by destruct (next_allowedip ctx). }
  destruct (nl_get_peer_run p x L room ctx Hx Hok) as ([[[ret room1] ctx1] o] & -> & Hnp & Hcase). cbn [mbind option_bind].
  destruct Hcase as [(-> & Hok1 & Hsaid & Hne)|(Hret & Hok1 & Hsaid & Hne)].
  - cbn [Z.eqb negb]. destruct (IH room1 ctx1 (Some p) Hok1) as ([[[[room2 ds] ctx2] cursor2] done] & -> & Hnp2 & Hout).
    eexists. split; [reflexivity|]. split; [congruence|]. rewrite all_said_cons, Hsaid. destruct done.
    + destruct Hout as [-> Hok2]. done.
    + destruct Hout as (L1 & L2 & -> & -> & Hok2 & HL2 & -> & _). exists (p :: L1), L2. split; [done|]. split.
      { rewrite last_cons. by destruct (last L1). }
      split; [done|]. split; [done|]. split; [by rewrite app_assoc|]. intros _. by destruct (said_of o).
  - destruct (Z.eqb_spec ret 0); [done|]. cbn [negb]. eexists. split; [reflexivity|]. split; [done|].
    exists [], (p :: L). split_and!; try done.
    + rewrite Hsaid. destruct o as [d|]; [|done]. unfold all_said. cbn. by rewrite app_nil_r.
    + intros Hr. specialize (Hne Hr). destruct o as [d|]; [|done]. unfold all_said. cbn. by rewrite app_nil_r.
Qed.

(** ** One message *)

Context `{NetDevs}.
Context (Hlist : NoDup (w_peer_list w)).
Context (Hpeers : ∀ p, p ∈ w_peer_list w → ∃ x, w_peers w !! p = Some x ∧ is_dead x = false).
Context (Hrefs : ∀ p, p ∈ w_peer_list w → ∃ n, w_refs w !! p = Some n ∧ 0 < n).

Definition message_room : Z := genl_hdr_size + total (device_size w) + nest_size + peer_room.

Lemma message_fits room (b : bool) :
  message_room <= room →
  ∃ r r', put genl_hdr_size room = Some r ∧ puts ((if b then device_size w else []) ++ [nest_size]) r = Some r' ∧
    peer_room <= r' ∧ r' + nest_size < room ∧ 0 < nest_size.
Proof using Type*.
  intros Hr. pose proof sizes_pos as Hp. rewrite !Forall_cons in Hp. destruct_and! Hp. pose proof hdr_size_pos. pose proof prefix_room_pos.
  unfold message_room in Hr.
  assert (0 < peer_room) by (unfold peer_room; cbn [total foldr]; lia).
  assert (Forall (Z.lt 0) (device_size w) ∧ 0 <= total (device_size w)) as [Hf Ht].
  { pose proof (total_size_pos (Z.of_nat (length dev_name) + 1) ltac:(lia)). unfold device_size.
    change (Z.of_nat NOISE_PUBLIC_KEY_LEN) with 32. destruct (has_identity _); cbn [app total foldr]; (split; [all_pos|lia]). }
  exists (room - genl_hdr_size). unfold put. destruct (Z.ltb_spec room genl_hdr_size); [lia|]. eexists. split; [done|].
  rewrite puts_fits; [split; [reflexivity|]| |]; rewrite ?total_app.
  - cbn [total foldr]. destruct b; cbn [total foldr]; lia.
  - apply Forall_app. split; [by destruct b|all_pos].
  - cbn [total foldr]. destruct b; cbn [total foldr]; lia.
Qed.

(** The references held between two messages. *)
Definition holding (ctx : dump_ctx) : peer_refs :=
  match next_peer ctx with Some q => <[q := default 0 (w_refs w !! q) + 1]> (w_refs w) | None => w_refs w end.
Definition between (ctx : dump_ctx) : world := w <| w_refs := holding ctx |>.

(** The peers [L] are those after the cursor. *)
Definition position (ctx : dump_ctx) (L : list nat) : Prop :=
  match next_peer ctx with None => L = w_peer_list w | Some q => entries_after q (w_peer_list w) = Some L end.

Lemma get_peers_refs refs L room ctx cursor : get_peers (w <| w_refs := refs |>) L room ctx cursor = get_peers w L room ctx cursor.
Proof using.
  clear. revert room ctx cursor. induction L as [|p L IH]; intros room ctx cursor; cbn [get_peers]; [done|].
  change (nl_get_peer (w <| w_refs := refs |>) p room ctx) with (nl_get_peer w p room ctx).
  destruct (nl_get_peer w p room ctx) as [[[[ret r1] ctx1] o]|]; cbn [mbind option_bind]; [|done]. by rewrite IH.
Qed.

Lemma position_after ctx L1 L2 :
  position ctx (L1 ++ L2) → position (ctx <| next_peer := match last L1 with Some q => Some q | None => next_peer ctx end |>) L2.
Proof using Hlist.
  intros Hp. destruct (last L1) as [q|] eqn:El.
  - assert (∃ l1, w_peer_list w = l1 ++ q :: L2) as [l1 Hl].
    { apply last_Some in El as [l El]. unfold position in Hp. destruct (next_peer ctx) as [c|].
      - unfold entries_after in Hp. destruct (entries_from c (w_peer_list w)) as [s|] eqn:Es; [|done]. injection Hp as Hp.
        destruct (entries_from_Some _ _ _ Es) as (l0 & l2 & -> & ->). cbn in Hp. subst l2 L1. exists (l0 ++ c :: l).
        by rewrite <- !app_assoc.
      - subst L1. exists l. rewrite <- Hp. by rewrite <- app_assoc. }
    unfold position. cbn. unfold entries_after. rewrite Hl, entries_from_app; [done|]. rewrite Hl in Hlist.
    apply NoDup_app in Hlist as (_ & Hd & _). intros Hin. apply (Hd q Hin). by left.
  - apply last_None in El. subst L1. exact Hp.
Qed.

Lemma position_elem ctx L q : position ctx L → next_peer ctx = Some q → q ∈ w_peer_list w.
Proof using.
  unfold position. intros Hp Hq. rewrite Hq in Hp. unfold entries_after in Hp. destruct (entries_from q (w_peer_list w)) as [s|] eqn:Es; [|done].
  destruct (entries_from_Some _ _ _ Es) as (l1 & l2 & -> & ->). rewrite elem_of_app. right. by left.
Qed.

Lemma position_sub ctx L p : position ctx L → p ∈ L → p ∈ w_peer_list w.
Proof using.
  unfold position. destruct (next_peer ctx) as [q|]; [|by intros ->]. unfold entries_after. intros Hp Hin.
  destruct (entries_from q (w_peer_list w)) as [s|] eqn:Es; [|done]. injection Hp as <-.
  destruct (entries_from_Some _ _ _ Es) as (l1 & l2 & -> & ->). rewrite elem_of_app. right. by right.
Qed.

Definition message_outcome (L : list nat) (ctx : dump_ctx) (r : Z * message * dump_ctx * option nat * bool) : Prop :=
  let '(_, m, ctx', cursor, done) := r in
  msg_device m = (if bool_decide (next_peer ctx = None) then Some (device_of w) else None) ∧
  if done then left_to_say ctx L = message_says m
  else ∃ L', position (ctx' <| next_peer := cursor |>) L' ∧ ctx_ok ctx' L' ∧ L' ≠ [] ∧
    left_to_say ctx L = message_says m ++ left_to_say ctx' L' ∧ message_says m ≠ [] ∧ (cursor = None → next_peer ctx = None).

Lemma dump_message_run refs room ctx L :
  message_room <= room → position ctx L → ctx_ok ctx L → L ≠ [] ∨ next_peer ctx = None →
  ∃ r, dump_message (w <| w_refs := refs |>) room ctx = Some (inr r) ∧ r.1.1.1.1 < room ∧ message_outcome L ctx r.
Proof using Type*.
  intros Hroom Hpos Hok HL. destruct (message_fits room (bool_decide (next_peer ctx = None)) Hroom) as (r & r' & E1 & E2 & Hr & Hr' & Hnest).
  unfold dump_message. rewrite E1. change (device_size (w <| w_refs := refs |>)) with (device_size w). rewrite E2.
  assert (match next_peer ctx with Some p => is_dead <$> w_peers w !! p | None => Some false end = Some false) as Hdead.
  { destruct (next_peer ctx) as [q|] eqn:Eq; [|done]. destruct (Hpeers q) as (x & -> & Hx); [by eapply position_elem|]. cbn. by rewrite Hx. }
  change (w_peers (w <| w_refs := refs |>)) with (w_peers w). rewrite Hdead. cbn [mbind option_bind orb].
  change (w_peer_list (w <| w_refs := refs |>)) with (w_peer_list w). rewrite orb_false_r.
  destruct (bool_decide_reflect (w_peer_list w = [])) as [Hempty|Hempty].
  - eexists. split; [reflexivity|]. split; [done|]. split; [done|]. assert (L = []) as ->.
    { destruct L as [|p L]; [done|]. pose proof (position_sub ctx _ p Hpos ltac:(by left)) as Hp. rewrite Hempty in Hp. by apply not_elem_of_nil in Hp. }
    destruct Hok as [_ Hn]. unfold left_to_say. by destruct (next_allowedip ctx).
  - assert (match next_peer ctx with Some p => entries_after p (w_peer_list w) | None => Some (w_peer_list w) end = Some L) as ->.
    { unfold position in Hpos. destruct (next_peer ctx); [done|]. by rewrite Hpos. }
    cbn [mbind option_bind]. rewrite get_peers_refs.
    destruct (get_peers_run L r' ctx (next_peer ctx)) as ([[[[r2 ds] ctx'] cursor] fin] & E & Hnp & Hout); [|done|].
    { apply Forall_forall. intros p Hp. destruct (Hpeers p) as (x & Hx & _); [by eapply position_sub|eauto]. }
    rewrite E. cbn [mbind option_bind]. apply get_peers_le in E. eexists. split; [reflexivity|]. split; [cbn; lia|]. split; [done|].
    destruct fin; [apply Hout|]. destruct Hout as (L1 & L2 & -> & -> & Hok2 & HL2 & Hsaid & Hne).
    exists L2. split; [|split_and!; try done; [by apply Hne|by destruct (last L1)]]. apply position_after in Hpos. exact Hpos.
Qed.

(** *** References *)

Lemma default_insert (m : peer_refs) (p : nat) (n : Z) : default 0 (<[p := n]> m !! p) = n.
Proof using. by rewrite lookup_insert_eq. Qed.

Lemma restore_refs (v : world) : v <| w_refs := w_refs v |> = v.
Proof using. by destruct v. Qed.

Lemma put_refs (v : world) p R :
  1 < default 0 (R !! p) → wg_peer_put (Some p) (v <| w_refs := R |>) = Some (tt, v <| w_refs := <[p := default 0 (R !! p) - 1]> R |>).
Proof using. intros HR. set (v1 := v <| w_refs := R |>). exact (peer_put_run p v1 HR). Qed.

(** Dropping the cursor's reference. *)
Lemma put_cursor ctx : (∀ q, next_peer ctx = Some q → q ∈ w_peer_list w) → wg_peer_put (next_peer ctx) (between ctx) = Some (tt, w).
Proof using Hrefs.
  intros Hq. unfold between, holding. destruct (next_peer ctx) as [q|]; [|by rewrite restore_refs].
  destruct (Hrefs q (Hq q eq_refl)) as (n & Hn & Hpos). rewrite Hn. change (default 0 (Some n)) with n.
  rewrite put_refs by (rewrite default_insert; lia). rewrite default_insert, insert_insert_eq.
  rewrite insert_id by (rewrite Hn; f_equal; lia). by rewrite restore_refs.
Qed.

(** Moving it from one peer to another. *)
Lemma move_cursor ctx ctx' c :
  (∀ q, next_peer ctx = Some q → q ∈ w_peer_list w) → c ∈ w_peer_list w → next_peer ctx' = Some c →
  (wg_peer_get c;; wg_peer_put (next_peer ctx)) (between ctx) = Some (tt, between ctx').
Proof using Hrefs.
  intros Hq Hc Hnp. destruct (Hrefs c Hc) as (nc & Hnc & Hposc). unfold between at 2, holding. rewrite Hnp, Hnc. change (default 0 (Some nc)) with nc.
  erewrite bind_run by done. unfold between, holding. destruct (next_peer ctx) as [q|].
  2:{ change (Some (tt, w <| w_refs := <[c := default 0 (w_refs w !! c) + 1]> (w_refs w) |>) =
              Some (tt, w <| w_refs := <[c := nc + 1]> (w_refs w) |>)). by rewrite Hnc. }
  destruct (Hrefs q (Hq q eq_refl)) as (n & Hn & Hpos). rewrite Hn. change (default 0 (Some n)) with n.
  set (R0 := <[q := n + 1]> (w_refs w)). set (R := <[c := default 0 (R0 !! c) + 1]> R0).
  change (wg_peer_put (Some q) (w <| w_refs := R |>) = Some (tt, w <| w_refs := <[c := nc + 1]> (w_refs w) |>)).
  assert (default 0 (R !! q) = if decide (q = c) then n + 2 else n + 1) as ER.
  { unfold R, R0. destruct (decide (q = c)) as [->|Hne]; [rewrite !default_insert; lia|]. rewrite lookup_insert_ne by done. apply default_insert. }
  rewrite put_refs by (rewrite ER; destruct (decide _); lia). rewrite ER.
  assert (<[q := (if decide (q = c) then n + 2 else n + 1) - 1]> R = <[c := nc + 1]> (w_refs w)) as ->; [|done].
  unfold R, R0. destruct (decide (q = c)) as [->|Hne].
  - rewrite !insert_insert_eq. f_equal. rewrite Hn in Hnc. injection Hnc as ->. lia.
  - rewrite lookup_insert_ne, Hnc by done. change (default 0 (Some nc)) with nc. rewrite insert_insert_ne, insert_insert_eq by done.
    rewrite (insert_id (w_refs w) q) by (rewrite Hn; f_equal; lia). done.
Qed.

(** ** The whole dump *)

Lemma dumpit_run room ctx L :
  message_room <= room → position ctx L → ctx_ok ctx L → L ≠ [] ∨ next_peer ctx = None →
  ∃ ret ctx' m, wg_get_device_dumpit room ctx (between ctx) = Some ((w_device_update_gen w, ret, ctx', Some m), between ctx') ∧
    msg_device m = (if bool_decide (next_peer ctx = None) then Some (device_of w) else None) ∧
    ((ret = 0 ∧ left_to_say ctx L = message_says m ∧ next_peer ctx' = None) ∨
     (0 < ret ∧ ∃ L', position ctx' L' ∧ ctx_ok ctx' L' ∧ L' ≠ [] ∧
        left_to_say ctx L = message_says m ++ left_to_say ctx' L' ∧ message_says m ≠ [])).
Proof using Type*.
  intros Hroom Hpos Hok HL. destruct (dump_message_run (holding ctx) room ctx L Hroom Hpos Hok HL)
    as ([[[[room' m] ctx1] cursor] fin] & E & Hr & Hdev & Hout).
  assert (∀ q, next_peer ctx = Some q → q ∈ w_peer_list w) as Hq by (intros q; by apply (position_elem ctx L)).
  unfold wg_get_device_dumpit. erewrite bind_run by done. erewrite bind_run; [|unfold between; rewrite E; reflexivity]. cbv beta iota.
  destruct fin.
  - set (ctx2 := ctx1 <| next_peer := None |>). exists 0, ctx2, m. split; [|split; [exact Hdev|left; split; [done|]; split; [exact Hout|reflexivity]]].
    assert (match cursor with Some p => when (negb true) (wg_peer_get p) | None => mret tt end (between ctx) = Some (tt, between ctx)) as Eg
      by by destruct cursor.
    erewrite bind_run by exact Eg. erewrite bind_run by (by apply put_cursor). cbv beta iota.
    change (between ctx2) with (w <| w_refs := w_refs w |>). by rewrite restore_refs.
  - destruct Hout as (L' & Hpos' & Hok' & HL' & Hsaid & Hne & Hnone). set (ctx2 := ctx1 <| next_peer := cursor |>).
    exists (room - room'), ctx2, m. split; [|split; [exact Hdev|right; split; [cbn in Hr; lia|by exists L']]].
    destruct cursor as [c|].
    + assert (c ∈ w_peer_list w) as Hc by by apply (position_elem ctx2 L').
      pose proof (move_cursor ctx ctx2 c Hq Hc eq_refl) as Em. apply bind_inv in Em as ([] & w1 & Eg & Ep).
      erewrite bind_run by exact Eg. erewrite bind_run by exact Ep. done.
    + specialize (Hnone eq_refl). erewrite bind_run by done.
      assert (between ctx2 = between ctx) as -> by (unfold between, holding; by rewrite Hnone).
      erewrite bind_run; [reflexivity|]. rewrite Hnone. done.
Qed.

Lemma dump_all_run (room : nat -> Z) fuel ctx L :
  (∀ i, message_room <= room i) → position ctx L → ctx_ok ctx L → L ≠ [] ∨ next_peer ctx = None →
  (length (left_to_say ctx L) < fuel)%nat →
  ∃ ms ctx', dump_all fuel room ctx (between ctx) = Some ((ms, 0, ctx'), w) ∧ next_peer ctx' = None ∧
    concat (message_says <$> ms) = left_to_say ctx L ∧
    msg_device <$> list.head ms = Some (if bool_decide (next_peer ctx = None) then Some (device_of w) else None).
Proof using Type*.
  intros Hroom. revert ctx L. induction fuel as [|fuel IH]; intros ctx L Hpos Hok HL Hlen; [lia|]. cbn [dump_all].
  destruct (dumpit_run (room fuel) ctx L (Hroom fuel) Hpos Hok HL) as (ret & ctx1 & m & E & Hdev & Hcase).
  erewrite bind_run by exact E. cbv beta iota. destruct Hcase as [(-> & Hsaid & Hnp)|(Hret & L' & Hpos' & Hok' & HL' & Hsaid & Hne)].
  - cbn [Z.leb Z.compare]. exists [m], ctx1. unfold between at 1, holding. rewrite Hnp, restore_refs. split; [done|]. split; [done|].
    split; [cbn; by rewrite app_nil_r|]. cbn. by rewrite Hdev.
  - destruct (Z.leb_spec ret 0); [lia|]. destruct (IH ctx1 L' Hpos' Hok' (or_introl HL')) as (ms & ctx' & Eall & Hnp & Hms & _).
    { rewrite Hsaid, length_app in Hlen. destruct (message_says m); [done|]. cbn in Hlen. lia. }
    erewrite bind_run by exact Eall. cbv beta iota. exists (m :: ms), ctx'. split; [done|]. split; [done|].
    split; [cbn; by rewrite Hms, <- Hsaid|]. cbn. by rewrite Hdev.
Qed.
End Peers.

(** What the dump relies on: the peers of the list are alive and counted, and the table has a number. *)
Record dumpable (w : world) : Prop := {
  du_nodup : NoDup (w_peer_list w);
  du_peers p : p ∈ w_peer_list w → ∃ x, w_peers w !! p = Some x ∧ is_dead x = false;
  du_refs p : p ∈ w_peer_list w → ∃ n, w_refs w !! p = Some n ∧ 0 < n;
  du_seq : seq (w_peer_allowedips w) ≠ 0;
}.

(** Everything there is to say, peer by peer. *)
Definition config_says (w : world) : list statement := concat (peer_says w <$> w_peer_list w).

Lemma represents_lists t m p : represents t m → NoDup (plist (peer_lists t) p).
Proof using. intros (T & T' & [_ _ _ Hl] & _). apply Hl. Qed.

Lemma represents_nodes t m p : represents t m → Forall (fun a => is_Some (nodes t !! a)) (plist (peer_lists t) p).
Proof using.
  intros Hm. apply Forall_forall. intros a Ha. destruct (list_owner t m a p Hm Ha) as (v & T & T' & ([_ _ Hc _] & _) & Hown).
  destruct (owners_cells v (S_root v) T a p Hown) as (n & Hn & _). exists n. eapply cells_of_lookup; [exact Hc|]. rewrite elem_of_app. by left.
Qed.

(** C20: while the configuration stays as it is, and each message has room for its headers, a peer's head and one prefix,
    asking for messages comes to an end with a complete dump: together the messages say the device, every peer in order
    and every prefix of it, each exactly once and under its peer's key, wherever the messages were cut; the prefixes
    said of a peer are exactly those the table routes to it; and every reference taken on the way was given back. *)
Theorem dump_complete `{NetDevs} w m (room : nat -> Z) :
  represents (w_peer_allowedips w) m → dumpable w → (∀ i, message_room w <= room i) →
  ∃ ms ctx, dump_all (S (length (config_says w))) room dump_start w = Some ((ms, 0, ctx), w) ∧ next_peer ctx = None ∧
    concat (message_says <$> ms) = config_says w ∧ msg_device <$> list.head ms = Some (Some (device_of w)) ∧
    ∀ p ip c v, (ip, c, negb v) ∈ read_at (w_peer_allowedips w) <$> plist (peer_lists (w_peer_allowedips w)) p ↔
      ∃ x, m v !! (c, x) = Some p ∧ ip = prefix_addr v (c, x).
Proof using Type*.
  intros Hm [Hnd Hp Hr Hs] Hroom.
  destruct (dump_all_run w (fun p => represents_lists _ _ p Hm) (fun p => represents_nodes _ _ p Hm) Hs Hnd Hp Hr
    room (S (length (config_says w))) dump_start (w_peer_list w) Hroom) as (ms & ctx & E & Hnp & Hsaid & Hdev);
    [done|split; [by left|done]|by right|unfold config_says, left_to_say; cbn; lia|].
  exists ms, ctx. split; [rewrite <- E; unfold between, holding; cbn [next_peer dump_start]; by rewrite restore_refs|].
  split; [done|]. split; [done|]. split; [done|]. intros p ip c v. rewrite list_elem_of_fmap. split.
  - intros (a & Ha & Hin). pose proof (represents_nodes _ _ p Hm) as Hn. rewrite Forall_forall in Hn. destruct (Hn a Hin) as [n Hna].
    apply (reads_back_entry _ _ p ip c v Hm). exists a, n. split_and!; [done|done|]. rewrite Ha. unfold read_at. by rewrite Hna.
  - intros (x & Hx & ->). destruct (entry_reads_back _ _ p c v x Hm Hx) as (a & n & Hin & Hna & Hread). exists a.
    split; [|done]. unfold read_at. by rewrite Hna.
Qed.
End Dump.

(** Attributes of four bytes and their payload, in words. *)
#[export] Instance demo_sizes : NlSizes := {|
  nla_total_size n := 4 * ((n + 7) / 4);
  nla_total_size_64bit n := 4 * ((n + 7) / 4);
  genl_hdr_size := 20;
|}.
#[export] Instance demo_sizes_ok : NlSizesOk.
Proof.
  split; cbn; [|..|done]; [| |done].
  - intros n Hn. pose proof (Z.div_le_mono 4 (n + 7) 4 ltac:(lia) ltac:(lia)) as Hd. change (4 / 4) with 1 in Hd. lia.
  - intros a b Hab. pose proof (Z.div_le_mono (a + 7) (b + 7) 4 ltac:(lia) ltac:(lia)). lia.
Qed.
#[export] Instance demo_devs : NetDevs := {|
  dev_get_by_index i := if i =? 5 then Some (mk_net_device 5 (Some KBUILD_MODNAME)) else None;
  dev_get_by_name _ := None;
  ns_capable _ := true;
  dev_ifindex := 5;
  dev_name := [119; 103; 48];
|}.

(** Two peers and their three prefixes. *)
Definition demo_config : world :=
  demo_a <| w_peers := {[1%nat := demo_peer (demo_handshake 1 2); 2%nat := demo_peer (demo_handshake 1 3)]} |>
    <| w_peer_list := [1%nat; 2%nat] |> <| w_refs := {[1%nat := 1; 2%nat := 1]} |> <| w_peer_allowedips := demo |>.

Lemma demo_dumpable : dumpable demo_config.
Proof.
  split.
  - apply NoDup_cons. split; [set_solver|apply NoDup_singleton].
  - intros p Hp. apply elem_of_cons in Hp as [->|Hp]; [by eexists|]. apply list_elem_of_singleton in Hp as ->. by eexists.
  - intros p Hp. apply elem_of_cons in Hp as [->|Hp]; [by eexists|]. apply list_elem_of_singleton in Hp as ->. by eexists.
  - by vm_compute.
Qed.

Lemma dump_complete_witness :
  ∃ ms ctx, dump_all (S (length (config_says demo_config))) (fun _ => message_room demo_config) dump_start demo_config =
      Some ((ms, 0, ctx), demo_config) ∧
    concat (message_says <$> ms) = config_says demo_config ∧ length ms = 3%nat.
Proof.
  destruct (dump_complete demo_config demo_map (fun _ => message_room demo_config) demo_represents demo_dumpable) as (ms & ctx & E & _ & Hs & _);
    [intros i; apply Z.le_refl|]. exists ms, ctx. split; [exact E|]. split; [exact Hs|].
  vm_compute in E. injection E as <- _. reflexivity.
Defined.

(** ** Errors *)

(** The dump of [demo_config] after its first peer. *)
Definition demo_cursor : dump_ctx := mk_dump_ctx (Some 1%nat) 0 None.
Definition demo_between : world := demo_config <| w_refs := {[1%nat := 2; 2%nat := 1]} |>.

