(* ===== verification/Config.v ===== *)
(** * Configuring a peer's prefixes

    What a netlink message does to the routing table: [peer_prefixes_configured].
    The prefixes of the message are taken in order up to the first that is refused;
    the table is then the old one, without the peer's old prefixes if they are
    replaced, with those additions and removals made, and nothing else that the
    message sets off touches it. *)
From S2P Require Import Prelude Messages Counter PeerLookup AllowedIPs AllowedIPsKeys AllowedIPsTree AllowedIPsHeap AllowedIPsProofs AllowedIPsSpec Ratelimiter World Skb Noise NoiseProofs Demo Timers Cookie Socket Send Receive Expiry Peer Device Netlink Guarantee Invariants Delivery.

Section Prefixes.
Context `{Uapi}.

(** The family and the prefix an attribute table names, if it is valid. *)
Definition named_prefix (a : allowedip_attrs) : option (bool * bytes * Z) :=
  family ← WGALLOWEDIP_A_FAMILY a; ip ← WGALLOWEDIP_A_IPADDR a; cidr ← WGALLOWEDIP_A_CIDR_MASK a;
  if (family =? NUM_AF_INET) && (cidr <=? 32) && (length ip =? 4)%nat then Some (false, ip, cidr)
  else if (family =? NUM_AF_INET6) && (cidr <=? 128) && (length ip =? 16)%nat then Some (true, ip, cidr)
  else None.

(** One addition or removal, on the map. *)
Definition configure_prefix (p : nat) (m : ptable) (e : Z + allowedip_attrs) : ptable :=
  match e with
  | inl _ => m
  | inr a =>
    match named_prefix a with
    | None => m
    | Some (v, ip, c) =>
      let q := prefix_of v ip c in
      if has_flag (default 0 (WGALLOWEDIP_A_FLAGS a)) WGALLOWEDIP_F_REMOVE_ME
      then (if decide (m v !! q = Some p) then set_family v (delete q) m else m)
      else set_family v (insert q p) m
    end
  end.

(** Addresses are bytes, lengths are not negative, and errors are. *)
Definition wf_entry (e : Z + allowedip_attrs) : Prop :=
  match e with
  | inl err => err < 0
  | inr a => (∀ ip, WGALLOWEDIP_A_IPADDR a = Some ip → Forall is_byte ip) ∧ (∀ c, WGALLOWEDIP_A_CIDR_MASK a = Some c → 0 <= c < 256)
  end.

(** A world with another table and other memory. *)
Definition rerouted (w : world) (t : allowedips) (f : list bool) : world := w <| w_peer_allowedips := t |> <| w_alloc_fails := f |>.

Lemma alloc_ok_run w : ∃ b f, alloc_ok w = Some (b, w <| w_alloc_fails := f |>).
Proof using. unfold alloc_ok. destruct (w_alloc_fails w) as [|b f] eqn:E; [|eauto]. exists true, []. rewrite <- E. by destruct w. Qed.

Lemma alloc_nodes_run w :
  ∃ n1 n2 f, alloc_nodes w = Some ((n1, n2), w <| w_alloc_fails := f |>) ∧ fresh_allocs (w_peer_allowedips w) n1 n2.
Proof using.
  unfold alloc_nodes. erewrite bind_run by done. set (t := w_peer_allowedips w).
  destruct (alloc_ok_run w) as (b1 & f1 & E1). erewrite bind_run by exact E1. set (w1 := w <| w_alloc_fails := f1 |>).
  destruct (alloc_ok_run w1) as (b2 & f2 & E2). erewrite bind_run by exact E2.
  eexists _, _, f2. split; [reflexivity|].
  pose proof (is_fresh (dom (nodes t))) as F1. pose proof (is_fresh ({[fresh (dom (nodes t))]} ∪ dom (nodes t))) as F2.
  split; intros p Hp.
  - destruct b1; [|done]. injection Hp as <-. by apply not_elem_of_dom.
  - destruct b2; [|done]. injection Hp as <-. split; [apply not_elem_of_dom; set_solver|]. destruct b1; [|done]. intros [= E]. set_solver.
Qed.

(** The table after an addition or a removal of a valid prefix. *)
Lemma insert_or_remove_run v p flags ip c w m :
  represents (w_peer_allowedips w) m → wf_addr v ip → 0 <= c <= width v →
  ∃ ret t f, insert_or_remove v p flags ip c w = Some (ret, rerouted w t f) ∧
    ((ret = 0 ∧ represents t
        (if has_flag flags WGALLOWEDIP_F_REMOVE_ME
         then (if decide (m v !! prefix_of v ip c = Some p) then set_family v (delete (prefix_of v ip c)) m else m)
         else set_family v (insert (prefix_of v ip c) p) m)) ∨
     (ret < 0 ∧ represents t m)).
Proof using.
  intros Hm Hip Hc. assert (0 <= c < 256) as Hc' by (destruct v; cbn in Hc; lia).
  unfold insert_or_remove. erewrite bind_run by done. destruct (has_flag flags _).
  - destruct (remove_represents v _ m ip c p Hm Hip Hc') as (t & res & E & _ & Hok). destruct (Hok ltac:(lia)) as [-> Ht].
    exists 0, t, (w_alloc_fails w). split; [|by left]. erewrite bind_run by (unfold lift; rewrite E; reflexivity). cbv beta iota.
    erewrite bind_run by done. unfold rerouted. by destruct w.
  - destruct (alloc_nodes_run w) as (n1 & n2 & f & Ea & Hf).
    destruct (insert_represents v _ m ip c (Some p) n1 n2 Hm Hip Hc' Hf) as (t & res & E & Hok & Herr).
    exists res, t, f. split.
    + erewrite bind_run; [|erewrite bind_run by exact Ea; unfold lift; rewrite E; reflexivity]. done.
    + destruct (decide (res = 0)) as [->|Hn]; [left; destruct (Hok eq_refl) as (q & [= <-] & _ & Ht); done|right].
      destruct (Herr Hn) as [Ht [[-> _]|[-> _]]]; done.
Qed.

Lemma set_allowedip_run p a w m :
  represents (w_peer_allowedips w) m → wf_entry (inr a) →
  ∃ ret t f, set_allowedip p a w = Some (ret, rerouted w t f) ∧
    ((ret = 0 ∧ represents t (configure_prefix p m (inr a))) ∨ (ret < 0 ∧ represents t m)).
Proof using.
  intros Hm [Hip Hc]. assert (∃ ret t f, (mret (- EINVAL) : M Z) w = Some (ret, rerouted w t f) ∧
    ((ret = 0 ∧ represents t (configure_prefix p m (inr a))) ∨ (ret < 0 ∧ represents t m))) as Hinval.
  { exists (- EINVAL), (w_peer_allowedips w), (w_alloc_fails w). split; [|by right]. unfold rerouted. by destruct w. }
  unfold set_allowedip, configure_prefix, named_prefix in *.
  destruct (WGALLOWEDIP_A_FAMILY a) as [family|]; [|exact Hinval].
  destruct (WGALLOWEDIP_A_IPADDR a) as [ip|]; [|exact Hinval].
  destruct (WGALLOWEDIP_A_CIDR_MASK a) as [c|]; [|exact Hinval].
  specialize (Hip _ eq_refl). specialize (Hc _ eq_refl). cbn [mbind option_bind] in *.
  destruct ((family =? NUM_AF_INET) && (c <=? 32) && (length ip =? 4)%nat) eqn:E4.
  { rewrite !andb_true_iff, Z.leb_le, Nat.eqb_eq in E4. destruct E4 as [[_ H4] Hl].
    apply (insert_or_remove_run false); [done|split; [exact Hl|exact Hip]|cbn; lia]. }
  destruct ((family =? NUM_AF_INET6) && (c <=? 128) && (length ip =? 16)%nat) eqn:E6; [|exact Hinval].
  rewrite !andb_true_iff, Z.leb_le, Nat.eqb_eq in E6. destruct E6 as [[_ H6] Hl].
  apply (insert_or_remove_run true); [done|split; [exact Hl|exact Hip]|cbn; lia].
Qed.

(** The entries are taken in order, up to the first that is refused. *)
Definition taken (p : nat) (l : list (Z + allowedip_attrs)) (m : ptable) (ret : Z) (t : allowedips) : Prop :=
  ∃ l1 l2, l = l1 ++ l2 ∧ represents t (foldl (configure_prefix p) m l1) ∧ (ret = 0 ∧ l2 = [] ∨ ret < 0 ∧ l2 ≠ []).

Lemma set_allowedips_run p l w m :
  represents (w_peer_allowedips w) m → Forall wf_entry l →
  ∃ ret t f, set_allowedips p l 0 w = Some (ret, rerouted w t f) ∧ taken p l m ret t.
Proof using.
  intros Hm Hl. revert w m Hm. induction Hl as [|e l He Hl IH]; intros w m Hm; cbn [set_allowedips].
  { exists 0, (w_peer_allowedips w), (w_alloc_fails w). split; [unfold rerouted; by destruct w|]. exists [], []. auto. }
  destruct e as [err|a].
  { exists err, (w_peer_allowedips w), (w_alloc_fails w). split; [unfold rerouted; by destruct w|]. exists [], (inl err :: l). auto. }
  destruct (set_allowedip_run p a w m Hm He) as (ret & t & f & E & Hcase). erewrite bind_run by exact E.
  destruct Hcase as [[-> Ht]|[Hret Ht]].
  - cbn [Z.ltb Z.compare]. destruct (IH (rerouted w t f) _ Ht) as (ret & t' & f' & E' & l1 & l2 & -> & Hr & Hc).
    exists ret, t', f'. split; [exact E'|]. by exists (inr a :: l1), l2.
  - destruct (Z.ltb_spec ret 0); [|lia]. exists ret, t, f. split; [done|]. exists [], (inr a :: l). auto.
Qed.
End Prefixes.

Section Peer.
Context `{Crypto} `{SipHash} `{HSipHash} `{Ticks} `{Routing} `{NetCore} `{Uapi}.

(** The map a message leaves: the peer's old prefixes are dropped first if it says so. *)
Definition kept (p : nat) (flags : Z) (m : ptable) : ptable :=
  if has_flag flags WGPEER_F_REPLACE_ALLOWEDIPS then drop_peer p m else m.

Lemma set_endpoint_guar p o : guaranteed unrouted (set_endpoint p o).
Proof using. unfold set_endpoint. guar. Qed.

Lemma set_keepalive_guar p o : guaranteed unrouted (set_keepalive p o).
Proof using. unfold set_keepalive. guar. Qed.

Lemma replace_run p flags w m :
  represents (w_peer_allowedips w) m →
  ∃ t, when (has_flag flags WGPEER_F_REPLACE_ALLOWEDIPS) (replace_allowedips p) w = Some (tt, w <| w_peer_allowedips := t |>) ∧
    represents t (kept p flags m).
Proof using.
  intros Hm. unfold kept, when, replace_allowedips. destruct (has_flag _ _); [|exists (w_peer_allowedips w); split; [by destruct w|done]].
  destruct (remove_by_peer_represents _ _ p Hm) as (t & E & Ht & _). exists t. split; [|done]. erewrite bind_run by done.
  erewrite bind_run by (unfold lift; rewrite E; reflexivity). done.
Qed.

(** Setting the preshared key and the endpoint, at the front of [update_peer]. *)
Definition set_identity (p : nat) (psk : option bytes) (e : option bytes) : M unit :=
  match psk with Some psk => set_handshake p (fun h => h <| hs_preshared_key := psk |>) | None => mret tt end;; set_endpoint p e.

Lemma set_identity_guar p psk e : guaranteed unrouted (set_identity p psk e).
Proof using. unfold set_identity, set_handshake. guar; apply set_endpoint_guar. Qed.

Lemma set_identity_run p psk e w x :
  w_peers w !! p = Some x → ∃ w' x', set_identity p psk e w = Some (tt, w') ∧ w_peers w' !! p = Some x' ∧ w_running w' = w_running w.
Proof using.
  intros Hx. unfold set_identity.
  assert (∃ w1 x1, match psk with Some psk => set_handshake p (fun h => h <| hs_preshared_key := psk |>) | None => mret tt end w = Some (tt, w1) ∧
    w_peers w1 !! p = Some x1 ∧ w_running w1 = w_running w) as (w1 & x1 & E1 & Hx1 & Hr1).
  { destruct psk; [|by exists w, x]. eexists _, _. split; [apply set_peer_run; exact Hx|]. split; [apply lookup_insert_eq|done]. }
  erewrite bind_run by exact E1. unfold set_endpoint. destruct (e ≫= sockaddr_of) as [addr|]; [|by exists w1, x1].
  unfold wg_socket_set_peer_endpoint. erewrite bind_run by (apply get_peer_run; exact Hx1).
  destruct (endpoint_eq _ _); [by exists w1, x1|]. destruct addr; cbn [ep_addr]; [by exists w1, x1| |];
    (eexists _, _; split; [apply set_peer_run; exact Hx1|split; [apply lookup_insert_eq|exact Hr1]]).
Qed.

Lemma update_peer_split p a psk flags w r :
  update_peer p a psk flags w = r ↔
  (set_identity p psk (WGPEER_A_ENDPOINT a);;
   when (has_flag flags WGPEER_F_REPLACE_ALLOWEDIPS) (replace_allowedips p);;
   ret ← set_allowedips p (default [] (WGPEER_A_ALLOWEDIPS a)) 0;
   if ret <? 0 then mret ret
   else
     set_keepalive p (WGPEER_A_PERSISTENT_KEEPALIVE_INTERVAL a);;
     running ← gets w_running;
     when running (wg_packet_send_staged_packets p);;
     mret ret) w = r.
Proof using.
  unfold update_peer, set_identity. destruct psk as [k|]; [|done]. unfold mbind, M_bind. by destruct (set_handshake p _ w) as [[u w1]|].
Qed.

End Peer.

(** Peer 1 of [demo_out] is given 10.1.0.0/16 in place of what it had; a second prefix is too long. *)
#[export] Instance linux_uapi : Uapi := {|
  WGDEVICE_F_REPLACE_PEERS := 1;
  WGPEER_F_REMOVE_ME := 1;
  WGPEER_F_REPLACE_ALLOWEDIPS := 2;
  WGPEER_F_UPDATE_ONLY := 4;
  WGALLOWEDIP_F_REMOVE_ME := 1;
  NUM_AF_INET := 2;
  NUM_AF_INET6 := 10;
|}.
Definition demo_prefix (c : Z) : Z + allowedip_attrs := inr (mk_allowedip_attrs (Some 2) (Some [10; 1; 0; 0]) (Some c) None).
Definition demo_update : peer_attrs := mk_peer_attrs None None (Some 2) None None (Some [demo_prefix 16; demo_prefix 33]) None.
Definition demo_down : world := demo_out <| w_running := false |>.

